(** * Rag-chat-Demo: the reinforcement-learning controller of [app.py]

    A shallow embedding of the parts of [src/app.py] that decide how a question
    is answered: the [RLAgent] class (state key, epsilon-greedy choice, value
    update, persistence), the keyword-overlap score and the reward, the
    question classifier and the orchestration in [user_input]; then the rest
    of the file as far as it has a behaviour of its own: the image requests
    and the direct answer, the analysis tab, the reading of the uploaded files
    and the script [main].

    Conventions of the embedding.
    - Python numbers are values of a type [num] that carries the operations of
      the class [Number].  Two instances are given: [float] (IEEE 754 binary64,
      the kernel's primitive floats: what CPython computes) and [Q] (exact
      rationals: the arithmetic the formulas are read in when rounding,
      infinities and NaN are left aside).  Every function below is written once,
      for any instance.
    - A Python [dict] that is only looked up and assigned by key (the value
      table) is a [gmap]; a dict that is also enumerated (a row of the table,
      whose order decides ties in [max]) is an insertion-ordered association
      list.
    - A Python [str] is a [string] of the code points 0 to 255 (Latin-1), one
      character for each: lengths and slices count code points, and [lower]
      and [split] are Python's on these.
    - A call that can raise returns a [result]; a method that mutates its
      object before it raises returns the object's new state next to the
      result.
    - What is proved of the values the program computes (ranges, exact
      results, distances) is proved in binary64, through the rational each
      float stands for; [Q] gives the exact value a binary64 one is compared
      with, and the reading of a formula as algebra. *)

From Stdlib Require Import ZArith QArith Qminmax Qpower Qabs Floats String Ascii DecimalString.
From Stdlib Require Import List Bool Lia Lqa.
From stdpp Require Import gmap strings list fin_maps.

Open Scope string_scope.

(** ** Exceptions *)

Inductive exn : Type :=
  | KeyError (key : string)
  | ValueError
  | IndexError
  | ZeroDivisionError
  | TypeError
  | AttributeError
  | JSONDecodeError
  | OSError
  | ServiceError (msg : string).

Inductive result (A : Type) : Type :=
  | Ok (a : A)
  | Raise (e : exn).
Arguments Ok {A} a.
Arguments Raise {A} e.

(** ** Numbers *)

Class Number (num : Type) : Type := {
  of_Z : Z -> num;
  nadd : num -> num -> num;
  nsub : num -> num -> num;
  nmul : num -> num -> num;
  ndiv : num -> num -> num;
  nltb : num -> num -> bool;
  format_2f : num -> string
}.

Declare Scope num_scope.
Delimit Scope num_scope with num.
Infix "+" := nadd : num_scope.
Infix "-" := nsub : num_scope.
Infix "*" := nmul : num_scope.
Infix "<?" := nltb : num_scope.

(** [str(k)] of a non-negative integer. *)
Definition digits (k : Z) : string := NilZero.string_of_uint (N.to_uint (Z.to_N k)).

(** The rounding of [format(x, '.2f')]: the hundredths nearest to [n / d], a
    tie going to the even one. *)
Definition round_hundredths (n : Z) (d : positive) : Z :=
  let k := (n * 100 / Z.pos d)%Z in
  let r := (n * 100 mod Z.pos d)%Z in
  match (2 * r ?= Z.pos d)%Z with
  | Lt => k
  | Gt => (k + 1)%Z
  | Eq => if Z.even k then k else (k + 1)%Z
  end.

(** [f'{x:.2f}'] of the number of sign [neg] and magnitude [n / d]. *)
Definition fixed_2f (neg : bool) (n : Z) (d : positive) : string :=
  let h := round_hundredths n d in
  let frac := (h mod 100)%Z in
  (if neg then "-" else "") ++ digits (h / 100) ++ "."
    ++ (if (frac <? 10)%Z then "0" else "") ++ digits frac.

Definition Q_format_2f (x : Q) : string :=
  fixed_2f (Qnum x <? 0)%Z (Z.abs (Qnum x)) (Qden x).

Definition float_of_Z (z : Z) : float :=
  SF2Prim (binary_normalize prec emax z 0 false).

Definition float_format_2f (x : float) : string :=
  match Prim2SF x with
  | S754_nan => "nan"
  | S754_infinity neg => if neg then "-inf" else "inf"
  | S754_zero neg => fixed_2f neg 0 1
  | S754_finite neg m e =>
      match e with
      | Z.neg p => fixed_2f neg (Z.pos m) (2 ^ p)%positive
      | _ => fixed_2f neg (Z.pos m * 2 ^ e) 1
      end
  end.

#[export] Instance Q_Number : Number Q := {
  of_Z z := inject_Z z;
  nadd := Qplus;
  nsub := Qminus;
  nmul := Qmult;
  ndiv := Qdiv;
  nltb x y := negb (Qle_bool y x);
  format_2f := Q_format_2f
}.

#[export] Instance float_Number : Number float := {
  of_Z := float_of_Z;
  nadd := PrimFloat.add;
  nsub := PrimFloat.sub;
  nmul := PrimFloat.mul;
  ndiv := PrimFloat.div;
  nltb := PrimFloat.ltb;
  format_2f := float_format_2f
}.

Section Numeric.
Context {num : Type} `{Number num}.

(** An [int] that counts, as a number. *)
Definition of_nat (n : nat) : num := of_Z (Z.of_nat n).

(** [x / n] for an [int] [n] that counts (a [len]): true division, raising on
    the divisor 0. *)
Definition py_div (x : num) (n : nat) : result num :=
  match n with
  | O => Raise ZeroDivisionError
  | S _ => Ok (ndiv x (of_nat n))
  end.

(** A literal [p.q] read as the quotient of two integers, which for binary64
    is the double nearest to the decimal. *)
Definition ratio (n d : Z) : num := ndiv (of_Z n) (of_Z d).

(** [min(x, y)] of two arguments: the first unless the second is smaller. *)
Definition py_min (x y : num) : num := if (y <? x)%num then y else x.

End Numeric.

(** Numbers whose [<] is a strict weak order on the values that compare at
    all: every rational, and every float but NaN. *)
Class Ordered (num : Type) `{Number num} : Type := {
  comparable : num -> Prop;
  nlt_asym : forall x y, (x <? y)%num = true -> (y <? x)%num = false;
  nlt_cotrans : forall x y z,
    comparable y -> (x <? z)%num = true -> (x <? y)%num = true \/ (y <? z)%num = true
}.

(** The order of [SFcompare] on the floats that are not NaN, as the
    lexicographic order of a key. *)
Definition sf_key (x : spec_float) : Z * Z * Z :=
  match x with
  | S754_nan => (0, 0, 0)%Z
  | S754_infinity true => (-2, 0, 0)%Z
  | S754_infinity false => (2, 0, 0)%Z
  | S754_zero _ => (0, 0, 0)%Z
  | S754_finite true m e => (-1, - e, - Z.pos m)%Z
  | S754_finite false m e => (1, e, Z.pos m)%Z
  end.

Definition key_lt (a b : Z * Z * Z) : Prop :=
  let '(a1, a2, a3) := a in
  let '(b1, b2, b3) := b in
  (a1 < b1 \/ (a1 = b1 /\ (a2 < b2 \/ (a2 = b2 /\ a3 < b3))))%Z.

Definition sf_not_nan (x : spec_float) : Prop :=
  match x with S754_nan => False | _ => True end.

Definition not_nan (x : float) : Prop := sf_not_nan (Prim2SF x).

(** A float that is neither an infinity nor NaN. *)
Definition finite (x : float) : Prop :=
  match Prim2SF x with
  | S754_nan | S754_infinity _ => False
  | _ => True
  end.

(** ** Binary64 as rationals *)

(** [2 ^ e], for any integer [e]. *)
Definition pow2 (e : Z) : Q := (2 ^ e)%Q.

(** The rational a float stands for; the infinities and NaN stand for 0. *)
Definition SF2Q (x : spec_float) : Q :=
  match x with
  | S754_finite s m e => ((if s then -1 else 1) * inject_Z (Z.pos m) * pow2 e)%Q
  | _ => 0%Q
  end.

(** A float that is neither an infinity nor NaN. *)
Definition sf_finite (x : spec_float) : Prop :=
  match x with
  | S754_nan | S754_infinity _ => False
  | _ => True
  end.

(** The rational a binary64 number stands for. *)
Definition FQ (x : float) : Q := SF2Q (Prim2SF x).

(** [z] is what rounding to nearest makes of [v]: a multiple [m * 2 ^ e] of
    the unit [2 ^ e] of binary64 at the magnitude of [v], at most half a unit
    away from [v]. *)
Definition rounded (v z : Q) : Prop :=
  exists e m : Z,
    (z == inject_Z m * pow2 e)%Q
    /\ (-1074 <= e)%Z
    /\ ((2 * inject_Z m - 1) * pow2 e <= 2 * v)%Q
    /\ (2 * v <= (2 * inject_Z m + 1) * pow2 e)%Q
    /\ (- pow2 (e + 53) < v)%Q /\ (v < pow2 (e + 53))%Q
    /\ (e = (-1074)%Z \/ (pow2 (e + 52) <= v)%Q \/ (v <= - pow2 (e + 52))%Q).

(** Where the exact value [x] lies between [m] and [m + 1], as the round bit
    [r] and the sticky bit [s] of a shift record tell. *)
Definition located (x : Q) (m : Z) (r s : bool) : Prop :=
  match r, s with
  | false, false => (x == inject_Z m)%Q
  | false, true => (inject_Z m < x)%Q /\ (2 * x < 2 * inject_Z m + 1)%Q
  | true, false => (2 * x == 2 * inject_Z m + 1)%Q
  | true, true => (2 * inject_Z m + 1 < 2 * x)%Q /\ (x < inject_Z m + 1)%Q
  end.

Definition located_record (x : Q) (mrs : shr_record) : Prop :=
  located x (shr_m mrs) (shr_r mrs) (shr_s mrs).

(** The magnitude [z] of a float of sign [sx] that is a zero or finite. *)
Definition sf_mag_is (r : spec_float) (sx : bool) (z : Q) : Prop :=
  (r = S754_zero sx /\ (z == 0)%Q)
  \/ (exists m e, r = S754_finite sx m e /\ (z == inject_Z (Z.pos m) * pow2 e)%Q).

(** The last step of [binary_round_aux]. *)
Definition binary_round_aux_result (sx : bool) (m e : Z) : spec_float :=
  match m with
  | Z0 => S754_zero sx
  | Z.pos p => if (e <=? emax - prec)%Z then S754_finite sx p e else S754_infinity sx
  | Z.neg _ => S754_nan
  end.

(** [0 <= x <= 1], as Python evaluates it on floats: neither bound holds of
    NaN. *)
Definition in_unit (x : float) : Prop :=
  (0 <=? x)%float = true /\ (x <=? 1)%float = true.

(** A count that binary64 holds exactly: [int / int] and [float / int] then
    divide the floats of the integers, as the model does. *)
Definition small (n : nat) : Prop := (Z.of_nat n < 2 ^ 53)%Z.

(** ** Strings

    A [str] is a [string] whose characters are the code points 0 to 255 of
    Unicode (Latin-1), one character for each code point: [len], the slices
    and [in] count code points.  [lower] and the whitespace test are Python's
    on these code points; text with a code point above 255 is outside the
    embedding. *)

(** [c.lower()]: the letters [A] to [Z] and the capital letters 192 to 222
    (all but the multiplication sign, 215) have their small letter 32 places
    further; every other code point below 256 is its own lower case. *)
Definition lower_char (c : ascii) : ascii :=
  let n := nat_of_ascii c in
  if ((65 <=? n)%nat && (n <=? 90)%nat)
     || ((192 <=? n)%nat && (n <=? 222)%nat && negb (n =? 215)%nat)
  then ascii_of_nat (n + 32) else c.

(** [s.lower()] *)
Fixpoint lower (s : string) : string :=
  match s with
  | "" => ""
  | String c s' => String (lower_char c) (lower s')
  end.

(** [c.isspace()]: tab, line feed, vertical tab, form feed, carriage return,
    the four separators 28 to 31, the space, the next line (133) and the
    no-break space (160). *)
Definition is_space (c : ascii) : bool :=
  let n := nat_of_ascii c in
  ((9 <=? n)%nat && (n <=? 13)%nat) || ((28 <=? n)%nat && (n <=? 32)%nat)
  || (n =? 133)%nat || (n =? 160)%nat.

(** The scan of [s.split()]: [word] is the word being read, if any. *)
Fixpoint split_scan (word : option string) (s : string) : list string :=
  match s with
  | "" => match word with Some w => [w] | None => [] end
  | String c s' =>
      if is_space c then
        match word with
        | Some w => w :: split_scan None s'
        | None => split_scan None s'
        end
      else
        split_scan (Some (match word with
                          | Some w => w ++ String c ""
                          | None => String c ""
                          end)) s'
  end.

(** [s.split()] *)
Definition split (s : string) : list string := split_scan None s.

(** [s.isspace()] or [s == ""]: nothing but whitespace. *)
Fixpoint blank (s : string) : bool :=
  match s with
  | "" => true
  | String c s' => is_space c && blank s'
  end.

(** [needle in hay] *)
Fixpoint contains (needle hay : string) : bool :=
  if String.prefix needle hay then true
  else match hay with
       | "" => false
       | String _ hay' => contains needle hay'
       end.

(** The scan of [s.replace(old, new)] for a non-empty [old]: [skip] characters
    of a match just replaced are still to be passed over. *)
Fixpoint replace_scan (old new : string) (skip : nat) (s : string) : string :=
  match s with
  | "" => ""
  | String c s' =>
      match skip with
      | S k => replace_scan old new k s'
      | O =>
          if String.prefix old s
          then new ++ replace_scan old new (String.length old - 1) s'
          else String c (replace_scan old new 0 s')
      end
  end.

(** [s.replace(old, new)], [old] not empty (the source only replaces ['.pdf']). *)
Definition replace (old new s : string) : string := replace_scan old new 0 s.

(** [sep.join(parts)] *)
Definition join (sep : string) (parts : list string) : string := String.concat sep parts.

(** [s[:n]] *)
Definition str_prefix (n : nat) (s : string) : string := String.substring 0 n s.

(** [any(p(x) for x in l)], as the [for ... if ...: return] loops of the source. *)
Definition any {A} (p : A -> bool) (l : list A) : bool := existsb p l.

(** ** The value table *)

(** A row of the table: a dict from action to value, in insertion order. *)
Abbreviation row num := (list (string * num)%type) (only parsing).

Section Agent.
Context {num : Type} `{Number num}.

(** [r[a]], [None] standing for the [KeyError]. *)
Fixpoint row_get (a : string) (r : row num) : option num :=
  match r with
  | [] => None
  | (k, v) :: r' => if String.eqb k a then Some v else row_get a r'
  end.

(** [r[a] = v]: in place when [a] is a key, at the end otherwise. *)
Fixpoint row_set (a : string) (v : num) (r : row num) : row num :=
  match r with
  | [] => [(a, v)]
  | (k, w) :: r' => if String.eqb k a then (k, v) :: r' else (k, w) :: row_set a v r'
  end.

(** [{a: 0.0 for a in actions}] *)
Definition zero_row (actions : list string) : row num :=
  fold_left (fun r a => row_set a (of_Z 0) r) actions [].

(** The loop of [max(items, key=lambda x: x[1])]: the best item so far is
    replaced only by a strictly greater one. *)
Fixpoint max_item_from (best : string * num) (r : row num) : string * num :=
  match r with
  | [] => best
  | x :: r' => max_item_from (if (snd best <? snd x)%num then x else best) r'
  end.

(** [max(r.items(), key=lambda x: x[1])], [None] standing for the [ValueError]
    of an empty sequence. *)
Definition max_item (r : row num) : option (string * num) :=
  match r with
  | [] => None
  | x :: r' => Some (max_item_from x r')
  end.

Fixpoint max_from (best : num) (l : list num) : num :=
  match l with
  | [] => best
  | x :: l' => max_from (if (best <? x)%num then x else best) l'
  end.

(** [max(values)] *)
Definition py_max (l : list num) : option num :=
  match l with
  | [] => None
  | x :: l' => Some (max_from x l')
  end.

Record RLAgent : Type := {
  learning_rate : num;
  discount_factor : num;
  exploration_rate : num;
  q_table : gmap string (row num);
  state_history : list string
}.

Definition set_q_table (t : gmap string (row num)) (ag : RLAgent) : RLAgent :=
  {| learning_rate := learning_rate ag;
     discount_factor := discount_factor ag;
     exploration_rate := exploration_rate ag;
     q_table := t;
     state_history := state_history ag |}.

(** [RLAgent(learning_rate=0.1, discount_factor=0.9, exploration_rate=0.2)] *)
Definition new_agent (lr df er : num) : RLAgent :=
  {| learning_rate := lr; discount_factor := df; exploration_rate := er;
     q_table := ∅; state_history := [] |}.

Definition default_agent : RLAgent := new_agent (ratio 1 10) (ratio 9 10) (ratio 2 10).

Definition chunking_actions : list string := ["chunk_small"; "chunk_medium"; "chunk_large"].
Definition retrieval_actions : list string := ["similarity_standard"; "similarity_mmr"].
Definition canonical_actions : list string := chunking_actions ++ retrieval_actions.

(** [get_state_key]: the first five components, each as [f'{e:.2f}'], joined by
    ['-'], then ['-'], then the first three document ids joined by ['-']. *)
Definition get_state_key (question_embedding : list num) (document_ids : list string) : string :=
  join "-" (map format_2f (take 5 question_embedding))
    ++ "-" ++ join "-" (take 3 document_ids).

(** The table after [if state not in self.q_table: self.q_table[state] = {...}]. *)
Definition ensure_row (state : string) (actions : list string) (t : gmap string (row num))
  : gmap string (row num) :=
  match t !! state with
  | Some _ => t
  | None => <[state := zero_row actions]> t
  end.

(** [choose_action].  [draw] is the value of [random.random()] and [pick] the
    index drawn by [random.choice] (taken modulo the length of the list). *)
Definition choose_action (ag : RLAgent) (state_key : string) (available_actions : list string)
    (draw : num) (pick : nat) : RLAgent * result string :=
  if (draw <? exploration_rate ag)%num then
    match available_actions !! (pick mod length available_actions)%nat with
    | Some a => (ag, Ok a)
    | None => (ag, Raise IndexError)
    end
  else
    let t := ensure_row state_key available_actions (q_table ag) in
    match max_item (default [] (t !! state_key)) with
    | Some (a, _) => (set_q_table t ag, Ok a)
    | None => (set_q_table t ag, Raise ValueError)
    end.

(** The [max_next_q] of [update_q_value]: [next_state] is tested for truth
    (neither [None] nor the empty string) and then for membership. *)
Definition max_next_q (t : gmap string (row num)) (next_state : option string) : result num :=
  match next_state with
  | None => Ok (of_Z 0)
  | Some ns =>
      if String.eqb ns "" then Ok (of_Z 0)
      else match t !! ns with
           | None => Ok (of_Z 0)
           | Some r =>
               match py_max (map snd r) with
               | Some m => Ok m
               | None => Raise ValueError
               end
           end
  end.

(** The right-hand side of the Q-learning assignment. *)
Definition q_update (ag : RLAgent) (old reward next_q : num) : num :=
  (old + learning_rate ag * (reward + discount_factor ag * next_q - old))%num.

(** [update_q_value] *)
Definition update_q_value (ag : RLAgent) (state action : string) (reward : num)
    (next_state : option string) : RLAgent * result unit :=
  let t := ensure_row state canonical_actions (q_table ag) in
  match max_next_q t next_state with
  | Raise e => (set_q_table t ag, Raise e)
  | Ok next_q =>
      let r := default [] (t !! state) in
      match row_get action r with
      | None => (set_q_table t ag, Raise (KeyError action))
      | Some old =>
          (set_q_table (<[state := row_set action (q_update ag old reward next_q) r]> t) ag,
           Ok tt)
      end
  end.

(** The rows of a table are dicts: no key twice. *)
Definition rows_are_dicts (t : gmap string (row num)) : Prop :=
  forall k r, t !! k = Some r -> NoDup r.*1.

(** [Q[s][a]], when the table has it. *)
Definition q_value (t : gmap string (row num)) (s a : string) : option num :=
  t !! s ≫= row_get a.

End Agent.

Arguments RLAgent num : clear implicits.

(** ** Persistence

    [save_model] and [load_model] hand the table to [json.dump] and take what
    [json.load] returns.  A file is modelled by the JSON document it holds (or
    by [Unparsable] when its text is no JSON); the text of a number is left to
    the [json] module, whose [repr] of a float reads back as the same float. *)

Section Persistence.
Context {num : Type} `{Number num}.

#[warnings="-register-all"]
Inductive json : Type :=
  | JNull
  | JBool (b : bool)
  | JNumber (x : num)
  | JString (s : string)
  | JArray (items : list json)
  | JObject (members : list (string * json)).

Inductive file_content : Type :=
  | Unparsable
  | Document (j : json).

(** What [json.dump] writes for a row and for the table. *)
Definition row_to_json (r : row num) : json :=
  JObject (map (fun kv => (fst kv, JNumber (snd kv))) r).

Definition table_to_json (t : gmap string (row num)) : json :=
  JObject (map (fun kr => (fst kr, row_to_json (snd kr))) (map_to_list t)).

(** What [json.load] builds from an object: the members are assigned one after
    the other, so a repeated key keeps its first place and its last value. *)
Fixpoint row_of_members (ms : list (string * json)) (acc : row num) : option (row num) :=
  match ms with
  | [] => Some acc
  | (k, JNumber x) :: ms' => row_of_members ms' (row_set k x acc)
  | _ => None
  end.

Definition row_of_json (j : json) : option (row num) :=
  match j with
  | JObject ms => row_of_members ms []
  | _ => None
  end.

Fixpoint table_of_members (ms : list (string * json)) (acc : gmap string (row num))
  : option (gmap string (row num)) :=
  match ms with
  | [] => Some acc
  | (k, j) :: ms' =>
      match row_of_json j with
      | Some r => table_of_members ms' (<[k := r]> acc)
      | None => None
      end
  end.

(** The table a document stands for, when it is an object of objects of
    numbers. *)
Definition table_of_json (j : json) : option (gmap string (row num)) :=
  match j with
  | JObject ms => table_of_members ms ∅
  | _ => None
  end.

Definition default_path : string := "rl_model.json".

(** [save_model]: [writable] tells whether [open(filepath, 'w')] succeeds. *)
Definition save_model (ag : RLAgent num) (filepath : string) (writable : bool)
    (files : gmap string file_content) : gmap string file_content * result unit :=
  if writable
  then (<[filepath := Document (table_to_json (q_table ag))]> files, Ok tt)
  else (files, Raise OSError).

(** [load_model].  A file that is JSON of another shape than a table is bound
    to [q_table] by the source as it is and fails at its first use; the model,
    whose tables are typed, raises [TypeError] at once and keeps the table. *)
Definition load_model (ag : RLAgent num) (filepath : string)
    (files : gmap string file_content) : RLAgent num * result unit :=
  match files !! filepath with
  | None => (ag, Ok tt)
  | Some Unparsable => (ag, Raise JSONDecodeError)
  | Some (Document j) =>
      match table_of_json j with
      | Some t => (set_q_table t ag, Ok tt)
      | None => (ag, Raise TypeError)
      end
  end.

End Persistence.

Arguments json num : clear implicits.
Arguments file_content num : clear implicits.

(** ** Scoring *)

Section Scoring.
Context {num : Type} `{Number num}.

(** [sum(1 for keyword in keywords if keyword in content.lower())] *)
Definition count_matches (keywords : list string) (content : string) : nat :=
  length (List.filter (fun keyword => contains keyword (lower content)) keywords).

(** One turn of the loop of [get_document_similarity]: what is added to
    [total_score] for a passage. *)
Definition passage_score (question content : string) : result num :=
  let keywords := split (lower question) in
  match keywords with
  | [] => Ok (of_Z 0)
  | _ => py_div (of_nat (count_matches keywords content)) (length keywords)
  end.

Fixpoint total_score (question : string) (total : num) (docs : list string) : result num :=
  match docs with
  | [] => Ok total
  | content :: docs' =>
      match passage_score question content with
      | Ok s => total_score question (total + s)%num docs'
      | Raise e => Raise e
      end
  end.

(** [get_document_similarity]; a passage is given by its [page_content]. *)
Definition get_document_similarity (question : string) (docs : list string) : result num :=
  match total_score question (of_Z 0) docs with
  | Raise e => Raise e
  | Ok total =>
      match docs with
      | [] => Ok (of_Z 0)
      | _ => py_div total (length docs)
      end
  end.

(** [min(len(response_output) / 1000, 1.0)] *)
Definition response_length_score (response_output : string) : num :=
  py_min (ndiv (of_nat (String.length response_output)) (of_Z 1000)) (of_Z 1).

(** [(doc_similarity_score * 0.7) + (response_length_score * 0.3)] *)
Definition reward_of (doc_similarity_score length_score : num) : num :=
  (doc_similarity_score * ratio 7 10 + length_score * ratio 3 10)%num.

End Scoring.

(** ** Classification *)

(** An uploaded file that [PdfReader] has read: its name and the text
    [extract_text] returns for each of its pages. *)
Record pdf_doc : Type := {
  name : string;
  pages : list string
}.

Definition pdf_indicators : list string :=
  ["pdf"; "document"; "file"; "text"; "content"; "read"; "extract";
   "from the document"; "in the pdf"; "mentioned in"].

Definition conversational_starters : list string :=
  ["how are you"; "what is your name"; "tell me about yourself";
   "who are you"; "what can you do"; "hello"; "hi "; "hey"; "thanks";
   "thank you"; "help me"; "can you help"; "I need help";
   "what's the weather"; "who made you"; "how do you work"].

(** [bool(pdf_docs)]: neither [None] nor empty. *)
Definition has_docs (pdf_docs : option (list pdf_doc)) : bool :=
  match pdf_docs with
  | Some (_ :: _) => true
  | _ => false
  end.

Definition mentions_name (question : string) (d : pdf_doc) : bool :=
  contains (replace ".pdf" "" (lower (name d))) (lower question).

Definition mentions (question phrase : string) : bool :=
  contains (lower phrase) (lower question).

(** [is_pdf_related_question]: [true] for a question about the documents. *)
Definition is_pdf_related_question (question : string) (pdf_docs : option (list pdf_doc)) : bool :=
  if negb (has_docs pdf_docs) then false
  else if any (mentions_name question) (default [] pdf_docs) then true
  else if any (mentions question) pdf_indicators then true
  else if any (mentions question) conversational_starters then false
  else if has_docs pdf_docs then true else false.

(** ** Orchestration

    [user_input] runs against a session (the agent object bound to [rl_agent],
    the conversation log, the files on disk and what was written to the page)
    and an environment that answers the external calls: the random source, the
    clock, the embedding service, the vector index and the answer generator.
    An external call either returns or raises.  Rendering is reduced to the
    messages put on the page. *)

Section Orchestration.
Context {num : Type} `{Number num}.

Inductive notice : Type :=
  | PageWarning (msg : string)
  | PageError (msg : string) (cause : exn)
  | SidebarNote (msg : string)
  | SidebarSuccess (msg : string)
  | ChatMessage (question answer footer : string).

(** A conversation record: question, answer, model label, timestamp, document
    names, action, reward. *)
Definition record : Type :=
  (string * string * string * string * string * string * string)%type.

Record session : Type := {
  rl_agent : option (RLAgent num);
  conversation_history : list record;
  files : gmap string (file_content num);
  page : list notice
}.

Inductive search_kind : Type :=
  | SimilaritySearch
  | MaxMarginalRelevance (k fetch_k : N).

Record environment : Type := {
  random_draw : num;
  random_index : nat;
  now : string;
  enhanced_direct_gemini_response : string -> result string;
  embed_query : string -> result (list num);
  split_text : N -> N -> string -> list string;
  get_vector_store : list string -> result unit;
  search : search_kind -> list string -> string -> result (list string);
  chain : list string -> string -> result string;
  storage_writable : bool
}.

(** Computations that read and change the session and may raise; what was
    changed before an exception stays changed. *)
Definition M (A : Type) : Type := session -> session * result A.

#[export] Instance M_ret : MRet M := fun A a s => (s, Ok a).
#[export] Instance M_bind : MBind M := fun A B f m s =>
  match m s with
  | (s', Ok a) => f a s'
  | (s', Raise e) => (s', Raise e)
  end.

(** [try: body except: handler] *)
Definition try_except {A} (body : M A) (handler : exn -> M A) : M A := fun s =>
  match body s with
  | (s', Ok a) => (s', Ok a)
  | (s', Raise e) => handler e s'
  end.

(** An external call. *)
Definition call {A} (r : result A) : M A := fun s => (s, r).

Definition show_all (ns : list notice) : M unit := fun s =>
  ({| rl_agent := rl_agent s; conversation_history := conversation_history s;
      files := files s; page := page s ++ ns |}, Ok tt).

Definition show (n : notice) : M unit := show_all [n].

Definition set_agent (ag : RLAgent num) (s : session) : session :=
  {| rl_agent := Some ag; conversation_history := conversation_history s;
     files := files s; page := page s |}.

(** The object bound to [rl_agent]. *)
Definition current_agent : M (option (RLAgent num)) := fun s => (s, Ok (rl_agent s)).

(** A method called on the object [rl_agent]; [None] has no method. *)
Definition on_agent {A} (method : RLAgent num -> RLAgent num * result A) : M A := fun s =>
  match rl_agent s with
  | None => (s, Raise AttributeError)
  | Some ag => let (ag', r) := method ag in (set_agent ag' s, r)
  end.

(** [rl_agent.load_model()] and [rl_agent.save_model()] on the default path. *)
Definition load : M unit := fun s =>
  on_agent (fun ag => load_model ag default_path (files s)) s.

Definition save (writable : bool) : M unit := fun s =>
  match rl_agent s with
  | None => (s, Raise AttributeError)
  | Some ag =>
      let (fs, r) := save_model ag default_path writable (files s) in
      ({| rl_agent := rl_agent s; conversation_history := conversation_history s;
          files := fs; page := page s |}, r)
  end.

(** [conversation_history.append(...)] *)
Definition append_record (r : record) : M unit := fun s =>
  ({| rl_agent := rl_agent s; conversation_history := conversation_history s ++ [r];
      files := files s; page := page s |}, Ok tt).

(** [if rl_agent is None: rl_agent = RLAgent(); try: load ... except: ...] *)
Definition init_agent : M unit := fun s =>
  match rl_agent s with
  | Some _ => (s, Ok tt)
  | None =>
      try_except
        (load;; show (SidebarSuccess "Loaded existing RL model"))
        (fun _ => show (SidebarNote "Initialized new RL model"))
        (set_agent default_agent s)
  end.

(** [get_pdf_text], on files that [PdfReader] has read. *)
Definition get_pdf_text (pdf_docs : list pdf_doc) : string :=
  String.concat "" (flat_map pages pdf_docs).

(** [[pdf.name[:5] for pdf in pdf_docs]] *)
Definition doc_ids (pdf_docs : list pdf_doc) : list string :=
  map (fun d => str_prefix 5 (name d)) pdf_docs.

Definition pdf_names (pdf_docs : option (list pdf_doc)) : list string :=
  if has_docs pdf_docs then map name (default [] pdf_docs) else [].

(** The chunk size and overlap of the [if / elif / else] on the chosen action. *)
Definition chunk_params (chosen_action : string) : N * N :=
  if String.eqb chosen_action "chunk_small" then (5000, 500)%N
  else if String.eqb chosen_action "chunk_medium" then (10000, 1000)%N
  else (15000, 1500)%N.

Definition chunk_note (chosen_action : string) : string :=
  if String.eqb chosen_action "chunk_small" then "RL Agent chose: Small chunks (5000 chars)"
  else if String.eqb chosen_action "chunk_medium" then "RL Agent chose: Medium chunks (10000 chars)"
  else "RL Agent chose: Large chunks (15000 chars)".

(** The search of the [if chosen_action in retrieval_actions] on the chosen
    action. *)
Definition search_of (chosen_action : string) : search_kind :=
  if any (String.eqb chosen_action) retrieval_actions then
    if String.eqb chosen_action "similarity_standard" then SimilaritySearch
    else MaxMarginalRelevance 4 10
  else SimilaritySearch.

Definition search_note (chosen_action : string) : list notice :=
  if any (String.eqb chosen_action) retrieval_actions then
    if String.eqb chosen_action "similarity_standard"
    then [SidebarNote "RL Agent chose: Standard similarity search"]
    else [SidebarNote "RL Agent chose: MMR similarity search (diversity-focused)"]
  else [].

Variable env : environment.

(** [get_text_chunks]: the splitter is the environment's. *)
Definition get_text_chunks (text : string) (chunk_size chunk_overlap : N) : list string :=
  split_text env chunk_size chunk_overlap text.

(** The [if not is_pdf_question or not pdf_docs] branch. *)
Definition general_path (user_question model_name : string)
    (pdf_docs : option (list pdf_doc)) : M (option (RLAgent num)) :=
  show (SidebarNote "Processing as a general question using direct Gemini response");;
  try_except
    (response_output ← call (enhanced_direct_gemini_response env user_question);
     append_record (user_question, response_output, "Direct " ++ model_name, now env,
                    join ", " (pdf_names pdf_docs), "direct_query", "N/A");;
     show (ChatMessage user_question response_output "Mode: Direct Gemini Query (Enhanced)");;
     current_agent)
    (fun e =>
     show (PageError "Error getting response from Gemini: " e);;
     current_agent).

(** The [else] branch: retrieval under the agent's control.  Of what the
    branch does outside the session, the index [get_vector_store] saves and
    the images shown below the answer are left out. *)
Definition document_path (user_question model_name : string)
    (pdf_docs : option (list pdf_doc)) : M (option (RLAgent num)) :=
  let docs_in := default [] pdf_docs in
  let raw_text := get_pdf_text docs_in in
  question_embedding ← call (embed_query env user_question);
  let state_key := get_state_key question_embedding (doc_ids docs_in) in
  let available_actions := (chunking_actions ++ retrieval_actions)%list in
  chosen_action ← on_agent (fun ag => choose_action ag state_key available_actions
                                        (random_draw env) (random_index env));
  let text_chunks :=
    get_text_chunks raw_text (fst (chunk_params chosen_action))
      (snd (chunk_params chosen_action)) in
  show (SidebarNote (chunk_note chosen_action));;
  call (get_vector_store env text_chunks);;
  docs ← call (search env (search_of chosen_action) text_chunks user_question);
  show_all (search_note chosen_action);;
  response_output ← call (chain env docs user_question);
  doc_similarity_score ← call (get_document_similarity user_question docs);
  let reward := reward_of doc_similarity_score (response_length_score response_output) in
  on_agent (fun ag => update_q_value ag state_key chosen_action reward None);;
  save (storage_writable env);;
  append_record (user_question, response_output, model_name, now env,
                 join ", " (pdf_names pdf_docs), chosen_action, format_2f reward);;
  show (ChatMessage user_question response_output
          ("RL Agent: Strategy = " ++ chosen_action ++ ", Reward = " ++ format_2f reward));;
  current_agent.

(** [user_input]: the value returned is [None] when the key is missing and the
    agent otherwise. *)
Definition user_input (user_question model_name : string) (api_key : option string)
    (pdf_docs : option (list pdf_doc)) : M (option (RLAgent num)) :=
  match api_key with
  | None =>
      show (PageWarning "Please provide API key before processing.");;
      mret None
  | Some _ =>
      let is_pdf_question := is_pdf_related_question user_question pdf_docs in
      init_agent;;
      if negb is_pdf_question || negb (has_docs pdf_docs)
      then general_path user_question model_name pdf_docs
      else document_path user_question model_name pdf_docs
  end.

End Orchestration.

Arguments session num : clear implicits.
Arguments environment num : clear implicits.
Arguments M num : clear implicits.

(** ** The wording of the specification

    Where the specification words a computation otherwise than the source,
    its wording is given a definition of its own, to be compared with the
    source's. *)

Section Wording.
Context {num : Type} `{Number num}.

(** "the maximum value over all actions in [nextState]'s row if [nextState] is
    non-null and already present in the table, else 0" ([None] for the maximum
    of no value). *)
Definition spec_max_next_q (t : gmap string (row num)) (next_state : option string)
  : option num :=
  match next_state with
  | None => Some (of_Z 0)
  | Some ns =>
      match t !! ns with
      | None => Some (of_Z 0)
      | Some r => py_max (map snd r)
      end
  end.

(** "the first five embedding components rounded to two decimals joined with
    a separator, concatenated with the first three document identifiers
    joined with a separator". *)
Definition spec_state_key (question_embedding : list num) (document_ids : list string)
  : string :=
  join "-" (map format_2f (take 5 question_embedding)) ++ join "-" (take 3 document_ids).

End Wording.

(** "a retrieval-strategy action ... fixes the search strategy and the
    chunking used is whatever chunking was last applied": the chunk size and
    overlap of a query, given those of the query before. *)
Definition spec_chunking (last_applied : N * N) (chosen_action : string) : N * N :=
  if any (String.eqb chosen_action) chunking_actions
  then chunk_params chosen_action
  else last_applied.

(** "if no documents are supplied, always general; else general if the
    question matches a curated list of conversational-opener phrases; else
    document-related if it mentions a loaded document's name or a curated list
    of document-indicating keywords; else default to document-related": [true]
    for document-related. *)
Definition spec_is_document_related (question : string) (pdf_docs : option (list pdf_doc))
  : bool :=
  if negb (has_docs pdf_docs) then false
  else if any (mentions question) conversational_starters then false
  else if any (mentions_name question) (default [] pdf_docs)
          || any (mentions question) pdf_indicators then true
  else true.

(** "the fraction of the question's lowercase whitespace-tokenized words that
    literally appear in the passage's lowercase text", in exact arithmetic. *)
Definition word_fraction (question passage : string) : Q :=
  let keywords := split (lower question) in
  (inject_Z (Z.of_nat (count_matches keywords passage))
   / inject_Z (Z.of_nat (length keywords)))%Q.

(** "the mean, over retrieved passages" of that fraction, "0 if no passages". *)
Definition spec_similarity (question : string) (docs : list string) : Q :=
  match docs with
  | [] => 0%Q
  | _ => (fold_right Qplus 0 (map (word_fraction question) docs)
          / inject_Z (Z.of_nat (length docs)))%Q
  end.

(** "[0.7 * similarityScore + 0.3 * lengthScore]" with "[lengthScore] is
    [min(answerLength / 1000, 1.0)]". *)
Definition spec_reward (similarity : Q) (answer : string) : Q :=
  ((7 # 10) * similarity
   + (3 # 10) * Qmin (inject_Z (Z.of_nat (String.length answer)) / 1000) 1)%Q.

(** ** A sample run

    The end-to-end scenario of the specification, in binary64: one document
    that holds ["Quarterly revenue increased by 10%"], the question ["What was
    the revenue change?"], an agent that has seen nothing, and services that
    answer. *)

Definition sample_docs : option (list pdf_doc) :=
  Some [{| name := "report.pdf"; pages := ["Quarterly revenue increased by 10%"] |}].

Definition sample_question : string := "What was the revenue change?".

Definition sample_env (writable : bool) : environment float := {|
  random_draw := 0.5%float;
  random_index := 0;
  now := "2024-01-01 00:00:00";
  enhanced_direct_gemini_response := fun _ => Ok "Hello! How can I help you today?";
  embed_query := fun _ => Ok [0.125%float; 0.25%float; 0.5%float; 0.75%float; 1%float; 2%float];
  split_text := fun _ _ text => [text];
  get_vector_store := fun _ => Ok tt;
  search := fun _ chunks _ => Ok chunks;
  chain := fun _ _ => Ok "Quarterly revenue increased by 10%.";
  storage_writable := writable
|}.

Definition sample_session : session float := {|
  rl_agent := Some default_agent;
  conversation_history := [];
  files := ∅;
  page := []
|}.

(** The same services, with a search that returns the four nearest passages
    (the [k] of both searches). *)
Definition nearest_env (writable : bool) : environment float := {|
  random_draw := random_draw (sample_env writable);
  random_index := random_index (sample_env writable);
  now := now (sample_env writable);
  enhanced_direct_gemini_response := enhanced_direct_gemini_response (sample_env writable);
  embed_query := embed_query (sample_env writable);
  split_text := split_text (sample_env writable);
  get_vector_store := get_vector_store (sample_env writable);
  search := fun _ chunks _ => Ok (take 4 chunks);
  chain := chain (sample_env writable);
  storage_writable := writable
|}.

(** ** Strings, continued *)

(** [s[n:]] *)
Fixpoint str_suffix (n : nat) (s : string) : string :=
  match n, s with
  | O, _ => s
  | S n', String _ s' => str_suffix n' s'
  | S _, "" => ""
  end.

(** The first occurrence of a non-empty [sep] in [s]: what stands before it
    and what stands after it. *)
Fixpoint cut (sep s : string) : option (string * string) :=
  if String.prefix sep s then Some ("", str_suffix (String.length sep) s)
  else match s with
       | "" => None
       | String c s' =>
           match cut sep s' with
           | Some (before, after) => Some (String c before, after)
           | None => None
           end
       end.

(** [s.split(sep, 1)], [sep] not empty. *)
Definition split_once (sep s : string) : list string :=
  match cut sep s with
  | Some (before, after) => [before; after]
  | None => [s]
  end.

(** [s.lstrip()], [s.rstrip()] and [s.strip()] *)
Fixpoint lstrip (s : string) : string :=
  match s with
  | "" => ""
  | String c s' => if is_space c then lstrip s' else s
  end.

Fixpoint rstrip (s : string) : string :=
  match s with
  | "" => ""
  | String c s' =>
      match rstrip s' with
      | "" => if is_space c then "" else String c ""
      | kept => String c kept
      end
  end.

Definition strip (s : string) : string := rstrip (lstrip s).

(** The line feed of a triple-quoted literal. *)
Definition nl : string := String (ascii_of_nat 10) "".

(** ** The direct answer

    [get_image_from_gemini], [process_image_request] and
    [enhanced_direct_gemini_response] call the generative service; the service
    is a function from the request made of it (the key, the model, the
    generation configuration and safety settings if any, and the prompt) to
    the text it answers or the exception it raises.  [st.session_state], which
    [process_image_request] reads, is passed as an argument. *)

Module Gemini.

Section Gemini.
Context {num : Type} `{Number num}.

Record generation_config : Type := {
  temperature : num;
  top_p : num;
  top_k : Z;
  max_output_tokens : Z
}.

(** A call [genai.GenerativeModel(model_name, generation_config=...,
    safety_settings=...).generate_content(contents)] under the key given to
    [genai.configure]. *)
Record request : Type := {
  api_key : string;
  model_name : string;
  config : option generation_config;
  safety_settings : list (string * string);
  contents : string
}.

(** The service: the [text] of the response, or the exception raised. *)
Definition generator : Type := request -> result string.

(** The entries of [st.session_state] that the settings tab saves; [None] for
    a key that is not set. *)
Record settings : Type := {
  gemini_model : option string;
  saved_temperature : option num;
  max_tokens : option Z;
  enable_image_generation : option bool;
  image_size : option string;
  image_style : option string
}.

Definition image_terms : list string :=
  ["create an image"; "generate an image"; "make an image";
   "draw"; "create a picture"; "generate a picture"; "design an image"].

Definition image_prompt_text (prompt style size : string) : string :=
  "Generate a detailed description for an image based on this prompt: " ++ nl
  ++ "    '" ++ prompt ++ "'. The description should be in the " ++ style
  ++ " style and optimized for a " ++ size ++ " resolution." ++ nl
  ++ "    Make the description visual and detailed so it can be understood easily.".

(** [get_image_from_gemini] *)
Definition get_image_from_gemini (generate : generator) (prompt key model size style : string)
  : result string :=
  generate {| api_key := key; model_name := model; config := None; safety_settings := [];
              contents := image_prompt_text prompt style size |}.

(** The loop of [process_image_request] over the terms: the text after the
    first term found, stripped. *)
Fixpoint image_prompt_after (terms : list string) (lowered : string) : string :=
  match terms with
  | [] => ""
  | term :: terms' =>
      if contains term lowered then
        let parts := split_once term lowered in
        if (1 <? length parts)%nat then strip (nth 1 parts "")
        else image_prompt_after terms' lowered
      else image_prompt_after terms' lowered
  end.

(** The prompt handed to [get_image_from_gemini]: the whole question when
    nothing was extracted. *)
Definition image_prompt_of (question : string) : string :=
  let image_prompt := image_prompt_after image_terms (lower question) in
  if String.eqb image_prompt "" then question else image_prompt.

(** [process_image_request] *)
Definition process_image_request (generate : generator) (state : settings)
    (question key : string) : result (bool * option string) :=
  let contains_image_request := any (fun term => contains term (lower question)) image_terms in
  if contains_image_request then
    match get_image_from_gemini generate (image_prompt_of question) key
            (default "gemini-1.5-flash" (gemini_model state))
            (default "512x512" (image_size state))
            (default "natural" (image_style state)) with
    | Ok image_description => Ok (true, Some image_description)
    | Raise e => Raise e
    end
  else Ok (false, None).

Definition image_answer (image_content : string) : string :=
  "I've created an image description based on your request:" ++ nl
  ++ "        " ++ nl
  ++ "        ---" ++ nl
  ++ "        " ++ nl
  ++ "        " ++ image_content ++ nl
  ++ "        " ++ nl
  ++ "        ---" ++ nl
  ++ "        " ++ nl
  ++ "        Note: Since I can't directly generate images, I've provided a detailed "
  ++ "description that could be used with image generation tools.".

Definition harm_categories : list (string * string) :=
  [("HARM_CATEGORY_HARASSMENT", "BLOCK_MEDIUM_AND_ABOVE");
   ("HARM_CATEGORY_HATE_SPEECH", "BLOCK_MEDIUM_AND_ABOVE");
   ("HARM_CATEGORY_SEXUALLY_EXPLICIT", "BLOCK_MEDIUM_AND_ABOVE");
   ("HARM_CATEGORY_DANGEROUS_CONTENT", "BLOCK_MEDIUM_AND_ABOVE")].

(** [enhanced_direct_gemini_response]; the description of an image request is
    a string, [None] being printed as Python prints it. *)
Definition enhanced_direct_gemini_response (generate : generator) (state : settings)
    (question key model : string) (temp : num) (tokens : Z) : result string :=
  match process_image_request generate state question key with
  | Raise e => Raise e
  | Ok (true, image_content) => Ok (image_answer (default "None" image_content))
  | Ok (false, _) =>
      generate {| api_key := key; model_name := model;
                  config := Some {| temperature := temp; top_p := ratio 95 100; top_k := 40;
                                    max_output_tokens := tokens |};
                  safety_settings := harm_categories;
                  contents := question |}
  end.

(** The call of [user_input]: model, temperature and token limit are the
    saved settings, or their defaults. *)
Definition general_answer (generate : generator) (state : settings) (key question : string)
  : result string :=
  enhanced_direct_gemini_response generate state question key
    (default "gemini-1.5-flash" (gemini_model state))
    (default (ratio 3 10) (saved_temperature state))
    (default 4096%Z (max_tokens state)).

End Gemini.

End Gemini.

Arguments Gemini.request num : clear implicits.
Arguments Gemini.generator num : clear implicits.
Arguments Gemini.settings num : clear implicits.

(** ** The analysis tab *)

Section Analysis.
Context {num : Type} `{Number num}.

(** What [show_rl_performance] puts on the page. *)
Inductive view : Type :=
  | Subheader (title : string)
  | Text (body : string)
  | InfoBox (body : string)
  | DataFrame (rows : list (string * string * num))
  | BarChart (rows : list (string * string * num))
  | CountTable (rows : list (string * nat)).

(** The rows of [q_values_data]: state (cut to ten characters), action,
    value. *)
Definition q_values_data (items : list (string * row num)) : list (string * string * num) :=
  flat_map (fun item =>
              map (fun entry => (str_prefix 10 (fst item) ++ "...", fst entry, snd entry))
                  (snd item))
           items.

(** The loop that counts, for each state, its best action. *)
Fixpoint count_best_actions (items : list (string * row num)) (best_actions : list (string * nat))
  : result (list (string * nat)) :=
  match items with
  | [] => Ok best_actions
  | (_, actions) :: items' =>
      match max_item actions with
      | None => Raise ValueError
      | Some (best_action, _) =>
          let best_actions :=
            match row_get best_action best_actions with
            | None => row_set best_action 0%nat best_actions
            | Some _ => best_actions
            end in
          match row_get best_action best_actions with
          | None => Raise (KeyError best_action)
          | Some count =>
              count_best_actions items' (row_set best_action (count + 1)%nat best_actions)
          end
      end
  end.

(** [show_rl_performance], the table being enumerated as [items]. *)
Definition show_table (items : list (string * row num)) : result (list view) :=
  match items with
  | [] => Ok [Subheader "RL Agent Performance";
              InfoBox "No RL data available yet. Interact with the chatbot to generate data."]
  | _ =>
      match q_values_data items with
      | [] => Ok [Subheader "RL Agent Performance"]
      | data =>
          match count_best_actions items [] with
          | Raise e => Raise e
          | Ok best_actions =>
              Ok [Subheader "RL Agent Performance"; Text "Q-Value Table Sample:";
                  DataFrame (take 10 data); BarChart data;
                  Text "Most Commonly Preferred Actions:"; CountTable best_actions]
          end
      end
  end.

(** [show_rl_performance]; an agent that is [None] has no data.  The table is
    enumerated in the order of [map_to_list], where the source enumerates it
    in the order the states were first written. *)
Definition show_rl_performance (rl_agent : option (RLAgent num)) : result (list view) :=
  show_table (match rl_agent with Some ag => map_to_list (q_table ag) | None => [] end).

End Analysis.

Arguments view num : clear implicits.

(** ** Uploaded files *)

(** An entry of a page's ['/XObject'] dictionary: its ['/Subtype'], if it has
    one, and what [get_data] and [Image.open] make of it. *)
Record xobject : Type := {
  subtype : option string;
  picture : result string
}.

(** A page as [PdfReader] gives it, once it has read the file: the text
    [extract_text] returns, and the page's ['/Resources'] (if any) with their
    ['/XObject'] dictionary (if any).  An upload that [PdfReader] or
    [extract_text] fails on is outside the embedding. *)
Record pdf_page : Type := {
  page_text : string;
  resources : option (option (list (string * xobject)))
}.

Record pdf_file : Type := {
  file_name : string;
  file_pages : list pdf_page
}.

Record pdf_image : Type := {
  image : string;
  page_number : nat;
  filename : string
}.

(** The file as the question answering reads it. *)
Definition as_doc (f : pdf_file) : pdf_doc :=
  {| name := file_name f; pages := map page_text (file_pages f) |}.

(** The loop over the entries of one page. *)
Fixpoint images_of_page (pdf_name : string) (page_num : nat) (xobjects : list (string * xobject))
    (images : list pdf_image) : result (list pdf_image) :=
  match xobjects with
  | [] => Ok images
  | (_, x) :: xobjects' =>
      match subtype x with
      | None => Raise (KeyError "/Subtype")
      | Some kind =>
          if String.eqb kind "/Image" then
            match picture x with
            | Ok p =>
                images_of_page pdf_name page_num xobjects'
                  (images ++ [{| image := p; page_number := page_num + 1;
                                 filename := pdf_name |}])
            | Raise _ => images_of_page pdf_name page_num xobjects' images
            end
          else images_of_page pdf_name page_num xobjects' images
      end
  end.

(** The loop over the pages of one file, [page_num] counting from 0. *)
Fixpoint extract_pages (pdf_name : string) (page_num : nat) (pages : list pdf_page)
    (text : string) (images : list pdf_image) : result (string * list pdf_image) :=
  match pages with
  | [] => Ok (text, images)
  | page :: pages' =>
      let text := text ++ (page_text page ++ nl) in
      match resources page with
      | None => Raise (KeyError "/Resources")
      | Some None => extract_pages pdf_name (S page_num) pages' text images
      | Some (Some xobjects) =>
          match images_of_page pdf_name page_num xobjects images with
          | Ok images' => extract_pages pdf_name (S page_num) pages' text images'
          | Raise e => Raise e
          end
      end
  end.

Fixpoint extract_files (pdf_docs : list pdf_file) (text : string) (images : list pdf_image)
  : result (string * list pdf_image) :=
  match pdf_docs with
  | [] => Ok (text, images)
  | pdf :: pdf_docs' =>
      match extract_pages (file_name pdf) 0 (file_pages pdf) text images with
      | Ok (text', images') => extract_files pdf_docs' text' images'
      | Raise e => Raise e
      end
  end.

(** [extract_text_and_images] *)
Definition extract_text_and_images (pdf_docs : list pdf_file) : result (string * list pdf_image) :=
  extract_files pdf_docs "" [].

(** ** The application *)

Section Application.
Context {num : Type} `{Number num}.

(** The values of the widgets in one run of the script. *)
Record widgets : Type := {
  api_key_input : string;
  reset_button : bool;
  clear_button : bool;
  learning_rate_slider : num;
  exploration_rate_slider : num;
  file_uploader : option (list pdf_file);
  submit_button : bool;
  selected_mode : string;
  question_input : string;
  gemini_model_select : string;
  temperature_slider : num;
  max_tokens_slider : Z;
  enable_image_generation_checkbox : bool;
  image_size_slider : string;
  image_style_select : string;
  save_settings_button : bool
}.

(** [st.session_state] once [main] has set up its three keys.  [asked] is the
    key [user_question]: not set, [None], or a string. *)
Record state : Type := {
  history : list record;
  agent : option (RLAgent num);
  pdf_images : list pdf_image;
  asked : option (option string);
  chat_mode : option string;
  saved : Gemini.settings num
}.

(** How a run of the script ends. *)
Inductive outcome : Type :=
  | Completed
  | RerunRequested
  | Failed (e : exn).

Definition no_settings : Gemini.settings num :=
  {| Gemini.gemini_model := None; Gemini.saved_temperature := None; Gemini.max_tokens := None;
     Gemini.enable_image_generation := None; Gemini.image_size := None;
     Gemini.image_style := None |}.

(** The set-up of the session state; [None] is the state of a new session. *)
Definition setup (st : option state) (fs : gmap string (file_content num)) : state :=
  match st with
  | Some s => s
  | None =>
      {| history := [];
         agent := Some (fst (load_model default_agent default_path fs));
         pdf_images := []; asked := None; chat_mode := None; saved := no_settings |}
  end.

(** The Reset button. *)
Definition reset (s : state) : state :=
  {| history := []; agent := Some default_agent; pdf_images := []; asked := Some None;
     chat_mode := chat_mode s; saved := saved s |}.

(** The Rerun button. *)
Definition discard_last (s : state) : state :=
  match asked s with
  | Some _ =>
      {| history := removelast (history s); agent := agent s; pdf_images := pdf_images s;
         asked := Some (Some ""); chat_mode := chat_mode s; saved := saved s |}
  | None => s
  end.

Definition set_rates (lr er : num) (ag : RLAgent num) : RLAgent num :=
  {| learning_rate := lr; discount_factor := discount_factor ag; exploration_rate := er;
     q_table := q_table ag; state_history := state_history ag |}.

(** [bool(pdf_docs)] of the uploader's value. *)
Definition uploaded (pdf_docs : option (list pdf_file)) : bool :=
  match pdf_docs with
  | Some (_ :: _) => true
  | _ => false
  end.

(** The services [user_input] calls: the direct answer is
    [enhanced_direct_gemini_response] with the saved settings. *)
Definition services (env : environment num) (generate : Gemini.generator num)
    (settings : Gemini.settings num) (key : string) : environment num :=
  {| random_draw := random_draw env; random_index := random_index env; now := now env;
     enhanced_direct_gemini_response := Gemini.general_answer generate settings key;
     embed_query := embed_query env; split_text := split_text env;
     get_vector_store := get_vector_store env; search := search env; chain := chain env;
     storage_writable := storage_writable env |}.

(** The call of [user_input] each chat mode makes: the documents it is given. *)
Definition documents_for (mode : string) (pdf_docs : option (list pdf_file))
  : option (list pdf_doc) :=
  if String.eqb mode "PDF Only" && uploaded pdf_docs then map as_doc <$> pdf_docs
  else if String.eqb mode "General Only" then None
  else map as_doc <$> pdf_docs.

Definition settings_of (w : widgets) : Gemini.settings num :=
  {| Gemini.gemini_model := Some (gemini_model_select w);
     Gemini.saved_temperature := Some (temperature_slider w);
     Gemini.max_tokens := Some (max_tokens_slider w);
     Gemini.enable_image_generation := Some (enable_image_generation_checkbox w);
     Gemini.image_size :=
       Some (if enable_image_generation_checkbox w then image_size_slider w else "512x512");
     Gemini.image_style :=
       Some (if enable_image_generation_checkbox w then image_style_select w else "natural") |}.

(** The chat tab from the question on: the call of [user_input], whose
    result is bound to the agent. *)
Definition ask (env : environment num) (generate : Gemini.generator num) (w : widgets)
    (s : state) (fs : gmap string (file_content num))
  : state * gmap string (file_content num) * list notice * outcome :=
  if String.eqb (question_input w) "" then (s, fs, [], Completed)
  else
    match chat_mode s with
    | None => (s, fs, [], Failed AttributeError)
    | Some mode =>
        let run :=
          user_input (services env generate (saved s) (api_key_input w))
            (question_input w) "Google AI" (Some (api_key_input w))
            (documents_for mode (file_uploader w))
            {| rl_agent := agent s; conversation_history := history s; files := fs;
               page := [] |} in
        let s' := fst run in
        match snd run with
        | Ok returned =>
            ({| history := conversation_history s'; agent := returned;
                pdf_images := pdf_images s; asked := Some (Some "");
                chat_mode := chat_mode s; saved := saved s |},
             files s', page s', Completed)
        | Raise e =>
            ({| history := conversation_history s'; agent := rl_agent s';
                pdf_images := pdf_images s; asked := asked s;
                chat_mode := chat_mode s; saved := saved s |},
             files s', page s', Failed e)
        end
    end.

(** [main]: one run of the script on a session state ([None] for a new
    session).  Of what the script itself writes on the page only what
    [user_input] writes is kept. *)
Definition main (env : environment num) (generate : Gemini.generator num) (w : widgets)
    (st : option state) (fs : gmap string (file_content num))
  : state * gmap string (file_content num) * list notice * outcome :=
  let s := setup st fs in
  if reset_button w then (reset s, fs, [], RerunRequested)
  else
    let s := if clear_button w then discard_last s else s in
    match agent s with
    | None => (s, fs, [], Failed AttributeError)
    | Some ag =>
        let s :=
          {| history := history s;
             agent := Some (set_rates (learning_rate_slider w) (exploration_rate_slider w) ag);
             pdf_images := pdf_images s; asked := asked s; chat_mode := chat_mode s;
             saved := saved s |} in
        let processed :=
          if submit_button w && uploaded (file_uploader w) then
            match extract_text_and_images (default [] (file_uploader w)) with
            | Ok (_, images) =>
                Ok {| history := history s; agent := agent s; pdf_images := images;
                      asked := asked s; chat_mode := chat_mode s; saved := saved s |}
            | Raise e => Raise e
            end
          else Ok s in
        match processed with
        | Raise e => (s, fs, [], Failed e)
        | Ok s =>
            let s :=
              {| history := history s; agent := agent s; pdf_images := pdf_images s;
                 asked := asked s; chat_mode := Some (selected_mode w); saved := saved s |} in
            match ask env generate w s fs with
            | (s, fs, shown, Completed) =>
                match show_rl_performance (agent s) with
                | Raise e => (s, fs, shown, Failed e)
                | Ok _ =>
                    let s :=
                      if save_settings_button w then
                        {| history := history s; agent := agent s; pdf_images := pdf_images s;
                           asked := asked s; chat_mode := chat_mode s;
                           saved := settings_of w |}
                      else s in
                    (s, fs, shown, Completed)
                end
            | stopped => stopped
            end
        end
    end.

End Application.

Arguments widgets num : clear implicits.
Arguments state num : clear implicits.

(** A file whose pages all have resources, and whose entries all have a
    subtype. *)
Definition well_formed_page (page : pdf_page) : Prop :=
  match resources page with
  | None => False
  | Some None => True
  | Some (Some xobjects) => Forall (fun entry => subtype (snd entry) <> None) xobjects
  end.

Definition is_picture (entry : string * xobject) : bool :=
  match subtype (snd entry) with
  | Some kind => String.eqb kind "/Image"
  | None => false
  end.

(** The entries of a page that are pictures. *)
Definition pictures_of_page (page : pdf_page) : list (string * xobject) :=
  match resources page with
  | Some (Some xobjects) => List.filter is_picture xobjects
  | _ => []
  end.

(** ** Invariants of the value table *)

Section Invariants.
Context {num : Type} `{Number num}.

(** Every row of the table holds the five canonical actions, in their order:
    what both [choose_action] (called with the canonical list) and
    [update_q_value] write for a state they have not seen. *)
Definition canonical_rows (t : gmap string (row num)) : Prop :=
  forall k r, t !! k = Some r -> r.*1 = canonical_actions.

End Invariants.

(** Every value of the table lies between 0 and 1, in binary64. *)
Definition values_in_unit (t : gmap string (row float)) : Prop :=
  forall k r, t !! k = Some r -> Forall (fun kv => in_unit (snd kv)) r.

(** An agent whose table holds the five actions in every row and a value of
    [0, 1] for each, and whose discount factor is a finite number. *)
Definition bounded_agent (ag : RLAgent float) : Prop :=
  canonical_rows (q_table ag) /\ values_in_unit (q_table ag)
  /\ finite (discount_factor ag).

(** The question has fewer than [2 ^ 53] words, a search for it finds fewer
    than [2 ^ 53] passages and its answer has fewer than [2 ^ 53] characters:
    the counts are floats without rounding. *)
Definition small_counts {num : Type} `{Number num} (env : environment num)
    (question : string) : Prop :=
  small (length (split (lower question)))
  /\ (forall kind chunks found,
        search env kind chunks question = Ok found -> small (length found))
  /\ (forall found answer,
        chain env found question = Ok answer -> small (String.length answer)).

(** The exceptions of the services a pass calls. *)
Definition service_failure {num : Type} `{Number num} (env : environment num)
    (question : string) (e : exn) : Prop :=
  embed_query env question = Raise e
  \/ (exists chunks, get_vector_store env chunks = Raise e)
  \/ (exists kind chunks, search env kind chunks question = Raise e)
  \/ (exists found, chain env found question = Raise e)
  \/ (storage_writable env = false /\ e = OSError).

Section StateInvariants.
Context {num : Type} `{Number num}.

(** The session holds an agent whose table satisfies [P]; the model file, if
    there is one that can be read, holds such a table. *)
Definition holds_table (P : gmap string (row num) -> Prop) (s : state num) : Prop :=
  exists ag, agent s = Some ag /\ P (q_table ag).

Definition stores_table (P : gmap string (row num) -> Prop)
    (fs : gmap string (file_content num)) : Prop :=
  match fs !! default_path with
  | Some (Document j) => exists t, table_of_json j = Some t /\ P t
  | _ => True
  end.

(** The state with another chat mode. *)
Definition with_mode (mode : option string) (s : state num) : state num :=
  {| history := history s; agent := agent s; pdf_images := pdf_images s; asked := asked s;
     chat_mode := mode; saved := saved s |}.

End StateInvariants.

(** ** Sample inputs for the script

    A generator that echoes its prompt; a file of two pages, the first with a
    picture that can be read, one that cannot and an entry that is no picture;
    and the widgets of a run that asks [question] in chat mode [mode]. *)

Section Demo.
Context {num : Type} `{Number num}.

Definition demo_generator : Gemini.generator num :=
  fun r => Ok ("Answer to: " ++ Gemini.contents r).

Definition demo_file : pdf_file := {|
  file_name := "report.pdf";
  file_pages :=
    [{| page_text := "Quarterly revenue increased by 10%";
        resources :=
          Some (Some [("/Im0", {| subtype := Some "/Image"; picture := Ok "chart" |});
                      ("/Im1", {| subtype := Some "/Image"; picture := Raise OSError |});
                      ("/Fm0", {| subtype := Some "/Form"; picture := Raise TypeError |})]) |};
     {| page_text := "Costs fell"; resources := Some None |}]
|}.

Definition demo_widgets (mode question : string) : widgets num := {|
  api_key_input := "key";
  reset_button := false;
  clear_button := false;
  learning_rate_slider := ratio 1 2;
  exploration_rate_slider := ratio 1 4;
  file_uploader := Some [demo_file];
  submit_button := true;
  selected_mode := mode;
  question_input := question;
  gemini_model_select := "gemini-1.5-pro";
  temperature_slider := ratio 1 2;
  max_tokens_slider := 1024;
  enable_image_generation_checkbox := false;
  image_size_slider := "256x256";
  image_style_select := "cartoon";
  save_settings_button := true
|}.

End Demo.

(** * Properties *)

(** ** The order of the two number types *)

Lemma Q_ltb_iff (x y : Q) : (x <? y)%num = true <-> (x < y)%Q.
Proof.
  simpl. rewrite negb_true_iff. split.
  - intros Hle. apply Qnot_le_lt. intros Hc. apply Qle_bool_iff in Hc. congruence.
  - intros Hlt. destruct (Qle_bool y x) eqn:E; [|done].
    apply Qle_bool_iff in E. exfalso. exact (Qlt_not_le _ _ Hlt E).
Qed.

Lemma Q_ltb_false_iff (x y : Q) : (x <? y)%num = false <-> (y <= x)%Q.
Proof. simpl. rewrite negb_false_iff. apply Qle_bool_iff. Qed.

#[export] Program Instance Q_Ordered : Ordered Q := {
  comparable _ := True
}.
Next Obligation.
  intros x y Hlt. apply Q_ltb_false_iff. apply Q_ltb_iff in Hlt. lra.
Qed.
Next Obligation.
  intros x y z _ Hlt. apply Q_ltb_iff in Hlt.
  destruct (Qlt_le_dec x y) as [Hxy|Hyx].
  - left. by apply Q_ltb_iff.
  - right. apply Q_ltb_iff. lra.
Qed.

Ltac key_side :=
  first [ discriminate
        | reflexivity
        | intros _; repeat split; first [exact I | lia]
        | intros (? & ? & ?); first [contradiction | lia] ].

Lemma SFltb_key x y :
  SFltb x y = true <-> sf_not_nan x /\ sf_not_nan y /\ key_lt (sf_key x) (sf_key y).
Proof.
  unfold SFltb, SFcompare.
  destruct x as [sx|sx| |sx mx ex], y as [sy|sy| |sy my ey]; simpl;
    try destruct sx; try destruct sy; simpl;
    rewrite ?Pos.compare_cont_spec; simpl;
    try (destruct (Z.compare_spec ex ey), (Pos.compare_spec mx my); simpl);
    (split; key_side).
Qed.

Lemma float_ltb_key (x y : float) :
  (x <? y)%num = true
  <-> not_nan x /\ not_nan y /\ key_lt (sf_key (Prim2SF x)) (sf_key (Prim2SF y)).
Proof. simpl. rewrite ltb_spec. apply SFltb_key. Qed.

Lemma key_lt_asym a b : key_lt a b -> ~ key_lt b a.
Proof. destruct a as [[a1 a2] a3], b as [[b1 b2] b3]. unfold key_lt. lia. Qed.

Lemma key_lt_cotrans a b c : key_lt a c -> key_lt a b \/ key_lt b c.
Proof.
  destruct a as [[a1 a2] a3], b as [[b1 b2] b3], c as [[c1 c2] c3].
  unfold key_lt. lia.
Qed.

#[export] Program Instance float_Ordered : Ordered float := {
  comparable := not_nan
}.
Next Obligation.
  intros x y Hlt. apply float_ltb_key in Hlt as (_ & _ & Hlt).
  destruct (y <? x)%num eqn:E; [|done].
  apply float_ltb_key in E as (_ & _ & E). by apply key_lt_asym in Hlt.
Qed.
Next Obligation.
  intros x y z Hy Hlt. apply float_ltb_key in Hlt as (Hx & Hz & Hlt).
  rewrite !float_ltb_key.
  destruct (key_lt_cotrans _ (sf_key (Prim2SF y)) _ Hlt); [left | right]; done.
Qed.

(** ** Powers of two and binary digits *)

Lemma pow2_pos (e : Z) : (0 < pow2 e)%Q.
Proof. apply Qpower_0_lt. reflexivity. Qed.

Lemma pow2_add (a b : Z) : (pow2 (a + b) == pow2 a * pow2 b)%Q.
Proof. apply Qpower_plus. discriminate. Qed.

Lemma pow2_succ (e : Z) : (pow2 (e + 1) == 2 * pow2 e)%Q.
Proof. rewrite pow2_add. change (pow2 1) with 2%Q. ring. Qed.

Lemma pow2_le (a b : Z) : (a <= b)%Z -> (pow2 a <= pow2 b)%Q.
Proof. intros Hab. apply Qpower_le_compat_l; [done|]. unfold Qle. simpl. lia. Qed.

Lemma pow2_lt (a b : Z) : (a < b)%Z -> (pow2 a < pow2 b)%Q.
Proof. intros Hab. apply Qpower_lt_compat_l; [done|]. reflexivity. Qed.

Lemma pow2_lt_inv (a b : Z) : (pow2 a < pow2 b)%Q -> (a < b)%Z.
Proof. intros Hab. apply (Qpower_lt_compat_l_inv 2); [done|]. reflexivity. Qed.

Lemma pow2_le_inv (a b : Z) : (pow2 a <= pow2 b)%Q -> (a <= b)%Z.
Proof. intros Hab. apply (Qpower_le_compat_l_inv 2); [done|]. reflexivity. Qed.

Lemma pow2_Z (n : Z) : (0 <= n)%Z -> (pow2 n == inject_Z (2 ^ n))%Q.
Proof. intros Hn. unfold pow2. by rewrite Zpower_Qpower. Qed.

Lemma pow2_sub (a b : Z) : (pow2 (a - b) * pow2 b == pow2 a)%Q.
Proof. rewrite <- pow2_add. by replace (a - b + b)%Z with a by lia. Qed.

(** Integers against rationals. *)
Lemma inject_Z_le_iff (a b : Z) : (inject_Z a <= inject_Z b)%Q <-> (a <= b)%Z.
Proof. by rewrite <- Zle_Qle. Qed.

Lemma inject_Z_lt_iff (a b : Z) : (inject_Z a < inject_Z b)%Q <-> (a < b)%Z.
Proof. by rewrite <- Zlt_Qlt. Qed.

(** The number of binary digits. *)
Lemma digits2_pos_bounds (p : positive) :
  (2 ^ (Z.pos (digits2_pos p) - 1) <= Z.pos p < 2 ^ Z.pos (digits2_pos p))%Z.
Proof.
  induction p as [p IH|p IH|]; cbn [digits2_pos].
  - rewrite Pos2Z.inj_succ. change (Z.pos p~1) with (2 * Z.pos p + 1)%Z.
    replace (Z.succ (Z.pos (digits2_pos p)) - 1)%Z with (Z.succ (Z.pos (digits2_pos p) - 1))%Z
      by lia.
    rewrite !Z.pow_succ_r by lia. lia.
  - rewrite Pos2Z.inj_succ. change (Z.pos p~0) with (2 * Z.pos p)%Z.
    replace (Z.succ (Z.pos (digits2_pos p)) - 1)%Z with (Z.succ (Z.pos (digits2_pos p) - 1))%Z
      by lia.
    rewrite !Z.pow_succ_r by lia. lia.
  - simpl. lia.
Qed.

Lemma Zdigits2_bounds (m : Z) :
  (0 < m)%Z -> (2 ^ (Zdigits2 m - 1) <= m < 2 ^ Zdigits2 m)%Z.
Proof. destruct m as [|p|p]; try lia. intros _. apply digits2_pos_bounds. Qed.

Lemma Zdigits2_nonneg (m : Z) : (0 <= Zdigits2 m)%Z.
Proof. destruct m; simpl; lia. Qed.

Lemma Zdigits2_le (m : Z) (k : Z) : (0 <= k)%Z -> (0 <= m < 2 ^ k)%Z -> (Zdigits2 m <= k)%Z.
Proof.
  intros Hk [H0 Hm]. destruct (Z.eq_dec m 0%Z) as [->|Hne]; [simpl; lia|].
  destruct (Zdigits2_bounds m) as [Hlo _]; [lia|].
  destruct (Z_le_gt_dec (Zdigits2 m) k) as [|Hgt]; [done|].
  assert (2 ^ k <= 2 ^ (Zdigits2 m - 1))%Z by (apply Z.pow_le_mono_r; lia). lia.
Qed.

Lemma Zdigits2_ge (m : Z) (k : Z) : (0 <= k)%Z -> (2 ^ k <= m)%Z -> (k + 1 <= Zdigits2 m)%Z.
Proof.
  intros Hk Hm. assert (0 < 2 ^ k)%Z by (apply Z.pow_pos_nonneg; lia).
  destruct (Zdigits2_bounds m) as [_ Hhi]; [lia|].
  destruct (Z_le_gt_dec (k + 1) (Zdigits2 m)) as [|Hgt]; [done|].
  pose proof (Zdigits2_nonneg m).
  assert (2 ^ Zdigits2 m <= 2 ^ k)%Z by (apply Z.pow_le_mono_r; lia). lia.
Qed.

(** ** The shift of the mantissa *)

Lemma located_bounds x m r s :
  located x m r s -> (inject_Z m <= x)%Q /\ (x < inject_Z m + 1)%Q.
Proof. unfold located. destruct r, s; intros; lra. Qed.

Lemma located_of_loc x m l :
  located_record x (shr_record_of_loc m l)
  <-> match l with
      | loc_Exact => located x m false false
      | loc_Inexact Lt => located x m false true
      | loc_Inexact Eq => located x m true false
      | loc_Inexact Gt => located x m true true
      end.
Proof. by destruct l as [|[]]. Qed.

Lemma shr_1_located x mrs :
  (0 <= shr_m mrs)%Z -> located_record x mrs ->
  located_record (x * (1 # 2)) (shr_1 mrs) /\ (0 <= shr_m (shr_1 mrs))%Z.
Proof.
  destruct mrs as [m r s]. unfold located_record. cbn [shr_m shr_r shr_s].
  intros Hm Hloc. destruct m as [|[p|p|]|p]; try lia; cbn [shr_1 shr_m shr_r shr_s].
  - split; [|lia]. revert Hloc. unfold located. change (inject_Z 0) with 0%Q.
    destruct r, s; cbn [orb]; intros; lra.
  - assert (Hp : (inject_Z (Z.pos p~1) == 2 * inject_Z (Z.pos p) + 1)%Q).
    { change (Z.pos p~1) with (2 * Z.pos p + 1)%Z.
      rewrite inject_Z_plus, inject_Z_mult. reflexivity. }
    split; [|lia]. revert Hloc. unfold located.
    destruct r, s; cbn [orb]; intros; lra.
  - assert (Hp : (inject_Z (Z.pos p~0) == 2 * inject_Z (Z.pos p))%Q).
    { change (Z.pos p~0) with (2 * Z.pos p)%Z. rewrite inject_Z_mult. reflexivity. }
    split; [|lia]. revert Hloc. unfold located.
    destruct r, s; cbn [orb]; intros; lra.
  - split; [|lia]. revert Hloc. unfold located.
    change (inject_Z 1) with 1%Q. change (inject_Z 0) with 0%Q.
    destruct r, s; cbn [orb]; intros; lra.
Qed.

Lemma iter_shr_1_located (p : positive) : forall x mrs,
  (0 <= shr_m mrs)%Z -> located_record x mrs ->
  exists x', (x' * pow2 (Z.pos p) == x)%Q
             /\ located_record x' (SpecFloat.iter_pos shr_1 p mrs)
             /\ (0 <= shr_m (SpecFloat.iter_pos shr_1 p mrs))%Z.
Proof.
  induction p as [p IH|p IH|]; intros x mrs Hm Hloc; cbn [SpecFloat.iter_pos].
  - destruct (shr_1_located x mrs Hm Hloc) as [H1 Hm1].
    destruct (IH _ _ Hm1 H1) as (x2 & Hx2 & H2 & Hm2).
    destruct (IH _ _ Hm2 H2) as (x3 & Hx3 & H3 & Hm3).
    exists x3. split; [|done].
    replace (Z.pos p~1) with (Z.pos p + Z.pos p + 1)%Z by lia.
    rewrite pow2_succ, pow2_add.
    rewrite <- Hx3 in Hx2. lra.
  - destruct (IH _ _ Hm Hloc) as (x2 & Hx2 & H2 & Hm2).
    destruct (IH _ _ Hm2 H2) as (x3 & Hx3 & H3 & Hm3).
    exists x3. split; [|done].
    replace (Z.pos p~0) with (Z.pos p + Z.pos p)%Z by lia.
    rewrite pow2_add. rewrite <- Hx3 in Hx2. lra.
  - destruct (shr_1_located x mrs Hm Hloc) as [H1 Hm1].
    exists (x * (1 # 2))%Q. split; [|done]. change (pow2 1) with 2%Q. lra.
Qed.

Lemma shr_located mrs e n x :
  (0 <= n)%Z -> (0 <= shr_m mrs)%Z -> located_record x mrs ->
  exists x', (x' * pow2 (e + n) == x * pow2 e)%Q
             /\ located_record x' (fst (shr mrs e n))
             /\ (0 <= shr_m (fst (shr mrs e n)))%Z
             /\ snd (shr mrs e n) = (e + n)%Z.
Proof.
  intros Hn Hm Hloc. destruct n as [|p|p]; [| |lia]; cbn [shr fst snd].
  - exists x. rewrite Z.add_0_r. by split_and!.
  - destruct (iter_shr_1_located p x mrs Hm Hloc) as (x' & Hx & Hl & Hm').
    exists x'. split_and!; [|done..]. rewrite pow2_add. rewrite <- Hx. ring.
Qed.

(** ** Rounding to nearest *)

Lemma fexp_eq (k : Z) : fexp prec emax k = Z.max (k - 53) (-1074).
Proof. reflexivity. Qed.

Lemma shr_m_of_loc (m : Z) (l : location) : shr_m (shr_record_of_loc m l) = m.
Proof. by destruct l as [|[]]. Qed.

Lemma located_record_bounds x mrs :
  located_record x mrs -> (inject_Z (shr_m mrs) <= x)%Q /\ (x < inject_Z (shr_m mrs) + 1)%Q.
Proof. apply located_bounds. Qed.

Lemma shr_nonpos mrs e n : (n <= 0)%Z -> shr mrs e n = (mrs, e).
Proof. intros Hn. destruct n; [reflexivity | lia | reflexivity]. Qed.

Lemma round_nearest_even_located x mrs :
  located_record x mrs ->
  let m2 := round_nearest_even (shr_m mrs) (loc_of_shr_record mrs) in
  (m2 = shr_m mrs \/ m2 = (shr_m mrs + 1)%Z)
  /\ (2 * inject_Z m2 - 1 <= 2 * x)%Q /\ (2 * x <= 2 * inject_Z m2 + 1)%Q.
Proof.
  destruct mrs as [m r s]. unfold located_record, located. cbn [shr_m shr_r shr_s].
  assert (Hs : (inject_Z (m + 1) == inject_Z m + 1)%Q) by (by rewrite inject_Z_plus).
  destruct r, s; cbn [loc_of_shr_record round_nearest_even]; intros Hloc.
  - split; [by right|]. lra.
  - destruct (Z.even m); (split; [auto|]); lra.
  - split; [by left|]. lra.
  - split; [by left|]. lra.
Qed.

(** The second shift of [binary_round_aux]: a mantissa of at most 53 bits is
    kept, and [2 ^ 53] becomes [2 ^ 52] one exponent higher. *)
Lemma shr_fexp_exact (m e : Z) :
  (0 <= m <= 2 ^ 53)%Z -> (-1074 <= e)%Z ->
  exists m' e',
    shr_fexp prec emax m e loc_Exact = ({| shr_m := m'; shr_r := false; shr_s := false |}, e')
    /\ ((m' = m /\ e' = e /\ (m < 2 ^ 53)%Z)
        \/ (m = (2 ^ 53)%Z /\ m' = (2 ^ 52)%Z /\ e' = (e + 1)%Z)).
Proof.
  intros Hm He. unfold shr_fexp. rewrite fexp_eq.
  destruct (Z.eq_dec m (2 ^ 53)%Z) as [->|Hne].
  - exists (2 ^ 52)%Z, (e + 1)%Z. split; [|by right].
    change (Zdigits2 (2 ^ 53)) with 54%Z.
    replace (Z.max (54 + e - 53) (-1074) - e)%Z with 1%Z by lia. reflexivity.
  - exists m, e. split; [|left; split_and!; [done..|lia]].
    pose proof (Zdigits2_le m 53 ltac:(lia) ltac:(lia)).
    pose proof (Zdigits2_nonneg m).
    by rewrite shr_nonpos by lia.
Qed.

Lemma Qmult_pow2_lt (a b : Q) (e : Z) : (a * pow2 e < b * pow2 e)%Q -> (a < b)%Q.
Proof. pose proof (pow2_pos e) as Hp. intros Hlt. by apply Qmult_lt_r in Hlt. Qed.

Lemma Qmult_pow2_le (a b : Q) (e : Z) : (a <= b)%Q -> (a * pow2 e <= b * pow2 e)%Q.
Proof. pose proof (pow2_pos e) as Hp. intros Hle. apply Qmult_le_compat_r; lra. Qed.

Lemma inject_Z_pow2 (m k : Z) :
  (0 <= k)%Z -> (m <= 2 ^ k)%Z -> (inject_Z m <= pow2 k)%Q.
Proof. intros Hk Hm. rewrite pow2_Z by done. by rewrite <- Zle_Qle. Qed.

Lemma pow2_inject_Z (m k : Z) :
  (0 <= k)%Z -> (2 ^ k <= m)%Z -> (pow2 k <= inject_Z m)%Q.
Proof. intros Hk Hm. rewrite pow2_Z by done. by rewrite <- Zle_Qle. Qed.

Lemma binary_round_aux_unfold sx mx ex lx :
  binary_round_aux prec emax sx mx ex lx
  = let '(mrs', e') :=
      shr (shr_record_of_loc mx lx) ex (fexp prec emax (Zdigits2 mx + ex) - ex) in
    let '(mrs'', e'') :=
      shr_fexp prec emax (round_nearest_even (shr_m mrs') (loc_of_shr_record mrs')) e'
        loc_Exact in
    binary_round_aux_result sx (shr_m mrs'') e''.
Proof. reflexivity. Qed.

(** [binary_round_aux] rounds to nearest: on a mantissa [mx] and a location
    that stand for the exact value [x * 2 ^ ex], with enough digits for the
    format and below the overflow threshold. *)
Lemma binary_round_aux_rounded sx mx ex lx x :
  (0 <= mx)%Z ->
  located_record x (shr_record_of_loc mx lx) ->
  (ex <= fexp prec emax (Zdigits2 mx + ex))%Z ->
  (x * pow2 ex < pow2 1000)%Q ->
  exists z, sf_mag_is (binary_round_aux prec emax sx mx ex lx) sx z
            /\ (0 <= z)%Q /\ rounded (x * pow2 ex) z
            /\ valid_binary (binary_round_aux prec emax sx mx ex lx) = true.
Proof.
  intros Hmx Hloc Hex Hbig.
  pose proof (located_record_bounds _ _ Hloc) as [Hlo Hhi].
  rewrite shr_m_of_loc in Hlo, Hhi.
  pose proof (Zdigits2_nonneg mx) as Hd0.
  set (d := Zdigits2 mx) in *.
  assert (Hx0 : (0 <= x)%Q).
  { assert (inject_Z 0 <= inject_Z mx)%Q by (by rewrite <- Zle_Qle).
    change (inject_Z 0) with 0%Q in *. lra. }
  assert (Hxd : (x < pow2 d)%Q).
  { destruct (Z.eq_dec mx 0%Z) as [->|Hne].
    - change (pow2 d) with 1%Q. change (inject_Z 0) with 0%Q in Hhi. lra.
    - destruct (Zdigits2_bounds mx ltac:(lia)) as [_ Hlt]. fold d in Hlt.
      pose proof (inject_Z_pow2 (mx + 1) d Hd0 ltac:(lia)) as Hle.
      rewrite inject_Z_plus in Hle. change (inject_Z 1) with 1%Q in Hle. lra. }
  assert (Hxlow : mx <> 0%Z -> (pow2 (d - 1) <= x)%Q).
  { intros Hne. destruct (Zdigits2_bounds mx ltac:(lia)) as [Hge _]. fold d in Hge.
    assert (0 < d)%Z by (unfold d; destruct mx; simpl; lia).
    pose proof (pow2_inject_Z mx (d - 1) ltac:(lia) Hge). lra. }
  rewrite fexp_eq in Hex.
  set (e1 := Z.max (d + ex - 53) (-1074)) in *.
  pose proof (pow2_pos ex) as Hpex. pose proof (pow2_pos e1) as Hpe1.
  set (v := (x * pow2 ex)%Q) in *.
  assert (Hv0 : (0 <= v)%Q) by (unfold v; nra).
  assert (Hvk : (v < pow2 (d + ex))%Q).
  { rewrite pow2_add. unfold v. nra. }
  assert (Hvlow : mx <> 0%Z -> (pow2 (d + ex - 1) <= v)%Q).
  { intros Hne. specialize (Hxlow Hne).
    replace (d + ex - 1)%Z with (d - 1 + ex)%Z by lia. rewrite pow2_add. unfold v.
    pose proof (pow2_pos (d - 1)). nra. }
  (* the first shift *)
  rewrite binary_round_aux_unfold. fold d. rewrite fexp_eq. fold e1.
  destruct (shr_located (shr_record_of_loc mx lx) ex (e1 - ex) x
              ltac:(lia) ltac:(by rewrite shr_m_of_loc) Hloc)
    as (x1 & Hx1 & Hloc1 & Hm1 & He1).
  destruct (shr (shr_record_of_loc mx lx) ex (e1 - ex)) as [mrs1 e1'].
  cbn [fst snd] in *. replace (ex + (e1 - ex))%Z with e1 in * by lia. subst e1'.
  fold v in Hx1.
  pose proof (located_record_bounds _ _ Hloc1) as [Hlo1 Hhi1].
  assert (Hx153 : (x1 < pow2 53)%Q).
  { apply (Qmult_pow2_lt _ _ e1). rewrite Hx1, <- pow2_add.
    eapply Qlt_le_trans; [exact Hvk|]. apply pow2_le. lia. }
  assert (Hm153 : (shr_m mrs1 < 2 ^ 53)%Z).
  { apply inject_Z_lt_iff. rewrite <- pow2_Z by lia. lra. }
  (* the rounding *)
  destruct (round_nearest_even_located _ _ Hloc1) as (Hm2 & Hr1 & Hr2).
  set (m2 := round_nearest_even (shr_m mrs1) (loc_of_shr_record mrs1)) in *.
  destruct (shr_fexp_exact m2 e1 ltac:(lia) ltac:(lia)) as (m3 & e3 & Hsh & Hcase).
  rewrite Hsh. cbn [shr_m].
  assert (Hval : (inject_Z m3 * pow2 e3 == inject_Z m2 * pow2 e1)%Q).
  { destruct Hcase as [(-> & -> & _)|(-> & -> & ->)]; [reflexivity|].
    rewrite pow2_succ. change (inject_Z (2 ^ 52)) with (2 ^ 52)%Q.
    change (inject_Z (2 ^ 53)) with (2 ^ 53)%Q. ring. }
  assert (Hk1000 : mx <> 0%Z -> (d + ex <= 1000)%Z).
  { intros Hne. specialize (Hvlow Hne).
    assert (pow2 (d + ex - 1) < pow2 1000)%Q by lra.
    apply pow2_lt_inv in H. lia. }
  assert (He1emin : mx = 0%Z -> e1 = (-1074)%Z).
  { intros ->. unfold e1, d in *. simpl in *. lia. }
  assert (He3 : (e3 <= 971)%Z).
  { destruct (Z.eq_dec mx 0%Z) as [H0|Hne].
    - specialize (He1emin H0). lia.
    - specialize (Hk1000 Hne). lia. }
  assert (Hround : rounded v (inject_Z m2 * pow2 e1)).
  { exists e1, m2. split_and!.
    - reflexivity.
    - lia.
    - rewrite <- Hx1. nra.
    - rewrite <- Hx1. nra.
    - pose proof (pow2_pos (e1 + 53)). lra.
    - eapply Qlt_le_trans; [exact Hvk|]. apply pow2_le. lia.
    - destruct (Z.eq_dec e1 (-1074)%Z) as [|Hne1]; [by left|]. right. left.
      assert (mx <> 0%Z) as Hne by (intros H0; by apply He1emin in H0).
      replace (e1 + 52)%Z with (d + ex - 1)%Z by lia. by apply Hvlow. }
  assert (Hm30 : (0 <= m3)%Z) by lia.
  assert (Hm1low : e1 <> (-1074)%Z -> (2 ^ 52 <= shr_m mrs1)%Z).
  { intros Hne1.
    assert (mx <> 0%Z) as Hne by (intros H0; by apply He1emin in H0).
    specialize (Hvlow Hne).
    assert (pow2 52 <= x1)%Q as Hx152.
    { destruct (Qlt_le_dec x1 (pow2 52)) as [Hlt|]; [|done]. exfalso.
      apply (Qmult_lt_compat_r _ _ (pow2 e1)) in Hlt; [|done].
      rewrite <- pow2_add, Hx1 in Hlt.
      replace (52 + e1)%Z with (d + ex - 1)%Z in Hlt by lia. lra. }
    rewrite pow2_Z in Hx152 by lia.
    assert (inject_Z (2 ^ 52) < inject_Z (shr_m mrs1 + 1))%Q as Hlt.
    { rewrite inject_Z_plus. change (inject_Z 1) with 1%Q. lra. }
    apply (proj1 (inject_Z_lt_iff _ _)) in Hlt. lia. }
  assert (Hres : binary_round_aux_result sx m3 e3
                 = match m3 with
                   | Z0 => S754_zero sx
                   | Z.pos p => S754_finite sx p e3
                   | Z.neg _ => S754_nan
                   end).
  { unfold binary_round_aux_result. change (emax - prec)%Z with 971%Z.
    destruct m3; [done| |done]. by destruct (Z.leb_spec e3 971); [|lia]. }
  rewrite Hres.
  exists (inject_Z m2 * pow2 e1)%Q. split_and!; [| |exact Hround|].
  - destruct m3 as [|p|p]; [| |lia].
    + left. split; [reflexivity|]. rewrite <- Hval. change (inject_Z 0) with 0%Q. ring.
    + right. exists p, e3. split; [done|by rewrite <- Hval].
  - assert (inject_Z 0 <= inject_Z m2)%Q by (rewrite <- Zle_Qle; lia).
    change (inject_Z 0) with 0%Q in *. nra.
  - destruct m3 as [|p|p]; [reflexivity| |reflexivity].
    unfold valid_binary, bounded, canonical_mantissa. rewrite fexp_eq.
    change (emax - prec)%Z with 971%Z.
    apply andb_true_iff. split; [apply Z.eqb_eq | by apply Z.leb_le].
    assert (Hd3 : (Zdigits2 (Z.pos p) <= 53)%Z) by (apply Zdigits2_le; lia).
    cbn [Zdigits2] in Hd3.
    destruct (Z.eq_dec e3 (-1074)%Z) as [->|Hne3]; [lia|].
    assert (2 ^ 52 <= Z.pos p)%Z as Hp52.
    { destruct Hcase as [(Hp & -> & _)|(_ & Hp & _)]; [|lia]. specialize (Hm1low Hne3). lia. }
    pose proof (Zdigits2_ge (Z.pos p) 52 ltac:(lia) Hp52) as Hd3'.
    cbn [Zdigits2] in Hd3'. lia.
Qed.

(** ** Floats that are valid *)

Lemma valid_finite_canonical s m e :
  valid_binary (S754_finite s m e) = true ->
  Z.max (Z.pos (digits2_pos m) + e - 53) (-1074) = e /\ (e <= 971)%Z.
Proof.
  unfold valid_binary, bounded, canonical_mantissa. rewrite fexp_eq.
  intros [H1 H2]%andb_true_iff. apply Z.eqb_eq in H1. apply Z.leb_le in H2.
  change (emax - prec)%Z with 971%Z in H2. done.
Qed.

Lemma sf_mag_is_value r sx z :
  sf_mag_is r sx z -> sf_finite r /\ (SF2Q r == (if sx then - z else z))%Q.
Proof.
  intros [[-> Hz]|(m & e & -> & Hz)]; (split; [done|]); cbn [SF2Q]; destruct sx; lra.
Qed.

Lemma rounded_opp v z : rounded v z -> rounded (- v) (- z).
Proof.
  intros (e & m & Hz & He & H1 & H2 & H3 & H4 & H5).
  exists e, (- m)%Z. rewrite inject_Z_opp.
  split_and!; [lra | done | lra | lra | lra | lra |].
  destruct H5 as [?|[?|?]]; [by left | right; right; lra | right; left; lra].
Qed.

Lemma rounded_ext v v' z z' : (v == v')%Q -> (z == z')%Q -> rounded v z -> rounded v' z'.
Proof.
  intros Hv Hz (e & m & H0 & He & H1 & H2 & H3 & H4 & H5).
  exists e, m. split_and!; [lra | done | lra | lra | lra | lra |].
  destruct H5 as [?|[?|?]]; [by left | right; left; lra | right; right; lra].
Qed.

Lemma rounded_zero : rounded 0 0.
Proof.
  exists (-1074)%Z, 0%Z. change (inject_Z 0) with 0%Q.
  pose proof (pow2_pos (-1074)). pose proof (pow2_pos (-1074 + 53)).
  split_and!; [lra | done | lra | lra | lra | lra | by left].
Qed.

(** A float is its own rounding. *)
Lemma rounded_self (x : spec_float) :
  valid_binary x = true -> rounded (SF2Q x) (SF2Q x).
Proof.
  destruct x as [s| s| |s m e]; try (intros _; apply rounded_zero).
  intros [Hc He]%valid_finite_canonical.
  assert (Hpos : rounded (inject_Z (Z.pos m) * pow2 e) (inject_Z (Z.pos m) * pow2 e)).
  { destruct (digits2_pos_bounds m) as [Hlo Hhi].
    set (d := Z.pos (digits2_pos m)) in *.
    pose proof (pow2_pos e) as Hpe.
    assert (H53 : (inject_Z (Z.pos m) < pow2 53)%Q).
    { assert (inject_Z (Z.pos m + 1) <= pow2 d)%Q as Hle by (apply inject_Z_pow2; lia).
      rewrite inject_Z_plus in Hle. change (inject_Z 1) with 1%Q in Hle.
      assert (pow2 d <= pow2 53)%Q by (apply pow2_le; lia). lra. }
    assert (0 < inject_Z (Z.pos m))%Q as Hm0 by (by apply (inject_Z_lt_iff 0)).
    exists e, (Z.pos m). split_and!.
    - reflexivity.
    - lia.
    - nra.
    - nra.
    - pose proof (pow2_pos (e + 53)). nra.
    - rewrite pow2_add, (Qmult_comm (pow2 e)). by apply Qmult_lt_compat_r.
    - destruct (Z.eq_dec e (-1074)%Z) as [|Hne]; [by left|]. right. left.
      assert (d = 53%Z) by lia.
      assert (pow2 52 <= inject_Z (Z.pos m))%Q as Hge.
      { apply pow2_inject_Z; [lia|]. replace 52%Z with (d - 1)%Z by lia. done. }
      rewrite pow2_add, (Qmult_comm (pow2 e)). by apply Qmult_pow2_le. }
  cbn [SF2Q]. destruct s.
  - eapply rounded_ext; [| |exact (rounded_opp _ _ Hpos)]; ring.
  - eapply rounded_ext; [| |exact Hpos]; ring.
Qed.

(** ** Multiplication *)

Lemma digits2_pos_mul (p q : positive) :
  (Z.pos (digits2_pos p) + Z.pos (digits2_pos q) - 1 <= Z.pos (digits2_pos (p * q)))%Z.
Proof.
  destruct (digits2_pos_bounds p) as [Hp _]. destruct (digits2_pos_bounds q) as [Hq _].
  set (dp := Z.pos (digits2_pos p)) in *. set (dq := Z.pos (digits2_pos q)) in *.
  assert (2 ^ (dp - 1 + (dq - 1)) <= Z.pos (p * q))%Z as Hpq.
  { rewrite Z.pow_add_r by lia. rewrite Pos2Z.inj_mul.
    assert (0 < 2 ^ (dp - 1))%Z by (apply Z.pow_pos_nonneg; lia).
    assert (0 < 2 ^ (dq - 1))%Z by (apply Z.pow_pos_nonneg; lia). nia. }
  pose proof (Zdigits2_ge (Z.pos (p * q)) (dp - 1 + (dq - 1)) ltac:(lia) Hpq) as Hd.
  cbn [Zdigits2] in Hd. lia.
Qed.

Lemma SFmul_rounded (x y : spec_float) :
  valid_binary x = true -> valid_binary y = true -> sf_finite x -> sf_finite y ->
  (- pow2 1000 < SF2Q x * SF2Q y)%Q -> (SF2Q x * SF2Q y < pow2 1000)%Q ->
  sf_finite (SFmul prec emax x y)
  /\ rounded (SF2Q x * SF2Q y) (SF2Q (SFmul prec emax x y)).
Proof.
  intros Vx Vy Fx Fy Hlo Hhi.
  destruct x as [sx|sx| |sx mx ex]; try done; destruct y as [sy|sy| |sy my ey]; try done;
    cbn [SFmul];
    try (split; [done|]; cbn [SF2Q]; eapply rounded_ext; [| |exact rounded_zero]; ring).
  apply valid_finite_canonical in Vx as [Cx Ex]. apply valid_finite_canonical in Vy as [Cy Ey].
  pose proof (digits2_pos_mul mx my) as Hd.
  set (v := (inject_Z (Z.pos (mx * my)) * pow2 (ex + ey))%Q).
  assert (Hv : (SF2Q (S754_finite sx mx ex) * SF2Q (S754_finite sy my ey)
                == (if xorb sx sy then - v else v))%Q).
  { unfold v. cbn [SF2Q].
    destruct sx, sy; cbn [xorb]; rewrite Pos2Z.inj_mul, inject_Z_mult, pow2_add; ring. }
  assert (Hvbig : (v < pow2 1000)%Q).
  { rewrite Hv in Hlo, Hhi. destruct (xorb sx sy); lra. }
  destruct (binary_round_aux_rounded (xorb sx sy) (Z.pos (mx * my)) (ex + ey) loc_Exact
              (inject_Z (Z.pos (mx * my)))) as (z & Hz & Hz0 & Hr & _).
  - lia.
  - reflexivity.
  - rewrite fexp_eq. cbn [Zdigits2]. lia.
  - exact Hvbig.
  - fold v in Hr. apply sf_mag_is_value in Hz as [Hfin Hval]. split; [done|].
    eapply rounded_ext; [symmetry; exact Hv | symmetry; exact Hval |].
    destruct (xorb sx sy); [by apply rounded_opp | done].
Qed.

(** ** Addition and subtraction *)

Lemma pos_iter_xO (p k : positive) : Z.pos (Pos.iter xO p k) = (Z.pos p * 2 ^ Z.pos k)%Z.
Proof.
  induction k as [|k IH] using Pos.peano_ind.
  - simpl. lia.
  - rewrite Pos.iter_succ, Pos2Z.inj_succ, Z.pow_succ_r by lia.
    change (Z.pos (Pos.iter xO p k)~0) with (2 * Z.pos (Pos.iter xO p k))%Z. lia.
Qed.

Lemma digits2_pos_iter_xO (p k : positive) :
  digits2_pos (Pos.iter xO p k) = (digits2_pos p + k)%positive.
Proof.
  induction k using Pos.peano_ind.
  - simpl. lia.
  - rewrite Pos.iter_succ. simpl. rewrite IHk. lia.
Qed.

Lemma shl_align_spec (mx : positive) (ex ex' : Z) :
  snd (shl_align mx ex ex') = Z.min ex ex'
  /\ Z.pos (fst (shl_align mx ex ex')) = (Z.pos mx * 2 ^ (ex - Z.min ex ex'))%Z
  /\ Z.pos (digits2_pos (fst (shl_align mx ex ex')))
     = (Z.pos (digits2_pos mx) + (ex - Z.min ex ex'))%Z.
Proof.
  unfold shl_align. destruct (ex' - ex)%Z as [|d|d] eqn:Hd; cbn [fst snd].
  - replace (ex - Z.min ex ex')%Z with 0%Z by lia. split_and!; lia.
  - replace (ex - Z.min ex ex')%Z with 0%Z by lia. split_and!; lia.
  - replace (ex - Z.min ex ex')%Z with (Z.pos d) by lia.
    rewrite pos_iter_xO, digits2_pos_iter_xO. split_and!; lia.
Qed.

Lemma shl_align_value (mx : positive) (ex ex' : Z) :
  (inject_Z (Z.pos (fst (shl_align mx ex ex'))) * pow2 (Z.min ex ex')
   == inject_Z (Z.pos mx) * pow2 ex)%Q.
Proof.
  destruct (shl_align_spec mx ex ex') as (_ & -> & _).
  rewrite inject_Z_mult, <- pow2_Z by lia.
  rewrite <- (pow2_sub ex (Z.min ex ex')). ring.
Qed.

Lemma binary_round_rounded sx (m : positive) (e : Z) :
  (inject_Z (Z.pos m) * pow2 e < pow2 1000)%Q ->
  exists z, sf_mag_is (binary_round prec emax sx m e) sx z /\ (0 <= z)%Q
            /\ rounded (inject_Z (Z.pos m) * pow2 e) z
            /\ valid_binary (binary_round prec emax sx m e) = true.
Proof.
  intros Hbig. unfold binary_round.
  set (t := fexp prec emax (Z.pos (digits2_pos m) + e)).
  destruct (shl_align_spec m e t) as (He & Hm & Hd).
  pose proof (shl_align_value m e t) as Hval.
  destruct (shl_align m e t) as [mz ez]. cbn [fst snd] in *. subst ez.
  destruct (binary_round_aux_rounded sx (Z.pos mz) (Z.min e t) loc_Exact (inject_Z (Z.pos mz)))
    as (z & Hz & Hz0 & Hr & Hvalid).
  - lia.
  - reflexivity.
  - cbn [Zdigits2]. rewrite Hd.
    replace (Z.pos (digits2_pos m) + (e - Z.min e t) + Z.min e t)%Z
      with (Z.pos (digits2_pos m) + e)%Z by lia.
    fold t. lia.
  - by rewrite Hval.
  - exists z. split_and!; [done..| |done]. eapply rounded_ext; [exact Hval|reflexivity|done].
Qed.

Lemma binary_normalize_rounded (m e : Z) :
  (- pow2 1000 < inject_Z m * pow2 e)%Q -> (inject_Z m * pow2 e < pow2 1000)%Q ->
  sf_finite (binary_normalize prec emax m e false)
  /\ rounded (inject_Z m * pow2 e) (SF2Q (binary_normalize prec emax m e false))
  /\ valid_binary (binary_normalize prec emax m e false) = true.
Proof.
  intros Hlo Hhi. destruct m as [|p|p]; cbn [binary_normalize].
  - split_and!; [done| |done]. cbn [SF2Q]. change (inject_Z 0) with 0%Q.
    eapply rounded_ext; [| |exact rounded_zero]; ring.
  - destruct (binary_round_rounded false p e Hhi) as (z & Hz & _ & Hr & Hvalid).
    apply sf_mag_is_value in Hz as [Hfin Hval]. split_and!; [done| |done].
    eapply rounded_ext; [reflexivity|symmetry; exact Hval|done].
  - assert (Hneg : (inject_Z (Z.neg p) == - inject_Z (Z.pos p))%Q).
    { change (Z.neg p) with (- Z.pos p)%Z. by rewrite inject_Z_opp. }
    destruct (binary_round_rounded true p e) as (z & Hz & _ & Hr & Hvalid).
    { rewrite Hneg in Hlo. lra. }
    apply sf_mag_is_value in Hz as [Hfin Hval]. split_and!; [done| |done].
    eapply rounded_ext; [|symmetry; exact Hval|exact (rounded_opp _ _ Hr)].
    rewrite Hneg. ring.
Qed.

Lemma inject_cond_Zopp (s : bool) (z : Z) :
  (inject_Z (cond_Zopp s z) == (if s then -1 else 1) * inject_Z z)%Q.
Proof. destruct s; cbn [cond_Zopp]; [rewrite inject_Z_opp|]; ring. Qed.

Lemma SFadd_rounded (x y : spec_float) :
  valid_binary x = true -> valid_binary y = true -> sf_finite x -> sf_finite y ->
  (- pow2 1000 < SF2Q x + SF2Q y)%Q -> (SF2Q x + SF2Q y < pow2 1000)%Q ->
  sf_finite (SFadd prec emax x y)
  /\ rounded (SF2Q x + SF2Q y) (SF2Q (SFadd prec emax x y)).
Proof.
  intros Vx Vy Fx Fy Hlo Hhi.
  destruct x as [sx|sx| |sx mx ex]; try done; destruct y as [sy|sy| |sy my ey]; try done;
    cbn [SFadd].
  - split; [by destruct sx, sy|].
    eapply rounded_ext; [| |exact rounded_zero]; [cbn [SF2Q]; ring|by destruct sx, sy].
  - split; [done|].
    eapply rounded_ext; [| |exact (rounded_self _ Vy)]; [cbn [SF2Q]; ring|reflexivity].
  - split; [done|].
    eapply rounded_ext; [| |exact (rounded_self _ Vx)]; [cbn [SF2Q]; ring|reflexivity].
  - set (ez := Z.min ex ey).
    pose proof (shl_align_value mx ex ez) as Hx. pose proof (shl_align_value my ey ez) as Hy.
    replace (Z.min ex ez) with ez in Hx by lia. replace (Z.min ey ez) with ez in Hy by lia.
    set (s := (cond_Zopp sx (Z.pos (fst (shl_align mx ex ez)))
               + cond_Zopp sy (Z.pos (fst (shl_align my ey ez))))%Z).
    assert (Hs : (inject_Z s * pow2 ez
                  == SF2Q (S754_finite sx mx ex) + SF2Q (S754_finite sy my ey))%Q).
    { unfold s. rewrite inject_Z_plus, !inject_cond_Zopp. cbn [SF2Q].
      destruct sx, sy; lra. }
    destruct (binary_normalize_rounded s ez) as (Hfin & Hr & _); [by rewrite Hs..|].
    split; [done|]. eapply rounded_ext; [exact Hs|reflexivity|done].
Qed.

Lemma SFsub_add (x y : spec_float) :
  sf_finite x -> sf_finite y -> SFsub prec emax x y = SFadd prec emax x (SFopp y).
Proof.
  destruct x as [sx|sx| |sx mx ex]; try done; destruct y as [sy|sy| |sy my ey]; try done;
    intros _ _; cbn [SFsub SFadd SFopp].
  - by destruct sx, sy.
  - f_equal. destruct sy; cbn [negb cond_Zopp]; lia.
Qed.

Lemma SF2Q_opp (y : spec_float) : (SF2Q (SFopp y) == - SF2Q y)%Q.
Proof. destruct y as [s|s| |s m e]; cbn [SFopp SF2Q]; try ring. destruct s; cbn [negb]; ring. Qed.

Lemma SFsub_rounded (x y : spec_float) :
  valid_binary x = true -> valid_binary y = true -> sf_finite x -> sf_finite y ->
  (- pow2 1000 < SF2Q x - SF2Q y)%Q -> (SF2Q x - SF2Q y < pow2 1000)%Q ->
  sf_finite (SFsub prec emax x y)
  /\ rounded (SF2Q x - SF2Q y) (SF2Q (SFsub prec emax x y)).
Proof.
  intros Vx Vy Fx Fy Hlo Hhi. rewrite SFsub_add by done.
  pose proof (SF2Q_opp y) as Hopp.
  destruct (SFadd_rounded x (SFopp y)) as [Hfin Hr]; [done|by destruct y|done|by destruct y|lra..|].
  split; [done|]. eapply rounded_ext; [|reflexivity|exact Hr]. lra.
Qed.

(** ** Division *)

Lemma new_location_located (n q r : Z) :
  (0 < n)%Z -> (0 <= r < n)%Z ->
  located_record (inject_Z q + inject_Z r / inject_Z n) (shr_record_of_loc q (new_location n r)).
Proof.
  intros Hn Hr.
  assert (HN : (0 < inject_Z n)%Q) by (by apply (inject_Z_lt_iff 0)).
  set (t := (inject_Z r / inject_Z n)%Q).
  assert (Ht : (t * inject_Z n == inject_Z r)%Q) by (unfold t; field; lra).
  assert (H2 : (inject_Z (2 * r) == 2 * inject_Z r)%Q) by (by rewrite inject_Z_mult).
  assert (Hlt : (2 * r < n)%Z -> (2 * t < 1)%Q).
  { intros H. apply inject_Z_lt_iff in H. nra. }
  assert (Hgt : (n < 2 * r)%Z -> (1 < 2 * t)%Q).
  { intros H. apply inject_Z_lt_iff in H. nra. }
  assert (Heq : (2 * r = n)%Z -> (2 * t == 1)%Q).
  { intros H. rewrite <- H, H2 in Ht. rewrite <- H in HN. rewrite H2 in HN. nra. }
  assert (Ht0 : r <> 0%Z -> (0 < t)%Q).
  { intros H. assert (0 < inject_Z r)%Q by (apply (inject_Z_lt_iff 0); lia). nra. }
  assert (Ht1 : (t < 1)%Q).
  { assert (inject_Z r < inject_Z n)%Q by (apply inject_Z_lt_iff; lia). nra. }
  apply located_of_loc. unfold new_location, new_location_even, new_location_odd.
  destruct (Z.even n) eqn:Hev;
    match goal with |- context [if ?b then _ else _] => destruct b eqn:Hr0 end;
    try (apply Z.eqb_eq in Hr0;
         assert (t == 0)%Q as H0
           by (unfold t; rewrite Hr0; change (inject_Z 0) with 0%Q; field; lra);
         unfold located; lra);
    apply Z.eqb_neq in Hr0; specialize (Ht0 Hr0).
  - match goal with
    | |- context [IntDef.Z.compare ?a ?b] =>
        change (IntDef.Z.compare a b) with (2 * r ?= n)%Z
    end.
    destruct (Z.compare_spec (2 * r) n) as [Hc|Hc|Hc]; unfold located;
      [specialize (Heq Hc) | specialize (Hlt Hc) | specialize (Hgt Hc)]; lra.
  - assert (Hodd : (2 * r <> n)%Z).
    { intros <-. rewrite Z.even_mul in Hev. discriminate. }
    match goal with
    | |- context [IntDef.Z.compare ?a ?b] =>
        change (IntDef.Z.compare a b) with (2 * r + 1 ?= n)%Z
    end.
    destruct (Z.compare_spec (2 * r + 1) n) as [Hc|Hc|Hc]; unfold located;
      [specialize (Hlt ltac:(lia)) | specialize (Hlt ltac:(lia))
       | specialize (Hgt ltac:(lia))]; lra.
Qed.

Lemma SFdiv_core_binary_spec (mx my : positive) (ex ey : Z) :
  valid_binary (S754_finite false mx ex) = true ->
  valid_binary (S754_finite false my ey) = true ->
  exists q e l x,
    SFdiv_core_binary prec emax (Z.pos mx) ex (Z.pos my) ey = (q, e, l)
    /\ (0 <= q)%Z
    /\ located_record x (shr_record_of_loc q l)
    /\ (e <= fexp prec emax (Zdigits2 q + e))%Z
    /\ (x * pow2 e * (inject_Z (Z.pos my) * pow2 ey) == inject_Z (Z.pos mx) * pow2 ex)%Q.
Proof.
  intros [Cx Ex]%valid_finite_canonical [Cy Ey]%valid_finite_canonical.
  unfold SFdiv_core_binary. cbn [Zdigits2]. rewrite !fexp_eq.
  destruct (digits2_pos_bounds mx) as [Hx1 Hx2]. destruct (digits2_pos_bounds my) as [Hy1 Hy2].
  set (d1 := Z.pos (digits2_pos mx)) in *. set (d2 := Z.pos (digits2_pos my)) in *.
  set (e' := Z.min (Z.max (d1 + ex - (d2 + ey) - 53) (-1074)) (ex - ey)).
  set (s := (ex - ey - e')%Z).
  assert (Hs : (0 <= s)%Z) by lia.
  set (m' := match s with
             | 0%Z => Z.pos mx
             | Z.pos _ => Z.shiftl (Z.pos mx) s
             | Z.neg _ => 0%Z
             end).
  assert (Hm' : m' = (Z.pos mx * 2 ^ s)%Z).
  { unfold m'. destruct s as [|p|p] eqn:Hsp; [lia | | lia].
    by rewrite Z.shiftl_mul_pow2 by lia. }
  clearbody m'.
  pose proof (Z_div_mod m' (Z.pos my) ltac:(lia)) as Hdm.
  destruct (Z.div_eucl m' (Z.pos my)) as [q r]. destruct Hdm as [Hdiv Hr].
  assert (H2s : (0 < 2 ^ s)%Z) by (apply Z.pow_pos_nonneg; lia).
  assert (Hq0 : (0 <= q)%Z) by nia.
  exists q, e', (new_location (Z.pos my) r),
    (inject_Z q + inject_Z r / inject_Z (Z.pos my))%Q.
  split_and!.
  - reflexivity.
  - done.
  - apply new_location_located; lia.
  - rewrite fexp_eq. pose proof (Zdigits2_nonneg q).
    destruct (Z_le_gt_dec e' (-1074)) as [|Hgt]; [lia|].
    assert (Hj : (0 <= d1 - 1 + s - d2)%Z) by lia.
    assert (2 ^ (d1 - 1 + s - d2) <= q)%Z as Hq.
    { assert (2 ^ (d1 - 1 + s - d2) * 2 ^ d2 = 2 ^ (d1 - 1) * 2 ^ s)%Z as Hpow.
      { rewrite <- !Z.pow_add_r by lia. f_equal. lia. }
      assert (0 < 2 ^ (d1 - 1 + s - d2))%Z by (apply Z.pow_pos_nonneg; lia).
      destruct (Z_le_gt_dec (2 ^ (d1 - 1 + s - d2)) q) as [|Hlt]; [done|]. nia. }
    pose proof (Zdigits2_ge q _ Hj Hq). lia.
  - assert (HN : (0 < inject_Z (Z.pos my))%Q) by (by apply (inject_Z_lt_iff 0)).
    assert (Hx : ((inject_Z q + inject_Z r / inject_Z (Z.pos my)) * inject_Z (Z.pos my)
                  == inject_Z m')%Q).
    { rewrite Hdiv, inject_Z_plus, inject_Z_mult. field. lra. }
    rewrite Hm', inject_Z_mult, <- pow2_Z in Hx by done.
    assert (Hp : (pow2 s * pow2 e' * pow2 ey == pow2 ex)%Q).
    { rewrite <- !pow2_add. by replace (s + e' + ey)%Z with ex by lia. }
    set (X := (inject_Z q + inject_Z r / inject_Z (Z.pos my))%Q) in *.
    transitivity (X * inject_Z (Z.pos my) * (pow2 e' * pow2 ey))%Q; [ring|].
    rewrite Hx, <- Hp. ring.
Qed.

Lemma SFdiv_rounded (x y : spec_float) :
  valid_binary x = true -> valid_binary y = true -> sf_finite x -> sf_finite y ->
  ~ (SF2Q y == 0)%Q ->
  (- pow2 1000 < SF2Q x / SF2Q y)%Q -> (SF2Q x / SF2Q y < pow2 1000)%Q ->
  sf_finite (SFdiv prec emax x y)
  /\ rounded (SF2Q x / SF2Q y) (SF2Q (SFdiv prec emax x y)).
Proof.
  intros Vx Vy Fx Fy Hy0 Hlo Hhi.
  destruct x as [sx|sx| |sx mx ex]; try done; destruct y as [sy|sy| |sy my ey]; try done;
    cbn [SFdiv]; try (exfalso; apply Hy0; reflexivity).
  - split; [done|]. eapply rounded_ext; [| |exact rounded_zero]; [|reflexivity].
    cbn [SF2Q]. unfold Qdiv. ring.
  - destruct (SFdiv_core_binary_spec mx my ex ey) as (q & e & l & X & -> & Hq & Hloc & He & HX);
      [done..|].
    pose proof (pow2_pos ey) as Hpey. pose proof (pow2_pos ex) as Hpex.
    assert (HN : (0 < inject_Z (Z.pos my))%Q) by (by apply (inject_Z_lt_iff 0)).
    assert (HM : (0 < inject_Z (Z.pos mx))%Q) by (by apply (inject_Z_lt_iff 0)).
    set (v := (X * pow2 e)%Q) in *.
    assert (Hv : (SF2Q (S754_finite sx mx ex) / SF2Q (S754_finite sy my ey)
                  == (if xorb sx sy then - v else v))%Q).
    { cbn [SF2Q].
      assert (v == inject_Z (Z.pos mx) * pow2 ex / (inject_Z (Z.pos my) * pow2 ey))%Q as Hq'.
      { rewrite <- HX. field. split; lra. }
      destruct sx, sy; cbn [xorb]; rewrite Hq'; field; split; lra. }
    assert (Hvbig : (v < pow2 1000)%Q).
    { rewrite Hv in Hlo, Hhi. destruct (xorb sx sy); lra. }
    destruct (binary_round_aux_rounded (xorb sx sy) q e l X Hq Hloc He Hvbig)
      as (z & Hz & Hz0 & Hr & _).
    fold v in Hr. apply sf_mag_is_value in Hz as [Hfin Hval]. split; [done|].
    eapply rounded_ext; [symmetry; exact Hv | symmetry; exact Hval |].
    destruct (xorb sx sy); [by apply rounded_opp | done].
Qed.

(** ** What a rounding cannot cross *)

(** A multiple of the unit that is below the exact value is below its
    rounding. *)
Lemma grid_le (n m e : Z) (v : Q) :
  (inject_Z n * pow2 e <= v)%Q -> (2 * v <= (2 * inject_Z m + 1) * pow2 e)%Q -> (n <= m)%Z.
Proof.
  intros Hn Hm. pose proof (pow2_pos e) as Hp.
  assert (2 * inject_Z n < 2 * inject_Z m + 2)%Q as Hlt by nra.
  assert (inject_Z n < inject_Z (m + 1))%Q as Hlt'.
  { rewrite inject_Z_plus. change (inject_Z 1) with 1%Q. lra. }
  apply (proj1 (inject_Z_lt_iff _ _)) in Hlt'. lia.
Qed.

Lemma grid_ge (n m e : Z) (v : Q) :
  (v <= inject_Z n * pow2 e)%Q -> ((2 * inject_Z m - 1) * pow2 e <= 2 * v)%Q -> (m <= n)%Z.
Proof.
  intros Hn Hm. pose proof (pow2_pos e) as Hp.
  assert (2 * inject_Z m < 2 * inject_Z n + 2)%Q as Hlt by nra.
  assert (inject_Z m < inject_Z (n + 1))%Q as Hlt'.
  { rewrite inject_Z_plus. change (inject_Z 1) with 1%Q. lra. }
  apply (proj1 (inject_Z_lt_iff _ _)) in Hlt'. lia.
Qed.

(** A float whose exponent is at least [e] is a multiple of [2 ^ e]. *)
Lemma float_on_grid s m eg e :
  (e <= eg)%Z ->
  exists n, (SF2Q (S754_finite s m eg) == inject_Z n * pow2 e)%Q.
Proof.
  intros He. exists ((if s then -1 else 1) * (Z.pos m * 2 ^ (eg - e)))%Z.
  cbn [SF2Q]. rewrite !inject_Z_mult, <- pow2_Z by lia.
  rewrite <- (pow2_sub eg e). destruct s; ring.
Qed.

Lemma float_mag_bounds s m e :
  valid_binary (S754_finite s m e) = true ->
  (0 < inject_Z (Z.pos m))%Q /\ (inject_Z (Z.pos m) < pow2 53)%Q
  /\ (-1074 <= e)%Z /\ (e = (-1074)%Z \/ (pow2 52 <= inject_Z (Z.pos m))%Q).
Proof.
  intros [Hc He]%valid_finite_canonical.
  destruct (digits2_pos_bounds m) as [Hlo Hhi]. set (d := Z.pos (digits2_pos m)) in *.
  split_and!.
  - by apply (inject_Z_lt_iff 0).
  - assert (inject_Z (Z.pos m + 1) <= pow2 d)%Q as Hle by (apply inject_Z_pow2; lia).
    rewrite inject_Z_plus in Hle. change (inject_Z 1) with 1%Q in Hle.
    assert (pow2 d <= pow2 53)%Q by (apply pow2_le; lia). lra.
  - lia.
  - destruct (Z.eq_dec e (-1074)%Z) as [|Hne]; [by left|]. right.
    apply pow2_inject_Z; [lia|]. replace 52%Z with (d - 1)%Z by lia. done.
Qed.

Lemma rounded_ge_float (g : spec_float) (v z : Q) :
  valid_binary g = true -> rounded v z -> (SF2Q g <= v)%Q -> (SF2Q g <= z)%Q.
Proof.
  intros Vg (e & m & Hz & He & H1 & H2 & H3 & H4 & H5) Hgv.
  pose proof (pow2_pos e) as Hpe.
  assert (Hgrid : forall n, (SF2Q g == inject_Z n * pow2 e)%Q -> (SF2Q g <= z)%Q).
  { intros n Hn. rewrite Hn in Hgv. pose proof (grid_le n m e v Hgv H2) as Hnm.
    apply inject_Z_le_iff in Hnm. rewrite Hn, Hz. by apply Qmult_pow2_le. }
  assert (Hzero : (0 <= v)%Q -> (0 <= z)%Q).
  { intros Hv. assert (0 <= m)%Z as Hm.
    { apply (grid_le 0 m e v); [|done]. change (inject_Z 0) with 0%Q. lra. }
    apply (inject_Z_le_iff 0) in Hm. change (inject_Z 0) with 0%Q in Hm. rewrite Hz. nra. }
  destruct g as [s|s| |s mg eg]; cbn [SF2Q] in *; try by apply Hzero.
  destruct (float_mag_bounds s mg eg Vg) as (Hm0 & Hm53 & Heg & Hnorm).
  pose proof (pow2_pos eg) as Hpeg.
  destruct (Z_le_gt_dec e eg) as [Hle|Hgt].
  { destruct (float_on_grid s mg eg e Hle) as [n Hn]. by apply (Hgrid n). }
  destruct H5 as [->|[Hv|Hv]]; [lia| |].
  - (* the float is below the binade of [v] *)
    assert (Hw : (pow2 (e + 52) <= z)%Q).
    { assert (inject_Z (2 ^ 52) * pow2 e <= v)%Q as Hw1.
      { rewrite <- pow2_Z by lia. rewrite <- pow2_add. by replace (52 + e)%Z with (e + 52)%Z by lia. }
      pose proof (grid_le (2 ^ 52) m e v Hw1 H2) as Hnm.
      apply inject_Z_le_iff in Hnm. rewrite <- pow2_Z in Hnm by lia.
      rewrite Hz, pow2_add, (Qmult_comm (pow2 e)). by apply Qmult_pow2_le. }
    assert (Hg : (inject_Z (Z.pos mg) * pow2 eg < pow2 (e + 52))%Q).
    { apply Qlt_le_trans with (pow2 53 * pow2 eg)%Q.
      - by apply Qmult_lt_compat_r.
      - rewrite <- pow2_add. apply pow2_le. lia. }
    destruct s; nra.
  - (* [v] is negative and large: so is the float *)
    assert (Hg : (pow2 (e + 52) <= inject_Z (Z.pos mg) * pow2 eg)%Q).
    { destruct s; [lra|]. pose proof (pow2_pos (e + 52)). nra. }
    assert (pow2 (e + 52) < pow2 (53 + eg))%Q as Hlt.
    { rewrite (pow2_add 53 eg). eapply Qle_lt_trans; [exact Hg|].
      by apply Qmult_lt_compat_r. }
    apply pow2_lt_inv in Hlt. lia.
Qed.

Lemma valid_opp (g : spec_float) : valid_binary g = true -> valid_binary (SFopp g) = true.
Proof. by destruct g. Qed.

Lemma rounded_le_float (g : spec_float) (v z : Q) :
  valid_binary g = true -> rounded v z -> (v <= SF2Q g)%Q -> (z <= SF2Q g)%Q.
Proof.
  intros Vg Hr Hgv. pose proof (SF2Q_opp g) as Hopp.
  pose proof (rounded_ge_float (SFopp g) (- v) (- z) (valid_opp g Vg) (rounded_opp _ _ Hr)
                ltac:(lra)). lra.
Qed.

(** An exact value that is a multiple of a unit no finer than the format's
    is its own rounding. *)
Lemma rounded_exact (v z : Q) (n e' : Z) :
  rounded v z -> (v == inject_Z n * pow2 e')%Q -> (-1074 <= e')%Z ->
  (- pow2 (e' + 53) < v)%Q -> (v < pow2 (e' + 53))%Q -> (z == v)%Q.
Proof.
  intros (e & m & Hz & He & H1 & H2 & H3 & H4 & H5) Hv He' Hlo Hhi.
  pose proof (pow2_pos e) as Hpe.
  assert (Hee : (e <= e')%Z).
  { destruct H5 as [->|[H5|H5]]; [done| |].
    - assert (pow2 (e + 52) < pow2 (e' + 53))%Q as Hlt by lra.
      apply pow2_lt_inv in Hlt. lia.
    - assert (pow2 (e + 52) < pow2 (e' + 53))%Q as Hlt by lra.
      apply pow2_lt_inv in Hlt. lia. }
  assert (Hn : (v == inject_Z (n * 2 ^ (e' - e)) * pow2 e)%Q).
  { rewrite Hv, inject_Z_mult, <- pow2_Z by lia. rewrite <- (pow2_sub e' e). ring. }
  set (k := (n * 2 ^ (e' - e))%Z) in *.
  assert (k <= m)%Z by (apply (grid_le k m e v); [lra|done]).
  assert (m <= k)%Z by (apply (grid_ge k m e v); [lra|done]).
  assert (m = k) as -> by lia. by rewrite Hz, Hn.
Qed.

(** ** The order of floats *)

Lemma canonical_lt m1 e1 m2 e2 :
  valid_binary (S754_finite false m1 e1) = true ->
  valid_binary (S754_finite false m2 e2) = true ->
  (e1 < e2)%Z ->
  (inject_Z (Z.pos m1) * pow2 e1 < inject_Z (Z.pos m2) * pow2 e2)%Q.
Proof.
  intros V1 V2 He.
  destruct (float_mag_bounds _ _ _ V1) as (H10 & H153 & He1 & _).
  destruct (float_mag_bounds _ _ _ V2) as (H20 & H253 & He2 & [->|H252]); [lia|].
  pose proof (pow2_pos e1). pose proof (pow2_pos e2).
  apply Qlt_le_trans with (pow2 53 * pow2 e1)%Q; [by apply Qmult_lt_compat_r|].
  apply Qle_trans with (pow2 52 * pow2 e2)%Q; [|by apply Qmult_pow2_le].
  rewrite <- !pow2_add. apply pow2_le. lia.
Qed.

Lemma Qcompare_Lt (a b : Q) : (a < b)%Q -> (a ?= b)%Q = Lt.
Proof. apply Qlt_alt. Qed.

Lemma Qcompare_Gt (a b : Q) : (b < a)%Q -> (a ?= b)%Q = Gt.
Proof. apply Qgt_alt. Qed.

Lemma Qcompare_Eq (a b : Q) : (a == b)%Q -> (a ?= b)%Q = Eq.
Proof. apply Qeq_alt. Qed.

Lemma SFcompare_value (x y : spec_float) :
  valid_binary x = true -> valid_binary y = true -> sf_finite x -> sf_finite y ->
  SFcompare x y = Some (SF2Q x ?= SF2Q y)%Q.
Proof.
  intros Vx Vy Fx Fy.
  destruct x as [sx|sx| |sx mx ex]; try done; destruct y as [sy|sy| |sy my ey]; try done;
    cbn [SFcompare SF2Q]; f_equal; symmetry.
  - destruct (float_mag_bounds _ _ _ Vy) as (H0 & _). pose proof (pow2_pos ey).
    destruct sy; [apply Qcompare_Gt | apply Qcompare_Lt]; nra.
  - destruct (float_mag_bounds _ _ _ Vx) as (H0 & _). pose proof (pow2_pos ex).
    destruct sx; [apply Qcompare_Lt | apply Qcompare_Gt]; nra.
  - destruct (float_mag_bounds _ _ _ Vx) as (Hx0 & _).
    destruct (float_mag_bounds _ _ _ Vy) as (Hy0 & _).
    pose proof (pow2_pos ex) as Hpx. pose proof (pow2_pos ey) as Hpy.
    assert (Hmag : match (ex ?= ey)%Z with
                   | Lt => (inject_Z (Z.pos mx) * pow2 ex < inject_Z (Z.pos my) * pow2 ey)%Q
                   | Gt => (inject_Z (Z.pos my) * pow2 ey < inject_Z (Z.pos mx) * pow2 ex)%Q
                   | Eq =>
                       match (mx ?= my)%positive with
                       | Lt => (inject_Z (Z.pos mx) * pow2 ex
                                < inject_Z (Z.pos my) * pow2 ey)%Q
                       | Gt => (inject_Z (Z.pos my) * pow2 ey
                                < inject_Z (Z.pos mx) * pow2 ex)%Q
                       | Eq => (inject_Z (Z.pos mx) * pow2 ex
                                == inject_Z (Z.pos my) * pow2 ey)%Q
                       end
                   end).
    { destruct (Z.compare_spec ex ey) as [->|He|He].
      - destruct (Pos.compare_spec mx my) as [->|Hm|Hm].
        + reflexivity.
        + apply Qmult_lt_compat_r; [done|]. by apply inject_Z_lt_iff.
        + apply Qmult_lt_compat_r; [done|]. by apply inject_Z_lt_iff.
      - apply canonical_lt; [by destruct sx | by destruct sy | done].
      - apply canonical_lt; [by destruct sy | by destruct sx | done]. }
    change (Pos.compare_cont Eq mx my) with (mx ?= my)%positive.
    change (IntDef.Z.compare ex ey) with (ex ?= ey)%Z.
    destruct sx, sy.
    + destruct (ex ?= ey)%Z; [destruct (mx ?= my)%positive|..]; cbn [CompOpp];
        first [apply Qcompare_Eq | apply Qcompare_Lt | apply Qcompare_Gt]; lra.
    + apply Qcompare_Lt. nra.
    + apply Qcompare_Gt. nra.
    + destruct (ex ?= ey)%Z; [destruct (mx ?= my)%positive|..];
        first [apply Qcompare_Eq | apply Qcompare_Lt | apply Qcompare_Gt]; lra.
Qed.

Lemma SFleb_value (x y : spec_float) :
  valid_binary x = true -> valid_binary y = true -> sf_finite x -> sf_finite y ->
  SFleb x y = true <-> (SF2Q x <= SF2Q y)%Q.
Proof.
  intros Vx Vy Fx Fy. unfold SFleb. rewrite SFcompare_value by done.
  rewrite Qle_alt. by destruct (SF2Q x ?= SF2Q y)%Q.
Qed.

Lemma SFltb_value (x y : spec_float) :
  valid_binary x = true -> valid_binary y = true -> sf_finite x -> sf_finite y ->
  SFltb x y = true <-> (SF2Q x < SF2Q y)%Q.
Proof.
  intros Vx Vy Fx Fy. unfold SFltb. rewrite SFcompare_value by done.
  rewrite Qlt_alt. by destruct (SF2Q x ?= SF2Q y)%Q.
Qed.

(** ** Binary64 operations *)

Lemma finite_sf (x : float) : finite x <-> sf_finite (Prim2SF x).
Proof. unfold finite, sf_finite. by destruct (Prim2SF x). Qed.

Lemma float_leb_iff (x y : float) :
  finite x -> finite y -> (x <=? y)%float = true <-> (FQ x <= FQ y)%Q.
Proof.
  intros Fx%finite_sf Fy%finite_sf. rewrite leb_spec.
  apply SFleb_value; [apply Prim2SF_valid..|done|done].
Qed.

Lemma float_ltb_iff (x y : float) :
  finite x -> finite y -> (x <? y)%float = true <-> (FQ x < FQ y)%Q.
Proof.
  intros Fx%finite_sf Fy%finite_sf. rewrite ltb_spec.
  apply SFltb_value; [apply Prim2SF_valid..|done|done].
Qed.

Lemma float_add_rounded (x y : float) :
  finite x -> finite y ->
  (- pow2 1000 < FQ x + FQ y)%Q -> (FQ x + FQ y < pow2 1000)%Q ->
  finite (x + y) /\ rounded (FQ x + FQ y) (FQ (x + y)).
Proof.
  intros Fx%finite_sf Fy%finite_sf Hlo Hhi. rewrite finite_sf. unfold FQ. rewrite add_spec.
  apply SFadd_rounded; [apply Prim2SF_valid..|done|done|done|done].
Qed.

Lemma float_sub_rounded (x y : float) :
  finite x -> finite y ->
  (- pow2 1000 < FQ x - FQ y)%Q -> (FQ x - FQ y < pow2 1000)%Q ->
  finite (x - y) /\ rounded (FQ x - FQ y) (FQ (x - y)).
Proof.
  intros Fx%finite_sf Fy%finite_sf Hlo Hhi. rewrite finite_sf. unfold FQ. rewrite sub_spec.
  apply SFsub_rounded; [apply Prim2SF_valid..|done|done|done|done].
Qed.

Lemma float_mul_rounded (x y : float) :
  finite x -> finite y ->
  (- pow2 1000 < FQ x * FQ y)%Q -> (FQ x * FQ y < pow2 1000)%Q ->
  finite (x * y) /\ rounded (FQ x * FQ y) (FQ (x * y)).
Proof.
  intros Fx%finite_sf Fy%finite_sf Hlo Hhi. rewrite finite_sf. unfold FQ. rewrite mul_spec.
  apply SFmul_rounded; [apply Prim2SF_valid..|done|done|done|done].
Qed.

Lemma float_div_rounded (x y : float) :
  finite x -> finite y -> ~ (FQ y == 0)%Q ->
  (- pow2 1000 < FQ x / FQ y)%Q -> (FQ x / FQ y < pow2 1000)%Q ->
  finite (x / y) /\ rounded (FQ x / FQ y) (FQ (x / y)).
Proof.
  intros Fx%finite_sf Fy%finite_sf Hy Hlo Hhi. rewrite finite_sf. unfold FQ. rewrite div_spec.
  apply SFdiv_rounded; [apply Prim2SF_valid..|done|done|done|done|done].
Qed.

(** A rounding does not cross a float. *)
Lemma rounded_ge (g : float) (v z : Q) : rounded v z -> (FQ g <= v)%Q -> (FQ g <= z)%Q.
Proof. apply rounded_ge_float, Prim2SF_valid. Qed.

Lemma rounded_le (g : float) (v z : Q) : rounded v z -> (v <= FQ g)%Q -> (z <= FQ g)%Q.
Proof. apply rounded_le_float, Prim2SF_valid. Qed.

Lemma FQ_0 : (FQ 0 == 0)%Q.
Proof. reflexivity. Qed.

Lemma FQ_1 : (FQ 1 == 1)%Q.
Proof. reflexivity. Qed.

Lemma rounded_nonneg (v z : Q) : rounded v z -> (0 <= v)%Q -> (0 <= z)%Q.
Proof. intros Hr Hv. rewrite <- FQ_0 in Hv |- *. by apply (rounded_ge 0 v z). Qed.

Lemma rounded_le_one (v z : Q) : rounded v z -> (v <= 1)%Q -> (z <= 1)%Q.
Proof. intros Hr Hv. rewrite <- FQ_1 in Hv |- *. by apply (rounded_le 1 v z). Qed.

Lemma pow2_1000_big (x : Q) : (x <= pow2 53)%Q -> (x < pow2 1000)%Q.
Proof. intros Hx. eapply Qle_lt_trans; [exact Hx|]. by apply pow2_lt. Qed.

Lemma in_unit_iff (x : float) : in_unit x <-> finite x /\ (0 <= FQ x)%Q /\ (FQ x <= 1)%Q.
Proof.
  unfold in_unit. split.
  - intros [H0 H1].
    assert (Fx : finite x).
    { rewrite leb_spec in H0, H1. unfold finite.
      destruct (Prim2SF x) as [s|[]| |s m e]; try done. }
    split; [done|]. rewrite <- FQ_0, <- FQ_1.
    split; by apply float_leb_iff.
  - intros (Fx & H0 & H1). rewrite <- FQ_0 in H0. rewrite <- FQ_1 in H1.
    split; by apply float_leb_iff.
Qed.

(** The float of a count below [2 ^ 53] is that count. *)
Lemma float_of_Z_value (z : Z) :
  (- 2 ^ 53 < z < 2 ^ 53)%Z ->
  finite (float_of_Z z) /\ (FQ (float_of_Z z) == inject_Z z)%Q.
Proof.
  intros Hz. unfold float_of_Z, FQ.
  assert (Hq : (- pow2 53 < inject_Z z)%Q /\ (inject_Z z < pow2 53)%Q).
  { rewrite pow2_Z by lia. rewrite <- inject_Z_opp. split; apply inject_Z_lt_iff; lia. }
  destruct (binary_normalize_rounded z 0) as (Hfin & Hr & Hvalid).
  { change (pow2 0) with 1%Q. pose proof (pow2_1000_big (- inject_Z z)). lra. }
  { change (pow2 0) with 1%Q. pose proof (pow2_1000_big (inject_Z z)). lra. }
  rewrite finite_sf, Prim2SF_SF2Prim by done. split; [done|].
  change (pow2 0) with 1%Q in Hr.
  rewrite (rounded_exact _ _ z 0 Hr); [ring|change (pow2 0) with 1%Q; ring|lia|..];
    change (0 + 53)%Z with 53%Z; lra.
Qed.

Lemma float_of_nat_value (n : nat) :
  (Z.of_nat n < 2 ^ 53)%Z ->
  finite (of_nat (num := float) n) /\ (FQ (of_nat n) == inject_Z (Z.of_nat n))%Q.
Proof. intros Hn. apply float_of_Z_value. lia. Qed.

(** ** Rows *)

Section RowFacts.
Context {num : Type} `{Number num}.
Implicit Types (r : row num) (a b : string) (v : num).

Lemma row_get_set_eq a v r : row_get a (row_set a v r) = Some v.
Proof.
  induction r as [|[k w] r IH]; simpl.
  - by rewrite String.eqb_refl.
  - destruct (String.eqb k a) eqn:E; simpl; rewrite E; auto.
Qed.

Lemma row_get_set_ne a b v r : a <> b -> row_get b (row_set a v r) = row_get b r.
Proof.
  intros Hne. induction r as [|[k w] r IH]; simpl.
  - destruct (String.eqb a b) eqn:E; [apply String.eqb_eq in E; done | done].
  - destruct (String.eqb k a) eqn:E; simpl.
    + apply String.eqb_eq in E. subst k.
      destruct (String.eqb a b) eqn:E'; [apply String.eqb_eq in E'; done | done].
    + destruct (String.eqb k b); auto.
Qed.

Lemma row_get_None_keys a r : row_get a r = None <-> a ∉ r.*1.
Proof.
  induction r as [|[k w] r IH]; simpl.
  - split; [intros _; apply not_elem_of_nil | done].
  - destruct (String.eqb k a) eqn:E.
    + apply String.eqb_eq in E. subst.
      split; [done | intros Hn; exfalso; apply Hn; left].
    + apply String.eqb_neq in E. rewrite IH, not_elem_of_cons. intuition congruence.
Qed.

Lemma row_set_keys_present a v r : a ∈ r.*1 -> (row_set a v r).*1 = r.*1.
Proof.
  induction r as [|[k w] r IH]; simpl; [by intros ?%elem_of_nil|].
  intros Hin. destruct (String.eqb k a) eqn:E; simpl; [done|].
  apply String.eqb_neq in E. f_equal. apply IH.
  apply elem_of_cons in Hin as [->|]; done.
Qed.

Lemma row_set_fresh a v r : a ∉ r.*1 -> row_set a v r = (r ++ [(a, v)])%list.
Proof.
  induction r as [|[k w] r IH]; simpl; [done|].
  intros [Hk Hr]%not_elem_of_cons.
  destruct (String.eqb k a) eqn:E; [apply String.eqb_eq in E; done|].
  by rewrite IH.
Qed.

Lemma row_set_NoDup a v r : NoDup r.*1 -> NoDup (row_set a v r).*1.
Proof.
  intros Hnd. destruct (decide (a ∈ r.*1)) as [Hin|Hout].
  - by rewrite row_set_keys_present.
  - rewrite row_set_fresh, fmap_app by done. simpl.
    apply NoDup_app. split_and!; [done | | apply NoDup_singleton].
    intros x Hx ->%list_elem_of_singleton. done.
Qed.

Lemma fold_row_set_get (actions : list string) r a :
  row_get a (fold_left (fun r a => row_set a (of_Z 0) r) actions r)
  = if decide (a ∈ actions) then Some (of_Z 0) else row_get a r.
Proof.
  revert r. induction actions as [|b actions IH]; intros r; simpl.
  - destruct (decide (a ∈ [])) as [Hd|_]; [by apply elem_of_nil in Hd | done].
  - rewrite IH. destruct (decide (a ∈ actions)) as [Hin|Hout].
    + rewrite decide_True; [done | by right].
    + destruct (decide (b = a)) as [->|Hne].
      * rewrite decide_True by left. apply row_get_set_eq.
      * rewrite decide_False by (rewrite elem_of_cons; intuition congruence).
        by apply row_get_set_ne.
Qed.

Lemma row_get_zero_row (actions : list string) a :
  row_get a (zero_row actions) = if decide (a ∈ actions) then Some (of_Z 0) else None.
Proof. unfold zero_row. by rewrite fold_row_set_get. Qed.

Lemma fold_row_set_NoDup (actions : list string) r :
  NoDup r.*1 -> NoDup (fold_left (fun r a => row_set a (of_Z 0) r) actions r).*1.
Proof.
  revert r. induction actions as [|b actions IH]; intros r Hnd; simpl; [done|].
  apply IH. by apply row_set_NoDup.
Qed.

Lemma zero_row_NoDup (actions : list string) : NoDup (zero_row actions).*1.
Proof. apply fold_row_set_NoDup. constructor. Qed.

(** The canonical row, written out. *)
Lemma zero_row_canonical :
  zero_row canonical_actions
  = [("chunk_small", of_Z 0); ("chunk_medium", of_Z 0); ("chunk_large", of_Z 0);
     ("similarity_standard", of_Z 0); ("similarity_mmr", of_Z 0)].
Proof. reflexivity. Qed.

End RowFacts.

(** ** The maximum that [max] returns *)

Section MaxFacts.
Context {num : Type} `{Ordered num}.
Implicit Types (r pre mid post : row num) (best m : string * num).

Lemma nlt_trans (x y z : num) :
  comparable z -> (x <? y)%num = true -> (y <? z)%num = true -> (x <? z)%num = true.
Proof.
  intros Hz Hxy Hyz.
  destruct (nlt_cotrans x z y Hz Hxy) as [Hxz|Hzy]; [done|].
  apply nlt_asym in Hyz. congruence.
Qed.

(** The loop keeps, of the items seen, the first of those no other exceeds:
    with [pre] the items before the best one and [mid] the items seen since,
    the items of [pre] are smaller and those of [mid] are not greater. *)
Lemma max_item_from_split best r pre mid :
  Forall (fun y => comparable (snd y)) (mid ++ r) ->
  (forall y, y ∈ pre -> (snd y <? snd best)%num = true) ->
  (forall y, y ∈ mid -> (snd best <? snd y)%num = false) ->
  exists pre' post,
    (pre ++ best :: mid ++ r)%list = (pre' ++ max_item_from best r :: post)%list
    /\ (forall y, y ∈ pre' -> (snd y <? snd (max_item_from best r))%num = true)
    /\ (forall y, y ∈ post -> (snd (max_item_from best r) <? snd y)%num = false).
Proof.
  revert best pre mid. induction r as [|x r IH]; intros best pre mid Hc Hpre Hmid; simpl.
  - exists pre, mid. by rewrite app_nil_r.
  - apply Forall_app in Hc as [Hcm Hcr].
    pose proof (Forall_inv Hcr) as Hx. apply Forall_inv_tail in Hcr.
    destruct (snd best <? snd x)%num eqn:E.
    + destruct (IH x (pre ++ best :: mid)%list []) as (pre' & post & Heq & Hlt & Hge).
      * done.
      * intros y [Hy|Hy]%elem_of_app.
        { apply nlt_trans with (snd best); auto. }
        apply elem_of_cons in Hy as [->|Hy]; [done|].
        rewrite Forall_forall in Hcm.
        destruct (nlt_cotrans (snd best) (snd y) (snd x) (Hcm y Hy) E) as [Hby|Hyx]; [|done].
        rewrite Hmid in Hby; done.
      * by intros y ?%elem_of_nil.
      * exists pre', post. split; [|done].
        rewrite <- Heq. by rewrite <- !app_assoc.
    + destruct (IH best pre (mid ++ [x])%list) as (pre' & post & Heq & Hlt & Hge).
      * rewrite <- app_assoc. apply Forall_app. split; [done|]. by constructor.
      * done.
      * intros y [Hy|Hy]%elem_of_app; [auto|].
        by apply list_elem_of_singleton in Hy as ->.
      * exists pre', post. split; [|done].
        rewrite <- Heq. by rewrite <- !app_assoc.
Qed.

(** [max(r.items(), key=...)] of a row that is not empty is its first maximal
    item. *)
Lemma max_item_first_maximal r :
  r <> [] ->
  Forall comparable r.*2 ->
  exists m pre post,
    max_item r = Some m
    /\ r = (pre ++ m :: post)%list
    /\ (forall y, y ∈ pre -> (snd y <? snd m)%num = true)
    /\ (forall y, y ∈ post -> (snd m <? snd y)%num = false).
Proof.
  destruct r as [|x r]; [done|]. intros _ Hc.
  rewrite fmap_cons in Hc. apply Forall_inv_tail in Hc. rewrite Forall_fmap in Hc.
  destruct (max_item_from_split x r [] []) as (pre & post & Heq & Hlt & Hge).
  - exact Hc.
  - by intros y ?%elem_of_nil.
  - by intros y ?%elem_of_nil.
  - exists (max_item_from x r), pre, post. done.
Qed.

Lemma max_from_values best r :
  max_from (snd best) r.*2 = snd (max_item_from best r).
Proof.
  revert best. induction r as [|x r IH]; intros best; simpl; [done|].
  destruct (snd best <? snd x)%num; apply IH.
Qed.

Lemma py_max_values r : py_max r.*2 = snd <$> max_item r.
Proof. destruct r as [|x r]; simpl; [done|]. f_equal. apply max_from_values. Qed.

(** [max(r.values())] of a row that is not empty is one of its values, and
    none of them is greater. *)
Lemma py_max_maximum r :
  r <> [] ->
  Forall comparable r.*2 ->
  exists v, py_max r.*2 = Some v /\ v ∈ r.*2 /\ forall w, w ∈ r.*2 -> (v <? w)%num = false.
Proof.
  intros Hne Hc.
  destruct (max_item_first_maximal r Hne Hc) as (m & pre & post & Hm & Hr & Hlt & Hge).
  exists (snd m). rewrite py_max_values, Hm. split; [done|].
  subst r. split.
  - rewrite fmap_app, fmap_cons. apply elem_of_app. right. left.
  - intros w (y & -> & Hy)%list_elem_of_fmap.
    apply elem_of_app in Hy as [Hy|Hy].
    + apply nlt_asym. auto.
    + apply elem_of_cons in Hy as [->|Hy]; [|auto].
      destruct (snd m <? snd m)%num eqn:E; [|done].
      pose proof (nlt_asym _ _ E). congruence.
Qed.

End MaxFacts.

(** ** The value update *)

Section UpdateFacts.
Context {num : Type} `{Number num}.
Implicit Types (ag : RLAgent num) (t : gmap string (row num)) (s a : string).

Lemma ensure_row_same s actions t :
  ensure_row s actions t !! s = Some (default (zero_row actions) (t !! s)).
Proof.
  unfold ensure_row. destruct (t !! s) as [r|] eqn:E; simpl; [done|].
  apply lookup_insert_eq.
Qed.

Lemma ensure_row_other s s' actions t :
  s <> s' -> ensure_row s actions t !! s' = t !! s'.
Proof.
  intros Hne. unfold ensure_row. destruct (t !! s) as [r|] eqn:E; [done|].
  by apply lookup_insert_ne.
Qed.

Lemma ensure_row_seen s actions t : is_Some (t !! s) -> ensure_row s actions t = t.
Proof. intros [r Hr]. unfold ensure_row. by rewrite Hr. Qed.

Lemma q_value_ensure_row s a t :
  q_value (ensure_row s canonical_actions t) s a
  = match t !! s with
    | Some r => row_get a r
    | None => if decide (a ∈ canonical_actions) then Some (of_Z 0) else None
    end.
Proof.
  unfold q_value. rewrite ensure_row_same.
  destruct (t !! s) as [r|]; [done|].
  change (row_get a (zero_row canonical_actions)
          = if decide (a ∈ canonical_actions) then Some (of_Z 0) else None).
  apply row_get_zero_row.
Qed.

(** The update, when the action is a key of the row and the next row, if one
    is consulted, is not empty. *)
Lemma update_q_value_ok ag s a reward next_state old next_q :
  q_value (ensure_row s canonical_actions (q_table ag)) s a = Some old ->
  max_next_q (ensure_row s canonical_actions (q_table ag)) next_state = Ok next_q ->
  exists ag',
    update_q_value ag s a reward next_state = (ag', Ok tt)
    /\ q_value (q_table ag') s a = Some (q_update ag old reward next_q)
    /\ (forall a', a' <> a ->
          q_value (q_table ag') s a'
          = q_value (ensure_row s canonical_actions (q_table ag)) s a')
    /\ (forall s', s' <> s -> q_table ag' !! s' = q_table ag !! s')
    /\ learning_rate ag' = learning_rate ag
    /\ discount_factor ag' = discount_factor ag
    /\ exploration_rate ag' = exploration_rate ag.
Proof.
  intros Hold Hnext. unfold update_q_value. rewrite Hnext.
  unfold q_value in Hold |- *. rewrite ensure_row_same in Hold |- *. simpl in Hold |- *.
  rewrite Hold. eexists. split; [reflexivity|]. simpl. split_and!; try done.
  - rewrite lookup_insert_eq. simpl. apply row_get_set_eq.
  - intros a' Hne. rewrite lookup_insert_eq. simpl. by apply row_get_set_ne.
  - intros s' Hne. rewrite lookup_insert_ne by done. by apply ensure_row_other.
Qed.

(** The update of an action that is no key of the row: only the lazy
    initialisation is done. *)
Lemma update_q_value_missing ag s a reward next_state next_q :
  q_value (ensure_row s canonical_actions (q_table ag)) s a = None ->
  max_next_q (ensure_row s canonical_actions (q_table ag)) next_state = Ok next_q ->
  update_q_value ag s a reward next_state
  = (set_q_table (ensure_row s canonical_actions (q_table ag)) ag, Raise (KeyError a)).
Proof.
  intros Hold Hnext. unfold update_q_value. rewrite Hnext.
  unfold q_value in Hold. rewrite ensure_row_same in Hold |- *. simpl in Hold |- *.
  by rewrite Hold.
Qed.

Lemma max_next_q_cases `{!Ordered num} t ns :
  max_next_q t None = Ok (of_Z 0)
  /\ max_next_q t (Some "") = Ok (of_Z 0)
  /\ (t !! ns = None -> max_next_q t (Some ns) = Ok (of_Z 0))
  /\ (forall r, ns <> "" -> t !! ns = Some r -> r <> [] -> Forall comparable r.*2 ->
        exists v, max_next_q t (Some ns) = Ok v
                  /\ v ∈ r.*2 /\ forall w, w ∈ r.*2 -> (v <? w)%num = false).
Proof.
  split_and!; try done.
  - intros Hns. unfold max_next_q. destruct (String.eqb ns ""); [done|]. by rewrite Hns.
  - intros r Hne Hr Hnil Hc. unfold max_next_q.
    destruct (String.eqb ns "") eqn:E; [by apply String.eqb_eq in E|].
    rewrite Hr. change (map snd r) with r.*2.
    destruct (py_max_maximum r Hnil Hc) as (v & Hv & Hin & Hmax).
    exists v. by rewrite Hv.
Qed.

End UpdateFacts.

(** ** The update on a fresh row *)

Lemma fresh_row_value {num : Type} `{Number num} (ag : RLAgent num) s a :
  q_table ag !! s = None ->
  a ∈ canonical_actions ->
  q_value (ensure_row s canonical_actions (q_table ag)) s a = Some (of_Z 0).
Proof. intros Hs Ha. rewrite q_value_ensure_row, Hs. by rewrite decide_True. Qed.

Lemma fresh_row_update {num : Type} `{Number num} (ag : RLAgent num) s a reward :
  q_table ag !! s = None ->
  a ∈ canonical_actions ->
  exists ag',
    update_q_value ag s a reward None = (ag', Ok tt)
    /\ q_value (q_table ag') s a = Some (q_update ag (of_Z 0) reward (of_Z 0)).
Proof.
  intros Hs Ha.
  destruct (update_q_value_ok ag s a reward None (of_Z 0) (of_Z 0))
    as (ag' & Hup & Hv & _); [by apply fresh_row_value | done |].
  by exists ag'.
Qed.

(** Binary64: a zero learning rate keeps a zero value, whatever finite reward
    and discount factor. *)
Lemma float_zero_rate (reward df : float) :
  finite reward -> finite df ->
  (0 + 0 * (reward + df * 0 - 0))%float = 0%float.
Proof.
  unfold finite. intros Hr Hd. apply Prim2SF_inj.
  rewrite add_spec, mul_spec, sub_spec, add_spec, mul_spec.
  change (Prim2SF 0) with (S754_zero false).
  destruct (Prim2SF reward) as [sr| | |sr mr er], (Prim2SF df) as [sd| | |sd md ed];
    try contradiction; try destruct sr; try destruct sd; reflexivity.
Qed.

Lemma Q_zero_rate (lr df reward : Q) :
  (lr == 0)%Q -> (0 + lr * (reward + df * 0 - 0) == 0)%Q.
Proof. intros ->. ring. Qed.

Lemma Q_unit_rate (lr df reward : Q) :
  (lr == 1)%Q -> (df == 0)%Q -> (0 + lr * (reward + df * 0 - 0) == reward)%Q.
Proof. intros -> ->. ring. Qed.

(** C1 (amended).  [update_q_value(s, a, r, s')]: when [a] is a key of the row
    of [s] (the row the table has, or the five canonical zeros it is given
    when [s] is unseen) and the next row, if consulted, is not empty, the call
    returns and replaces [Q[s][a]] by
    [Q[s][a] + learning_rate * (r + discount_factor * maxNextQ - Q[s][a])],
    leaving every other action of the row and every other state as they were;
    when [a] is no key of the row, [KeyError] is raised with only the lazy
    initialisation done.  [maxNextQ] is 0 when [s'] is [None], when it is the
    empty string and when it is no key of the table, and otherwise the maximum
    of its row: one of the row's values, exceeded by none (values that compare:
    no NaN).  On a fresh row, in binary64, [reward=1, discount_factor=0,
    learning_rate=1] gives exactly [1.0], and [learning_rate=0] gives exactly
    [0.0] for every finite reward and discount factor; in exact arithmetic
    [learning_rate=0] gives 0 for every reward. *)
Theorem update_q_value_rule :
  (forall (num : Type) (N : Number num) (ag : RLAgent num) (s a : string) (reward : num)
          (next_state : option string) (old next_q : num),
      q_value (ensure_row s canonical_actions (q_table ag)) s a = Some old ->
      max_next_q (ensure_row s canonical_actions (q_table ag)) next_state = Ok next_q ->
      exists ag',
        update_q_value ag s a reward next_state = (ag', Ok tt)
        /\ q_value (q_table ag') s a
           = Some (old + learning_rate ag * (reward + discount_factor ag * next_q - old))%num
        /\ (forall a', a' <> a ->
              q_value (q_table ag') s a'
              = q_value (ensure_row s canonical_actions (q_table ag)) s a')
        /\ (forall s', s' <> s -> q_table ag' !! s' = q_table ag !! s'))
  /\ (forall (num : Type) (N : Number num) (ag : RLAgent num) (s a : string) (reward : num)
             (next_state : option string) (next_q : num),
        q_value (ensure_row s canonical_actions (q_table ag)) s a = None ->
        max_next_q (ensure_row s canonical_actions (q_table ag)) next_state = Ok next_q ->
        update_q_value ag s a reward next_state
        = (set_q_table (ensure_row s canonical_actions (q_table ag)) ag, Raise (KeyError a)))
  /\ (forall (num : Type) (N : Number num) (t : gmap string (row num)) (s a : string),
        q_value (ensure_row s canonical_actions t) s a
        = match t !! s with
          | Some r => row_get a r
          | None => if decide (a ∈ canonical_actions) then Some (of_Z 0) else None
          end)
  /\ (forall (num : Type) (N : Number num) (O : Ordered num) (t : gmap string (row num))
             (ns : string),
        max_next_q t None = Ok (of_Z 0)
        /\ max_next_q t (Some "") = Ok (of_Z 0)
        /\ (t !! ns = None -> max_next_q t (Some ns) = Ok (of_Z 0))
        /\ (forall r, ns <> "" -> t !! ns = Some r -> r <> [] -> Forall comparable r.*2 ->
              exists v, max_next_q t (Some ns) = Ok v
                        /\ v ∈ r.*2 /\ forall w, w ∈ r.*2 -> (v <? w)%num = false))
  /\ (forall (ag : RLAgent float) (s a : string),
        q_table ag !! s = None -> a ∈ canonical_actions ->
        learning_rate ag = 1%float -> discount_factor ag = 0%float ->
        exists ag', update_q_value ag s a 1%float None = (ag', Ok tt)
                    /\ q_value (q_table ag') s a = Some 1%float)
  /\ (forall (ag : RLAgent float) (s a : string) (reward : float),
        q_table ag !! s = None -> a ∈ canonical_actions ->
        learning_rate ag = 0%float -> finite reward -> finite (discount_factor ag) ->
        exists ag', update_q_value ag s a reward None = (ag', Ok tt)
                    /\ q_value (q_table ag') s a = Some 0%float)
  /\ (forall (ag : RLAgent Q) (s a : string) (reward : Q),
        q_table ag !! s = None -> a ∈ canonical_actions ->
        (learning_rate ag == 0)%Q ->
        exists ag' v, update_q_value ag s a reward None = (ag', Ok tt)
                      /\ q_value (q_table ag') s a = Some v /\ (v == 0)%Q).
Proof.
  split_and!.
  - intros num N ag s a reward next_state old next_q Hold Hnext.
    destruct (update_q_value_ok ag s a reward next_state old next_q Hold Hnext)
      as (ag' & Hup & Hv & Ha & Hs & _).
    by exists ag'.
  - intros num N ag s a reward next_state next_q. apply update_q_value_missing.
  - intros num N t s a. apply q_value_ensure_row.
  - intros num N O t ns. apply max_next_q_cases.
  - intros ag s a Hs Ha Hlr Hdf.
    destruct (fresh_row_update ag s a 1%float Hs Ha) as (ag' & Hup & Hv).
    exists ag'. split; [done|]. rewrite Hv. unfold q_update. rewrite Hlr, Hdf. reflexivity.
  - intros ag s a reward Hs Ha Hlr Hr Hdf.
    destruct (fresh_row_update ag s a reward Hs Ha) as (ag' & Hup & Hv).
    exists ag'. split; [done|]. rewrite Hv. unfold q_update. rewrite Hlr. f_equal.
    by apply float_zero_rate.
  - intros ag s a reward Hs Ha Hlr.
    destruct (fresh_row_update ag s a reward Hs Ha) as (ag' & Hup & Hv).
    exists ag', (q_update ag (of_Z 0) reward (of_Z 0)). split_and!; [done..|].
    by apply Q_zero_rate.
Qed.

Lemma update_q_value_rule_witness :
  exists ag' : RLAgent float,
    update_q_value default_agent "s" "chunk_large" 1%float None = (ag', Ok tt)
    /\ q_value (q_table ag') "s" "chunk_large" = Some (ratio 1 10).
Proof.
  destruct update_q_value_rule as [Hrule _].
  destruct (Hrule float _ default_agent "s" "chunk_large" 1%float None 0%float 0%float)
    as (ag' & Hup & Hv & _); [reflexivity | reflexivity |].
  exists ag'. split; [exact Hup|]. rewrite Hv. reflexivity.
Defined.

(** C1, as stated, fails for the next state [""]: it is non-null and a key of
    the table, with a row whose maximum is 1, yet the update is computed with
    0 and leaves [Q["s"]["chunk_small"]] at 0 where the stated rule gives 1. *)
Lemma update_q_value_empty_next_state :
  let ag0 : RLAgent float := new_agent 1%float 1%float 0%float in
  let ag1 := fst (update_q_value ag0 "" "chunk_small" 1%float None) in
  let ag2 := fst (update_q_value ag1 "s" "chunk_small" 0%float (Some "")) in
  spec_max_next_q (ensure_row "s" canonical_actions (q_table ag1)) (Some "") = Some 1%float
  /\ q_update ag1 0%float 0%float 1%float = 1%float
  /\ q_value (q_table ag2) "s" "chunk_small" = Some 0%float
  /\ q_value (q_table ag2) "s" "chunk_small" <> Some (q_update ag1 0%float 0%float 1%float).
Proof.
  split_and!; [vm_compute; reflexivity..|].
  intros Heq.
  apply (f_equal (fun o => match o with Some x => PrimFloat.is_zero x | None => false end))
    in Heq.
  vm_compute in Heq. discriminate.
Qed.

(** ** The greedy choice *)

Section ChooseFacts.
Context {num : Type} `{Ordered num}.
Implicit Types (ag : RLAgent num) (r : row num) (s a : string).

Lemma set_q_table_same ag : set_q_table (q_table ag) ag = ag.
Proof. by destruct ag. Qed.

Lemma nlt_irrefl (x : num) : (x <? x)%num = false.
Proof.
  destruct (x <? x)%num eqn:E; [|done]. pose proof (nlt_asym _ _ E). congruence.
Qed.

Lemma max_item_from_keeps best r :
  (forall y, y ∈ r -> (snd best <? snd y)%num = false) -> max_item_from best r = best.
Proof.
  induction r as [|x r IH]; intros Hr; simpl; [done|].
  rewrite (Hr x) by left. apply IH. intros y Hy. apply Hr. by right.
Qed.

Lemma row_set_head a v x r :
  exists w, row_set a v (x :: r) = (fst x, w) :: tail (row_set a v (x :: r)).
Proof. destruct x as [k w]. simpl. destruct (String.eqb k a); by eexists. Qed.

Lemma fold_row_set_zeros (actions : list string) r :
  (forall y, y ∈ r -> snd y = of_Z 0) ->
  forall y, y ∈ fold_left (fun r a => row_set a (of_Z 0) r) actions r -> snd y = of_Z 0.
Proof.
  revert r. induction actions as [|b actions IH]; intros r Hr; simpl; [done|].
  apply IH. clear IH. induction r as [|[k w] r IHr]; simpl.
  - by intros y ->%list_elem_of_singleton.
  - destruct (String.eqb k b).
    + intros y [->|Hy]%elem_of_cons; [done|]. apply Hr. by right.
    + intros y [->|Hy]%elem_of_cons; [apply (Hr (k, w)); left|].
      apply IHr; [|done]. intros z Hz. apply Hr. by right.
Qed.

Lemma fold_row_set_head (actions : list string) x r :
  exists w r', fold_left (fun r a => row_set a (of_Z 0) r) actions (x :: r) = (fst x, w) :: r'.
Proof.
  revert x r. induction actions as [|b actions IH]; intros x r; cbn [fold_left].
  - destruct x. by eexists _, _.
  - destruct (row_set_head b (of_Z 0) x r) as [w ->]. apply (IH (fst x, w)).
Qed.

(** The greedy choice on a fresh row is the first of the available actions. *)
Lemma max_item_zero_row a (actions : list string) :
  max_item (zero_row (a :: actions)) = Some (a, of_Z 0).
Proof.
  unfold zero_row. simpl.
  destruct (fold_row_set_head actions (a, of_Z 0) []) as (w & r' & Heq).
  pose proof (fold_row_set_zeros actions [(a, of_Z 0)]) as Hz.
  rewrite Heq in Hz |- *. simpl in *.
  assert (Hw : w = of_Z 0).
  { apply (Hz ltac:(by intros y ->%list_elem_of_singleton) (a, w)). left. }
  subst w. f_equal. apply max_item_from_keeps.
  intros y Hy. rewrite (Hz ltac:(by intros z ->%list_elem_of_singleton) y) by by right.
  apply nlt_irrefl.
Qed.

Lemma choose_action_seen ag s A draw pick r :
  (draw <? exploration_rate ag)%num = false ->
  q_table ag !! s = Some r ->
  r <> [] ->
  Forall comparable r.*2 ->
  exists a v pre post,
    choose_action ag s A draw pick = (ag, Ok a)
    /\ r = (pre ++ (a, v) :: post)%list
    /\ (forall y, y ∈ pre -> (snd y <? v)%num = true)
    /\ (forall y, y ∈ post -> (v <? snd y)%num = false).
Proof.
  intros Hdraw Hr Hne Hc. unfold choose_action. rewrite Hdraw.
  rewrite ensure_row_seen by done. rewrite Hr. simpl.
  destruct (max_item_first_maximal r Hne Hc) as ([a v] & pre & post & Hm & Heq & Hlt & Hge).
  rewrite Hm, set_q_table_same. by exists a, v, pre, post.
Qed.

Lemma choose_action_unseen ag s a A draw pick :
  (draw <? exploration_rate ag)%num = false ->
  q_table ag !! s = None ->
  choose_action ag s (a :: A) draw pick
  = (set_q_table (<[s := zero_row (a :: A)]> (q_table ag)) ag, Ok a).
Proof.
  intros Hdraw Hs. unfold choose_action. rewrite Hdraw.
  rewrite ensure_row_same, Hs. cbn [default from_option id].
  rewrite max_item_zero_row. unfold ensure_row. by rewrite Hs.
Qed.

Lemma choose_action_unseen_empty ag s draw pick :
  (draw <? exploration_rate ag)%num = false ->
  q_table ag !! s = None ->
  choose_action ag s [] draw pick
  = (set_q_table (<[s := []]> (q_table ag)) ag, Raise ValueError).
Proof.
  intros Hdraw Hs. unfold choose_action. rewrite Hdraw.
  rewrite ensure_row_same, Hs. unfold ensure_row. by rewrite Hs.
Qed.

End ChooseFacts.

(** C2 (amended).  [choose_action(s, A)] with the exploration rate at 0 (the
    draw of [random.random()] is never below it): when [s] has a non-empty row
    (of values that compare: no NaN), the table is left as it is and the action
    returned is the first maximal entry of that row: every entry before it is
    smaller, no entry after it is greater.  When [s] is unseen its row is
    first set to zero for the actions of [A], in their order (the five
    canonical actions when [A] is the canonical list), and the first action of
    [A] is returned; with an empty [A] the row set is empty and [ValueError] is
    raised. *)
Theorem choose_action_greedy :
  forall (num : Type) (N : Number num) (O : Ordered num) (ag : RLAgent num) (s : string)
         (A : list string) (draw : num) (pick : nat),
    exploration_rate ag = of_Z 0 ->
    (draw <? of_Z 0)%num = false ->
    (forall r, q_table ag !! s = Some r -> r <> [] -> Forall comparable r.*2 ->
       exists a v pre post,
         choose_action ag s A draw pick = (ag, Ok a)
         /\ r = (pre ++ (a, v) :: post)%list
         /\ (forall y, y ∈ pre -> (snd y <? v)%num = true)
         /\ (forall y, y ∈ post -> (v <? snd y)%num = false))
    /\ (q_table ag !! s = None ->
        (forall a A', A = a :: A' ->
           choose_action ag s A draw pick
           = (set_q_table (<[s := zero_row A]> (q_table ag)) ag, Ok a))
        /\ (A = [] ->
            choose_action ag s A draw pick
            = (set_q_table (<[s := []]> (q_table ag)) ag, Raise ValueError))
        /\ (forall b, row_get b (zero_row A)
                      = if decide (b ∈ A) then Some (of_Z 0) else None)).
Proof.
  intros num N O ag s A draw pick Hrate Hdraw.
  rewrite <- Hrate in Hdraw. split.
  - intros r Hr Hne Hc. by apply choose_action_seen.
  - intros Hs. split_and!.
    + intros a A' ->. by apply choose_action_unseen.
    + intros ->. by apply choose_action_unseen_empty.
    + intros b. apply row_get_zero_row.
Qed.

Lemma choose_action_greedy_witness :
  let r : row float :=
    [("chunk_small", 0.25%float); ("chunk_medium", 0.75%float); ("chunk_large", 0.75%float);
     ("similarity_standard", 0.5%float); ("similarity_mmr", 0%float)] in
  let ag : RLAgent float :=
    set_q_table (<["s" := r]> ∅) (new_agent 0.5%float 0.5%float 0%float) in
  exists a v pre post,
    choose_action ag "s" canonical_actions 0.5%float 0 = (ag, Ok a)
    /\ r = (pre ++ (a, v) :: post)%list
    /\ (forall y, y ∈ pre -> (snd y <? v)%num = true)
    /\ (forall y, y ∈ post -> (v <? snd y)%num = false).
Proof.
  intros r ag.
  destruct (choose_action_greedy float _ _ ag "s" canonical_actions 0.5%float 0)
    as [Hseen _]; [vm_compute; reflexivity | reflexivity |].
  apply Hseen.
  - reflexivity.
  - discriminate.
  - repeat (constructor; [exact I|]). constructor.
Defined.

(** C2, as stated, fails for an unseen state and a list [A] other than the
    canonical one: the row set is that of [A], not that of the five canonical
    actions. *)
Lemma choose_action_initialises_available :
  let ag : RLAgent float := new_agent 0.5%float 0.5%float 0%float in
  let ag' := fst (choose_action ag "s" ["similarity_mmr"] 0.5%float 0) in
  exploration_rate ag = 0%float
  /\ q_table ag !! "s" = None
  /\ q_table ag' !! "s" = Some [("similarity_mmr", 0%float)]
  /\ q_table ag' !! "s" <> Some (zero_row canonical_actions).
Proof.
  split_and!; [reflexivity..|].
  intros Heq. apply (f_equal (fmap (M := option) length)) in Heq.
  vm_compute in Heq. discriminate.
Qed.

(** ** The similarity score and the reward, in exact arithmetic *)

Lemma count_matches_le (keywords : list string) (content : string) :
  (count_matches keywords content <= length keywords)%nat.
Proof. unfold count_matches. apply List.filter_length_le. Qed.

Lemma Q_of_nat_pos (n : nat) : (0 < inject_Z (Z.of_nat (S n)))%Q.
Proof. unfold Qlt. simpl. lia. Qed.

Lemma word_fraction_range (question passage : string) :
  (0 <= word_fraction question passage <= 1)%Q.
Proof.
  unfold word_fraction.
  pose proof (count_matches_le (split (lower question)) passage) as Hle.
  destruct (split (lower question)) as [|w ws] eqn:E.
  - unfold count_matches. simpl. unfold Qdiv, Qmult, Qle. simpl. lia.
  - set (m := count_matches (w :: ws) passage) in *.
    change (length (w :: ws)) with (S (length ws)) in *.
    pose proof (Q_of_nat_pos (length ws)) as Hpos.
    split.
    + apply Qle_shift_div_l; [done|]. rewrite Qmult_0_l. unfold Qle. simpl. lia.
    + apply Qle_shift_div_r; [done|]. rewrite Qmult_1_l.
      rewrite <- Zle_Qle. lia.
Qed.

Lemma passage_score_exact (question content : string) :
  exists v : Q, passage_score question content = Ok v
                /\ (v == word_fraction question content)%Q.
Proof.
  unfold passage_score, word_fraction.
  destruct (split (lower question)) as [|w ws] eqn:E.
  - exists 0%Q. split; [done|]. unfold count_matches. simpl. reflexivity.
  - change (length (w :: ws)) with (S (length ws)).
    eexists. split; [reflexivity|]. reflexivity.
Qed.

Lemma total_score_exact (question : string) (docs : list string) (total : Q) :
  exists v : Q, total_score question total docs = Ok v
                /\ (v == total + fold_right Qplus 0 (map (word_fraction question) docs))%Q.
Proof.
  revert total. induction docs as [|d docs IH]; intros total; simpl.
  - exists total. split; [done|]. ring.
  - destruct (passage_score_exact question d) as (s & -> & Hs).
    destruct (IH (total + s)%Q) as (v & -> & Hv).
    exists v. split; [done|]. rewrite Hv. simpl. rewrite Hs. ring.
Qed.

Lemma fraction_sum_range (question : string) (docs : list string) :
  (0 <= fold_right Qplus 0 (map (word_fraction question) docs)
   <= inject_Z (Z.of_nat (length docs)))%Q.
Proof.
  induction docs as [|d docs IH].
  - simpl. unfold Qle. simpl. lia.
  - change (length (d :: docs)) with (S (length docs)).
    rewrite Nat2Z.inj_succ. unfold Z.succ. rewrite inject_Z_plus.
    simpl fold_right. pose proof (word_fraction_range question d).
    change (inject_Z 1) with 1%Q. lra.
Qed.

(** [get_document_similarity] returns, and returns the mean fraction. *)
Lemma similarity_exact (question : string) (docs : list string) :
  exists v : Q, get_document_similarity question docs = Ok v
                /\ (v == spec_similarity question docs)%Q
                /\ (0 <= v <= 1)%Q.
Proof.
  unfold get_document_similarity, spec_similarity.
  destruct (total_score_exact question docs (of_Z 0)) as (total & -> & Htotal).
  destruct docs as [|d docs].
  - exists 0%Q. split_and!; [done | reflexivity | lra | lra].
  - change (length (d :: docs)) with (S (length docs)) in *.
    eexists. split; [reflexivity|].
    change (of_Z 0) with 0%Q in Htotal. rewrite Qplus_0_l in Htotal.
    pose proof (fraction_sum_range question (d :: docs)) as Hrange.
    change (length (d :: docs)) with (S (length docs)) in Hrange.
    pose proof (Q_of_nat_pos (length docs)) as Hpos.
    unfold of_nat. simpl ndiv. simpl of_Z. split_and!.
    + by rewrite Htotal.
    + apply Qle_shift_div_l; [done|]. rewrite Htotal. lra.
    + apply Qle_shift_div_r; [done|]. rewrite Htotal. lra.
Qed.

Lemma count_matches_all (keywords : list string) (content : string) :
  (forall w, w ∈ keywords -> contains w (lower content) = true) ->
  count_matches keywords content = length keywords.
Proof.
  unfold count_matches. induction keywords as [|k ks IH]; intros Hall; simpl; [done|].
  rewrite (Hall k) by left. simpl. f_equal. apply IH. intros w Hw. apply Hall. by right.
Qed.

Lemma count_matches_none (keywords : list string) (content : string) :
  (forall w, w ∈ keywords -> contains w (lower content) = false) ->
  count_matches keywords content = 0%nat.
Proof.
  unfold count_matches. induction keywords as [|k ks IH]; intros Hnone; simpl; [done|].
  rewrite (Hnone k) by left. apply IH. intros w Hw. apply Hnone. by right.
Qed.

Lemma similarity_single_exact (question passage : string) :
  exists v : Q, get_document_similarity question [passage] = Ok v
                /\ (v == word_fraction question passage)%Q.
Proof.
  destruct (similarity_exact question [passage]) as (v & Hv & Heq & _).
  exists v. split; [done|]. rewrite Heq. unfold spec_similarity. simpl.
  change (inject_Z 1) with 1%Q. field.
Qed.

(** A single passage that holds every word of a question of at least one
    word scores 1; one that holds none scores 0. *)
Lemma similarity_all_words (question passage : string) :
  split (lower question) <> [] ->
  (forall w, w ∈ split (lower question) -> contains w (lower passage) = true) ->
  exists v : Q, get_document_similarity question [passage] = Ok v /\ (v == 1)%Q.
Proof.
  intros Hne Hall. destruct (similarity_single_exact question passage) as (v & Hv & Heq).
  exists v. split; [done|]. rewrite Heq. unfold word_fraction.
  rewrite count_matches_all by done.
  destruct (split (lower question)) as [|w ws]; [done|].
  change (length (w :: ws)) with (S (length ws)).
  pose proof (Q_of_nat_pos (length ws)). field. lra.
Qed.

Lemma similarity_no_word (question passage : string) :
  (forall w, w ∈ split (lower question) -> contains w (lower passage) = false) ->
  exists v : Q, get_document_similarity question [passage] = Ok v /\ (v == 0)%Q.
Proof.
  intros Hnone. destruct (similarity_single_exact question passage) as (v & Hv & Heq).
  exists v. split; [done|]. rewrite Heq. unfold word_fraction.
  rewrite count_matches_none by done. unfold Qdiv. ring.
Qed.

Lemma length_score_exact (answer : string) :
  (response_length_score (num := Q) answer
   == Qmin (inject_Z (Z.of_nat (String.length answer)) / 1000) 1)%Q.
Proof.
  unfold response_length_score, py_min, of_nat. simpl.
  change (inject_Z 1000) with 1000%Q. change (inject_Z 1) with 1%Q.
  set (x := (inject_Z (Z.of_nat (String.length answer)) / 1000)%Q).
  clearbody x. destruct (Qle_bool x 1) eqn:E; simpl.
  - apply Qle_bool_iff in E. symmetry. by apply Q.min_l.
  - symmetry. apply Q.min_r. destruct (Qlt_le_dec 1 x) as [Hlt|Hle]; [lra|].
    apply Qle_bool_iff in Hle. congruence.
Qed.

Lemma reward_exact (similarity : Q) (answer : string) :
  (reward_of similarity (response_length_score answer) == spec_reward similarity answer)%Q.
Proof.
  unfold reward_of, spec_reward. rewrite <- length_score_exact.
  change (ratio 7 10) with (7 # 10)%Q. change (ratio 3 10) with (3 # 10)%Q.
  simpl. ring.
Qed.

Lemma spec_reward_range (similarity : Q) (answer : string) :
  (0 <= similarity <= 1)%Q -> (0 <= spec_reward similarity answer <= 1)%Q.
Proof.
  intros Hsim. unfold spec_reward.
  set (x := (inject_Z (Z.of_nat (String.length answer)) / 1000)%Q).
  assert (Hx : (0 <= x)%Q).
  { unfold x. apply Qle_shift_div_l; [lra|]. rewrite Qmult_0_l.
    unfold Qle. simpl. lia. }
  clearbody x. pose proof (Q.le_min_r x 1) as Hmin.
  assert (Hpos : (0 <= Qmin x 1)%Q) by (apply Q.min_glb; lra).
  set (m := Qmin x 1) in *. clearbody m. lra.
Qed.

(** ** The similarity score in binary64 *)

Lemma digits2_pos_size (p : positive) : digits2_pos p = Pos.size p.
Proof. induction p; simpl; congruence. Qed.

Lemma digits2_pos_bound (p : positive) :
  (Z.pos p < 2 ^ 53)%Z -> (Z.pos (digits2_pos p) <= 53)%Z.
Proof.
  intros Hp. rewrite digits2_pos_size.
  destruct (Z_le_gt_dec (Z.pos (Pos.size p)) 53) as [|Hgt]; [done|].
  pose proof (Pos.size_le p) as Hle.
  assert (H54 : (2 ^ 54 <= Z.pos (2 ^ Pos.size p))%Z).
  { rewrite Pos2Z.inj_pow. apply Z.pow_le_mono_r; lia. }
  assert (Z.pos (2 ^ Pos.size p) <= Z.pos p~0)%Z by (apply Pos2Z.pos_le_pos; exact Hle).
  change (2 ^ 54)%Z with (2 * 2 ^ 53)%Z in H54. lia.
Qed.

(** The float of a positive integer below [2 ^ 53] is that integer, with a
    mantissa of 53 bits: no rounding takes place. *)
Lemma float_of_pos (p : positive) :
  (Z.pos p < 2 ^ 53)%Z ->
  exists m e, Prim2SF (float_of_Z (Z.pos p)) = S754_finite false m e
              /\ Z.pos (digits2_pos m) = 53%Z /\ (-52 <= e <= 0)%Z.
Proof.
  intros Hp. apply digits2_pos_bound in Hp.
  set (d := digits2_pos p) in *.
  assert (Hnorm : exists m e,
             binary_normalize prec emax (Z.pos p) 0 false = S754_finite false m e
             /\ Z.pos (digits2_pos m) = 53%Z /\ (-52 <= e <= 0)%Z).
  { unfold binary_normalize, binary_round.
    assert (Hfexp : fexp prec emax (Z.pos (digits2_pos p) + 0) = (Z.pos d - 53)%Z).
    { unfold fexp, emin, prec, emax. fold d. lia. }
    rewrite Hfexp. unfold shl_align.
    assert (Hal : exists mz, (match (Z.pos d - 53 - 0)%Z with
                              | Z.neg k => (Pos.iter xO p k, (Z.pos d - 53)%Z)
                              | _ => (p, 0%Z)
                              end) = (mz, (Z.pos d - 53)%Z)
                             /\ Z.pos (digits2_pos mz) = 53%Z).
    { destruct (Z.pos d - 53 - 0)%Z as [|k|k] eqn:Hk; try lia.
      - exists p. split; [f_equal; lia | fold d; lia].
      - exists (Pos.iter xO p k). split; [done|].
        rewrite digits2_pos_iter_xO. fold d. lia. }
    destruct Hal as (mz & -> & Hmz).
    exists mz, (Z.pos d - 53)%Z. split; [|lia].
    unfold binary_round_aux, shr_fexp. cbn [Zdigits2 shr_record_of_loc].
    assert (Hf2 : (fexp prec emax (Z.pos (digits2_pos mz) + (Z.pos d - 53))
                   - (Z.pos d - 53) = 0)%Z).
    { unfold fexp, emin, prec, emax. lia. }
    rewrite Hf2. cbn [shr shr_m loc_of_shr_record round_nearest_even Zdigits2 shr_record_of_loc].
    rewrite Hf2. cbn [shr shr_m].
    unfold emax, prec. destruct (Z.pos d - 53 <=? 1024 - 53)%Z eqn:E; [done|].
    apply Z.leb_gt in E. lia. }
  destruct Hnorm as (m & e & Hn & Hm & He).
  exists m, e. split; [|done].
  unfold float_of_Z. rewrite Hn. apply Prim2SF_SF2Prim.
  unfold valid_binary, bounded, canonical_mantissa, fexp, emin, prec, emax.
  apply andb_true_iff. split; [apply Z.eqb_eq | apply Z.leb_le]; lia.
Qed.

Lemma float_of_nat_finite (n : nat) :
  (Z.of_nat (S n) < 2 ^ 53)%Z ->
  exists m e, Prim2SF (of_nat (num := float) (S n)) = S754_finite false m e
              /\ Z.pos (digits2_pos m) = 53%Z /\ (-52 <= e <= 0)%Z.
Proof.
  intros Hn. unfold of_nat. simpl of_Z.
  destruct (Z.of_nat (S n)) as [|p|p] eqn:Hp; try lia.
  by apply float_of_pos.
Qed.

Lemma float_zero_div (x : float) m e :
  Prim2SF x = S754_finite false m e -> (0 / x)%float = 0%float.
Proof. intros Hx. apply Prim2SF_inj. rewrite div_spec, Hx. reflexivity. Qed.

Lemma div_eucl_exact (a b : Z) : (0 < b)%Z -> Z.div_eucl (b * a) b = (a, 0%Z).
Proof.
  intros Hb. destruct (Z.div_eucl (b * a) b) as [q r] eqn:E.
  assert (Hq : q = (b * a / b)%Z) by (unfold Z.div; by rewrite E).
  assert (Hr : r = ((b * a) mod b)%Z) by (unfold Z.modulo; by rewrite E).
  rewrite (Z.mul_comm b a) in Hq, Hr.
  rewrite Z.div_mul in Hq by lia. rewrite Z.mod_mul in Hr by lia. by subst.
Qed.

(** A float of 53-bit mantissa divided by itself is exactly [1.0]. *)
Lemma float_div_self (x : float) m e :
  Prim2SF x = S754_finite false m e ->
  Z.pos (digits2_pos m) = 53%Z ->
  (x / x)%float = 1%float.
Proof.
  intros Hx Hm. apply Prim2SF_inj. rewrite div_spec, Hx.
  unfold SF64div, SFdiv, SFdiv_core_binary. cbn [Zdigits2]. rewrite Hm.
  replace (53 + e - (53 + e))%Z with 0%Z by lia.
  replace (e - e)%Z with 0%Z by lia.
  change (Z.min (fexp prec emax 0) 0) with (-53)%Z.
  change (0 - -53)%Z with 53%Z. cbn match.
  rewrite Z.shiftl_mul_pow2 by lia.
  rewrite (Z.mul_comm (Z.pos m)), (Z.mul_comm (2 ^ 53)).
  rewrite div_eucl_exact by lia.
  unfold new_location, new_location_even, new_location_odd. cbn [Z.eqb].
  destruct (Z.even (Z.pos m)); vm_compute; reflexivity.
Qed.

Lemma float_total_score_wordless (question : string) (docs : list string) :
  split (lower question) = [] ->
  total_score (num := float) question 0%float docs = Ok 0%float.
Proof.
  intros Hq. induction docs as [|d docs IH]; [done|].
  cbn [total_score]. unfold passage_score. rewrite Hq.
  change (of_Z 0 : float) with 0%float. change (0 + 0)%num with 0%float. exact IH.
Qed.

(** A question of no word scores [0.0] in binary64, whatever the passages. *)
Lemma float_similarity_wordless (question : string) (docs : list string) :
  split (lower question) = [] ->
  (Z.of_nat (length docs) < 2 ^ 53)%Z ->
  get_document_similarity question docs = Ok 0%float.
Proof.
  intros Hq Hlen. unfold get_document_similarity.
  change (of_Z 0 : float) with 0%float. rewrite (float_total_score_wordless _ _ Hq).
  destruct docs as [|d docs]; [done|].
  change (length (d :: docs)) with (S (length docs)) in *.
  destruct (float_of_nat_finite _ Hlen) as (m & e & Hx & _).
  unfold py_div. f_equal. exact (float_zero_div _ m e Hx).
Qed.

(** A single passage that holds every word of a question of at least one
    word scores exactly [1.0] in binary64; one that holds none scores [0.0]. *)
Lemma float_similarity_all_words (question passage : string) :
  split (lower question) <> [] ->
  (Z.of_nat (length (split (lower question))) < 2 ^ 53)%Z ->
  (forall w, w ∈ split (lower question) -> contains w (lower passage) = true) ->
  get_document_similarity question [passage] = Ok 1%float.
Proof.
  intros Hne Hlen Hall. unfold get_document_similarity, total_score, passage_score.
  rewrite count_matches_all by done.
  destruct (split (lower question)) as [|w ws]; [done|].
  change (length (w :: ws)) with (S (length ws)) in *.
  destruct (float_of_nat_finite _ Hlen) as (m & e & Hx & Hm & _).
  unfold py_div at 1. change (@ndiv float float_Number) with PrimFloat.div.
  rewrite (float_div_self _ m e Hx Hm). vm_compute. reflexivity.
Qed.

Lemma float_similarity_no_word (question passage : string) :
  (Z.of_nat (length (split (lower question))) < 2 ^ 53)%Z ->
  (forall w, w ∈ split (lower question) -> contains w (lower passage) = false) ->
  get_document_similarity question [passage] = Ok 0%float.
Proof.
  intros Hlen Hnone. unfold get_document_similarity, total_score, passage_score.
  rewrite count_matches_none by done.
  destruct (split (lower question)) as [|w ws]; [vm_compute; reflexivity|].
  change (length (w :: ws)) with (S (length ws)) in *.
  destruct (float_of_nat_finite _ Hlen) as (m & e & Hx & _).
  unfold py_div at 1. change (@ndiv float float_Number) with PrimFloat.div.
  change (of_nat 0 : float) with 0%float.
  rewrite (float_zero_div _ m e Hx). vm_compute. reflexivity.
Qed.

(** ** The score and the reward in binary64 *)

Lemma in_unit_bounds (x : float) (v : Q) :
  finite x -> rounded v (FQ x) -> (0 <= v)%Q -> (v <= 1)%Q -> in_unit x.
Proof.
  intros Fx Hr H0 H1. apply in_unit_iff. split; [done|]. split.
  - by apply (rounded_nonneg _ _ Hr).
  - by apply (rounded_le_one _ _ Hr).
Qed.

Lemma in_unit_0 : in_unit (of_Z 0).
Proof. split; reflexivity. Qed.

Lemma in_unit_1 : in_unit (of_Z 1).
Proof. split; reflexivity. Qed.

Lemma inject_nat_pos (n : nat) : (0 < n)%nat -> (0 < inject_Z (Z.of_nat n))%Q.
Proof. intros Hn. apply (inject_Z_lt_iff 0). lia. Qed.

Lemma inject_nat_nonneg (n : nat) : (0 <= inject_Z (Z.of_nat n))%Q.
Proof. apply (inject_Z_le_iff 0). lia. Qed.

Lemma float_fraction_unit (c n : nat) :
  (c <= n)%nat -> (0 < n)%nat -> small n ->
  in_unit (ndiv (of_nat (num := float) c) (of_nat n)).
Proof.
  intros Hcn Hn Hs.
  destruct (float_of_nat_value c) as [Fc Vc]; [unfold small in Hs; lia|].
  destruct (float_of_nat_value n Hs) as [Fn Vn].
  pose proof (inject_nat_pos n Hn) as HN. pose proof (inject_nat_nonneg c) as HC.
  assert (HCN : (inject_Z (Z.of_nat c) <= inject_Z (Z.of_nat n))%Q)
    by (apply inject_Z_le_iff; lia).
  assert (Hv0 : (0 <= FQ (of_nat c) / FQ (of_nat n))%Q).
  { rewrite Vc, Vn. apply Qle_shift_div_l; [done|]. lra. }
  assert (Hv1 : (FQ (of_nat c) / FQ (of_nat n) <= 1)%Q).
  { rewrite Vc, Vn. apply Qle_shift_div_r; [done|]. lra. }
  destruct (float_div_rounded (of_nat c) (of_nat n)) as [Fd Hr]; [done|done| | | |].
  - rewrite Vn. lra.
  - pose proof (pow2_pos 1000). lra.
  - apply pow2_1000_big. pose proof (pow2_le 0 53 ltac:(lia)) as Hle.
    change (pow2 0) with 1%Q in Hle. lra.
  - by apply (in_unit_bounds _ _ Fd Hr).
Qed.

Lemma float_passage_score_unit (question content : string) :
  small (length (split (lower question))) ->
  exists s : float, passage_score question content = Ok s /\ in_unit s.
Proof.
  intros Hs. unfold passage_score.
  pose proof (count_matches_le (split (lower question)) content) as Hle.
  destruct (split (lower question)) as [|w ws] eqn:E.
  - exists (of_Z 0). split; [done|apply in_unit_0].
  - change (length (w :: ws)) with (S (length ws)) in *. cbn [py_div].
    eexists. split; [reflexivity|]. apply float_fraction_unit; [done|lia|done].
Qed.

Lemma float_total_score_bound (question : string) (docs : list string) :
  small (length (split (lower question))) ->
  forall (total : float) (k : nat),
    small (k + length docs) -> finite total ->
    (0 <= FQ total)%Q -> (FQ total <= inject_Z (Z.of_nat k))%Q ->
    exists t : float,
      total_score question total docs = Ok t /\ finite t
      /\ (0 <= FQ t)%Q /\ (FQ t <= inject_Z (Z.of_nat (k + length docs)))%Q.
Proof.
  intros Hq. induction docs as [|d docs IH]; intros total k Hk Ft H0 H1; cbn [total_score].
  - exists total. rewrite Nat.add_0_r. by split_and!.
  - destruct (float_passage_score_unit question d Hq) as (s & -> & Hs).
    apply in_unit_iff in Hs as (Fs & Hs0 & Hs1).
    change (length (d :: docs)) with (S (length docs)) in *.
    assert (Hk1 : small (S k)) by (unfold small in *; lia).
    destruct (float_of_nat_value (S k) Hk1) as [Fk Vk].
    assert (HSk : (inject_Z (Z.of_nat (S k)) == inject_Z (Z.of_nat k) + 1)%Q).
    { rewrite Nat2Z.inj_succ. unfold Z.succ. by rewrite inject_Z_plus. }
    assert (Hk53 : (inject_Z (Z.of_nat (S k)) <= pow2 53)%Q).
    { apply inject_Z_pow2; [lia|]. unfold small in Hk1. lia. }
    destruct (float_add_rounded total s Ft Fs) as [Fa Hr].
    { pose proof (pow2_pos 1000). lra. }
    { apply pow2_1000_big. lra. }
    destruct (IH (total + s)%float (S k)) as (t & Ht & Ft' & Ht0 & Ht1).
    + unfold small in *. lia.
    + done.
    + apply (rounded_nonneg _ _ Hr). lra.
    + rewrite <- Vk. apply (rounded_le _ _ _ Hr). rewrite Vk. lra.
    + exists t. split_and!; [exact Ht|done..|].
      by replace (k + S (length docs))%nat with (S k + length docs)%nat by lia.
Qed.

(** In binary64 the similarity score lies in [0, 1]. *)
Lemma float_similarity_unit (question : string) (docs : list string) :
  small (length (split (lower question))) -> small (length docs) ->
  exists similarity : float,
    get_document_similarity question docs = Ok similarity /\ in_unit similarity.
Proof.
  intros Hq Hd. unfold get_document_similarity.
  destruct (float_total_score_bound question docs Hq (of_Z 0) 0)
    as (t & -> & Ft & Ht0 & Ht1); [done|done|by vm_compute..|].
  cbn [Nat.add] in Ht1.
  destruct docs as [|d docs]; [exists (of_Z 0); split; [done|apply in_unit_0]|].
  change (length (d :: docs)) with (S (length docs)) in *. cbn [py_div].
  eexists. split; [reflexivity|].
  destruct (float_of_nat_value _ Hd) as [Fn Vn].
  pose proof (inject_nat_pos (S (length docs)) ltac:(lia)) as HN.
  assert (Hv0 : (0 <= FQ t / FQ (of_nat (S (length docs))))%Q).
  { rewrite Vn. apply Qle_shift_div_l; [done|]. lra. }
  assert (Hv1 : (FQ t / FQ (of_nat (S (length docs))) <= 1)%Q).
  { rewrite Vn. apply Qle_shift_div_r; [done|]. lra. }
  destruct (float_div_rounded t (of_nat (S (length docs)))) as [Fd Hr]; [done|done| | | |].
  - rewrite Vn. lra.
  - pose proof (pow2_pos 1000). lra.
  - apply pow2_1000_big. pose proof (pow2_le 0 53 ltac:(lia)) as Hle.
    change (pow2 0) with 1%Q in Hle. lra.
  - by apply (in_unit_bounds _ _ Fd Hr).
Qed.

Lemma float_length_score_unit (answer : string) :
  small (String.length answer) -> in_unit (response_length_score (num := float) answer).
Proof.
  intros Hs. unfold response_length_score, py_min.
  destruct (float_of_nat_value _ Hs) as [Fn Vn].
  destruct (float_of_Z_value 1000 ltac:(lia)) as [Fk Vk].
  change (@of_Z float float_Number 1000) with (float_of_Z 1000).
  set (n := of_nat (String.length answer)) in *.
  pose proof (inject_nat_nonneg (String.length answer)) as HN.
  assert (Hv0 : (0 <= FQ n / FQ (float_of_Z 1000))%Q).
  { rewrite Vn, Vk. apply Qle_shift_div_l; [reflexivity|]. lra. }
  assert (Hv53 : (FQ n / FQ (float_of_Z 1000) <= pow2 53)%Q).
  { rewrite Vn, Vk. apply Qle_shift_div_r; [reflexivity|].
    assert (inject_Z (Z.of_nat (String.length answer)) <= pow2 53)%Q as Hle.
    { apply inject_Z_pow2; [lia|]. unfold small in Hs. lia. }
    pose proof (pow2_pos 53). change (inject_Z 1000) with 1000%Q. lra. }
  destruct (float_div_rounded n (float_of_Z 1000)) as [Fd Hr]; [done|done| | | |].
  - rewrite Vk. discriminate.
  - pose proof (pow2_pos 1000). lra.
  - by apply pow2_1000_big.
  - change (@ndiv float float_Number) with PrimFloat.div.
    set (x := (n / float_of_Z 1000)%float) in *.
    assert (Hx0 : (0 <= FQ x)%Q).
    { apply (rounded_nonneg _ _ Hr). done. }
    change (@of_Z float float_Number 1) with 1%float.
    change (@nltb float float_Number) with PrimFloat.ltb.
    destruct (1 <? x)%float eqn:Hlt.
    + apply in_unit_1.
    + apply in_unit_iff. split_and!; [done..|].
      destruct (Qlt_le_dec 1 (FQ x)) as [Hgt|]; [|done].
      rewrite <- FQ_1 in Hgt. apply float_ltb_iff in Hgt; [congruence|done..].
Qed.

Lemma float_reward_unit (similarity length_score : float) :
  in_unit similarity -> in_unit length_score -> in_unit (reward_of similarity length_score).
Proof.
  intros (Fs & Hs0 & Hs1)%in_unit_iff (Fl & Hl0 & Hl1)%in_unit_iff.
  unfold reward_of.
  set (c7 := ratio (num := float) 7 10). set (c3 := ratio (num := float) 3 10).
  assert (F7 : finite c7) by exact I. assert (F3 : finite c3) by exact I.
  assert (H7 : (0 <= FQ c7)%Q) by (apply Qle_bool_iff; vm_compute; reflexivity).
  assert (H3 : (0 <= FQ c3)%Q) by (apply Qle_bool_iff; vm_compute; reflexivity).
  assert (H73 : (FQ c7 + FQ c3 <= 1)%Q) by (apply Qle_bool_iff; vm_compute; reflexivity).
  change (@nmul float float_Number) with PrimFloat.mul.
  change (@nadd float float_Number) with PrimFloat.add.
  destruct (float_mul_rounded similarity c7 Fs F7) as [Fa Ha].
  { pose proof (pow2_pos 1000). nra. }
  { apply pow2_1000_big. pose proof (pow2_le 0 53 ltac:(lia)) as Hle.
    change (pow2 0) with 1%Q in Hle. nra. }
  destruct (float_mul_rounded length_score c3 Fl F3) as [Fb Hb].
  { pose proof (pow2_pos 1000). nra. }
  { apply pow2_1000_big. pose proof (pow2_le 0 53 ltac:(lia)) as Hle.
    change (pow2 0) with 1%Q in Hle. nra. }
  assert (Ha0 : (0 <= FQ (similarity * c7))%Q).
  { apply (rounded_nonneg _ _ Ha). nra. }
  assert (Ha1 : (FQ (similarity * c7) <= FQ c7)%Q).
  { apply (rounded_le c7 _ _ Ha). nra. }
  assert (Hb0 : (0 <= FQ (length_score * c3))%Q).
  { apply (rounded_nonneg _ _ Hb). nra. }
  assert (Hb1 : (FQ (length_score * c3) <= FQ c3)%Q).
  { apply (rounded_le c3 _ _ Hb). nra. }
  destruct (float_add_rounded _ _ Fa Fb) as [Fr Hr].
  { pose proof (pow2_pos 1000). lra. }
  { apply pow2_1000_big. pose proof (pow2_le 0 53 ltac:(lia)) as Hle.
    change (pow2 0) with 1%Q in Hle. lra. }
  apply (in_unit_bounds _ _ Fr Hr); lra.
Qed.

(** ** How far the binary64 score and reward are from the exact ones *)

(** A rounding is at most half a unit away. *)
Lemma rounded_half_unit (v z : Q) :
  rounded v z ->
  exists e : Z,
    (- pow2 (e - 1) <= z - v)%Q /\ (z - v <= pow2 (e - 1))%Q
    /\ (e = (-1074)%Z \/ (pow2 (e + 52) <= v)%Q \/ (v <= - pow2 (e + 52))%Q).
Proof.
  intros (e & m & Hz & He & Hlo & Hhi & _ & _ & Hmag). exists e.
  pose proof (pow2_succ (e - 1)) as Hs. replace (e - 1 + 1)%Z with e in Hs by lia.
  split_and!; [rewrite Hz; lra..|done].
Qed.

(** Rounding a value of [0, 1] moves it by at most [2 ^ -53]. *)
Lemma rounded_unit_error (v z : Q) :
  rounded v z -> (0 <= v)%Q -> (v <= 1)%Q ->
  (- pow2 (-53) <= z - v)%Q /\ (z - v <= pow2 (-53))%Q.
Proof.
  intros Hr H0 H1. destruct (rounded_half_unit _ _ Hr) as (e & Hlo & Hhi & Hmag).
  assert (He : (e - 1 <= -53)%Z).
  { destruct Hmag as [->|[Hge|Hle]]; [lia| |pose proof (pow2_pos (e + 52)); lra].
    assert (pow2 (e + 52) <= pow2 0)%Q as Hp by (change (pow2 0) with 1%Q; lra).
    apply pow2_le_inv in Hp. lia. }
  pose proof (pow2_le _ _ He). split; lra.
Qed.

(** Rounding a value [v >= 0] moves it by at most [2 ^ -53 * v], or by
    [2 ^ -1075] where the floats are evenly spaced. *)
Lemma rounded_rel_error (v z : Q) :
  rounded v z -> (0 <= v)%Q ->
  (- (pow2 (-53) * v + pow2 (-1075)) <= z - v)%Q
  /\ (z - v <= pow2 (-53) * v + pow2 (-1075))%Q.
Proof.
  intros Hr H0. destruct (rounded_half_unit _ _ Hr) as (e & Hlo & Hhi & Hmag).
  pose proof (pow2_pos (-53)) as Hu. pose proof (pow2_pos (-1075)) as Heta.
  assert (Hb : (pow2 (e - 1) <= pow2 (-53) * v + pow2 (-1075))%Q).
  { destruct Hmag as [->|[Hge|Hle]]; [|  |pose proof (pow2_pos (e + 52)); lra].
    - change (-1074 - 1)%Z with (-1075)%Z. nra.
    - pose proof (pow2_add (e + 52) (-53)) as Hadd.
      replace (e + 52 + -53)%Z with (e - 1)%Z in Hadd by lia. rewrite Hadd. nra. }
  split; lra.
Qed.

Lemma float_fraction_rounded (c n : nat) :
  (c <= n)%nat -> (0 < n)%nat -> small n ->
  rounded (inject_Z (Z.of_nat c) / inject_Z (Z.of_nat n))
    (FQ (ndiv (of_nat (num := float) c) (of_nat n))).
Proof.
  intros Hcn Hn Hs.
  destruct (float_of_nat_value c) as [Fc Vc]; [unfold small in Hs; lia|].
  destruct (float_of_nat_value n Hs) as [Fn Vn].
  pose proof (inject_nat_pos n Hn) as HN. pose proof (inject_nat_nonneg c) as HC.
  assert (HCN : (inject_Z (Z.of_nat c) <= inject_Z (Z.of_nat n))%Q)
    by (apply inject_Z_le_iff; lia).
  assert (Hv0 : (0 <= FQ (of_nat c) / FQ (of_nat n))%Q).
  { rewrite Vc, Vn. apply Qle_shift_div_l; [done|]. lra. }
  assert (Hv1 : (FQ (of_nat c) / FQ (of_nat n) <= 1)%Q).
  { rewrite Vc, Vn. apply Qle_shift_div_r; [done|]. lra. }
  destruct (float_div_rounded (of_nat c) (of_nat n)) as [Fd Hr]; [done|done| | | |].
  - rewrite Vn. lra.
  - pose proof (pow2_pos 1000). lra.
  - apply pow2_1000_big. pose proof (pow2_le 0 53 ltac:(lia)) as Hle.
    change (pow2 0) with 1%Q in Hle. lra.
  - eapply rounded_ext; [|reflexivity|exact Hr]. by rewrite Vc, Vn.
Qed.

Lemma word_fraction_unit (question content : string) :
  (0 <= word_fraction question content)%Q /\ (word_fraction question content <= 1)%Q.
Proof.
  unfold word_fraction.
  pose proof (count_matches_le (split (lower question)) content) as Hle.
  destruct (split (lower question)) as [|w ws]; [by vm_compute|].
  change (length (w :: ws)) with (S (length ws)) in *.
  pose proof (inject_nat_pos (S (length ws)) ltac:(lia)) as HN.
  pose proof (inject_nat_nonneg (count_matches (w :: ws) content)) as HC.
  assert (inject_Z (Z.of_nat (count_matches (w :: ws) content))
          <= inject_Z (Z.of_nat (S (length ws))))%Q as HCN by (apply inject_Z_le_iff; lia).
  split; [apply Qle_shift_div_l|apply Qle_shift_div_r]; first [done|lra].
Qed.

Lemma float_passage_score_error (question content : string) :
  small (length (split (lower question))) ->
  exists s : float,
    passage_score question content = Ok s /\ in_unit s
    /\ (- pow2 (-53) <= FQ s - word_fraction question content)%Q
    /\ (FQ s - word_fraction question content <= pow2 (-53))%Q.
Proof.
  intros Hs. destruct (float_passage_score_unit question content Hs) as (s & Hrun & Hu).
  exists s. split; [exact Hrun|]. split; [exact Hu|].
  destruct (word_fraction_unit question content) as [Hw0 Hw1].
  revert Hrun Hw0 Hw1. unfold passage_score, word_fraction.
  pose proof (count_matches_le (split (lower question)) content) as Hle.
  destruct (split (lower question)) as [|w ws].
  - intros [= <-] _ _. pose proof (pow2_pos (-53)). by vm_compute.
  - change (length (w :: ws)) with (S (length ws)) in *. cbn [py_div].
    intros [= <-] Hw0 Hw1.
    apply rounded_unit_error; [|done..].
    apply float_fraction_rounded; [done|lia|done].
Qed.

(** The running total after [k] passages is within [k * (M + 2) * 2 ^ -53]
    of the exact one, [M] being the number of passages. *)
Lemma float_total_score_error (question : string) (M : nat) :
  small (length (split (lower question))) -> small M ->
  forall (docs : list string) (total : float) (k : nat) (exact : Q),
    (k + length docs = M)%nat -> finite total ->
    (0 <= FQ total)%Q -> (FQ total <= inject_Z (Z.of_nat k))%Q ->
    (- (inject_Z (Z.of_nat k) * ((inject_Z (Z.of_nat M) + 2) * pow2 (-53)))
     <= FQ total - exact)%Q ->
    (FQ total - exact
     <= inject_Z (Z.of_nat k) * ((inject_Z (Z.of_nat M) + 2) * pow2 (-53)))%Q ->
    exists t : float,
      total_score question total docs = Ok t /\ finite t
      /\ (0 <= FQ t)%Q /\ (FQ t <= inject_Z (Z.of_nat M))%Q
      /\ (- (inject_Z (Z.of_nat M) * ((inject_Z (Z.of_nat M) + 2) * pow2 (-53)))
          <= FQ t - (exact + fold_right Qplus 0 (map (word_fraction question) docs)))%Q
      /\ (FQ t - (exact + fold_right Qplus 0 (map (word_fraction question) docs))
          <= inject_Z (Z.of_nat M) * ((inject_Z (Z.of_nat M) + 2) * pow2 (-53)))%Q.
Proof.
  intros Hq HM. pose proof (pow2_pos (-53)) as Hu.
  assert (Heta : (pow2 (-1075) <= pow2 (-53))%Q) by (apply pow2_le; lia).
  pose proof (pow2_pos (-1075)) as Heta0.
  pose proof (inject_nat_nonneg M) as HM0.
  assert (HM53 : (inject_Z (Z.of_nat M) <= pow2 53)%Q).
  { apply inject_Z_pow2; [lia|]. unfold small in HM. lia. }
  set (u := pow2 (-53)) in *. set (iM := inject_Z (Z.of_nat M)) in *.
  set (c := ((iM + 2) * u)%Q).
  induction docs as [|d docs IH]; intros total k exact Hk Ft H0 H1 Hlo Hhi;
    cbn [total_score map fold_right].
  - cbn [length] in Hk. rewrite Nat.add_0_r in Hk. subst k. fold iM in H1, Hlo, Hhi.
    exists total. split_and!; [done..|lra|lra].
  - destruct (float_passage_score_error question d Hq) as (s & -> & Hs & Hslo & Hshi).
    apply in_unit_iff in Hs as (Fs & Hs0 & Hs1).
    change (length (d :: docs)) with (S (length docs)) in Hk.
    assert (HSk : (inject_Z (Z.of_nat (S k)) == inject_Z (Z.of_nat k) + 1)%Q).
    { rewrite Nat2Z.inj_succ. unfold Z.succ. by rewrite inject_Z_plus. }
    assert (HkM : (inject_Z (Z.of_nat (S k)) <= iM)%Q) by (apply inject_Z_le_iff; lia).
    set (ik := inject_Z (Z.of_nat k)) in *.
    destruct (float_add_rounded total s Ft Fs) as [Fa Hr].
    { pose proof (pow2_pos 1000). lra. }
    { apply pow2_1000_big. lra. }
    destruct (rounded_rel_error _ _ Hr ltac:(lra)) as [Hrlo Hrhi].
    assert (Hprod : (u * (FQ total + FQ s) <= u * iM)%Q) by nra.
    assert (Hk1 : small (S k)) by (unfold small in *; lia).
    destruct (float_of_nat_value (S k) Hk1) as [Fk Vk].
    destruct (IH (total + s)%float (S k) (exact + word_fraction question d)%Q)
      as (t & Ht & Ft' & Ht0 & Ht1 & Htlo & Hthi).
    + lia.
    + done.
    + apply (rounded_nonneg _ _ Hr). lra.
    + rewrite <- Vk. apply (rounded_le _ _ _ Hr). rewrite Vk. lra.
    + rewrite HSk. assert (u * iM + 2 * u <= c)%Q by (unfold c; lra).
      change (pow2 (-53)) with u in Hslo, Hshi, Hrlo, Hrhi. clearbody c u. lra.
    + rewrite HSk. assert (u * iM + 2 * u <= c)%Q by (unfold c; lra).
      change (pow2 (-53)) with u in Hslo, Hshi, Hrlo, Hrhi. clearbody c u. lra.
    + exists t. split_and!; [exact Ht|done..|lra|lra].
Qed.

(** In binary64 the similarity score is within [(m + 3) * 2 ^ -53] of the
    exact mean, [m] being the number of passages. *)
Lemma float_similarity_error (question : string) (docs : list string) :
  small (length (split (lower question))) -> small (length docs) ->
  exists similarity : float,
    get_document_similarity question docs = Ok similarity /\ in_unit similarity
    /\ (Qabs (FQ similarity - spec_similarity question docs)
        <= (inject_Z (Z.of_nat (length docs)) + 3) * pow2 (-53))%Q.
Proof.
  intros Hq Hd. pose proof (pow2_pos (-53)) as Hu.
  destruct (float_similarity_unit question docs Hq Hd) as (similarity & Hrun & Hunit).
  exists similarity. split; [exact Hrun|]. split; [exact Hunit|].
  apply Qabs_Qle_condition.
  revert Hrun. unfold get_document_similarity, spec_similarity.
  destruct (float_total_score_error question (length docs) Hq Hd docs (of_Z 0) 0 0%Q)
    as (t & -> & Ft & Ht0 & Ht1 & Htlo & Hthi);
    [done|done|by vm_compute|by vm_compute|by vm_compute|by vm_compute|].
  destruct docs as [|d docs].
  - intros [= <-]. change (inject_Z (Z.of_nat (length []))) with 0%Q.
    assert (Hz : (FQ (float_of_Z 0) == 0)%Q) by reflexivity.
    change (@of_Z float float_Number 0) with (float_of_Z 0). split; lra.
  - set (m := length (d :: docs)) in *.
    set (total := fold_right Qplus 0%Q (map (word_fraction question) (d :: docs))) in *.
    unfold py_div. change m with (S (length docs)) at 1. cbv iota. intros [= <-].
    destruct (float_of_nat_value m Hd) as [Fn Vn].
    pose proof (inject_nat_pos m ltac:(unfold m; cbn; lia)) as HN.
    set (im := inject_Z (Z.of_nat m)) in *.
    assert (Hv : (FQ t / FQ (of_nat m) * im == FQ t)%Q) by (rewrite Vn; field; lra).
    assert (Hw : (total / im * im == total)%Q) by (field; lra).
    assert (Hv0 : (0 <= FQ t / FQ (of_nat m))%Q).
    { rewrite Vn. apply Qle_shift_div_l; [done|]. lra. }
    assert (Hv1 : (FQ t / FQ (of_nat m) <= 1)%Q).
    { rewrite Vn. apply Qle_shift_div_r; [done|]. lra. }
    destruct (float_div_rounded t (of_nat m)) as [Fd Hr]; [done|done| | | |].
    + rewrite Vn. lra.
    + pose proof (pow2_pos 1000). lra.
    + apply pow2_1000_big. pose proof (pow2_le 0 53 ltac:(lia)) as Hle.
      change (pow2 0) with 1%Q in Hle. lra.
    + destruct (rounded_unit_error _ _ Hr Hv0 Hv1) as [Hrlo Hrhi].
      change (@ndiv float float_Number) with PrimFloat.div in *.
      set (v := (FQ t / FQ (of_nat m))%Q) in *. set (w := (total / im)%Q) in *.
      set (u := pow2 (-53)) in *.
      assert (Hd1 : (v - w <= (im + 2) * u)%Q).
      { apply (Qmult_le_r _ _ im); [done|]. nra. }
      assert (Hd2 : (- ((im + 2) * u) <= v - w)%Q).
      { apply (Qmult_le_r _ _ im); [done|]. nra. }
      change (float_of_Z (Z.of_nat m)) with (of_nat (num := float) m).
      split; lra.
Qed.

(** In binary64 the length score is within [2 ^ -53] of the exact one. *)
Lemma float_length_score_error (answer : string) :
  small (String.length answer) ->
  (Qabs (FQ (response_length_score answer)
         - Qmin (inject_Z (Z.of_nat (String.length answer)) / 1000) 1)
   <= pow2 (-53))%Q.
Proof.
  intros Hs. pose proof (pow2_pos (-53)) as Hu. apply Qabs_Qle_condition.
  unfold response_length_score, py_min.
  destruct (float_of_nat_value _ Hs) as [Fn Vn].
  destruct (float_of_Z_value 1000 ltac:(lia)) as [Fk Vk].
  change (@of_Z float float_Number 1000) with (float_of_Z 1000).
  set (n := of_nat (String.length answer)) in *.
  pose proof (inject_nat_nonneg (String.length answer)) as HN.
  set (L := inject_Z (Z.of_nat (String.length answer))) in *.
  assert (Hv0 : (0 <= L / 1000)%Q) by (apply Qle_shift_div_l; [reflexivity|]; lra).
  assert (Hv53 : (L / 1000 <= pow2 53)%Q).
  { apply Qle_shift_div_r; [reflexivity|].
    assert (L <= pow2 53)%Q as Hle.
    { apply inject_Z_pow2; [lia|]. unfold small in Hs. lia. }
    pose proof (pow2_pos 53). lra. }
  destruct (float_div_rounded n (float_of_Z 1000)) as [Fd Hr]; [done|done| | | |].
  - rewrite Vk. discriminate.
  - rewrite Vn, Vk. change (inject_Z 1000) with 1000%Q. pose proof (pow2_pos 1000). lra.
  - rewrite Vn, Vk. change (inject_Z 1000) with 1000%Q. by apply pow2_1000_big.
  - assert (Hr' : rounded (L / 1000) (FQ (n / float_of_Z 1000))).
    { eapply rounded_ext; [|reflexivity|exact Hr]. rewrite Vn, Vk. reflexivity. }
    change (@ndiv float float_Number) with PrimFloat.div.
    set (x := (n / float_of_Z 1000)%float) in *.
    change (@of_Z float float_Number 1) with 1%float.
    change (@nltb float float_Number) with PrimFloat.ltb.
    destruct (Qlt_le_dec 1 (L / 1000)) as [Hbig|Hsmall].
    + rewrite Q.min_r by lra.
      assert (1 <= FQ x)%Q as Hx1.
      { rewrite <- FQ_1. apply (rounded_ge 1 _ _ Hr'). rewrite FQ_1. lra. }
      destruct (1 <? x)%float eqn:Hlt; [rewrite FQ_1; lra|].
      destruct (Qlt_le_dec 1 (FQ x)) as [Hgt|Hle].
      * rewrite <- FQ_1 in Hgt. apply float_ltb_iff in Hgt; [congruence|done..].
      * lra.
    + rewrite Q.min_l by lra.
      pose proof (rounded_le_one _ _ Hr' Hsmall) as Hx1.
      destruct (1 <? x)%float eqn:Hlt.
      * apply float_ltb_iff in Hlt; [|done..]. rewrite FQ_1 in Hlt. lra.
      * by apply rounded_unit_error.
Qed.

Lemma Qmult_small (x c a : Q) :
  (- a <= x)%Q -> (x <= a)%Q -> (0 <= c)%Q -> (c <= 1)%Q ->
  (- a <= x * c)%Q /\ (x * c <= a)%Q.
Proof. intros. split; nra. Qed.

(** The binary64 reward is as far from the exact one as its two scores are,
    and [2 ^ -51] more. *)
Lemma float_reward_error (similarity length_score : float) (sim len a b : Q) :
  in_unit similarity -> in_unit length_score ->
  (0 <= sim)%Q -> (sim <= 1)%Q -> (0 <= len)%Q -> (len <= 1)%Q ->
  (Qabs (FQ similarity - sim) <= a)%Q -> (Qabs (FQ length_score - len) <= b)%Q ->
  (Qabs (FQ (reward_of similarity length_score) - ((7 # 10) * sim + (3 # 10) * len))
   <= a + b + 4 * pow2 (-53))%Q.
Proof.
  intros (Fs & Hs0 & Hs1)%in_unit_iff (Fl & Hl0 & Hl1)%in_unit_iff
    Hsim0 Hsim1 Hlen0 Hlen1 [Halo Hahi]%Qabs_Qle_condition [Hblo Hbhi]%Qabs_Qle_condition.
  apply Qabs_Qle_condition. pose proof (pow2_pos (-53)) as Hu.
  unfold reward_of.
  set (c7 := ratio (num := float) 7 10). set (c3 := ratio (num := float) 3 10).
  assert (F7 : finite c7) by exact I. assert (F3 : finite c3) by exact I.
  assert (H7 : (0 <= FQ c7)%Q) by (apply Qle_bool_iff; vm_compute; reflexivity).
  assert (H3 : (0 <= FQ c3)%Q) by (apply Qle_bool_iff; vm_compute; reflexivity).
  assert (H73 : (FQ c7 + FQ c3 <= 1)%Q) by (apply Qle_bool_iff; vm_compute; reflexivity).
  assert (D7 : (- pow2 (-54) <= FQ c7 - (7 # 10))%Q /\ (FQ c7 - (7 # 10) <= pow2 (-54))%Q).
  { split; apply Qle_bool_iff; vm_compute; reflexivity. }
  assert (D3 : (- pow2 (-54) <= FQ c3 - (3 # 10))%Q /\ (FQ c3 - (3 # 10) <= pow2 (-54))%Q).
  { split; apply Qle_bool_iff; vm_compute; reflexivity. }
  assert (H54 : (2 * pow2 (-54) == pow2 (-53))%Q) by reflexivity.
  change (@nmul float float_Number) with PrimFloat.mul.
  change (@nadd float float_Number) with PrimFloat.add.
  assert (H53 : (1 <= pow2 53)%Q).
  { pose proof (pow2_le 0 53 ltac:(lia)) as Hle. by change (pow2 0) with 1%Q in Hle. }
  pose proof (pow2_pos 1000) as H1000.
  destruct (float_mul_rounded similarity c7 Fs F7) as [Fa Ha];
    [nra|apply pow2_1000_big; nra|].
  destruct (float_mul_rounded length_score c3 Fl F3) as [Fb Hb];
    [nra|apply pow2_1000_big; nra|].
  assert (Ha0 : (0 <= FQ (similarity * c7))%Q) by (apply (rounded_nonneg _ _ Ha); nra).
  assert (Ha1 : (FQ (similarity * c7) <= FQ c7)%Q) by (apply (rounded_le c7 _ _ Ha); nra).
  assert (Hb0 : (0 <= FQ (length_score * c3))%Q) by (apply (rounded_nonneg _ _ Hb); nra).
  assert (Hb1 : (FQ (length_score * c3) <= FQ c3)%Q) by (apply (rounded_le c3 _ _ Hb); nra).
  destruct (rounded_unit_error _ _ Ha) as [Ealo Eahi]; [nra..|].
  destruct (rounded_unit_error _ _ Hb) as [Eblo Ebhi]; [nra..|].
  destruct (float_add_rounded _ _ Fa Fb) as [Fr Hr]; [lra|apply pow2_1000_big; lra|].
  destruct (rounded_unit_error _ _ Hr) as [Erlo Erhi]; [lra..|].
  destruct (Qmult_small (FQ similarity - sim) (FQ c7) a) as [P1 P2]; [lra..|].
  destruct (Qmult_small (FQ length_score - len) (FQ c3) b) as [P3 P4]; [lra..|].
  destruct (Qmult_small (FQ c7 - (7 # 10)) sim (pow2 (-54))) as [P5 P6]; [lra..|].
  destruct (Qmult_small (FQ c3 - (3 # 10)) len (pow2 (-54))) as [P7 P8]; [lra..|].
  set (A := FQ (similarity * c7)) in *. set (B := FQ (length_score * c3)) in *.
  set (R := FQ (similarity * c7 + length_score * c3)) in *.
  split; lra.
Qed.

Lemma float_mul_comm (x y : float) : (x * y)%float = (y * x)%float.
Proof.
  apply Prim2SF_inj. rewrite !mul_spec.
  destruct (Prim2SF x) as [sx|sx| |sx mx ex], (Prim2SF y) as [sy|sy| |sy my ey];
    cbn [SF64mul SFmul]; rewrite ?(xorb_comm sy sx), ?(Pos.mul_comm my mx), ?(Z.add_comm ey ex);
    reflexivity.
Qed.

(** C3.  For every question, list of passages and answer.  In exact
    arithmetic the similarity score is the mean over the passages of the
    fraction of the question's words found in the passage (0 with no
    passage), the reward is [0.7 * similarityScore + 0.3 *
    min(answerLength / 1000, 1)], and both lie in [0, 1].  In binary64, for
    fewer than [2 ^ 53] words, passages and characters (counts that are floats
    without rounding), the score, the length score and the reward lie in
    [0, 1] as well, and the reward is the float [0.7 * similarityScore + 0.3 *
    lengthScore].  With a single passage the score is 1 when the question has
    at least one word and the passage holds every word, and 0 when it holds
    none: in exact arithmetic, and exactly [1.0] and [0.0] in binary64, as on
    the two examples of ["what is the revenue"].  Rounding moves the binary64
    score at most [(m + 3) * 2 ^ -53] away from the exact mean and the reward
    at most [(m + 8) * 2 ^ -53] away from the exact reward, [m] being the
    number of passages. *)
Theorem reward_range :
  (forall (question : string) (docs : list string) (answer : string),
     exists similarity : Q,
       get_document_similarity question docs = Ok similarity
       /\ (similarity == spec_similarity question docs)%Q
       /\ (0 <= similarity <= 1)%Q
       /\ (reward_of similarity (response_length_score answer)
           == spec_reward similarity answer)%Q
       /\ (0 <= reward_of similarity (response_length_score answer) <= 1)%Q)
  /\ (forall (question : string) (docs : list string) (answer : string),
        small (length (split (lower question))) -> small (length docs) ->
        small (String.length answer) ->
        exists similarity : float,
          get_document_similarity question docs = Ok similarity
          /\ in_unit similarity
          /\ in_unit (response_length_score answer)
          /\ reward_of similarity (response_length_score answer)
             = (ratio 7 10 * similarity + ratio 3 10 * response_length_score answer)%float
          /\ in_unit (reward_of similarity (response_length_score answer))
          /\ (Qabs (FQ similarity - spec_similarity question docs)
              <= (inject_Z (Z.of_nat (length docs)) + 3) * pow2 (-53))%Q
          /\ (Qabs (FQ (reward_of similarity (response_length_score answer))
                    - spec_reward (spec_similarity question docs) answer)
              <= (inject_Z (Z.of_nat (length docs)) + 8) * pow2 (-53))%Q)
  /\ (forall (question passage : string),
        split (lower question) <> [] ->
        (forall w, w ∈ split (lower question) -> contains w (lower passage) = true) ->
        exists v : Q, get_document_similarity question [passage] = Ok v /\ (v == 1)%Q)
  /\ (forall (question passage : string),
        (forall w, w ∈ split (lower question) -> contains w (lower passage) = false) ->
        exists v : Q, get_document_similarity question [passage] = Ok v /\ (v == 0)%Q)
  /\ (forall (question passage : string),
        split (lower question) <> [] ->
        small (length (split (lower question))) ->
        (forall w, w ∈ split (lower question) -> contains w (lower passage) = true) ->
        get_document_similarity question [passage] = Ok 1%float)
  /\ (forall (question passage : string),
        small (length (split (lower question))) ->
        (forall w, w ∈ split (lower question) -> contains w (lower passage) = false) ->
        get_document_similarity question [passage] = Ok 0%float)
  /\ get_document_similarity "what is the revenue" ["What is the revenue of the firm?"]
     = Ok 1%float
  /\ get_document_similarity "what is the revenue" ["No match"] = Ok 0%float.
Proof.
  split_and!.
  - intros question docs answer.
    destruct (similarity_exact question docs) as (v & Hv & Heq & Hrange).
    exists v. split; [done|]. split; [done|]. split; [done|].
    split; [apply reward_exact|]. rewrite reward_exact. by apply spec_reward_range.
  - intros question docs answer Hq Hd Ha.
    destruct (float_similarity_error question docs Hq Hd) as (similarity & Hs & Hu & Herr).
    pose proof (float_length_score_unit answer Ha) as Hl.
    exists similarity.
    split_and!; [exact Hs|exact Hu|exact Hl| |by apply float_reward_unit|exact Herr|].
    + unfold reward_of. change (@nmul float float_Number) with PrimFloat.mul.
      by rewrite (float_mul_comm similarity), (float_mul_comm (response_length_score answer)).
    + destruct (similarity_exact question docs) as (v & _ & Hv & Hv0 & Hv1).
      rewrite Hv in Hv0, Hv1.
      pose proof (float_length_score_error answer Ha) as Hlen.
      set (len := Qmin (inject_Z (Z.of_nat (String.length answer)) / 1000) 1) in *.
      assert (Hlen0 : (0 <= len)%Q).
      { apply Q.min_glb; [|lra]. apply Qle_shift_div_l; [reflexivity|].
        pose proof (inject_nat_nonneg (String.length answer)). lra. }
      pose proof (Q.le_min_r (inject_Z (Z.of_nat (String.length answer)) / 1000) 1) as Hlen1.
      fold len in Hlen1.
      pose proof (float_reward_error similarity (response_length_score answer)
                    (spec_similarity question docs) len _ _ Hu Hl Hv0 Hv1 Hlen0 Hlen1
                    Herr Hlen) as Hrew.
      unfold spec_reward. fold len. eapply Qle_trans; [exact Hrew|]. lra.
  - apply similarity_all_words.
  - apply similarity_no_word.
  - apply float_similarity_all_words.
  - apply float_similarity_no_word.
  - vm_compute. reflexivity.
  - vm_compute. reflexivity.
Qed.

Lemma reward_range_witness :
  get_document_similarity "What is the REVENUE" ["what is the revenue of the firm?"]
  = Ok 1%float.
Proof.
  destruct reward_range as (_ & _ & _ & _ & Hall & _).
  apply Hall.
  - vm_compute. discriminate.
  - vm_compute. reflexivity.
  - intros w Hw. vm_compute in Hw.
    repeat (apply elem_of_cons in Hw as [->|Hw]; [vm_compute; reflexivity|]).
    by apply elem_of_nil in Hw.
Defined.

(** ** The similarity score never raises *)

Section Totality.
Context {num : Type} `{Number num}.

Lemma passage_score_returns (question content : string) :
  exists v : num, passage_score question content = Ok v.
Proof.
  unfold passage_score. destruct (split (lower question)); simpl; by eexists.
Qed.

Lemma total_score_returns (question : string) (docs : list string) (total : num) :
  exists v : num, total_score question total docs = Ok v.
Proof.
  revert total. induction docs as [|d docs IH]; intros total; simpl; [by eexists|].
  destruct (passage_score_returns question d) as [s ->]. apply IH.
Qed.

Lemma similarity_returns (question : string) (docs : list string) :
  exists v : num, get_document_similarity question docs = Ok v.
Proof.
  unfold get_document_similarity.
  destruct (total_score_returns question docs (of_Z 0)) as [total ->].
  destruct docs; simpl; by eexists.
Qed.

Lemma similarity_no_passage (question : string) :
  get_document_similarity (num := num) question [] = Ok (of_Z 0).
Proof. reflexivity. Qed.

End Totality.

Lemma lower_char_space (c : ascii) : is_space c = true -> lower_char c = c.
Proof.
  destruct c as [[] [] [] [] [] [] [] []]; vm_compute; first [reflexivity | discriminate].
Qed.

(** A question of nothing but whitespace has no word. *)
Lemma split_blank (question : string) : blank question = true -> split (lower question) = [].
Proof.
  unfold split. induction question as [|c question IH]; simpl; [done|].
  intros [Hc Hq]%andb_true_iff. rewrite (lower_char_space c Hc), Hc. auto.
Qed.

Lemma fraction_sum_wordless (question : string) (docs : list string) :
  split (lower question) = [] ->
  (fold_right Qplus 0 (map (word_fraction question) docs) == 0)%Q.
Proof.
  intros Hq. induction docs as [|d docs IH]; simpl; [reflexivity|].
  rewrite IH. unfold word_fraction. rewrite Hq. reflexivity.
Qed.

Lemma similarity_wordless_exact (question : string) (docs : list string) :
  split (lower question) = [] ->
  exists v : Q, get_document_similarity question docs = Ok v /\ (v == 0)%Q.
Proof.
  intros Hq. destruct (similarity_exact question docs) as (v & Hv & Heq & _).
  exists v. split; [done|]. rewrite Heq. unfold spec_similarity.
  destruct docs as [|d docs]; [reflexivity|].
  rewrite (fraction_sum_wordless question (d :: docs) Hq). unfold Qdiv. ring.
Qed.

(** C10.  [get_document_similarity] never raises, whatever the arithmetic: no
    division is by zero.  For a question of no word (the empty question, one
    of nothing but whitespace) it returns 0 whatever the passages, in exact
    arithmetic and in binary64 (exactly [0.0], for fewer than [2 ^ 53]
    passages); for no passage it returns the literal 0 whatever the question
    and the arithmetic. *)
Theorem similarity_total :
  (forall (num : Type) (N : Number num) (question : string) (docs : list string),
     exists v : num, get_document_similarity question docs = Ok v)
  /\ (forall (num : Type) (N : Number num) (question : string),
        get_document_similarity (num := num) question [] = Ok (of_Z 0))
  /\ (forall (question : string) (docs : list string),
        split (lower question) = [] ->
        exists v : Q, get_document_similarity question docs = Ok v /\ (v == 0)%Q)
  /\ (forall (question : string) (docs : list string),
        split (lower question) = [] ->
        (Z.of_nat (length docs) < 2 ^ 53)%Z ->
        get_document_similarity question docs = Ok 0%float)
  /\ (forall question : string, blank question = true -> split (lower question) = [])
  /\ get_document_similarity "" ["revenue"; "costs"; ""] = Ok 0%float
  /\ get_document_similarity "  " ["revenue"; "costs"; ""] = Ok 0%float
  /\ get_document_similarity "what is the revenue" [] = Ok 0%float.
Proof.
  split_and!.
  - intros num N. apply similarity_returns.
  - intros num N. apply similarity_no_passage.
  - apply similarity_wordless_exact.
  - apply float_similarity_wordless.
  - apply split_blank.
  - vm_compute. reflexivity.
  - vm_compute. reflexivity.
  - vm_compute. reflexivity.
Qed.

Lemma similarity_total_witness :
  get_document_similarity "   " ["Quarterly revenue increased by 10%"; ""] = Ok 0%float.
Proof.
  destruct similarity_total as (_ & _ & _ & Hzero & Hblank & _).
  apply Hzero.
  - apply Hblank. reflexivity.
  - vm_compute. reflexivity.
Defined.

(** ** The state key *)

Lemma round_hundredths_nearest (n : Z) (d : positive) :
  (2 * Z.abs (100 * n - round_hundredths n d * Z.pos d) <= Z.pos d)%Z.
Proof.
  unfold round_hundredths.
  pose proof (Z.div_mod (n * 100) (Z.pos d) ltac:(lia)) as Hdm.
  pose proof (Z.mod_pos_bound (n * 100) (Z.pos d) ltac:(lia)) as Hr.
  set (k := (n * 100 / Z.pos d)%Z) in *. set (r := (n * 100 mod Z.pos d)%Z) in *.
  destruct (Z.compare_spec (2 * r) (Z.pos d)); [destruct (Z.even k)|..]; nia.
Qed.

Lemma doc_ids_take (k : nat) (pdf_docs : list pdf_doc) :
  take k (doc_ids pdf_docs) = doc_ids (take k pdf_docs).
Proof. unfold doc_ids. by rewrite <- fmap_take. Qed.

(** C4 (amended).  [get_state_key] is a function of the first five embedding
    components, through their two-decimal text, and of the first three
    document ids: calls that agree on these return the same key.  The key is
    the five texts joined by ['-'], then a ['-'], then the three ids joined by
    ['-']; the ids the orchestrator passes are the first five characters of
    each document's name; the two-decimal text is that of the hundredths
    nearest to the component. *)
Theorem state_key_deterministic :
  (forall (num : Type) (N : Number num) (e1 e2 : list num) (ids1 ids2 : list string),
     map format_2f (take 5 e1) = map format_2f (take 5 e2) ->
     take 3 ids1 = take 3 ids2 ->
     get_state_key e1 ids1 = get_state_key e2 ids2)
  /\ (forall (num : Type) (N : Number num) (e : list num) (ids : list string),
        get_state_key e ids
        = join "-" (map format_2f (take 5 e)) ++ "-" ++ join "-" (take 3 ids))
  /\ (forall (num : Type) (N : Number num) (e : list num) (pdf_docs : list pdf_doc),
        get_state_key e (doc_ids pdf_docs)
        = join "-" (map format_2f (take 5 e)) ++ "-"
          ++ join "-" (map (fun d => str_prefix 5 (name d)) (take 3 pdf_docs)))
  /\ (forall x : Q,
        format_2f x
        = fixed_2f (Qnum x <? 0)%Z (Z.abs (Qnum x)) (Qden x)
        /\ (2 * Z.abs (100 * Z.abs (Qnum x)
                       - round_hundredths (Z.abs (Qnum x)) (Qden x) * Z.pos (Qden x))
            <= Z.pos (Qden x))%Z)
  /\ get_state_key [0.125%float; (-0.25)%float; 2.5%float; 10%float; 0.375%float; 7%float]
       ["repor"; "notes"; "a"; "b"]
     = "0.12--0.25-2.50-10.00-0.38-repor-notes-a".
Proof.
  split_and!.
  - intros num N e1 e2 ids1 ids2 He Hi. unfold get_state_key.
    by rewrite He, Hi.
  - reflexivity.
  - intros num N e pdf_docs. unfold get_state_key. by rewrite doc_ids_take.
  - intros x. split; [reflexivity|]. apply round_hundredths_nearest.
  - vm_compute. reflexivity.
Qed.

Lemma state_key_deterministic_witness :
  get_state_key [0.125%float; 0.5%float; 0.25%float; 0.75%float; 1%float; 3%float]
    ["repor"; "notes"; "a"; "b"]
  = get_state_key [0.125%float; 0.5%float; 0.25%float; 0.75%float; 1%float; 4%float]
      ["repor"; "notes"; "a"; "c"].
Proof.
  apply (proj1 state_key_deterministic); reflexivity.
Defined.

(** C4, as stated, fails on the separator: the two joined parts are not
    concatenated as they are, a ['-'] stands between them. *)
Lemma state_key_has_middle_separator :
  get_state_key [1%float] ["repor"] = "1.00-repor"
  /\ spec_state_key [1%float] ["repor"] = "1.00repor"
  /\ get_state_key [1%float] ["repor"] <> spec_state_key [1%float] ["repor"].
Proof.
  split_and!; [vm_compute; reflexivity..|]. vm_compute. discriminate.
Qed.

(** ** Classification *)

Lemma lower_app (a b : string) : lower (a ++ b) = lower a ++ lower b.
Proof. induction a as [|c a IH]; simpl; [done|]. by rewrite IH. Qed.

Lemma prefix_app (needle a b : string) :
  String.prefix needle a = true -> String.prefix needle (a ++ b) = true.
Proof.
  revert needle. induction a as [|c' a IH]; intros [|c needle].
  - by destruct b.
  - cbn. discriminate.
  - done.
  - change (String c' a ++ b) with (String c' (a ++ b)). cbn [String.prefix].
    destruct (ascii_dec c c'); [apply IH | done].
Qed.

Lemma contains_app (needle a b : string) :
  contains needle a = true -> contains needle (a ++ b) = true.
Proof.
  induction a as [|c a IH].
  - destruct needle as [|c needle]; [|cbn; discriminate].
    intros _. by destruct b.
  - change (String c a ++ b) with (String c (a ++ b)). cbn [contains].
    destruct (String.prefix needle (String c a)) eqn:E.
    + intros _. change (String c (a ++ b)) with (String c a ++ b).
      by rewrite (prefix_app _ _ b E).
    + intros Ha. destruct (String.prefix needle (String c (a ++ b))); [done|]. auto.
Qed.

Lemma is_pdf_related_question_cases (question : string) (pdf_docs : option (list pdf_doc)) :
  is_pdf_related_question question pdf_docs
  = if negb (has_docs pdf_docs) then false
    else if any (mentions_name question) (default [] pdf_docs)
            || any (mentions question) pdf_indicators then true
    else negb (any (mentions question) conversational_starters).
Proof.
  unfold is_pdf_related_question.
  destruct (has_docs pdf_docs); simpl; [|done].
  destruct (any (mentions_name question) (default [] pdf_docs)); simpl; [done|].
  destruct (any (mentions question) pdf_indicators); simpl; [done|].
  by destruct (any (mentions question) conversational_starters).
Qed.

(** C5 (amended).  The classification, in the order of the source: with no
    document the question is general; otherwise it is document-related when it
    mentions a loaded document's name (lower-cased, ['.pdf'] removed) or an
    indicator keyword; otherwise it is general when it holds a conversational
    opener; otherwise it is document-related.  So ["hello"] is general with
    documents present whose names do not occur in it, and ["what does the pdf
    say about X"] is document-related whenever documents are present. *)
Theorem classification_order :
  (forall (question : string) (pdf_docs : option (list pdf_doc)),
     (has_docs pdf_docs = false -> is_pdf_related_question question pdf_docs = false)
     /\ (has_docs pdf_docs = true ->
         any (mentions_name question) (default [] pdf_docs) = true
         \/ any (mentions question) pdf_indicators = true ->
         is_pdf_related_question question pdf_docs = true)
     /\ (has_docs pdf_docs = true ->
         any (mentions_name question) (default [] pdf_docs) = false ->
         any (mentions question) pdf_indicators = false ->
         is_pdf_related_question question pdf_docs
         = negb (any (mentions question) conversational_starters)))
  /\ (forall pdf_docs : option (list pdf_doc),
        has_docs pdf_docs = true ->
        any (mentions_name "hello") (default [] pdf_docs) = false ->
        is_pdf_related_question "hello" pdf_docs = false)
  /\ (forall (pdf_docs : option (list pdf_doc)) (X : string),
        has_docs pdf_docs = true ->
        is_pdf_related_question ("what does the pdf say about " ++ X) pdf_docs = true).
Proof.
  split_and!.
  - intros question pdf_docs. rewrite is_pdf_related_question_cases. split_and!.
    + by intros ->.
    + intros -> [-> | ->]; simpl; [done|]. by rewrite orb_true_r.
    + by intros -> -> ->.
  - intros pdf_docs Hd Hn. rewrite is_pdf_related_question_cases, Hd, Hn. reflexivity.
  - intros pdf_docs X Hd. rewrite is_pdf_related_question_cases, Hd. simpl negb.
    assert (Hpdf : any (mentions ("what does the pdf say about " ++ X)) pdf_indicators = true).
    { unfold any, pdf_indicators. cbn [existsb]. apply orb_true_iff. left.
      unfold mentions. rewrite lower_app. apply contains_app. reflexivity. }
    rewrite Hpdf. by rewrite orb_true_r.
Qed.

Lemma classification_order_witness :
  is_pdf_related_question "hello" (Some [{| name := "report.pdf"; pages := [] |}]) = false
  /\ is_pdf_related_question "what does the pdf say about revenue"
       (Some [{| name := "report.pdf"; pages := [] |}]) = true.
Proof.
  destruct classification_order as (_ & Hhello & Hpdf). split.
  - apply Hhello; reflexivity.
  - apply (Hpdf _ "revenue"). reflexivity.
Defined.

(** C5, as stated, fails on the precedence: a question that holds both an
    opener and an indicator keyword is document-related, the keyword being
    looked for first. *)
Lemma classification_keyword_before_opener :
  let docs := Some [{| name := "report.pdf"; pages := [] |}] in
  is_pdf_related_question "hello, what is in the pdf" docs = true
  /\ spec_is_document_related "hello, what is in the pdf" docs = false.
Proof. split; vm_compute; reflexivity. Qed.

(** ** Runs of the orchestrator *)

Section Runs.
Context {num : Type} `{Number num}.
Implicit Types (env : environment num) (s : session num) (ag : RLAgent num).

Ltac unfold_run :=
  unfold user_input, document_path, general_path, init_agent, try_except, load,
    mbind, M_bind, mret, M_ret, call, show, show_all, on_agent, save, save_model,
    append_record, current_agent, set_agent.

Ltac reduce_run := cbn [rl_agent conversation_history files page fst snd].

Ltac run_step :=
  match goal with
  | |- context [embed_query ?e ?q] => destruct (embed_query e q) eqn:?
  | |- context [choose_action ?a ?k ?l ?d ?p] =>
      destruct (choose_action a k l d p) as [? [?|?]] eqn:?
  | |- context [get_vector_store ?e ?c] => destruct (get_vector_store e c) as [[]|?] eqn:?
  | |- context [search ?e ?k ?c ?q] => destruct (search e k c q) eqn:?
  | |- context [chain ?e ?d ?q] => destruct (chain e d q) eqn:?
  | |- context [get_document_similarity ?q ?d] =>
      destruct (get_document_similarity q d) eqn:?
  | |- context [update_q_value ?a ?k ?c ?r ?n] =>
      destruct (update_q_value a k c r n) as [? [[]|?]] eqn:?
  | |- context [storage_writable ?e] => destruct (storage_writable e) eqn:?
  | |- context [enhanced_direct_gemini_response ?e ?q] =>
      destruct (enhanced_direct_gemini_response e q) eqn:?
  end.

(** What [choose_action] does to the agent: at most the zero row of the
    state. *)
Lemma choose_action_effect ag k A draw pick ag1 r :
  choose_action ag k A draw pick = (ag1, r) ->
  (ag1 = ag
   \/ (q_table ag !! k = None /\ ag1 = set_q_table (<[k := zero_row A]> (q_table ag)) ag)).
Proof.
  unfold choose_action. destruct (draw <? exploration_rate ag)%num.
  - destruct (A !! _); intros [= <- _]; by left.
  - unfold ensure_row. destruct (q_table ag !! k) as [row|] eqn:Hk.
    + rewrite Hk. simpl. rewrite set_q_table_same.
      destruct (max_item row) as [[a v]|]; intros [= <- _]; by left.
    + rewrite lookup_insert_eq. simpl.
      destruct (max_item (zero_row A)) as [[a v]|]; intros [= <- _]; by right.
Qed.

(** What a raising [update_q_value] does to the agent: at most the zero row of
    the state. *)
Lemma update_q_value_raise_effect ag k a reward ag2 e :
  update_q_value ag k a reward None = (ag2, Raise e) ->
  (ag2 = ag
   \/ (q_table ag !! k = None
       /\ ag2 = set_q_table (<[k := zero_row canonical_actions]> (q_table ag)) ag)).
Proof.
  unfold update_q_value. cbn [max_next_q].
  destruct (row_get a _) as [old|]; [discriminate|]. intros [= <- _].
  unfold ensure_row. destruct (q_table ag !! k) as [row|] eqn:Hk.
  - left. apply set_q_table_same.
  - by right.
Qed.

(** The table after a step is the table before it, or that table with the
    zero row of a state it did not have. *)
Lemma zero_row_once ag ag1 ag2 k :
  (ag1 = ag
   \/ (q_table ag !! k = None
       /\ ag1 = set_q_table (<[k := zero_row canonical_actions]> (q_table ag)) ag)) ->
  (ag2 = ag1
   \/ (q_table ag1 !! k = None
       /\ ag2 = set_q_table (<[k := zero_row canonical_actions]> (q_table ag1)) ag1)) ->
  (ag2 = ag
   \/ (q_table ag !! k = None
       /\ ag2 = set_q_table (<[k := zero_row canonical_actions]> (q_table ag)) ag)).
Proof.
  intros [->|[Hk ->]] [->|[Hk' ->]]; auto.
  simpl in Hk'. by rewrite lookup_insert_eq in Hk'.
Qed.

(** A document pass that raises: the log and the files are as before; the
    agent is as before up to the zero row of the state key, unless it is the
    final [save_model] that raised: the agent is then the one left by the
    update of the chosen action with the reward of the answer. *)
Lemma document_path_failed env q m docs ag hist fs pg s' e :
  document_path env q m docs
    {| rl_agent := Some ag; conversation_history := hist; files := fs; page := pg |}
  = (s', Raise e) ->
  conversation_history s' = hist
  /\ files s' = fs
  /\ exists ag',
       rl_agent s' = Some ag'
       /\ ((ag' = ag
            \/ (exists emb,
                  embed_query env q = Ok emb
                  /\ q_table ag !! get_state_key emb (doc_ids (default [] docs)) = None
                  /\ ag' = set_q_table
                             (<[get_state_key emb (doc_ids (default [] docs))
                                := zero_row canonical_actions]> (q_table ag)) ag))
           \/ (storage_writable env = false /\ e = OSError
               /\ exists emb ag1 a found answer similarity,
                    embed_query env q = Ok emb
                    /\ choose_action ag (get_state_key emb (doc_ids (default [] docs)))
                         canonical_actions (random_draw env) (random_index env) = (ag1, Ok a)
                    /\ search env (search_of a)
                         (get_text_chunks env (get_pdf_text (default [] docs))
                            (fst (chunk_params a)) (snd (chunk_params a))) q = Ok found
                    /\ chain env found q = Ok answer
                    /\ get_document_similarity q found = Ok similarity
                    /\ update_q_value ag1 (get_state_key emb (doc_ids (default [] docs))) a
                         (reward_of similarity (response_length_score answer)) None
                       = (ag', Ok tt))).
Proof.
  unfold_run. reduce_run.
  repeat (run_step; reduce_run);
    intros Heq; try discriminate; injection Heq as <- <-; reduce_run;
    (split; [reflexivity|]); (split; [reflexivity|]);
    eexists; (split; [reflexivity|]);
    try match goal with
        | Hc : choose_action _ _ _ _ _ = _ |- _ =>
            pose proof (choose_action_effect _ _ _ _ _ _ _ Hc)
        end;
    try match goal with
        | Hu : update_q_value _ _ _ _ None = (_, Raise _) |- _ =>
            apply update_q_value_raise_effect in Hu
        end;
    first
      [ by left; left
      | left;
        match goal with
        | Hc : _ \/ _, Hu : _ \/ _ |- _ =>
            destruct (zero_row_once _ _ _ _ Hc Hu) as [->|[? ->]];
            [by left | right; by eexists]
        end
      | left;
        match goal with
        | Hc : _ \/ _ |- _ => destruct Hc as [->|[? ->]]; [by left | right; by eexists]
        end
      | right; split_and!; [done..|];
        eexists _, _, _, _, _, _; split_and!; first [reflexivity | eassumption] ].
Qed.

(** A document pass that returns: the action chosen and the reward are in the
    record appended to the log, the passages were searched with the search of
    the action in the chunks of the action, the update was applied and the
    table written. *)
Lemma document_path_completed env q m docs ag hist fs pg s' r :
  document_path env q m docs
    {| rl_agent := Some ag; conversation_history := hist; files := fs; page := pg |}
  = (s', Ok r) ->
  exists emb ag1 a found answer similarity ag',
    let k := get_state_key emb (doc_ids (default [] docs)) in
    let reward := reward_of similarity (response_length_score answer) in
    embed_query env q = Ok emb
    /\ choose_action ag k canonical_actions (random_draw env) (random_index env) = (ag1, Ok a)
    /\ search env (search_of a)
         (get_text_chunks env (get_pdf_text (default [] docs))
            (fst (chunk_params a)) (snd (chunk_params a))) q = Ok found
    /\ chain env found q = Ok answer
    /\ get_document_similarity q found = Ok similarity
    /\ update_q_value ag1 k a reward None = (ag', Ok tt)
    /\ r = Some ag'
    /\ rl_agent s' = Some ag'
    /\ conversation_history s'
       = (hist ++ [(q, answer, m, now env, join ", " (pdf_names docs), a, format_2f reward)])%list
    /\ files s' = <[default_path := Document (table_to_json (q_table ag'))]> fs.
Proof.
  unfold_run. reduce_run.
  repeat (run_step; reduce_run); intros Heq; try discriminate.
  injection Heq as <- <-. reduce_run.
  eexists _, _, _, _, _, _, _. cbn zeta. split_and!; try reflexivity; eassumption.
Qed.

(** A general pass: the agent and the files are as before, and the log gains
    the record of a direct query exactly when the generator returned. *)
Lemma general_path_run env q m docs ag hist fs pg s' r :
  general_path env q m docs
    {| rl_agent := Some ag; conversation_history := hist; files := fs; page := pg |}
  = (s', r) ->
  r = Ok (Some ag)
  /\ rl_agent s' = Some ag
  /\ files s' = fs
  /\ match enhanced_direct_gemini_response env q with
     | Ok answer =>
         conversation_history s'
         = (hist ++ [(q, answer, ("Direct " ++ m)%string, now env,
                      join ", " (pdf_names docs), "direct_query", "N/A")])%list
     | Raise _ =>
         conversation_history s' = hist
         /\ exists e, PageError "Error getting response from Gemini: " e ∈ page s'
     end.
Proof.
  unfold_run. reduce_run. run_step; reduce_run; intros [= <- <-]; reduce_run.
  - done.
  - split_and!; try done. eexists. apply elem_of_app. right. left.
Qed.

End Runs.

Lemma user_input_with_agent {num : Type} `{Number num} (env : environment num)
    (q m key : string) (docs : option (list pdf_doc)) (ag : RLAgent num)
    (hist : list record) (fs : gmap string (file_content num)) (pg : list notice) :
  let s := {| rl_agent := Some ag; conversation_history := hist; files := fs; page := pg |} in
  user_input env q m (Some key) docs s
  = if negb (is_pdf_related_question q docs) || negb (has_docs docs)
    then general_path env q m docs s
    else document_path env q m docs s.
Proof.
  intros s. unfold user_input, mbind, M_bind, init_agent. cbn [rl_agent s].
  by destruct (negb (is_pdf_related_question q docs) || negb (has_docs docs)).
Qed.

Lemma is_pdf_related_has_docs (q : string) (docs : option (list pdf_doc)) :
  is_pdf_related_question q docs = true -> has_docs docs = true.
Proof. unfold is_pdf_related_question. by destruct (has_docs docs). Qed.

(** C6 (amended).  The chosen action decides the search, and the chunking
    as far as it was chosen.  A chunking action fixes the pair of chunk size
    and overlap (5000/500, 10000/1000, 15000/1500) and the search is the exact
    nearest-neighbour one; a retrieval action fixes the search (the
    nearest-neighbour one, or the diversity-aware one with [k=4, fetch_k=10]).
    No chunking is carried over from an earlier query: in a document pass that
    returns, whatever the session it started from, the passages given to the
    answer generator are those searched with the search of the action recorded
    in the log, in chunks made anew from the text of the documents with the
    pair that the chunking choice gives for that same action. *)
Theorem action_decides_chunking_and_search :
  (chunk_params "chunk_small" = (5000, 500)%N /\ search_of "chunk_small" = SimilaritySearch)
  /\ (chunk_params "chunk_medium" = (10000, 1000)%N
      /\ search_of "chunk_medium" = SimilaritySearch)
  /\ (chunk_params "chunk_large" = (15000, 1500)%N /\ search_of "chunk_large" = SimilaritySearch)
  /\ search_of "similarity_standard" = SimilaritySearch
  /\ search_of "similarity_mmr" = MaxMarginalRelevance 4 10
  /\ (forall a : string, a <> "similarity_mmr" -> search_of a = SimilaritySearch)
  /\ (forall (num : Type) (N : Number num) (env : environment num) (q m key : string)
             (docs : option (list pdf_doc)) (ag : RLAgent num) (hist : list record)
             (fs : gmap string (file_content num)) (pg : list notice)
             (s' : session num) (r : option (RLAgent num)),
        is_pdf_related_question q docs = true ->
        user_input env q m (Some key) docs
          {| rl_agent := Some ag; conversation_history := hist; files := fs; page := pg |}
        = (s', Ok r) ->
        exists a found answer reward,
          conversation_history s'
          = (hist ++ [(q, answer, m, now env, join ", " (pdf_names docs), a, reward)])%list
          /\ search env (search_of a)
               (get_text_chunks env (get_pdf_text (default [] docs))
                  (fst (chunk_params a)) (snd (chunk_params a))) q = Ok found
          /\ chain env found q = Ok answer).
Proof.
  split_and!; try reflexivity.
  - intros a Ha. unfold search_of, any, retrieval_actions. cbn [existsb].
    destruct (String.eqb a "similarity_standard"); [done|].
    apply String.eqb_neq in Ha. by rewrite Ha.
  - intros num N env q m key docs ag hist fs pg s' r Hq Hrun.
    rewrite user_input_with_agent, Hq, (is_pdf_related_has_docs _ _ Hq) in Hrun.
    cbn [negb orb] in Hrun.
    destruct (document_path_completed _ _ _ _ _ _ _ _ _ _ Hrun)
      as (emb & ag1 & a & found & answer & similarity & ag' & Hrest).
    cbn zeta in Hrest. destruct Hrest as (_ & _ & Hs & Ha & _ & _ & _ & _ & Hh & _).
    by eexists a, found, answer, _.
Qed.

Lemma action_decides_chunking_and_search_witness :
  exists a found answer reward,
    conversation_history
      (fst (user_input (sample_env true) sample_question "Google AI" (Some "key") sample_docs
              sample_session))
    = [(sample_question, answer, "Google AI", "2024-01-01 00:00:00", "report.pdf", a, reward)]
    /\ search (sample_env true) (search_of a)
         (get_text_chunks (sample_env true) (get_pdf_text (default [] sample_docs))
            (fst (chunk_params a)) (snd (chunk_params a))) sample_question = Ok found
    /\ chain (sample_env true) found sample_question = Ok answer.
Proof.
  destruct (user_input (sample_env true) sample_question "Google AI" (Some "key") sample_docs
              sample_session) as [s' [r|e]] eqn:Hrun.
  - apply (proj2 (proj2 (proj2 (proj2 (proj2 (proj2
             action_decides_chunking_and_search))))) float _ (sample_env true)
             sample_question "Google AI" "key" sample_docs default_agent [] ∅ [] s' r).
    + reflexivity.
    + exact Hrun.
  - vm_compute in Hrun. discriminate.
Defined.

(** C6, as stated, fails for a retrieval action: after a query chunked small,
    the chunks of a query whose action is [similarity_mmr] are not made with
    the pair of the query before. *)
Lemma retrieval_action_chunks_large :
  chunk_params "chunk_small" = (5000, 500)%N
  /\ chunk_params "similarity_mmr" = (15000, 1500)%N
  /\ spec_chunking (chunk_params "chunk_small") "similarity_mmr" = (5000, 500)%N
  /\ chunk_params "similarity_mmr" <> spec_chunking (chunk_params "chunk_small") "similarity_mmr".
Proof. split_and!; [reflexivity..|]. vm_compute. discriminate. Qed.




(** ** Persistence *)

Section PersistenceFacts.
Context {num : Type} `{Number num}.
Implicit Types (r acc : row num) (t : gmap string (row num)) (ag : RLAgent num).

Lemma row_of_members_written r acc :
  NoDup (acc.*1 ++ r.*1) ->
  row_of_members (map (fun kv => (fst kv, JNumber (snd kv))) r) acc = Some (acc ++ r)%list.
Proof.
  revert acc. induction r as [|[k v] r IH]; intros acc Hnd; simpl.
  - by rewrite app_nil_r.
  - simpl in Hnd. apply NoDup_app in Hnd as (Hacc & Hdisj & Hr).
    apply NoDup_cons in Hr as [Hk Hr].
    assert (Hfresh : k ∉ acc.*1).
    { intros Hin. apply (Hdisj k Hin). left. }
    rewrite row_set_fresh by done.
    rewrite IH; [by rewrite <- app_assoc|].
    rewrite fmap_app. simpl. rewrite <- app_assoc. simpl.
    apply NoDup_app. split_and!; [done| |by apply NoDup_cons].
    exact Hdisj.
Qed.

(** A row that is a dict is read back as it was written. *)
Lemma row_roundtrip r : NoDup r.*1 -> row_of_json (row_to_json r) = Some r.
Proof. intros Hnd. unfold row_of_json, row_to_json. by rewrite row_of_members_written. Qed.

Lemma table_of_members_written (l : list (string * row num)) t :
  (forall kr, kr ∈ l -> NoDup (snd kr).*1) ->
  table_of_members (map (fun kr => (fst kr, row_to_json (snd kr))) l) t
  = Some (fold_left (fun m kr => <[fst kr := snd kr]> m) l t).
Proof.
  revert t. induction l as [|[k r] l IH]; intros t Hl; [done|].
  cbn [map table_of_members fst snd fold_left].
  rewrite row_roundtrip by (apply (Hl (k, r)); left).
  apply IH. intros kr Hkr. apply Hl. by right.
Qed.

Lemma fold_insert_union (l : list (string * row num)) t :
  NoDup l.*1 ->
  fold_left (fun m kr => <[fst kr := snd kr]> m) l t = list_to_map l ∪ t.
Proof.
  revert t. induction l as [|[k r] l IH]; intros t Hnd.
  - cbn. by rewrite (left_id_L ∅ (∪)).
  - rewrite fmap_cons in Hnd. apply NoDup_cons in Hnd as [Hk Hnd].
    cbn [fold_left fst snd]. rewrite IH by done.
    rewrite list_to_map_cons, <- insert_union_l. symmetry. apply insert_union_r.
    by apply not_elem_of_list_to_map_1.
Qed.

(** A table whose rows are dicts is read back as it was written. *)
Lemma table_roundtrip t : rows_are_dicts t -> table_of_json (table_to_json t) = Some t.
Proof.
  intros Hwf. unfold table_of_json, table_to_json.
  rewrite table_of_members_written.
  - rewrite fold_insert_union by apply NoDup_fst_map_to_list.
    by rewrite (right_id_L ∅ (∪)), list_to_map_to_list.
  - intros [k r] Hkr. apply elem_of_map_to_list in Hkr. by apply (Hwf k).
Qed.

Lemma save_then_load ag ag0 path fs :
  rows_are_dicts (q_table ag) ->
  load_model ag0 path (fst (save_model ag path true fs))
  = (set_q_table (q_table ag) ag0, Ok tt).
Proof.
  intros Hwf. unfold save_model, load_model. cbn [fst].
  rewrite lookup_insert_eq. by rewrite table_roundtrip.
Qed.

(** The tables the agent builds have dicts for rows. *)
Lemma rows_are_dicts_empty : rows_are_dicts (∅ : gmap string (row num)).
Proof. intros k r Hk. by rewrite lookup_empty in Hk. Qed.

Lemma rows_are_dicts_insert t k r :
  rows_are_dicts t -> NoDup r.*1 -> rows_are_dicts (<[k := r]> t).
Proof.
  intros Hwf Hr k' r' Hk'. destruct (decide (k = k')) as [->|Hne].
  - rewrite lookup_insert_eq in Hk'. by injection Hk' as <-.
  - rewrite lookup_insert_ne in Hk' by done. by apply (Hwf k').
Qed.

Lemma rows_are_dicts_ensure_row t k actions :
  rows_are_dicts t -> rows_are_dicts (ensure_row k actions t).
Proof.
  intros Hwf. unfold ensure_row. destruct (t !! k); [done|].
  apply rows_are_dicts_insert; [done | apply zero_row_NoDup].
Qed.

Lemma rows_are_dicts_choose_action ag k A draw pick :
  rows_are_dicts (q_table ag) ->
  rows_are_dicts (q_table (fst (choose_action ag k A draw pick))).
Proof.
  intros Hwf. destruct (choose_action ag k A draw pick) as [ag1 r] eqn:Hc.
  apply choose_action_effect in Hc as [->|[_ ->]]; [done|].
  apply rows_are_dicts_insert; [done | apply zero_row_NoDup].
Qed.

Lemma rows_are_dicts_update_q_value ag k a reward next_state :
  rows_are_dicts (q_table ag) ->
  rows_are_dicts (q_table (fst (update_q_value ag k a reward next_state))).
Proof.
  intros Hwf. unfold update_q_value.
  pose proof (rows_are_dicts_ensure_row _ k canonical_actions Hwf) as Hwf'.
  destruct (max_next_q _ next_state); [|done].
  destruct (ensure_row k canonical_actions (q_table ag) !! k) as [r|] eqn:Hr; simpl.
  - destruct (row_get a r); [|done]. simpl.
    apply rows_are_dicts_insert; [done|]. apply row_set_NoDup. by apply (Hwf' k).
  - done.
Qed.

Lemma load_model_missing_file ag path (fs : gmap string (file_content num)) :
  fs !! path = None -> load_model ag path fs = (ag, Ok tt).
Proof. intros Hp. unfold load_model. by rewrite Hp. Qed.

End PersistenceFacts.

Section LoadedTables.
Context {num : Type} `{Number num}.

Lemma row_of_members_NoDup (ms : list (string * json num)) (acc r : row num) :
  NoDup acc.*1 -> row_of_members ms acc = Some r -> NoDup r.*1.
Proof.
  revert acc. induction ms as [|[k j] ms IH]; intros acc Hacc; simpl.
  - by intros [= <-].
  - destruct j; try discriminate. apply IH. by apply row_set_NoDup.
Qed.

Lemma table_of_members_dicts (ms : list (string * json num)) (acc t : gmap string (row num)) :
  rows_are_dicts acc -> table_of_members ms acc = Some t -> rows_are_dicts t.
Proof.
  revert acc. induction ms as [|[k j] ms IH]; intros acc Hacc; simpl.
  - by intros [= <-].
  - destruct (row_of_json j) as [r|] eqn:Hr; [|discriminate].
    apply IH. apply rows_are_dicts_insert; [done|].
    destruct j as [| | | | |members]; try discriminate. simpl in Hr.
    apply (row_of_members_NoDup members [] r); [constructor | done].
Qed.

Lemma table_of_json_dicts (j : json num) (t : gmap string (row num)) :
  table_of_json j = Some t -> rows_are_dicts t.
Proof.
  destruct j; try discriminate. simpl.
  apply table_of_members_dicts, rows_are_dicts_empty.
Qed.

Lemma rows_are_dicts_load_model (ag : RLAgent num) path fs :
  rows_are_dicts (q_table ag) -> rows_are_dicts (q_table (fst (load_model ag path fs))).
Proof.
  intros Hwf. unfold load_model. destruct (fs !! path) as [[|j]|]; [done| |done].
  destruct (table_of_json j) as [t|] eqn:Ht; [|done]. simpl.
  by apply (table_of_json_dicts j).
Qed.

End LoadedTables.

(** C8.  A table written by [save_model] and read by [load_model] is the same
    table: every state has the same row and every state/action pair the same
    value (the document on disk is the JSON object of the table; the text of
    each number is the [json] module's).  The tables concerned are those whose
    rows are dicts, which is every table the agent builds: the empty one, and
    those that [choose_action], [update_q_value] and [load_model] make of
    one. *)
Theorem save_load_roundtrip :
  (forall (num : Type) (N : Number num) (ag ag0 : RLAgent num) (path : string)
          (fs : gmap string (file_content num)),
     rows_are_dicts (q_table ag) ->
     snd (save_model ag path true fs) = Ok tt
     /\ load_model ag0 path (fst (save_model ag path true fs))
        = (set_q_table (q_table ag) ag0, Ok tt)
     /\ (forall s, q_table (fst (load_model ag0 path (fst (save_model ag path true fs)))) !! s
                   = q_table ag !! s)
     /\ (forall s a,
           q_value (q_table (fst (load_model ag0 path (fst (save_model ag path true fs))))) s a
           = q_value (q_table ag) s a))
  /\ (forall (num : Type) (N : Number num),
        rows_are_dicts (∅ : gmap string (row num))
        /\ (forall (ag : RLAgent num) k A draw pick,
              rows_are_dicts (q_table ag) ->
              rows_are_dicts (q_table (fst (choose_action ag k A draw pick))))
        /\ (forall (ag : RLAgent num) k a reward next_state,
              rows_are_dicts (q_table ag) ->
              rows_are_dicts (q_table (fst (update_q_value ag k a reward next_state))))
        /\ (forall (ag : RLAgent num) path fs,
              rows_are_dicts (q_table ag) ->
              rows_are_dicts (q_table (fst (load_model ag path fs))))).
Proof.
  split.
  - intros num N ag ag0 path fs Hwf. split; [done|].
    rewrite (save_then_load ag ag0 path fs Hwf). by split_and!.
  - intros num N. split_and!.
    + apply rows_are_dicts_empty.
    + intros. by apply rows_are_dicts_choose_action.
    + intros. by apply rows_are_dicts_update_q_value.
    + intros. by apply rows_are_dicts_load_model.
Qed.

Lemma save_load_roundtrip_witness :
  let ag : RLAgent float :=
    fst (update_q_value default_agent "0.12-0.25-repor" "similarity_mmr" 0.75%float None) in
  load_model default_agent "rl_model.json" (fst (save_model ag "rl_model.json" true ∅))
  = (set_q_table (q_table ag) default_agent, Ok tt).
Proof.
  intros ag. destruct save_load_roundtrip as [Hround Hdicts].
  destruct (Hdicts float _) as (Hempty & _ & Hupdate & _).
  destruct (Hround float _ ag default_agent "rl_model.json" ∅) as (_ & Hload & _).
  - apply Hupdate. exact Hempty.
  - exact Hload.
Defined.

(** C9.  With no file at the path, [load_model] returns without raising and
    leaves the agent, so its table, as it was; an agent made by [user_input]
    at a cold start has the empty table it was constructed with. *)
Theorem load_model_cold_start :
  (forall (num : Type) (N : Number num) (ag : RLAgent num) (path : string)
          (fs : gmap string (file_content num)),
     fs !! path = None -> load_model ag path fs = (ag, Ok tt))
  /\ (forall (num : Type) (N : Number num) (hist : list record)
             (fs : gmap string (file_content num)) (pg : list notice),
        fs !! default_path = None ->
        exists pg',
          init_agent {| rl_agent := None; conversation_history := hist; files := fs;
                        page := pg |}
          = ({| rl_agent := Some default_agent; conversation_history := hist; files := fs;
                page := pg' |}, Ok tt)
          /\ q_table (default_agent (num := num)) = ∅).
Proof.
  split.
  - intros num N ag path fs. apply load_model_missing_file.
  - intros num N hist fs pg Hfs. eexists.
    unfold init_agent, try_except, load, on_agent, mbind, M_bind, show, show_all, set_agent.
    cbn [rl_agent conversation_history files page].
    pose proof (load_model_missing_file default_agent default_path fs Hfs) as Hload.
    rewrite Hload. split; reflexivity.
Qed.

Lemma load_model_cold_start_witness :
  load_model (default_agent : RLAgent float) "rl_model.json" ∅ = (default_agent, Ok tt).
Proof.
  apply (proj1 load_model_cold_start float _ default_agent "rl_model.json" ∅).
  vm_compute. reflexivity.
Defined.

(** * Further properties

    What the code does beyond what the specification states of it: its edge
    cases, the invariants it keeps, its round trips and how its functions
    compose.  Each property is read off the source. *)

(** ** The table under its invariant *)

Section CanonicalFacts.
Context {num : Type} `{Number num}.
Implicit Types (ag : RLAgent num) (t : gmap string (row num)) (r : row num).

Lemma max_item_from_In (best : string * num) r : max_item_from best r ∈ best :: r.
Proof.
  revert best. induction r as [|x r IH]; intros best; cbn [max_item_from].
  - apply list_elem_of_here.
  - specialize (IH (if (snd best <? snd x)%num then x else best)).
    destruct (snd best <? snd x)%num.
    + apply list_elem_of_further. exact IH.
    + apply elem_of_cons in IH as [->|IH]; [apply list_elem_of_here|].
      do 2 apply list_elem_of_further. exact IH.
Qed.

Lemma max_item_In r m : max_item r = Some m -> m ∈ r.
Proof.
  destruct r as [|x r]; [discriminate|]. cbn [max_item]. intros [= <-].
  apply max_item_from_In.
Qed.

Lemma zero_row_keys : (zero_row (num := num) canonical_actions).*1 = canonical_actions.
Proof. rewrite zero_row_canonical. reflexivity. Qed.

Lemma canonical_rows_ensure_row t k :
  canonical_rows t -> canonical_rows (ensure_row k canonical_actions t).
Proof.
  intros Hc k' r. unfold ensure_row. destruct (t !! k) eqn:Hk; [apply Hc|].
  destruct (decide (k' = k)) as [->|Hne].
  - rewrite lookup_insert_eq. intros [= <-]. apply zero_row_keys.
  - rewrite lookup_insert_ne by congruence. apply Hc.
Qed.

Lemma canonical_rows_insert t k r :
  canonical_rows t -> r.*1 = canonical_actions -> canonical_rows (<[k := r]> t).
Proof.
  intros Hc Hr k' r'. destruct (decide (k' = k)) as [->|Hne].
  - rewrite lookup_insert_eq. intros [= <-]. exact Hr.
  - rewrite lookup_insert_ne by congruence. apply Hc.
Qed.

Lemma ensure_row_lookup t k :
  canonical_rows t ->
  exists r, ensure_row k canonical_actions t !! k = Some r /\ r.*1 = canonical_actions.
Proof.
  intros Hc. rewrite ensure_row_same. destruct (t !! k) as [r|] eqn:Hk; cbn [default from_option id].
  - exists r. split; [reflexivity|]. exact (Hc _ _ Hk).
  - eexists. split; [reflexivity|]. apply zero_row_keys.
Qed.

Lemma choose_action_canonical ag k draw pick :
  canonical_rows (q_table ag) ->
  exists ag1 a,
    choose_action ag k canonical_actions draw pick = (ag1, Ok a)
    /\ a ∈ canonical_actions
    /\ canonical_rows (q_table ag1)
    /\ (ag1 = ag \/ (q_table ag !! k = None
                     /\ ag1 = set_q_table (<[k := zero_row canonical_actions]> (q_table ag)) ag)).
Proof.
  intros Hc. unfold choose_action.
  destruct (draw <? exploration_rate ag)%num.
  - destruct (canonical_actions !! (pick mod length canonical_actions)%nat) as [a|] eqn:Ha.
    + exists ag, a. split_and!; [reflexivity| |exact Hc|left; reflexivity].
      eapply list_elem_of_lookup_2. exact Ha.
    + apply lookup_ge_None_1 in Ha.
      pose proof (Nat.mod_upper_bound pick (length canonical_actions)) as Hb.
      cbn in Ha, Hb. lia.
  - destruct (ensure_row_lookup (q_table ag) k Hc) as (r & Hr & Hkeys).
    rewrite Hr. cbn [default from_option id].
    destruct (max_item r) as [[a v]|] eqn:Hm.
    + exists (set_q_table (ensure_row k canonical_actions (q_table ag)) ag), a.
      split_and!; [reflexivity| | |].
      * apply max_item_In in Hm. rewrite <- Hkeys.
        apply list_elem_of_fmap. exists (a, v). split; [reflexivity|exact Hm].
      * cbn. apply canonical_rows_ensure_row, Hc.
      * unfold ensure_row. destruct (q_table ag !! k) eqn:Hk.
        -- left. destruct ag; reflexivity.
        -- right. split; reflexivity.
    + destruct r; [discriminate Hkeys|discriminate Hm].
Qed.

Lemma max_next_q_canonical t ns :
  canonical_rows t -> exists v, max_next_q t ns = Ok v.
Proof.
  intros Hc. unfold max_next_q. destruct ns as [ns|]; [|eauto].
  destruct (String.eqb ns ""); [eauto|].
  destruct (t !! ns) as [r|] eqn:Hr; [|eauto].
  apply Hc in Hr. destruct r as [|x r]; [discriminate Hr|]. cbn. eauto.
Qed.

Lemma update_q_value_canonical ag k a reward ns :
  canonical_rows (q_table ag) ->
  a ∈ canonical_actions ->
  exists ag2,
    update_q_value ag k a reward ns = (ag2, Ok tt)
    /\ canonical_rows (q_table ag2)
    /\ learning_rate ag2 = learning_rate ag
    /\ discount_factor ag2 = discount_factor ag
    /\ exploration_rate ag2 = exploration_rate ag.
Proof.
  intros Hc Ha. unfold update_q_value.
  destruct (max_next_q_canonical (ensure_row k canonical_actions (q_table ag)) ns) as [v Hv].
  { apply canonical_rows_ensure_row, Hc. }
  rewrite Hv.
  destruct (ensure_row_lookup (q_table ag) k Hc) as (r & Hr & Hkeys).
  rewrite Hr. cbn [default from_option id].
  destruct (row_get a r) as [old|] eqn:Hold.
  - eexists. split_and!; [reflexivity| |reflexivity..].
    cbn. apply canonical_rows_insert; [apply canonical_rows_ensure_row, Hc|].
    rewrite row_set_keys_present; [exact Hkeys|]. rewrite Hkeys. exact Ha.
  - apply row_get_None_keys in Hold. rewrite Hkeys in Hold. contradiction.
Qed.

End CanonicalFacts.

Section RowPredicates.
Context {A : Type}.
Implicit Types (r : list (string * A)) (P : A -> Prop).

Lemma row_set_Forall P a v r :
  Forall (fun kv => P (snd kv)) r -> P v -> Forall (fun kv => P (snd kv)) (row_set a v r).
Proof.
  intros Hr Hv. induction r as [|[k w] r IH]; cbn [row_set].
  - by constructor.
  - apply Forall_cons in Hr as [Hw Hr]. destruct (String.eqb k a).
    + by constructor.
    + constructor; [exact Hw|]. by apply IH.
Qed.

Lemma row_get_Forall P a v r :
  Forall (fun kv => P (snd kv)) r -> row_get a r = Some v -> P v.
Proof.
  intros Hr. induction r as [|[k w] r IH]; cbn [row_get]; [discriminate|].
  apply Forall_cons in Hr as [Hw Hr]. destruct (String.eqb k a).
  - by intros [= <-].
  - by apply IH.
Qed.

End RowPredicates.

(** ** The update in binary64 *)

Lemma FQ_opp (x : float) : (FQ (- x) == - FQ x)%Q.
Proof. unfold FQ. rewrite opp_spec. apply SF2Q_opp. Qed.

(** Rounding a value of [0, 1] adds at most [2 ^ -54], unless the value is 1. *)
Lemma rounded_up_error (v z : Q) :
  rounded v z -> (0 <= v)%Q -> (v <= 1)%Q -> (z - v <= pow2 (-54))%Q \/ (1 <= v)%Q.
Proof.
  intros (e & m & Hz & He & Hlo & Hhi & _ & _ & Hmag) H0 H1.
  pose proof (pow2_pos e) as Hpe. pose proof (pow2_pos (e + 52)) as Hpe52.
  assert (Herr : (z - v <= pow2 (e - 1))%Q).
  { pose proof (pow2_succ (e - 1)) as Hs. replace (e - 1 + 1)%Z with e in Hs by lia.
    rewrite Hz. lra. }
  destruct (Z_le_gt_dec e (-53)) as [Hsmall|Hbig].
  - left. pose proof (pow2_le (e - 1) (-54) ltac:(lia)). lra.
  - destruct Hmag as [->|[Hge|Hle]]; [lia| |lra].
    right. pose proof (pow2_le 0 (e + 52) ltac:(lia)) as Hle.
    change (pow2 0) with 1%Q in Hle. lra.
Qed.

(** A value at most [2 ^ -54] above 1 is rounded to at most 1. *)
Lemma rounded_near_one (v z : Q) :
  rounded v z -> (v <= 1 + pow2 (-54))%Q -> (z <= 1)%Q.
Proof.
  intros Hr Hv. destruct (Qlt_le_dec 1 v) as [Hgt|Hle]; [|by apply (rounded_le_one _ _ Hr)].
  destruct Hr as (e & m & Hz & He & Hlo & Hhi & _ & Hbig & Hmag).
  assert (H54 : (pow2 (-54) == 1 # 18014398509481984)%Q) by reflexivity.
  assert (H52 : (pow2 (-52) == 1 # 4503599627370496)%Q) by reflexivity.
  assert (He1 : (-53 < e)%Z).
  { assert (pow2 0 < pow2 (e + 53))%Q as Hlt by (change (pow2 0) with 1%Q; lra).
    apply pow2_lt_inv in Hlt. lia. }
  assert (He2 : (e < -51)%Z).
  { destruct Hmag as [->|[Hge|Hneg]]; [lia| |pose proof (pow2_pos (e + 52)); lra].
    assert (pow2 (e + 52) < pow2 1)%Q as Hlt by (change (pow2 1) with 2%Q; lra).
    apply pow2_lt_inv in Hlt. lia. }
  assert (e = (-52)%Z) as -> by lia.
  assert (Hm : (m <= 2 ^ 52)%Z).
  { assert (inject_Z m < inject_Z (2 ^ 52 + 1))%Q as Hlt.
    { change (inject_Z (2 ^ 52 + 1)) with 4503599627370497%Q.
      rewrite H52 in Hlo. rewrite H54 in Hv. lra. }
    apply (proj1 (inject_Z_lt_iff _ _)) in Hlt. lia. }
  apply (proj2 (inject_Z_le_iff _ _)) in Hm. rewrite H52 in Hz.
  change (inject_Z (2 ^ 52)) with 4503599627370496%Q in Hm. rewrite Hz. lra.
Qed.

Lemma FQ_of_Z_0 : (FQ (of_Z 0) == 0)%Q.
Proof. reflexivity. Qed.

(** What [old + lr * (reward + df * 0 - old)] is in binary64, for a learning
    rate, an old value and a reward in [0, 1]: a value of [0, 1], on the side
    of the old value where the reward is. *)
Lemma float_q_update (ag : RLAgent float) (old reward : float) :
  in_unit (learning_rate ag) -> finite (discount_factor ag) ->
  in_unit old -> in_unit reward ->
  in_unit (q_update ag old reward (of_Z 0))
  /\ ((FQ old <= FQ reward)%Q -> (FQ old <= FQ (q_update ag old reward (of_Z 0)))%Q)
  /\ ((FQ reward <= FQ old)%Q -> (FQ (q_update ag old reward (of_Z 0)) <= FQ old)%Q).
Proof.
  intros (Fl & Hl0 & Hl1)%in_unit_iff Fd (Fo & Ho0 & Ho1)%in_unit_iff
    (Fr & Hr0 & Hr1)%in_unit_iff.
  unfold q_update.
  change (@nmul float float_Number) with PrimFloat.mul.
  change (@nadd float float_Number) with PrimFloat.add.
  change (@nsub float float_Number) with PrimFloat.sub.
  set (lr := learning_rate ag) in *. set (df := discount_factor ag) in *.
  pose proof (pow2_pos 1000) as Hp1000.
  assert (H1000 : (2 < pow2 1000)%Q).
  { pose proof (pow2_lt 1 1000 ltac:(lia)) as Hlt. by change (pow2 1) with 2%Q in Hlt. }
  assert (Fz : finite (of_Z 0 : float)) by exact I.
  (* df * 0 *)
  destruct (float_mul_rounded df (of_Z 0) Fd Fz) as [F1 R1].
  { rewrite FQ_of_Z_0. lra. }
  { rewrite FQ_of_Z_0. lra. }
  assert (V1 : (FQ (df * of_Z 0) == 0)%Q).
  { assert (rounded 0 (FQ (df * of_Z 0))) as R1'.
    { eapply rounded_ext; [|reflexivity|exact R1]. rewrite FQ_of_Z_0. ring. }
    pose proof (rounded_nonneg _ _ R1' ltac:(lra)).
    pose proof (rounded_le 0 _ _ R1') as Hle. rewrite FQ_0 in Hle. specialize (Hle ltac:(lra)).
    lra. }
  (* reward + df * 0 *)
  destruct (float_add_rounded reward (df * of_Z 0) Fr F1) as [F2 R2]; [lra..|].
  assert (V2 : (FQ (reward + df * of_Z 0) == FQ reward)%Q).
  { pose proof (rounded_ge reward _ _ R2 ltac:(lra)).
    pose proof (rounded_le reward _ _ R2 ltac:(lra)). lra. }
  set (r' := (reward + df * of_Z 0)%float) in *.
  (* ... - old *)
  destruct (float_sub_rounded r' old F2 Fo) as [F3 R3]; [lra..|].
  assert (R3' : rounded (FQ reward - FQ old) (FQ (r' - old))).
  { eapply rounded_ext; [|reflexivity|exact R3]. lra. }
  set (d := (r' - old)%float) in *.
  assert (Hd1 : (FQ d <= 1)%Q) by (apply (rounded_le_one _ _ R3'); lra).
  assert (Hdo : (- FQ old <= FQ d)%Q).
  { rewrite <- FQ_opp. apply (rounded_ge _ _ _ R3'). rewrite FQ_opp. lra. }
  assert (Hdpos : (FQ old <= FQ reward)%Q -> (0 <= FQ d)%Q).
  { intros Hle. apply (rounded_nonneg _ _ R3'). lra. }
  assert (Hdneg : (FQ reward <= FQ old)%Q -> (FQ d <= 0)%Q).
  { intros Hle. pose proof (rounded_le 0 _ _ R3') as H0. rewrite FQ_0 in H0. apply H0. lra. }
  (* lr * ... *)
  destruct (float_mul_rounded lr d Fl F3) as [F4 R4]; [nra..|].
  set (p := (lr * d)%float) in *.
  assert (Hppos : (0 <= FQ d)%Q -> (0 <= FQ p)%Q /\ (FQ p <= FQ d)%Q).
  { intros Hd. split; [apply (rounded_nonneg _ _ R4)|apply (rounded_le d _ _ R4)]; nra. }
  assert (Hpneg : (FQ d <= 0)%Q -> (FQ d <= FQ p)%Q /\ (FQ p <= 0)%Q).
  { intros Hd. split; [apply (rounded_ge d _ _ R4); nra|].
    pose proof (rounded_le 0 _ _ R4) as H0. rewrite FQ_0 in H0. apply H0. nra. }
  assert (Hp : (- 1 <= FQ p)%Q /\ (FQ p <= 1)%Q).
  { destruct (Qlt_le_dec (FQ d) 0) as [Hn|Hn];
      [destruct (Hpneg ltac:(lra))|destruct (Hppos Hn)]; lra. }
  (* old + ... *)
  destruct (float_add_rounded old p Fo F4) as [F5 R5]; [lra..|].
  set (n := (old + p)%float) in *.
  assert (Hup : (FQ old <= FQ reward)%Q -> (FQ old <= FQ n)%Q).
  { intros Hle. destruct (Hppos (Hdpos Hle)). apply (rounded_ge old _ _ R5). lra. }
  assert (Hdown : (FQ reward <= FQ old)%Q -> (FQ n <= FQ old)%Q).
  { intros Hle. destruct (Hpneg (Hdneg Hle)). apply (rounded_le old _ _ R5). lra. }
  split; [|by split].
  apply in_unit_iff. split; [done|].
  destruct (Qlt_le_dec (FQ reward) (FQ old)) as [Hlt|Hle].
  - destruct (Hpneg (Hdneg ltac:(lra))). split.
    + apply (rounded_nonneg _ _ R5). lra.
    + specialize (Hdown ltac:(lra)). lra.
  - destruct (Hppos (Hdpos Hle)). split.
    + specialize (Hup Hle). lra.
    + destruct (rounded_up_error _ _ R3') as [Herr|Hone]; [lra..| |].
      * apply (rounded_near_one _ _ R5). lra.
      * apply (rounded_le_one _ _ R5). lra.
Qed.

Lemma values_in_unit_insert (t : gmap string (row float)) k r :
  values_in_unit t -> Forall (fun kv => in_unit (snd kv)) r ->
  values_in_unit (<[k := r]> t).
Proof.
  intros Ht Hr k' r'. destruct (decide (k' = k)) as [->|Hne].
  - rewrite lookup_insert_eq. by intros [= <-].
  - rewrite lookup_insert_ne by congruence. apply Ht.
Qed.

Lemma zero_row_unit (actions : list string) :
  Forall (fun kv => in_unit (snd kv)) (zero_row (num := float) actions).
Proof.
  apply Forall_forall. intros y Hy.
  assert (snd y = of_Z 0) as ->.
  { revert y Hy. apply (fold_row_set_zeros (num := float)). intros y Hy.
    by apply elem_of_nil in Hy. }
  apply in_unit_0.
Qed.

Lemma values_in_unit_ensure_row (t : gmap string (row float)) k actions :
  values_in_unit t -> values_in_unit (ensure_row k actions t).
Proof.
  intros Ht. unfold ensure_row. destruct (t !! k); [exact Ht|].
  apply values_in_unit_insert; [exact Ht|apply zero_row_unit].
Qed.

Lemma values_in_unit_choose_action (ag ag1 : RLAgent float) k A draw pick r :
  values_in_unit (q_table ag) ->
  choose_action ag k A draw pick = (ag1, r) ->
  values_in_unit (q_table ag1).
Proof.
  intros Ht Hc. apply choose_action_effect in Hc as [->|[_ ->]]; [exact Ht|].
  cbn. apply values_in_unit_insert; [exact Ht|apply zero_row_unit].
Qed.

Lemma values_in_unit_update_q_value (ag ag2 : RLAgent float) k a reward res :
  in_unit (learning_rate ag) -> finite (discount_factor ag) -> in_unit reward ->
  values_in_unit (q_table ag) ->
  update_q_value ag k a reward None = (ag2, res) ->
  values_in_unit (q_table ag2).
Proof.
  intros Hlr Hdf Hr Ht. unfold update_q_value. cbn [max_next_q].
  pose proof (values_in_unit_ensure_row _ k canonical_actions Ht) as Ht'.
  set (t := ensure_row k canonical_actions (q_table ag)) in *.
  destruct (t !! k) as [r|] eqn:Hk; cbn [default from_option id].
  - destruct (row_get a r) as [old|] eqn:Hold; intros [= <- _]; cbn; [|exact Ht'].
    apply values_in_unit_insert; [exact Ht'|].
    pose proof (Ht' _ _ Hk) as Hrow.
    apply (row_set_Forall in_unit); [exact Hrow|].
    apply float_q_update; [exact Hlr|exact Hdf| |exact Hr].
    exact (row_get_Forall in_unit _ _ _ Hrow Hold).
  - cbn [row_get]. intros [= <- _]. exact Ht'.
Qed.

(** Binary64: a finite discount factor times the [0] of a missing next state
    adds nothing to a reward that is not the negative zero. *)
Lemma float_discount_unused (reward df : float) :
  finite df ->
  Prim2SF reward <> S754_zero true ->
  (reward + df * of_Z 0)%float = reward.
Proof.
  unfold finite. intros Hd Hr. apply Prim2SF_inj.
  rewrite add_spec, mul_spec.
  change (Prim2SF (of_Z 0)) with (S754_zero false).
  destruct (Prim2SF reward) as [sr| | |sr mr er], (Prim2SF df) as [sd| | |sd md ed];
    try contradiction; try destruct sr; try destruct sd; try reflexivity; congruence.
Qed.

Lemma choose_action_rates {num : Type} `{Number num} (ag ag1 : RLAgent num) k A draw pick r :
  choose_action ag k A draw pick = (ag1, r) ->
  learning_rate ag1 = learning_rate ag
  /\ discount_factor ag1 = discount_factor ag
  /\ exploration_rate ag1 = exploration_rate ag.
Proof. intros Hc. by apply choose_action_effect in Hc as [->|[_ ->]]. Qed.

(** X1.  On a table whose rows all hold the five canonical actions,
    [choose_action] with the canonical list returns, whatever the random
    draw, one of the five actions, adding to the table at most the zero row
    of the state; [update_q_value] for that action then returns as well,
    whatever the reward and the next state.  Neither raises, the rows stay
    canonical, and the three rates are as they were. *)
Theorem choose_then_update_on_canonical_rows :
  forall (num : Type) (N : Number num) (ag : RLAgent num) (k : string) (draw : num)
         (pick : nat) (reward : num) (next_state : option string),
    canonical_rows (q_table ag) ->
    exists ag1 a ag2,
      choose_action ag k canonical_actions draw pick = (ag1, Ok a)
      /\ a ∈ canonical_actions
      /\ (ag1 = ag
          \/ (q_table ag !! k = None
              /\ ag1 = set_q_table (<[k := zero_row canonical_actions]> (q_table ag)) ag))
      /\ update_q_value ag1 k a reward next_state = (ag2, Ok tt)
      /\ canonical_rows (q_table ag2)
      /\ learning_rate ag2 = learning_rate ag
      /\ discount_factor ag2 = discount_factor ag
      /\ exploration_rate ag2 = exploration_rate ag.
Proof.
  intros num N ag k draw pick reward next_state Hc.
  destruct (choose_action_canonical ag k draw pick Hc) as (ag1 & a & Hch & Ha & Hc1 & Heff).
  destruct (choose_action_rates _ _ _ _ _ _ _ Hch) as (Hl1 & Hd1 & He1).
  destruct (update_q_value_canonical ag1 k a reward next_state Hc1 Ha)
    as (ag2 & Hup & Hc2 & Hl2 & Hd2 & He2).
  exists ag1, a, ag2. split_and!; [exact Hch|exact Ha|exact Heff|exact Hup|exact Hc2|congruence..].
Qed.

Lemma choose_then_update_on_canonical_rows_witness :
  let r : row float :=
    [("chunk_small", 0.25%float); ("chunk_medium", 0.75%float); ("chunk_large", 0.5%float);
     ("similarity_standard", 0.5%float); ("similarity_mmr", 0%float)] in
  let ag : RLAgent float := set_q_table (<["s" := r]> ∅) default_agent in
  canonical_rows (q_table ag)
  /\ exists ag1 a ag2,
       choose_action ag "t" canonical_actions 0.5%float 3 = (ag1, Ok a)
       /\ a ∈ canonical_actions
       /\ (ag1 = ag
           \/ (q_table ag !! "t" = None
               /\ ag1 = set_q_table (<["t" := zero_row canonical_actions]> (q_table ag)) ag))
       /\ update_q_value ag1 "t" a 1%float (Some "s") = (ag2, Ok tt)
       /\ canonical_rows (q_table ag2)
       /\ learning_rate ag2 = learning_rate ag
       /\ discount_factor ag2 = discount_factor ag
       /\ exploration_rate ag2 = exploration_rate ag.
Proof.
  intros r ag.
  assert (canonical_rows (q_table ag)) as Hc.
  { apply canonical_rows_insert; [|reflexivity]. intros k r' Hk. by rewrite lookup_empty in Hk. }
  split; [exact Hc|].
  exact (choose_then_update_on_canonical_rows float _ ag "t" 0.5%float 3 1%float (Some "s") Hc).
Defined.

(** X2.  In binary64, with a learning rate in [0, 1], a finite discount
    factor and no next state (as [user_input] calls it), [update_q_value] on a
    value and a reward of [0, 1] leaves a value of [0, 1] that is not on the
    other side of the old value from the reward: not below the old value when
    the reward is not, and not above it when the reward is not.  A table whose
    values all lie in [0, 1] keeps them there. *)
Theorem update_moves_toward_reward :
  forall (ag : RLAgent float) (k a : string) (reward old : float),
    in_unit (learning_rate ag) -> finite (discount_factor ag) ->
    in_unit reward -> in_unit old ->
    q_value (ensure_row k canonical_actions (q_table ag)) k a = Some old ->
    exists ag' v,
      update_q_value ag k a reward None = (ag', Ok tt)
      /\ q_value (q_table ag') k a = Some v
      /\ in_unit v
      /\ ((old <=? reward)%float = true -> (old <=? v)%float = true)
      /\ ((reward <=? old)%float = true -> (v <=? old)%float = true)
      /\ (values_in_unit (q_table ag) -> values_in_unit (q_table ag')).
Proof.
  intros ag k a reward old Hlr Hdf Hr Ho Hold.
  destruct (update_q_value_ok ag k a reward None old (of_Z 0) Hold eq_refl)
    as (ag' & Hrun & Hnew & _).
  destruct (float_q_update ag old reward Hlr Hdf Ho Hr) as (Hv & Hup & Hdown).
  pose proof (proj1 (in_unit_iff _) Hv) as (Fv & _).
  pose proof (proj1 (in_unit_iff _) Ho) as (Fo & _).
  pose proof (proj1 (in_unit_iff _) Hr) as (Fr & _).
  exists ag', (q_update ag old reward (of_Z 0)).
  split_and!; [exact Hrun|exact Hnew|exact Hv| | |].
  - intros Hle. apply float_leb_iff; [done..|]. apply Hup. by apply float_leb_iff.
  - intros Hle. apply float_leb_iff; [done..|]. apply Hdown. by apply float_leb_iff.
  - intros Hu.
    exact (values_in_unit_update_q_value ag ag' k a reward (Ok tt) Hlr Hdf Hr Hu Hrun).
Qed.

Lemma update_moves_toward_reward_witness :
  let ag : RLAgent float := default_agent in
  in_unit (learning_rate ag) /\ finite (discount_factor ag)
  /\ in_unit 0.75%float /\ in_unit 0%float
  /\ q_value (ensure_row "s" canonical_actions (q_table ag)) "s" "chunk_large" = Some 0%float
  /\ exists ag' v,
       update_q_value ag "s" "chunk_large" 0.75%float None = (ag', Ok tt)
       /\ q_value (q_table ag') "s" "chunk_large" = Some v
       /\ in_unit v
       /\ ((0 <=? 0.75)%float = true -> (0 <=? v)%float = true)
       /\ ((0.75 <=? 0)%float = true -> (v <=? 0)%float = true)
       /\ (values_in_unit (q_table ag) -> values_in_unit (q_table ag')).
Proof.
  intros ag.
  assert (in_unit (learning_rate ag)) as Hlr by (split; vm_compute; reflexivity).
  assert (finite (discount_factor ag)) as Hdf by (vm_compute; exact I).
  assert (in_unit 0.75%float) as Hr by (split; vm_compute; reflexivity).
  assert (in_unit 0%float) as Ho by (split; vm_compute; reflexivity).
  split; [exact Hlr|]. split; [exact Hdf|]. split; [exact Hr|]. split; [exact Ho|].
  split; [reflexivity|].
  exact (update_moves_toward_reward ag "s" "chunk_large" 0.75%float 0%float Hlr Hdf Hr Ho
           eq_refl).
Defined.

(** X4.  In binary64, the discount factor has no part in an update without
    next state, the only kind [user_input] makes: two agents of the same
    learning rate and table, whatever their finite discount factors, are left
    with the same table and end alike, for every reward but the negative
    zero. *)
Theorem discount_factor_is_unused :
  forall (ag1 ag2 : RLAgent float) (k a : string) (reward : float),
    learning_rate ag1 = learning_rate ag2 ->
    q_table ag1 = q_table ag2 ->
    finite (discount_factor ag1) ->
    finite (discount_factor ag2) ->
    Prim2SF reward <> S754_zero true ->
    q_table (fst (update_q_value ag1 k a reward None))
    = q_table (fst (update_q_value ag2 k a reward None))
    /\ snd (update_q_value ag1 k a reward None) = snd (update_q_value ag2 k a reward None).
Proof.
  intros ag1 ag2 k a reward Hlr Ht Hd1 Hd2 Hr.
  unfold update_q_value. cbn [max_next_q]. rewrite Ht.
  destruct (row_get a _) as [old|]; cbn [fst snd q_table set_q_table]; [|done].
  split; [|reflexivity]. do 2 f_equal. unfold q_update. rewrite Hlr.
  change ((reward + discount_factor ag1 * of_Z 0 - old)%num)
    with ((reward + discount_factor ag1 * of_Z 0)%float - old)%float.
  change ((reward + discount_factor ag2 * of_Z 0 - old)%num)
    with ((reward + discount_factor ag2 * of_Z 0)%float - old)%float.
  by rewrite !float_discount_unused.
Qed.

Lemma discount_factor_is_unused_witness :
  let ag1 : RLAgent float := default_agent in
  let ag2 : RLAgent float := new_agent (ratio 1 10) 0.5%float (ratio 2 10) in
  discount_factor ag1 <> discount_factor ag2
  /\ q_table (fst (update_q_value ag1 "s" "chunk_small" 0.75%float None))
     = q_table (fst (update_q_value ag2 "s" "chunk_small" 0.75%float None))
  /\ snd (update_q_value ag1 "s" "chunk_small" 0.75%float None)
     = snd (update_q_value ag2 "s" "chunk_small" 0.75%float None).
Proof.
  intros ag1 ag2. split.
  - intros Heq. apply (f_equal Prim2SF) in Heq. vm_compute in Heq. discriminate Heq.
  - apply (discount_factor_is_unused ag1 ag2 "s" "chunk_small" 0.75%float eq_refl eq_refl).
    + vm_compute. exact I.
    + vm_compute. exact I.
    + vm_compute. discriminate.
Defined.

(** X5.  An action outside the canonical five works only when it was chosen
    greedily.  For a state not seen yet and a list of actions headed by such
    an action: if [choose_action] explores and draws it, the table is left
    alone, and [update_q_value], which gives the state the canonical row,
    raises [KeyError] for it; if [choose_action] is greedy, it gives the state
    the zero row of the list and returns its head, and [update_q_value] then
    succeeds. *)
Theorem explored_action_outside_canonical_fails :
  forall (num : Type) (N : Number num) (O : Ordered num) (ag : RLAgent num) (k a : string)
         (A : list string) (draw : num) (pick : nat) (reward : num),
    q_table ag !! k = None ->
    a ∉ canonical_actions ->
    ((draw <? exploration_rate ag)%num = true ->
     (a :: A) !! (pick mod length (a :: A))%nat = Some a ->
     choose_action ag k (a :: A) draw pick = (ag, Ok a)
     /\ update_q_value ag k a reward None
        = (set_q_table (<[k := zero_row canonical_actions]> (q_table ag)) ag,
           Raise (KeyError a)))
    /\ ((draw <? exploration_rate ag)%num = false ->
        exists ag1 ag2,
          choose_action ag k (a :: A) draw pick = (ag1, Ok a)
          /\ q_table ag1 !! k = Some (zero_row (a :: A))
          /\ update_q_value ag1 k a reward None = (ag2, Ok tt)
          /\ q_value (q_table ag2) k a = Some (q_update ag (of_Z 0) reward (of_Z 0))).
Proof.
  intros num N O ag k a A draw pick reward Hk Ha. split.
  - intros Hdraw Hpick. split.
    + unfold choose_action. by rewrite Hdraw, Hpick.
    + rewrite (update_q_value_missing ag k a reward None (of_Z 0)); [|
        by rewrite q_value_ensure_row, Hk, decide_False|reflexivity].
      unfold ensure_row. by rewrite Hk.
  - intros Hdraw.
    pose proof (choose_action_unseen ag k a A draw pick Hdraw Hk) as Hch.
    set (ag1 := set_q_table (<[k := zero_row (a :: A)]> (q_table ag)) ag) in *.
    assert (q_table ag1 !! k = Some (zero_row (a :: A))) as Hrow.
    { cbn [ag1 q_table set_q_table]. apply lookup_insert_eq. }
    assert (q_value (ensure_row k canonical_actions (q_table ag1)) k a = Some (of_Z 0)) as Hv.
    { rewrite q_value_ensure_row, Hrow, row_get_zero_row. apply decide_True. left. }
    destruct (update_q_value_ok ag1 k a reward None (of_Z 0) (of_Z 0) Hv eq_refl)
      as (ag2 & Hup & Hnew & _).
    exists ag1, ag2. split_and!; [exact Hch|exact Hrow|exact Hup|exact Hnew].
Qed.

Lemma explored_action_outside_canonical_fails_witness :
  let ag : RLAgent float := default_agent in
  q_table ag !! "s" = None
  /\ ("dense" ∉ canonical_actions)
  /\ choose_action ag "s" ["dense"; "sparse"] 0.125%float 2 = (ag, Ok "dense")
  /\ update_q_value ag "s" "dense" 1%float None
     = (set_q_table (<["s" := zero_row canonical_actions]> (q_table ag)) ag,
        Raise (KeyError "dense"))
  /\ exists ag1 ag2,
       choose_action ag "s" ["dense"; "sparse"] 0.5%float 2 = (ag1, Ok "dense")
       /\ q_table ag1 !! "s" = Some (zero_row ["dense"; "sparse"])
       /\ update_q_value ag1 "s" "dense" 1%float None = (ag2, Ok tt)
       /\ q_value (q_table ag2) "s" "dense" = Some (q_update ag (of_Z 0) 1%float (of_Z 0)).
Proof.
  intros ag.
  assert (q_table ag !! "s" = None) as Hk by reflexivity.
  assert ("dense" ∉ canonical_actions) as Ha.
  { intros Hin. apply (bool_decide_pack _) in Hin. vm_compute in Hin. exact Hin. }
  pose proof (explored_action_outside_canonical_fails float _ _ ag "s" "dense" ["sparse"]
                0.125%float 2 1%float Hk Ha) as [Hexplore _].
  pose proof (explored_action_outside_canonical_fails float _ _ ag "s" "dense" ["sparse"]
                0.5%float 2 1%float Hk Ha) as [_ Hgreedy].
  split; [exact Hk|]. split; [exact Ha|].
  destruct (Hexplore eq_refl eq_refl) as [Hch Hup].
  split; [exact Hch|]. split; [exact Hup|].
  exact (Hgreedy eq_refl).
Defined.

(** ** Passes of [user_input] *)

Section Traces.
Context {num : Type} `{Number num}.
Implicit Types (env : environment num) (s : session num) (ag : RLAgent num).

Ltac unfold_pass :=
  unfold user_input, document_path, general_path, init_agent, try_except, load,
    mbind, M_bind, mret, M_ret, call, show, show_all, on_agent, save, save_model,
    append_record, current_agent, set_agent.

Ltac reduce_pass := cbn [rl_agent conversation_history files page fst snd].

Ltac pass_step :=
  match goal with
  | |- context [embed_query ?e ?q] => destruct (embed_query e q) eqn:?
  | |- context [choose_action ?a ?k ?l ?d ?p] =>
      destruct (choose_action a k l d p) as [? [?|?]] eqn:?
  | |- context [get_vector_store ?e ?c] => destruct (get_vector_store e c) as [[]|?] eqn:?
  | |- context [search ?e ?k ?c ?q] => destruct (search e k c q) eqn:?
  | |- context [chain ?e ?d ?q] => destruct (chain e d q) eqn:?
  | |- context [get_document_similarity ?q ?d] =>
      destruct (get_document_similarity q d) eqn:?
  | |- context [update_q_value ?a ?k ?c ?r ?n] =>
      destruct (update_q_value a k c r n) as [? [[]|?]] eqn:?
  | |- context [storage_writable ?e] => destruct (storage_writable e) eqn:?
  end.

Ltac close_case := solve [repeat eexists; repeat split; first [eassumption | reflexivity]].

Ltac pick_case :=
  first [ close_case
        | match goal with
          | |- _ \/ _ => first [left; pick_case | right; pick_case]
          end ].

(** The agent a document pass leaves: the one it found, the one
    [choose_action] left, or the one [update_q_value] left after it. *)
Lemma document_path_agent env q m docs ag hist fs pg s' res :
  document_path env q m docs
    {| rl_agent := Some ag; conversation_history := hist; files := fs; page := pg |}
  = (s', res) ->
  exists ag',
    rl_agent s' = Some ag'
    /\ (ag' = ag
        \/ (exists k r,
              choose_action ag k canonical_actions (random_draw env) (random_index env)
              = (ag', r))
        \/ (exists k ag1 a kind chunks found answer similarity r,
              choose_action ag k canonical_actions (random_draw env) (random_index env)
              = (ag1, Ok a)
              /\ search env kind chunks q = Ok found
              /\ chain env found q = Ok answer
              /\ get_document_similarity q found = Ok similarity
              /\ update_q_value ag1 k a
                   (reward_of similarity (response_length_score answer)) None
                 = (ag', r))).
Proof.
  unfold_pass. reduce_pass.
  repeat (pass_step; reduce_pass); intros [= <- <-]; reduce_pass;
    eexists; (split; [reflexivity|]); pick_case.
Qed.

(** Where the exception of a document pass that raises comes from. *)
Lemma document_path_raise env q m docs ag hist fs pg s' e :
  document_path env q m docs
    {| rl_agent := Some ag; conversation_history := hist; files := fs; page := pg |}
  = (s', Raise e) ->
  embed_query env q = Raise e
  \/ (exists k ag1,
        choose_action ag k canonical_actions (random_draw env) (random_index env)
        = (ag1, Raise e))
  \/ (exists chunks, get_vector_store env chunks = Raise e)
  \/ (exists kind chunks, search env kind chunks q = Raise e)
  \/ (exists found, chain env found q = Raise e)
  \/ (exists found, get_document_similarity (num := num) q found = Raise e)
  \/ (exists k ag1 a reward ag2,
        choose_action ag k canonical_actions (random_draw env) (random_index env)
        = (ag1, Ok a)
        /\ update_q_value ag1 k a reward None = (ag2, Raise e))
  \/ (storage_writable env = false /\ e = OSError).
Proof.
  unfold_pass. reduce_pass.
  repeat (pass_step; reduce_pass); intros Heq; try discriminate;
    injection Heq as <- <-; pick_case.
Qed.

End Traces.

Section Sound.
Context {num : Type} `{Number num}.
Implicit Types (env : environment num) (ag : RLAgent num).

(** A pass on a table of canonical rows: what it leaves and how it ends. *)
Lemma user_input_canonical env q m key docs ag hist fs pg s' res :
  canonical_rows (q_table ag) ->
  user_input env q m (Some key) docs
    {| rl_agent := Some ag; conversation_history := hist; files := fs; page := pg |}
  = (s', res) ->
  exists ag',
    rl_agent s' = Some ag'
    /\ canonical_rows (q_table ag')
    /\ (learning_rate ag' = learning_rate ag /\ discount_factor ag' = discount_factor ag
        /\ exploration_rate ag' = exploration_rate ag)
    /\ (files s' = fs
        \/ files s' = <[default_path := Document (table_to_json (q_table ag'))]> fs)
    /\ (conversation_history s' = hist
        \/ exists answer model time names action reward,
             conversation_history s'
             = (hist ++ [(q, answer, model, time, names, action, reward)])%list)
    /\ (forall r, res = Ok r -> r = Some ag')
    /\ (forall e, res = Raise e ->
          is_pdf_related_question q docs = true /\ service_failure env q e).
Proof.
  intros Hc Hrun. rewrite user_input_with_agent in Hrun.
  destruct (is_pdf_related_question q docs) eqn:Hq; cbn [negb orb] in Hrun.
  - rewrite (is_pdf_related_has_docs _ _ Hq) in Hrun. cbn [negb] in Hrun.
    destruct res as [r|e].
    + apply document_path_completed in Hrun
        as (emb & ag1 & a & found & answer & sim & ag' & _ & Hch & _ & _ & _ & Hup & -> & Hag
            & Hhist & Hfiles).
      cbn zeta in Hch, Hup.
      set (k := get_state_key emb (doc_ids (default [] docs))) in *.
      destruct (choose_action_canonical ag k (random_draw env) (random_index env) Hc)
        as (ag1' & a' & Hch' & Ha' & Hc1 & _).
      rewrite Hch in Hch'. injection Hch' as <- <-.
      destruct (choose_action_rates _ _ _ _ _ _ _ Hch) as (Hl1 & Hd1 & He1).
      destruct (update_q_value_canonical ag1 k a
                  (reward_of sim (response_length_score answer)) None Hc1 Ha')
        as (ag2 & Hup' & Hc2 & Hl2 & Hd2 & He2).
      rewrite Hup in Hup'. injection Hup' as <-.
      exists ag'. split_and!; [exact Hag|exact Hc2|congruence..|by right| |by intros r [= <-]|done].
      right. by eexists _, _, _, _, _, _.
    + pose proof Hrun as Hsrc. apply document_path_raise in Hsrc.
      pose proof Hrun as Hag. apply document_path_agent in Hag as (ag' & Hag & Hcases).
      apply document_path_failed in Hrun as (Hhist & Hfiles & _).
      exists ag'. split; [exact Hag|].
      assert (canonical_rows (q_table ag')
              /\ learning_rate ag' = learning_rate ag
              /\ discount_factor ag' = discount_factor ag
              /\ exploration_rate ag' = exploration_rate ag) as (Hc' & Hl & Hd & He).
      { destruct Hcases
          as [->|[(k & r & Hch)
                 |(k & ag1 & a & kind & chunks & found & answer & sim & r & Hch & _ & _ & _ & Hup)]].
        - done.
        - destruct (choose_action_canonical ag k (random_draw env) (random_index env) Hc)
            as (ag1' & a' & Hch' & _ & Hc1 & _).
          rewrite Hch in Hch'. injection Hch' as <- _.
          split; [exact Hc1|by eapply choose_action_rates].
        - destruct (choose_action_canonical ag k (random_draw env) (random_index env) Hc)
            as (ag1' & a' & Hch' & Ha' & Hc1 & _).
          rewrite Hch in Hch'. injection Hch' as <- <-.
          destruct (choose_action_rates _ _ _ _ _ _ _ Hch) as (Hl1 & Hd1 & He1).
          destruct (update_q_value_canonical ag1 k a
                      (reward_of sim (response_length_score answer)) None Hc1 Ha')
            as (ag2 & Hup' & Hc2 & Hl2 & Hd2 & He2).
          rewrite Hup in Hup'. injection Hup' as <- _.
          split; [exact Hc2|]. split_and!; congruence. }
      split_and!; [exact Hc'|exact Hl|exact Hd|exact He|by left|by left|discriminate|].
      intros e' [= <-]. split; [reflexivity|].
      destruct Hsrc as [He1|[(k & ag1 & Hch)|[Hv|[Hs|[Ha|[(found & Hsim)|[Hu|Hw]]]]]]].
      * by left.
      * destruct (choose_action_canonical ag k (random_draw env) (random_index env) Hc)
          as (ag1' & a & Hch' & _).
        rewrite Hch in Hch'. discriminate Hch'.
      * right. by left.
      * do 2 right. by left.
      * do 3 right. by left.
      * destruct (similarity_returns (num := num) q found) as [v Hv].
        rewrite Hsim in Hv. discriminate Hv.
      * destruct Hu as (k & ag1 & a & reward & ag2 & Hch & Hu).
        destruct (choose_action_canonical ag k (random_draw env) (random_index env) Hc)
          as (ag1' & a' & Hch' & Ha' & Hc1 & _).
        rewrite Hch in Hch'. injection Hch' as <- <-.
        destruct (update_q_value_canonical ag1 k a reward None Hc1 Ha') as (ag2' & Hu' & _).
        rewrite Hu in Hu'. discriminate Hu'.
      * by do 4 right.
  - pose proof (general_path_run env q m docs ag hist fs pg s' res Hrun)
      as (-> & Hag & Hfiles & Hhist).
    exists ag. split_and!; [exact Hag|exact Hc|reflexivity..|by left| |by intros r [= <-]|discriminate].
    destruct (enhanced_direct_gemini_response env q) as [answer|e].
    + right. by eexists _, _, _, _, _, _.
    + left. by destruct Hhist.
Qed.

End Sound.

(** In binary64 the values stay between 0 and 1. *)
Lemma user_input_unit (env : environment float) q m key docs (ag : RLAgent float)
    hist fs pg s' res :
  values_in_unit (q_table ag) -> finite (discount_factor ag) ->
  in_unit (learning_rate ag) -> small_counts env q ->
  user_input env q m (Some key) docs
    {| rl_agent := Some ag; conversation_history := hist; files := fs; page := pg |}
  = (s', res) ->
  exists ag', rl_agent s' = Some ag' /\ values_in_unit (q_table ag').
Proof.
  intros Hu Hdf Hlr (Hq & Hfound & Hanswer) Hrun. rewrite user_input_with_agent in Hrun.
  destruct (negb (is_pdf_related_question q docs) || negb (has_docs docs)).
  - apply general_path_run in Hrun as (_ & Hag & _). by exists ag.
  - apply document_path_agent in Hrun as (ag' & Hag & Hcases).
    exists ag'. split; [exact Hag|].
    destruct Hcases
      as [->|[(k & r & Hch)
             |(k & ag1 & a & kind & chunks & found & answer & sim & r & Hch & Hsearch & Hchain
               & Hsim & Hup)]].
    + done.
    + by eapply values_in_unit_choose_action.
    + destruct (choose_action_rates _ _ _ _ _ _ _ Hch) as (Hl1 & Hd1 & _).
      destruct (float_similarity_unit q found Hq (Hfound _ _ _ Hsearch)) as (sim' & Hsim' & Hs).
      rewrite Hsim in Hsim'. injection Hsim' as <-.
      eapply values_in_unit_update_q_value; [| | | |exact Hup].
      * by rewrite Hl1.
      * by rewrite Hd1.
      * apply float_reward_unit; [exact Hs|].
        apply float_length_score_unit. by eapply Hanswer.
      * by eapply values_in_unit_choose_action.
Qed.

Lemma canonical_rows_default {num : Type} `{Number num} :
  canonical_rows (q_table (default_agent (num := num))).
Proof. intros k r Hk. cbn [default_agent new_agent q_table] in Hk. by rewrite lookup_empty in Hk. Qed.

Lemma bounded_agent_default : bounded_agent default_agent.
Proof.
  split_and!; [apply canonical_rows_default| |exact I].
  intros k r Hk. cbn [default_agent new_agent q_table] in Hk. by rewrite lookup_empty in Hk.
Qed.

Lemma small_counts_nearest (writable : bool) : small_counts (nearest_env writable) sample_question.
Proof.
  split_and!.
  - vm_compute. reflexivity.
  - intros kind chunks found [= <-]. unfold small. rewrite length_take. lia.
  - intros found answer [= <-]. vm_compute. reflexivity.
Qed.

(** X6.  [user_input] on an agent whose rows are canonical, the texts of the
    documents being given, leaves the rows canonical however it ends, and
    raises only on the document path and only what a service raised (the
    embedding, the index, the search, the answer chain) or the [OSError] of a
    model file that cannot be written: never a [KeyError], [ValueError],
    [IndexError] or [ZeroDivisionError] of its own. *)
Theorem user_input_raises_only_services :
  forall (num : Type) (N : Number num) (env : environment num) (q m : string)
         (api_key : option string) (docs : option (list pdf_doc)) (ag : RLAgent num)
         (hist : list record) (fs : gmap string (file_content num)) (pg : list notice)
         (s' : session num) (res : result (option (RLAgent num))),
    canonical_rows (q_table ag) ->
    user_input env q m api_key docs
      {| rl_agent := Some ag; conversation_history := hist; files := fs; page := pg |}
    = (s', res) ->
    (exists ag', rl_agent s' = Some ag' /\ canonical_rows (q_table ag'))
    /\ (forall e, res = Raise e ->
          is_pdf_related_question q docs = true
          /\ (embed_query env q = Raise e
              \/ (exists chunks, get_vector_store env chunks = Raise e)
              \/ (exists kind chunks, search env kind chunks q = Raise e)
              \/ (exists found, chain env found q = Raise e)
              \/ (storage_writable env = false /\ e = OSError))).
Proof.
  intros num N env q m api_key docs ag hist fs pg s' res Hc Hrun.
  destruct api_key as [key|].
  - destruct (user_input_canonical env q m key docs ag hist fs pg s' res Hc Hrun)
      as (ag' & Hag & Hc' & _ & _ & _ & _ & Hfail).
    split; [by exists ag'|]. intros e He. exact (Hfail e He).
  - injection Hrun as <- <-. split; [by exists ag|discriminate].
Qed.

Lemma user_input_raises_only_services_witness :
  let run := user_input (sample_env false) sample_question "Google AI" (Some "key")
               sample_docs sample_session in
  canonical_rows (q_table (default_agent (num := float)))
  /\ (exists ag', rl_agent (fst run) = Some ag' /\ canonical_rows (q_table ag'))
  /\ (forall e, snd run = Raise e ->
        is_pdf_related_question sample_question sample_docs = true
        /\ (embed_query (sample_env false) sample_question = Raise e
            \/ (exists chunks, get_vector_store (sample_env false) chunks = Raise e)
            \/ (exists kind chunks, search (sample_env false) kind chunks sample_question
                                    = Raise e)
            \/ (exists found, chain (sample_env false) found sample_question = Raise e)
            \/ (storage_writable (sample_env false) = false /\ e = OSError))).
Proof.
  intros run.
  pose proof (canonical_rows_default (num := float)) as Hc.
  split; [exact Hc|].
  apply (user_input_raises_only_services float _ (sample_env false) sample_question
           "Google AI" (Some "key") sample_docs default_agent [] ∅ [] (fst run) (snd run) Hc).
  apply surjective_pairing.
Defined.

(** X7.  In binary64, for a question of fewer than [2 ^ 53] words whose
    searches find fewer than [2 ^ 53] passages and whose answer has fewer than
    [2 ^ 53] characters: [user_input] on an agent whose rows are canonical,
    whose values lie in [0, 1], whose discount factor is finite and whose
    learning rate lies in [0, 1] leaves an agent of which the same is true,
    with the same three rates, whatever the documents, the services' answers
    and the way the pass ends. *)
Theorem user_input_keeps_values_bounded :
  forall (env : environment float) (q m : string) (api_key : option string)
         (docs : option (list pdf_doc)) (ag : RLAgent float) (hist : list record)
         (fs : gmap string (file_content float)) (pg : list notice)
         (s' : session float) (res : result (option (RLAgent float))),
    bounded_agent ag ->
    in_unit (learning_rate ag) ->
    small_counts env q ->
    user_input env q m api_key docs
      {| rl_agent := Some ag; conversation_history := hist; files := fs; page := pg |}
    = (s', res) ->
    exists ag',
      rl_agent s' = Some ag'
      /\ bounded_agent ag'
      /\ learning_rate ag' = learning_rate ag
      /\ discount_factor ag' = discount_factor ag
      /\ exploration_rate ag' = exploration_rate ag.
Proof.
  intros env q m api_key docs ag hist fs pg s' res (Hc & Hu & Hdf) Hlr Hsmall Hrun.
  destruct api_key as [key|].
  - destruct (user_input_canonical env q m key docs ag hist fs pg s' res Hc Hrun)
      as (ag' & Hag & Hc' & (Hl & Hd & He) & _).
    destruct (user_input_unit env q m key docs ag hist fs pg s' res Hu Hdf Hlr Hsmall Hrun)
      as (ag'' & Hag' & Hu').
    rewrite Hag in Hag'. injection Hag' as <-.
    exists ag'. split_and!; [exact Hag| |exact Hl|exact Hd|exact He].
    split_and!; [exact Hc'|exact Hu'|by rewrite Hd].
  - injection Hrun as <- _. exists ag. by split_and!.
Qed.

Lemma user_input_keeps_values_bounded_witness :
  let ag : RLAgent float := default_agent in
  let run := user_input (nearest_env true) sample_question "Google AI" (Some "key") sample_docs
               {| rl_agent := Some ag; conversation_history := []; files := ∅; page := [] |} in
  bounded_agent ag
  /\ in_unit (learning_rate ag)
  /\ small_counts (nearest_env true) sample_question
  /\ exists ag',
       rl_agent (fst run) = Some ag'
       /\ bounded_agent ag'
       /\ learning_rate ag' = learning_rate ag
       /\ discount_factor ag' = discount_factor ag
       /\ exploration_rate ag' = exploration_rate ag.
Proof.
  intros ag run.
  pose proof bounded_agent_default as Hb.
  assert (in_unit (learning_rate ag)) as Hlr by (split; vm_compute; reflexivity).
  pose proof (small_counts_nearest true) as Hsmall.
  split; [exact Hb|]. split; [exact Hlr|]. split; [exact Hsmall|].
  apply (user_input_keeps_values_bounded (nearest_env true) sample_question "Google AI"
           (Some "key") sample_docs ag [] ∅ [] (fst run) (snd run) Hb Hlr Hsmall).
  apply surjective_pairing.
Defined.

(** X8.  [user_input] called without an agent creates one with the default
    rates (0.1, 0.9, 0.2) and never fails in doing so: with no model file the
    table is empty and the side bar still says that a model was loaded; with
    a file that is no JSON the error is swallowed, the table is empty and the
    side bar says that a new model was initialised; with a file that holds a
    table, the table is that one.  The log and the files are untouched. *)
Theorem init_agent_cold_start :
  forall (num : Type) (N : Number num) (s : session num),
    rl_agent s = None ->
    exists ag shown,
      init_agent s
      = ({| rl_agent := Some ag; conversation_history := conversation_history s;
            files := files s; page := page s ++ [shown] |}, Ok tt)
      /\ learning_rate ag = ratio 1 10
      /\ discount_factor ag = ratio 9 10
      /\ exploration_rate ag = ratio 2 10
      /\ match files s !! default_path with
         | None => q_table ag = ∅ /\ shown = SidebarSuccess "Loaded existing RL model"
         | Some Unparsable => q_table ag = ∅ /\ shown = SidebarNote "Initialized new RL model"
         | Some (Document j) =>
             forall t, table_of_json j = Some t ->
               q_table ag = t /\ shown = SidebarSuccess "Loaded existing RL model"
         end.
Proof.
  intros num N s Hnone.
  unfold init_agent, try_except, load, on_agent, mbind, M_bind, show, show_all, set_agent,
    load_model.
  rewrite Hnone. cbn [rl_agent files conversation_history page].
  destruct (files s !! default_path) as [[|j]|] eqn:Hfile.
  - exists default_agent, (SidebarNote "Initialized new RL model"). by split_and!.
  - destruct (table_of_json j) as [t|] eqn:Ht.
    + exists (set_q_table t default_agent), (SidebarSuccess "Loaded existing RL model").
      split_and!; [reflexivity..|]. by intros t' [= <-].
    + exists default_agent, (SidebarNote "Initialized new RL model").
      split_and!; [reflexivity..|]. discriminate.
  - exists default_agent, (SidebarSuccess "Loaded existing RL model"). by split_and!.
Qed.

Lemma init_agent_cold_start_witness :
  let s : session float :=
    {| rl_agent := None; conversation_history := [];
       files := {[ default_path := Unparsable ]}; page := [] |} in
  rl_agent s = None
  /\ exists ag shown,
       init_agent s
       = ({| rl_agent := Some ag; conversation_history := conversation_history s;
             files := files s; page := page s ++ [shown] |}, Ok tt)
       /\ learning_rate ag = ratio 1 10
       /\ discount_factor ag = ratio 9 10
       /\ exploration_rate ag = ratio 2 10
       /\ match files s !! default_path with
          | None => q_table ag = ∅ /\ shown = SidebarSuccess "Loaded existing RL model"
          | Some Unparsable => q_table ag = ∅ /\ shown = SidebarNote "Initialized new RL model"
          | Some (Document j) =>
              forall t, table_of_json j = Some t ->
                q_table ag = t /\ shown = SidebarSuccess "Loaded existing RL model"
          end.
Proof.
  intros s. split; [reflexivity|].
  exact (init_agent_cold_start float _ s eq_refl).
Defined.

(** ** Persistence, continued *)

(** X9.  The other round trip: when the model file holds a document that
    stands for a table, [load_model] binds that table and a [save_model] that
    follows writes a document that stands for the same table, leaving every
    other file as it was.  (The document itself may differ: a key given twice
    is written once.) *)
Theorem load_then_save_keeps_table :
  forall (num : Type) (N : Number num) (ag : RLAgent num) (path : string)
         (fs : gmap string (file_content num)) (j : json num) (t : gmap string (row num)),
    fs !! path = Some (Document j) ->
    table_of_json j = Some t ->
    exists ag1 fs1 j1,
      load_model ag path fs = (ag1, Ok tt)
      /\ q_table ag1 = t
      /\ save_model ag1 path true fs = (fs1, Ok tt)
      /\ fs1 !! path = Some (Document j1)
      /\ table_of_json j1 = Some t
      /\ (forall other, other <> path -> fs1 !! other = fs !! other).
Proof.
  intros num N ag path fs j t Hfile Ht.
  exists (set_q_table t ag), (<[path := Document (table_to_json t)]> fs), (table_to_json t).
  unfold load_model, save_model. rewrite Hfile, Ht. cbn [q_table set_q_table].
  split_and!; [reflexivity..|apply lookup_insert_eq| |].
  - apply table_roundtrip. by eapply table_of_json_dicts.
  - intros other Hne. by apply lookup_insert_ne.
Qed.

Lemma load_then_save_keeps_table_witness :
  let j : json float :=
    JObject [("s", JObject [("chunk_small", JNumber 0.5%float);
                            ("chunk_small", JNumber 0.25%float);
                            ("similarity_mmr", JNumber 1%float)])] in
  let t : gmap string (row float) :=
    {[ "s" := [("chunk_small", 0.25%float); ("similarity_mmr", 1%float)] ]} in
  let fs : gmap string (file_content float) := {[ default_path := Document j ]} in
  fs !! default_path = Some (Document j)
  /\ table_of_json j = Some t
  /\ exists ag1 fs1 j1,
       load_model default_agent default_path fs = (ag1, Ok tt)
       /\ q_table ag1 = t
       /\ save_model ag1 default_path true fs = (fs1, Ok tt)
       /\ fs1 !! default_path = Some (Document j1)
       /\ table_of_json j1 = Some t
       /\ (forall other, other <> default_path -> fs1 !! other = fs !! other).
Proof.
  intros j t fs.
  assert (fs !! default_path = Some (Document j)) as Hfile by apply lookup_singleton_eq.
  assert (table_of_json j = Some t) as Ht by reflexivity.
  split; [exact Hfile|]. split; [exact Ht|].
  exact (load_then_save_keeps_table float _ default_agent default_path fs j t Hfile Ht).
Defined.

(** ** Letter case *)

Lemma lower_char_idem (c : ascii) : lower_char (lower_char c) = lower_char c.
Proof. destruct c as [[] [] [] [] [] [] [] []]; vm_compute; reflexivity. Qed.

Lemma lower_idem (s : string) : lower (lower s) = lower s.
Proof. induction s as [|c s IH]; cbn [lower]; [reflexivity|]. by rewrite lower_char_idem, IH. Qed.

Section CaseFacts.
Context {num : Type} `{Number num}.

Lemma count_matches_lower (keywords : list string) (content : string) :
  count_matches keywords (lower content) = count_matches keywords content.
Proof. unfold count_matches. by rewrite lower_idem. Qed.

Lemma passage_score_lower (question content : string) :
  passage_score (num := num) (lower question) (lower content) = passage_score question content.
Proof. unfold passage_score. by rewrite lower_idem, count_matches_lower. Qed.

Lemma total_score_lower (question : string) (docs : list string) (total : num) :
  total_score (lower question) total (map lower docs) = total_score question total docs.
Proof.
  revert total. induction docs as [|d docs IH]; intros total; cbn [total_score map]; [reflexivity|].
  rewrite passage_score_lower. destruct (passage_score question d); [apply IH|reflexivity].
Qed.

Lemma similarity_lower (question : string) (docs : list string) :
  get_document_similarity (num := num) (lower question) (map lower docs)
  = get_document_similarity question docs.
Proof.
  unfold get_document_similarity. rewrite total_score_lower.
  destruct (total_score question (of_Z 0) docs); [|reflexivity].
  destruct docs; cbn [map length]; [reflexivity|]. by rewrite length_map.
Qed.

End CaseFacts.

Lemma any_ext {A} (p p' : A -> bool) (l : list A) :
  (forall x, p x = p' x) -> any p l = any p' l.
Proof. intros Hp. unfold any. induction l as [|x l IH]; cbn; [reflexivity|]. by rewrite Hp, IH. Qed.

Lemma classification_lower (question : string) (pdf_docs : option (list pdf_doc)) :
  is_pdf_related_question (lower question) pdf_docs
  = is_pdf_related_question question pdf_docs.
Proof.
  unfold is_pdf_related_question.
  rewrite (any_ext (mentions_name (lower question)) (mentions_name question))
    by (intros d; unfold mentions_name; by rewrite lower_idem).
  by rewrite !(any_ext (mentions (lower question)) (mentions question))
    by (intros d; unfold mentions; by rewrite lower_idem).
Qed.

(** X10.  On text of code points below 256 (Latin-1, the text of the
    embedding), [get_document_similarity] ignores letter case, in the question
    and in the passages, in every arithmetic: lower-casing either or both
    changes neither the score nor whether one is returned. *)
Theorem similarity_ignores_case :
  forall (num : Type) (N : Number num) (question : string) (docs : list string),
    get_document_similarity (num := num) (lower question) (map lower docs)
    = get_document_similarity question docs
    /\ get_document_similarity (num := num) (lower question) docs
       = get_document_similarity question docs
    /\ get_document_similarity (num := num) question (map lower docs)
       = get_document_similarity question docs.
Proof.
  intros num N question docs.
  pose proof (similarity_lower (num := num) question docs) as Hboth.
  pose proof (similarity_lower (num := num) (lower question) docs) as Hq.
  pose proof (similarity_lower (num := num) question (map lower docs)) as Hd.
  rewrite lower_idem in Hq.
  rewrite map_map in Hd. rewrite (map_ext (fun x => lower (lower x)) lower) in Hd
    by (intros; apply lower_idem).
  split_and!; [exact Hboth|congruence..].
Qed.

(** X12.  On text of code points below 256 (Latin-1, the text of the
    embedding), [is_pdf_related_question] ignores letter case, in the question
    and in the names of the documents. *)
Theorem classification_ignores_case :
  forall (question : string) (pdf_docs : option (list pdf_doc)),
    is_pdf_related_question (lower question) pdf_docs
    = is_pdf_related_question question pdf_docs
    /\ is_pdf_related_question question
         (map (fun d => {| name := lower (name d); pages := pages d |}) <$> pdf_docs)
       = is_pdf_related_question question pdf_docs.
Proof.
  intros question pdf_docs. split; [apply classification_lower|].
  unfold is_pdf_related_question.
  assert (has_docs (map (fun d => {| name := lower (name d); pages := pages d |}) <$> pdf_docs)
          = has_docs pdf_docs) as -> by (by destruct pdf_docs as [[|d l]|]).
  assert (any (mentions_name question)
            (default [] (map (fun d => {| name := lower (name d); pages := pages d |})
                         <$> pdf_docs))
          = any (mentions_name question) (default [] pdf_docs)) as ->; [|reflexivity].
  destruct pdf_docs as [l|]; [|reflexivity]. cbn [fmap option_fmap option_map default from_option id].
  unfold any. induction l as [|d l IH]; [reflexivity|]. cbn [map existsb].
  rewrite IH. f_equal. unfold mentions_name. cbn [name]. by rewrite lower_idem.
Qed.

(** ** Image requests *)

Lemma prefix_cut (p s : string) :
  String.prefix p s = true -> s = p ++ str_suffix (String.length p) s.
Proof.
  revert s. induction p as [|c p IH]; intros s; [reflexivity|].
  destruct s as [|d s]; cbn [String.prefix]; [discriminate|].
  destruct (ascii_dec c d) as [->|]; [|discriminate].
  intros Hp. cbn [String.length str_suffix].
  change (String d p ++ str_suffix (String.length p) s)
    with (String d (p ++ str_suffix (String.length p) s)).
  f_equal. by apply IH.
Qed.

Lemma cut_Some (sep s before after : string) :
  cut sep s = Some (before, after) -> s = before ++ sep ++ after.
Proof.
  revert before. induction s as [|c s IH]; intros before.
  - cbn [cut]. destruct (String.prefix sep "") eqn:Hp; [|discriminate].
    intros [= <- <-]. exact (prefix_cut _ _ Hp).
  - cbn [cut]. destruct (String.prefix sep (String c s)) eqn:Hp.
    + intros [= <- <-]. exact (prefix_cut _ _ Hp).
    + destruct (cut sep s) as [[b a]|] eqn:Hc; [|discriminate].
      intros [= <- <-].
      change (String c b ++ sep ++ a) with (String c (b ++ sep ++ a)).
      f_equal. by apply IH.
Qed.

Lemma cut_contains (sep s : string) :
  contains sep s = true -> is_Some (cut sep s).
Proof.
  induction s as [|c s IH]; cbn [contains cut].
  - destruct (String.prefix sep ""); [by eexists|discriminate].
  - destruct (String.prefix sep (String c s)); [by eexists|].
    intros Hc. destruct (IH Hc) as [[b a] ->]. by eexists.
Qed.

Lemma prefix_self_app (p s : string) : String.prefix p (p ++ s) = true.
Proof.
  induction p as [|c p IH]; [by destruct s|].
  change (String c p ++ s) with (String c (p ++ s)). cbn [String.prefix].
  destruct (ascii_dec c c); [exact IH|congruence].
Qed.

Lemma string_app_length (a b : string) :
  String.length (a ++ b) = (String.length a + String.length b)%nat.
Proof.
  induction a as [|c a IH]; [reflexivity|].
  change (String c a ++ b) with (String c (a ++ b)). cbn [String.length]. by rewrite IH.
Qed.

(** [cut] finds the leftmost occurrence. *)
Lemma cut_first (sep s before after : string) :
  cut sep s = Some (before, after) ->
  forall before' after', s = before' ++ sep ++ after' ->
    (String.length before <= String.length before')%nat.
Proof.
  revert before. induction s as [|c s IH]; intros before.
  - cbn [cut]. destruct (String.prefix sep ""); [|discriminate].
    intros [= <- <-] b' a' _. cbn. lia.
  - cbn [cut]. destruct (String.prefix sep (String c s)) eqn:Hp.
    + intros [= <- <-] b' a' _. cbn. lia.
    + destruct (cut sep s) as [[b a]|] eqn:Hc; [|discriminate].
      intros [= <- <-] b' a' Hs. destruct b' as [|c' b'].
      * change ("" ++ sep ++ a') with (sep ++ a') in Hs.
        rewrite Hs, prefix_self_app in Hp. discriminate Hp.
      * change (String c' b' ++ sep ++ a') with (String c' (b' ++ sep ++ a')) in Hs.
        injection Hs as _ Hs. cbn [String.length].
        specialize (IH b eq_refl b' a' Hs). lia.
Qed.

Lemma split_once_found (sep s : string) :
  contains sep s = true ->
  exists before after,
    split_once sep s = [before; after]
    /\ s = before ++ sep ++ after
    /\ forall before' after', s = before' ++ sep ++ after' ->
         (String.length before <= String.length before')%nat.
Proof.
  intros Hc. destruct (cut_contains _ _ Hc) as [[b a] Hcut].
  exists b, a. unfold split_once. rewrite Hcut.
  split_and!; [reflexivity|by apply cut_Some|by eapply cut_first].
Qed.

(** What the loop over the terms extracts. *)
Lemma image_prompt_after_cases (terms : list string) (lowered : string) :
  ((forall t, t ∈ terms -> contains t lowered = false)
   /\ Gemini.image_prompt_after terms lowered = "")
  \/ (exists pre term post before after,
        terms = (pre ++ term :: post)%list
        /\ (forall t, t ∈ pre -> contains t lowered = false)
        /\ lowered = before ++ term ++ after
        /\ (forall before' after', lowered = before' ++ term ++ after' ->
              (String.length before <= String.length before')%nat)
        /\ Gemini.image_prompt_after terms lowered = strip after).
Proof.
  induction terms as [|term terms IH]; cbn [Gemini.image_prompt_after].
  - left. split; [|reflexivity]. intros t Ht. by apply elem_of_nil in Ht.
  - destruct (contains term lowered) eqn:Hc.
    + right. destruct (split_once_found _ _ Hc) as (b & a & Hs & Heq & Hfirst).
      exists [], term, terms, b, a. rewrite Hs. cbn [length Nat.ltb Nat.leb nth].
      split_and!; [reflexivity| |exact Heq|exact Hfirst|reflexivity].
      intros t Ht. by apply elem_of_nil in Ht.
    + destruct IH as [[Hnone Hp]|(pre & t & post & b & a & -> & Hpre & Heq & Hfirst & Hp)].
      * left. split; [|exact Hp]. intros t Ht.
        apply elem_of_cons in Ht as [->|Ht]; [exact Hc|by apply Hnone].
      * right. exists (term :: pre), t, post, b, a.
        split_and!; [reflexivity| |exact Heq|exact Hfirst|exact Hp].
        intros t' Ht'. apply elem_of_cons in Ht' as [->|Ht']; [exact Hc|by apply Hpre].
Qed.

Lemma image_request_not_empty (question : string) :
  any (fun term => contains term (lower question)) Gemini.image_terms = true ->
  question <> "".
Proof. intros Hany ->. vm_compute in Hany. discriminate Hany. Qed.

Lemma image_prompt_of_cases (question : string) :
  any (fun term => contains term (lower question)) Gemini.image_terms = true ->
  Gemini.image_prompt_of question <> ""
  /\ (Gemini.image_prompt_of question = question
      \/ exists pre term post before after,
           Gemini.image_terms = (pre ++ term :: post)%list
           /\ (forall t, t ∈ pre -> contains t (lower question) = false)
           /\ lower question = before ++ term ++ after
           /\ (forall before' after', lower question = before' ++ term ++ after' ->
                 (String.length before <= String.length before')%nat)
           /\ Gemini.image_prompt_of question = strip after).
Proof.
  intros Hany. unfold Gemini.image_prompt_of.
  destruct (String.eqb_spec (Gemini.image_prompt_after Gemini.image_terms (lower question)) "")
    as [He|Hne].
  - split; [by apply image_request_not_empty|by left].
  - split; [exact Hne|]. right.
    destruct (image_prompt_after_cases Gemini.image_terms (lower question))
      as [[_ Hp]|Hfound]; [contradiction|exact Hfound].
Qed.

(** X13.  [process_image_request] answers [(False, None)] without calling the
    service when the lower-cased question contains none of the seven image
    terms.  When it contains one, the service is called once, with the saved
    model, size and style (or their defaults) and without generation
    configuration or safety settings, on a prompt that is never empty: the
    whole question as typed, or else the lower-cased text that follows the
    leftmost occurrence of the first term, in the order of the list, that the
    question contains, stripped of surrounding white space. *)
Theorem process_image_request_prompt :
  forall (num : Type) (N : Number num) (generate : Gemini.generator num)
         (state : Gemini.settings num) (question key : string),
    (any (fun term => contains term (lower question)) Gemini.image_terms = false ->
     Gemini.process_image_request generate state question key = Ok (false, None))
    /\ (any (fun term => contains term (lower question)) Gemini.image_terms = true ->
        exists prompt,
          prompt <> ""
          /\ (prompt = question
              \/ exists pre term post before after,
                   Gemini.image_terms = (pre ++ term :: post)%list
                   /\ (forall t, t ∈ pre -> contains t (lower question) = false)
                   /\ lower question = before ++ term ++ after
                   /\ (forall before' after', lower question = before' ++ term ++ after' ->
                         (String.length before <= String.length before')%nat)
                   /\ prompt = strip after)
          /\ Gemini.process_image_request generate state question key
             = match generate
                       {| Gemini.api_key := key;
                          Gemini.model_name :=
                            default "gemini-1.5-flash" (Gemini.gemini_model state);
                          Gemini.config := None;
                          Gemini.safety_settings := [];
                          Gemini.contents :=
                            Gemini.image_prompt_text prompt
                              (default "natural" (Gemini.image_style state))
                              (default "512x512" (Gemini.image_size state)) |} with
               | Ok description => Ok (true, Some description)
               | Raise e => Raise e
               end).
Proof.
  intros num N generate state question key. unfold Gemini.process_image_request. split.
  - by intros ->.
  - intros Hany. rewrite Hany.
    destruct (image_prompt_of_cases question Hany) as [Hne Hcases].
    exists (Gemini.image_prompt_of question). split_and!; [exact Hne| |reflexivity].
    destruct Hcases as [Hq|Hfound]; [by left|by right].
Qed.

Lemma process_image_request_prompt_witness :
  let question := "Please DRAW  a Red Fox " in
  (any (fun term => contains term (lower "hello")) Gemini.image_terms = false ->
   Gemini.process_image_request (demo_generator (num := float)) no_settings "hello" "key"
   = Ok (false, None))
  /\ any (fun term => contains term (lower question)) Gemini.image_terms = true
  /\ Gemini.image_prompt_of question = "a red fox"
  /\ exists prompt,
       prompt <> ""
       /\ (prompt = question
           \/ exists pre term post before after,
                Gemini.image_terms = (pre ++ term :: post)%list
                /\ (forall t, t ∈ pre -> contains t (lower question) = false)
                /\ lower question = before ++ term ++ after
                /\ (forall before' after', lower question = before' ++ term ++ after' ->
                      (String.length before <= String.length before')%nat)
                /\ prompt = strip after)
       /\ Gemini.process_image_request (demo_generator (num := float)) no_settings question "key"
          = match demo_generator (num := float)
                    {| Gemini.api_key := "key";
                       Gemini.model_name := "gemini-1.5-flash";
                       Gemini.config := None;
                       Gemini.safety_settings := [];
                       Gemini.contents := Gemini.image_prompt_text prompt "natural" "512x512" |}
            with
            | Ok description => Ok (true, Some description)
            | Raise e => Raise e
            end.
Proof.
  intros question.
  split; [exact (proj1 (process_image_request_prompt float _ demo_generator no_settings
                          "hello" "key"))|].
  split; [reflexivity|]. split; [reflexivity|].
  exact (proj2 (process_image_request_prompt float _ demo_generator no_settings question "key")
           eq_refl).
Defined.

(** X14.  [enhanced_direct_gemini_response] sends a question that contains no
    image term as it is, under the model, temperature and token limit it was
    given, with [top_p = 0.95], [top_k = 40] and the four safety settings.
    For a question that contains an image term it sends the image prompt
    instead, under the saved model and without configuration or safety
    settings, and answers the description inside a fixed text; the model,
    temperature and token limit it was given are not used, and the saved
    switch [enable_image_generation] is never consulted. *)
Theorem enhanced_response_requests :
  forall (num : Type) (N : Number num) (generate : Gemini.generator num)
         (state : Gemini.settings num) (question key model : string) (temp : num)
         (tokens : Z),
    (any (fun term => contains term (lower question)) Gemini.image_terms = false ->
     Gemini.enhanced_direct_gemini_response generate state question key model temp tokens
     = generate {| Gemini.api_key := key; Gemini.model_name := model;
                   Gemini.config :=
                     Some {| Gemini.temperature := temp; Gemini.top_p := ratio 95 100;
                             Gemini.top_k := 40; Gemini.max_output_tokens := tokens |};
                   Gemini.safety_settings := Gemini.harm_categories;
                   Gemini.contents := question |})
    /\ (any (fun term => contains term (lower question)) Gemini.image_terms = true ->
        Gemini.enhanced_direct_gemini_response generate state question key model temp tokens
        = match generate
                  {| Gemini.api_key := key;
                     Gemini.model_name :=
                       default "gemini-1.5-flash" (Gemini.gemini_model state);
                     Gemini.config := None;
                     Gemini.safety_settings := [];
                     Gemini.contents :=
                       Gemini.image_prompt_text (Gemini.image_prompt_of question)
                         (default "natural" (Gemini.image_style state))
                         (default "512x512" (Gemini.image_size state)) |} with
          | Ok description => Ok (Gemini.image_answer description)
          | Raise e => Raise e
          end)
    /\ (forall (enabled : option bool),
          Gemini.enhanced_direct_gemini_response generate
            {| Gemini.gemini_model := Gemini.gemini_model state;
               Gemini.saved_temperature := Gemini.saved_temperature state;
               Gemini.max_tokens := Gemini.max_tokens state;
               Gemini.enable_image_generation := enabled;
               Gemini.image_size := Gemini.image_size state;
               Gemini.image_style := Gemini.image_style state |}
            question key model temp tokens
          = Gemini.enhanced_direct_gemini_response generate state question key model temp
              tokens).
Proof.
  intros num N generate state question key model temp tokens.
  unfold Gemini.enhanced_direct_gemini_response, Gemini.process_image_request,
    Gemini.get_image_from_gemini.
  split_and!.
  - by intros ->.
  - intros ->. by destruct (generate _).
  - intros enabled. reflexivity.
Qed.

Lemma enhanced_response_requests_witness :
  Gemini.enhanced_direct_gemini_response (demo_generator (num := float)) no_settings
    "What is a drawback of solar power?" "key" "gemini-1.5-pro" 0.5%float 1024
  = Ok (Gemini.image_answer
          ("Answer to: "
           ++ Gemini.image_prompt_text "back of solar power?" "natural" "512x512")).
Proof.
  exact (proj1 (proj2 (enhanced_response_requests float _ demo_generator no_settings
                         "What is a drawback of solar power?" "key" "gemini-1.5-pro"
                         0.5%float 1024)) eq_refl).
Defined.

(** ** The analysis tab *)

Section CountFacts.
Context {num : Type} `{Number num}.
Implicit Types (items : list (string * row num)) (counts : list (string * nat)).

Lemma row_set_sum (a : string) (v n : nat) counts :
  row_get a counts = Some n ->
  (sum_list (row_set a v counts).*2 + n = sum_list counts.*2 + v)%nat.
Proof.
  induction counts as [|[k w] counts IH]; cbn [row_get row_set]; [discriminate|].
  destruct (String.eqb k a).
  - intros [= ->]. cbn. lia.
  - intros Hn. specialize (IH Hn). cbn in *. lia.
Qed.

Lemma sum_list_with_app (l k : list nat) : sum_list (l ++ k) = (sum_list l + sum_list k)%nat.
Proof. induction l as [|x l IH]; cbn; [reflexivity|]. rewrite IH. lia. Qed.

Lemma row_set_zero_sum (a : string) counts :
  row_get a counts = None ->
  sum_list (row_set a 0%nat counts).*2 = sum_list counts.*2
  /\ row_get a (row_set a 0%nat counts) = Some 0%nat.
Proof.
  intros Hn. split; [|apply row_get_set_eq].
  rewrite row_set_fresh by (by apply row_get_None_keys).
  rewrite fmap_app, sum_list_with_app. cbn. lia.
Qed.

Lemma row_set_keys_either (a : string) (v : nat) counts k :
  k ∈ (row_set a v counts).*1 -> k = a \/ k ∈ counts.*1.
Proof.
  induction counts as [|[k' w] counts IH]; cbn [row_set].
  - cbn. intros Hk. apply list_elem_of_singleton in Hk. by left.
  - destruct (String.eqb k' a); cbn; intros Hk.
    + by right.
    + apply elem_of_cons in Hk as [->|Hk]; [right; left|].
      destruct (IH Hk) as [->|Hin]; [by left|right; by right].
Qed.

(** What the counting loop returns: one count for each state, on keys that
    are the best action of some state. *)
Lemma count_best_actions_total items counts counts' :
  NoDup counts.*1 ->
  count_best_actions items counts = Ok counts' ->
  sum_list counts'.*2 = (sum_list counts.*2 + length items)%nat
  /\ NoDup counts'.*1
  /\ (forall a, a ∈ counts'.*1 ->
        a ∈ counts.*1
        \/ exists state actions v, (state, actions) ∈ items /\ max_item actions = Some (a, v)).
Proof.
  revert counts. induction items as [|[state actions] items IH]; intros counts Hnd;
    cbn [count_best_actions].
  - intros [= <-]. split_and!; [cbn; lia|exact Hnd|by left].
  - destruct (max_item actions) as [[best v]|] eqn:Hmax; [|discriminate].
    destruct (row_get best counts) as [n|] eqn:Hget.
    + rewrite Hget. intros Hrun.
      apply IH in Hrun as (Hsum & Hnd' & Hkeys); [|by apply row_set_NoDup].
      pose proof (row_set_sum best (n + 1) n counts Hget) as Hs.
      split_and!; [cbn [length]; lia|exact Hnd'|].
      intros a Ha. destruct (Hkeys a Ha) as [Hin|(st & acts & w & Hin & Hm)].
      * apply row_set_keys_either in Hin as [->|Hin]; [|by left].
        right. exists state, actions, v. split; [left|exact Hmax].
      * right. exists st, acts, w. split; [by right|exact Hm].
    + destruct (row_set_zero_sum best counts Hget) as [Hz Hget0].
      rewrite Hget0. intros Hrun.
      apply IH in Hrun as (Hsum & Hnd' & Hkeys); [|by do 2 apply row_set_NoDup].
      pose proof (row_set_sum best (0 + 1) 0 _ Hget0) as Hs.
      split_and!; [cbn [length]; lia|exact Hnd'|].
      intros a Ha. destruct (Hkeys a Ha) as [Hin|(st & acts & w & Hin & Hm)].
      * apply row_set_keys_either in Hin as [->|Hin];
          [right; exists state, actions, v; split; [left|exact Hmax]|].
        apply row_set_keys_either in Hin as [->|Hin]; [|by left].
        right. exists state, actions, v. split; [left|exact Hmax].
      * right. exists st, acts, w. split; [by right|exact Hm].
Qed.

(** The counting loop returns when no row is empty, *)
Lemma count_best_actions_returns items counts :
  Forall (fun item => snd item <> []) items ->
  exists counts', count_best_actions items counts = Ok counts'.
Proof.
  revert counts. induction items as [|[state actions] items IH]; intros counts Hne;
    cbn [count_best_actions]; [by eexists|].
  apply Forall_cons in Hne as [Hrow Hne]. cbn [snd] in Hrow.
  destruct actions as [|x actions]; [done|]. cbn [max_item].
  destruct (max_item_from x actions) as [best v].
  destruct (row_get best counts) as [n|] eqn:Hget.
  - rewrite Hget. by apply IH.
  - rewrite row_get_set_eq. by apply IH.
Qed.

(** and raises [ValueError] when one is. *)
Lemma count_best_actions_empty_row items counts :
  Exists (fun item => snd item = []) items ->
  count_best_actions items counts = Raise ValueError.
Proof.
  revert counts. induction items as [|[state actions] items IH]; intros counts Hex;
    cbn [count_best_actions]; [by apply Exists_nil in Hex|].
  destruct actions as [|x actions]; [reflexivity|].
  apply Exists_cons in Hex as [Hx|Hex]; [discriminate Hx|].
  cbn [max_item]. destruct (max_item_from x actions) as [best v].
  destruct (row_get best counts) as [n|] eqn:Hget.
  - rewrite Hget. by apply IH.
  - rewrite row_get_set_eq. by apply IH.
Qed.

Lemma q_values_data_nil items :
  q_values_data items = [] <-> Forall (fun item => snd item = []) items.
Proof.
  unfold q_values_data. induction items as [|[state actions] items IH]; cbn [flat_map].
  - split; [constructor|reflexivity].
  - split.
    + intros Happ. apply app_eq_nil in Happ as [Hm Hrest]. constructor.
      * cbn. by destruct actions.
      * by apply IH.
    + intros Hall. apply Forall_cons in Hall as [Hrow Hall]. cbn in Hrow. subst actions.
      cbn. by apply IH.
Qed.

(** A table of canonical rows can always be shown. *)
Lemma show_rl_performance_canonical (ag : RLAgent num) :
  canonical_rows (q_table ag) -> exists shown, show_rl_performance (Some ag) = Ok shown.
Proof.
  intros Hc. unfold show_rl_performance, show_table.
  assert (Forall (fun item => snd item <> []) (map_to_list (q_table ag))) as Hrows.
  { apply Forall_forall. intros [k r] Hin. apply elem_of_map_to_list in Hin.
    apply Hc in Hin. cbn. by destruct r. }
  destruct (map_to_list (q_table ag)) as [|item items] eqn:Hitems; [by eexists|].
  destruct (q_values_data (item :: items)); [by eexists|].
  destruct (count_best_actions_returns (item :: items) [] Hrows) as [counts ->].
  by eexists.
Qed.

End CountFacts.

(** X15.  For an agent whose table is not empty and has no empty row, in
    whatever order the states are enumerated, [show_rl_performance] shows one
    data row for each pair of state and action, the first ten in the sample,
    and a table of counts in which every state is counted once: the counts
    add up to the number of states, no action is listed twice, and every
    action listed is the best action ([max] by value) of some state. *)
Theorem show_table_counts_every_state :
  forall (num : Type) (N : Number num) (ag : RLAgent num) (items : list (string * row num)),
    items ≡ₚ map_to_list (q_table ag) ->
    q_table ag <> ∅ ->
    (forall k r, q_table ag !! k = Some r -> r <> []) ->
    exists counts,
      show_table items
      = Ok [Subheader "RL Agent Performance"; Text "Q-Value Table Sample:";
            DataFrame (take 10 (q_values_data items)); BarChart (q_values_data items);
            Text "Most Commonly Preferred Actions:"; CountTable counts]
      /\ length (q_values_data items)
         = sum_list (map (fun item => length (snd item)) items)
      /\ sum_list counts.*2 = size (q_table ag)
      /\ NoDup counts.*1
      /\ (forall a, a ∈ counts.*1 ->
            exists state actions v,
              q_table ag !! state = Some actions /\ max_item actions = Some (a, v))
      /\ (items = map_to_list (q_table ag) -> show_rl_performance (Some ag) = show_table items).
Proof.
  intros num N ag items Hperm Hne Hrows.
  assert (Forall (fun item => snd item <> []) items) as Hall.
  { apply Forall_forall. intros [k r] Hin. rewrite Hperm in Hin.
    apply elem_of_map_to_list in Hin. cbn. by eapply Hrows. }
  assert (length items = size (q_table ag)) as Hsize.
  { by rewrite Hperm, length_map_to_list. }
  destruct (count_best_actions_returns items [] Hall) as [counts Hcounts].
  destruct (count_best_actions_total items [] counts (NoDup_nil_2) Hcounts)
    as (Hsum & Hnd & Hkeys).
  exists counts. split_and!.
  - unfold show_table. destruct items as [|item items].
    { symmetry in Hsize. apply map_size_empty_iff in Hsize. contradiction. }
    destruct (q_values_data (item :: items)) as [|d data] eqn:Hdata.
    + apply q_values_data_nil in Hdata. apply Forall_cons in Hdata as [Hempty _].
      apply Forall_cons in Hall as [Hrow _]. contradiction.
    + by rewrite Hcounts.
  - unfold q_values_data. clear. induction items as [|item items IH]; [reflexivity|].
    cbn [flat_map map sum_list sum_list_with]. rewrite length_app, length_map, IH. reflexivity.
  - rewrite Hsum, <- Hsize. reflexivity.
  - exact Hnd.
  - intros a Ha. destruct (Hkeys a Ha) as [Hin|(state & actions & v & Hin & Hmax)].
    { by apply elem_of_nil in Hin. }
    exists state, actions, v. split; [|exact Hmax].
    rewrite Hperm in Hin. by apply elem_of_map_to_list in Hin.
  - intros ->. reflexivity.
Qed.

Lemma show_table_counts_every_state_witness :
  let table : gmap string (row float) :=
    <["state-a" := [("chunk_small", 0.25%float); ("chunk_medium", 0%float);
                     ("chunk_large", 0.75%float); ("similarity_standard", 0%float);
                     ("similarity_mmr", 0%float)] ]>
      (<["state-b" := [("chunk_small", 0.5%float); ("chunk_medium", 0.5%float);
                        ("chunk_large", 0.5%float); ("similarity_standard", 0%float);
                        ("similarity_mmr", 0%float)] ]>
         (<["state-c" := [("chunk_small", 0%float); ("chunk_medium", 0%float);
                           ("chunk_large", 1%float); ("similarity_standard", 0%float);
                           ("similarity_mmr", 0.5%float)] ]> ∅)) in
  let ag : RLAgent float := set_q_table table default_agent in
  let items := map_to_list (q_table ag) in
  q_table ag <> ∅
  /\ exists counts,
       show_table items
       = Ok [Subheader "RL Agent Performance"; Text "Q-Value Table Sample:";
             DataFrame (take 10 (q_values_data items)); BarChart (q_values_data items);
             Text "Most Commonly Preferred Actions:"; CountTable counts]
       /\ length (q_values_data items)
          = sum_list (map (fun item => length (snd item)) items)
       /\ sum_list counts.*2 = size (q_table ag)
       /\ NoDup counts.*1
       /\ (forall a, a ∈ counts.*1 ->
             exists state actions v,
               q_table ag !! state = Some actions /\ max_item actions = Some (a, v))
       /\ (items = map_to_list (q_table ag) ->
           show_rl_performance (Some ag) = show_table items).
Proof.
  intros table ag items.
  assert (canonical_rows (q_table ag)) as Hc.
  { repeat (apply canonical_rows_insert; [|reflexivity]).
    intros k r Hk. by rewrite lookup_empty in Hk. }
  assert (q_table ag <> ∅) as Hne.
  { intros Hempty. apply (f_equal (fun t => t !! "state-a")) in Hempty.
    cbn [q_table ag set_q_table] in Hempty. unfold table in Hempty.
    by rewrite lookup_insert_eq, lookup_empty in Hempty. }
  split; [exact Hne|].
  apply (show_table_counts_every_state float _ ag items); [reflexivity|exact Hne|].
  intros k r Hk. apply Hc in Hk. by destruct r.
Defined.

(** X16.  The edges of [show_rl_performance]: without an agent, or with an
    empty table, it shows the note that there is no data; with a table of
    empty rows only it shows the heading and nothing else; with a table that
    has an empty row beside one that is not, it raises [ValueError] (the [max]
    of an empty row); with a table of canonical rows it never raises. *)
Theorem show_rl_performance_edge_cases :
  forall (num : Type) (N : Number num),
    show_rl_performance (num := num) None
    = Ok [Subheader "RL Agent Performance";
          InfoBox "No RL data available yet. Interact with the chatbot to generate data."]
    /\ (forall ag : RLAgent num,
          q_table ag = ∅ ->
          show_rl_performance (Some ag)
          = Ok [Subheader "RL Agent Performance";
                InfoBox "No RL data available yet. Interact with the chatbot to generate data."])
    /\ (forall ag : RLAgent num,
          q_table ag <> ∅ ->
          (forall k r, q_table ag !! k = Some r -> r = []) ->
          show_rl_performance (Some ag) = Ok [Subheader "RL Agent Performance"])
    /\ (forall (ag : RLAgent num) (k k' : string) (r : row num),
          q_table ag !! k = Some [] ->
          q_table ag !! k' = Some r -> r <> [] ->
          show_rl_performance (Some ag) = Raise ValueError)
    /\ (forall ag : RLAgent num,
          canonical_rows (q_table ag) ->
          exists shown, show_rl_performance (Some ag) = Ok shown).
Proof.
  intros num N. split_and!.
  - reflexivity.
  - intros ag Hempty. unfold show_rl_performance. rewrite Hempty, map_to_list_empty. reflexivity.
  - intros ag Hne Hall. unfold show_rl_performance, show_table.
    destruct (map_to_list (q_table ag)) as [|item items] eqn:Hitems.
    { by apply map_to_list_empty_iff in Hitems. }
    assert (q_values_data (item :: items) = []) as ->; [|reflexivity].
    apply q_values_data_nil, Forall_forall. intros [k r] Hin.
    rewrite <- Hitems in Hin. apply elem_of_map_to_list in Hin. cbn. by eapply Hall.
  - intros ag k k' r Hk Hk' Hr. unfold show_rl_performance, show_table.
    destruct (map_to_list (q_table ag)) as [|item items] eqn:Hitems.
    { apply map_to_list_empty_iff in Hitems. by rewrite Hitems, lookup_empty in Hk. }
    destruct (q_values_data (item :: items)) as [|d data] eqn:Hdata.
    { apply q_values_data_nil in Hdata. rewrite Forall_forall in Hdata.
      specialize (Hdata (k', r)). rewrite <- Hitems in Hdata.
      exfalso. apply Hr, Hdata. by apply elem_of_map_to_list. }
    rewrite count_best_actions_empty_row; [reflexivity|].
    apply Exists_exists. exists (k, []). split; [|reflexivity].
    rewrite <- Hitems. by apply elem_of_map_to_list.
  - intros ag Hc. by apply show_rl_performance_canonical.
Qed.

Lemma show_rl_performance_edge_cases_witness :
  let ag : RLAgent float :=
    set_q_table (<["s" := [] ]> (<["t" := [("chunk_small", 0.5%float)] ]> ∅)) default_agent in
  q_table ag !! "s" = Some []
  /\ q_table ag !! "t" = Some [("chunk_small", 0.5%float)]
  /\ show_rl_performance (Some ag) = Raise ValueError.
Proof.
  intros ag.
  assert (q_table ag !! "s" = Some []) as Hs by reflexivity.
  assert (q_table ag !! "t" = Some [("chunk_small", 0.5%float)]) as Ht by reflexivity.
  split; [exact Hs|]. split; [exact Ht|].
  apply (proj1 (proj2 (proj2 (proj2 (show_rl_performance_edge_cases float _))))
           ag "s" "t" _ Hs Ht).
  discriminate.
Defined.

(** ** Uploaded files *)

Lemma string_app_assoc (a b c : string) : (a ++ b) ++ c = a ++ (b ++ c).
Proof.
  induction a as [|x a IH]; [reflexivity|].
  change (String x a ++ b) with (String x (a ++ b)).
  change (String x (a ++ b) ++ c) with (String x ((a ++ b) ++ c)).
  change (String x a ++ (b ++ c)) with (String x (a ++ (b ++ c))).
  by rewrite IH.
Qed.

Lemma string_app_nil_r (a : string) : a ++ "" = a.
Proof.
  induction a as [|x a IH]; [reflexivity|].
  change (String x a ++ "") with (String x (a ++ "")). by rewrite IH.
Qed.

Lemma concat_cons (x : string) (l : list string) :
  String.concat "" (x :: l) = x ++ String.concat "" l.
Proof. destruct l; cbn [String.concat]; [by rewrite string_app_nil_r|reflexivity]. Qed.

Lemma concat_app (l k : list string) :
  String.concat "" (l ++ k) = String.concat "" l ++ String.concat "" k.
Proof.
  induction l as [|x l IH]; [reflexivity|].
  change ((x :: l) ++ k)%list with (x :: (l ++ k))%list.
  by rewrite !concat_cons, IH, string_app_assoc.
Qed.

Lemma images_of_page_well_formed pdf_name page_num xobjects images :
  Forall (fun entry => subtype (snd entry) <> None) xobjects ->
  exists found,
    images_of_page pdf_name page_num xobjects images = Ok (images ++ found)%list
    /\ Forall (fun i => filename i = pdf_name /\ page_number i = (page_num + 1)%nat) found
    /\ (length found <= length (List.filter is_picture xobjects))%nat.
Proof.
  revert images. induction xobjects as [|[key x] xobjects IH]; intros images Hwf;
    cbn [images_of_page].
  - exists []. rewrite app_nil_r. split_and!; [reflexivity|constructor|cbn; lia].
  - apply Forall_cons in Hwf as [Hx Hwf]. cbn [snd] in Hx.
    cbn [List.filter]. unfold is_picture at 1. cbn [snd].
    destruct (subtype x) as [kind|]; [|done].
    destruct (String.eqb kind "/Image").
    + destruct (picture x) as [p|e].
      * destruct (IH (images ++ [{| image := p; page_number := page_num + 1;
                                    filename := pdf_name |}])%list Hwf)
          as (found & Hrun & Hall & Hlen).
        eexists (_ :: found). rewrite Hrun, <- app_assoc.
        split_and!; [reflexivity| |cbn [length]; lia].
        constructor; [by split|exact Hall].
      * destruct (IH images Hwf) as (found & Hrun & Hall & Hlen).
        exists found. split_and!; [exact Hrun|exact Hall|cbn [length]; lia].
    + apply IH, Hwf.
Qed.

Lemma extract_pages_well_formed pdf_name page_num pages text images :
  Forall well_formed_page pages ->
  exists found,
    extract_pages pdf_name page_num pages text images
    = Ok (text ++ String.concat "" (map (fun page => page_text page ++ nl) pages),
          (images ++ found)%list)
    /\ Forall (fun i => filename i = pdf_name
                        /\ (page_num < page_number i <= page_num + length pages)%nat) found
    /\ (length found <= length (flat_map pictures_of_page pages))%nat.
Proof.
  revert page_num text images.
  induction pages as [|page pages IH]; intros page_num text images Hwf;
    cbn [extract_pages].
  - exists []. rewrite app_nil_r. cbn. rewrite string_app_nil_r.
    split_and!; [reflexivity|constructor|lia].
  - apply Forall_cons in Hwf as [Hpage Hwf]. unfold well_formed_page in Hpage.
    cbn [map flat_map]. rewrite concat_cons. unfold pictures_of_page at 1.
    destruct (resources page) as [[xobjects|]|]; [| |done].
    + destruct (images_of_page_well_formed pdf_name page_num xobjects images Hpage)
        as (here & Hhere & Hall & Hlen).
      rewrite Hhere.
      destruct (IH (S page_num) (text ++ (page_text page ++ nl)) (images ++ here)%list Hwf)
        as (found & Hrun & Hall' & Hlen').
      exists (here ++ found)%list. rewrite Hrun, <- app_assoc, string_app_assoc.
      split_and!; [reflexivity| |rewrite !length_app; lia].
      apply Forall_app. split.
      * eapply Forall_impl; [exact Hall|]. cbn. intros i [-> ->]. split; [reflexivity|lia].
      * eapply Forall_impl; [exact Hall'|]. cbn. intros i [-> Hn]. split; [reflexivity|lia].
    + destruct (IH (S page_num) (text ++ (page_text page ++ nl)) images Hwf)
        as (found & Hrun & Hall' & Hlen').
      exists found. rewrite Hrun, string_app_assoc.
      split_and!; [reflexivity| |cbn; lia].
      eapply Forall_impl; [exact Hall'|]. cbn. intros i [-> Hn]. split; [reflexivity|lia].
Qed.

Lemma extract_files_well_formed (pdf_docs : list pdf_file) text images :
  Forall (fun pdf => Forall well_formed_page (file_pages pdf)) pdf_docs ->
  exists found,
    extract_files pdf_docs text images
    = Ok (text ++ String.concat ""
                    (map (fun page => page_text page ++ nl) (flat_map file_pages pdf_docs)),
          (images ++ found)%list)
    /\ Forall (fun i => exists pdf, pdf ∈ pdf_docs /\ filename i = file_name pdf
                          /\ (1 <= page_number i <= length (file_pages pdf))%nat) found
    /\ (length found
        <= length (flat_map pictures_of_page (flat_map file_pages pdf_docs)))%nat.
Proof.
  revert text images. induction pdf_docs as [|pdf pdf_docs IH]; intros text images Hwf;
    cbn [extract_files].
  - exists []. rewrite app_nil_r. cbn. rewrite string_app_nil_r.
    split_and!; [reflexivity|constructor|lia].
  - apply Forall_cons in Hwf as [Hpdf Hwf].
    destruct (extract_pages_well_formed (file_name pdf) 0 (file_pages pdf) text images Hpdf)
      as (here & Hhere & Hall & Hlen).
    rewrite Hhere.
    destruct (IH (text ++ String.concat ""
                            (map (fun page => page_text page ++ nl) (file_pages pdf)))
                 (images ++ here)%list Hwf) as (found & Hrun & Hall' & Hlen').
    exists (here ++ found)%list. rewrite Hrun, <- app_assoc, string_app_assoc.
    cbn [flat_map]. rewrite map_app, concat_app, flat_map_app.
    split_and!; [reflexivity| |rewrite !length_app; lia].
    apply Forall_app. split.
    + eapply Forall_impl; [exact Hall|]. cbn. intros i [Hname Hn].
      exists pdf. split_and!; [left|exact Hname|lia..].
    + eapply Forall_impl; [exact Hall'|]. cbn. intros i (pdf' & Hin & Hname & Hn).
      exists pdf'. split_and!; [by right|exact Hname|lia..].
Qed.

(** Whatever the files, the only exceptions are the two [KeyError]s: a
    picture that cannot be read is passed over. *)
Lemma images_of_page_raises pdf_name page_num xobjects images e :
  images_of_page pdf_name page_num xobjects images = Raise e -> e = KeyError "/Subtype".
Proof.
  revert images. induction xobjects as [|[key x] xobjects IH]; intros images;
    cbn [images_of_page]; [discriminate|].
  destruct (subtype x) as [kind|]; [|by intros [= <-]].
  destruct (String.eqb kind "/Image"); [destruct (picture x)|]; apply IH.
Qed.

Lemma extract_pages_raises pdf_name page_num pages text images e :
  extract_pages pdf_name page_num pages text images = Raise e ->
  e = KeyError "/Resources" \/ e = KeyError "/Subtype".
Proof.
  revert page_num text images. induction pages as [|page pages IH];
    intros page_num text images; cbn [extract_pages]; [discriminate|].
  destruct (resources page) as [[xobjects|]|]; [| |intros [= <-]; by left].
  - destruct (images_of_page _ _ _ _) eqn:Himg; [apply IH|].
    intros [= <-]. right. by eapply images_of_page_raises.
  - apply IH.
Qed.

Lemma extract_files_raises (pdf_docs : list pdf_file) text images e :
  extract_files pdf_docs text images = Raise e ->
  e = KeyError "/Resources" \/ e = KeyError "/Subtype".
Proof.
  revert text images. induction pdf_docs as [|pdf pdf_docs IH]; intros text images;
    cbn [extract_files]; [discriminate|].
  destruct (extract_pages _ _ _ _ _) as [[text' images']|e'] eqn:Hp; [apply IH|].
  intros [= <-]. by eapply extract_pages_raises.
Qed.

Lemma concat_length_lines (texts : list string) :
  String.length (String.concat "" (map (fun t => t ++ nl) texts))
  = (String.length (String.concat "" texts) + length texts)%nat.
Proof.
  induction texts as [|t texts IH]; [reflexivity|].
  cbn [map length]. rewrite !concat_cons, !string_app_length, IH. cbn. lia.
Qed.

Lemma get_pdf_text_as_doc (pdf_docs : list pdf_file) :
  get_pdf_text (map as_doc pdf_docs)
  = String.concat "" (map page_text (flat_map file_pages pdf_docs)).
Proof.
  unfold get_pdf_text. f_equal.
  induction pdf_docs as [|pdf pdf_docs IH]; [reflexivity|].
  cbn [map flat_map]. by rewrite map_app, IH.
Qed.

(** X17.  On uploads that the PDF library reads ([PdfReader] and
    [extract_text] having returned: what they raise on other files is outside
    the embedding), [extract_text_and_images] raises nothing but the
    [KeyError] of a page without ['/Resources'] or of an entry without
    ['/Subtype']: a picture that cannot be read is passed over.  On files
    whose pages and entries have them it returns the text of every page followed by a line feed each (so
    as many characters more than [get_pdf_text] reads as there are pages), and
    images that each carry the name of one of the files and a page number
    between 1 and the number of its pages, no more of them than there are
    picture entries. *)
Theorem extract_text_and_images_result :
  forall pdf_docs : list pdf_file,
    (forall e, extract_text_and_images pdf_docs = Raise e ->
       e = KeyError "/Resources" \/ e = KeyError "/Subtype")
    /\ (Forall (fun pdf => Forall well_formed_page (file_pages pdf)) pdf_docs ->
        exists text images,
          extract_text_and_images pdf_docs = Ok (text, images)
          /\ text = String.concat ""
                      (map (fun page => page_text page ++ nl) (flat_map file_pages pdf_docs))
          /\ String.length text
             = (String.length (get_pdf_text (map as_doc pdf_docs))
                + length (flat_map file_pages pdf_docs))%nat
          /\ Forall (fun i => exists pdf, pdf ∈ pdf_docs /\ filename i = file_name pdf
                                /\ (1 <= page_number i <= length (file_pages pdf))%nat) images
          /\ (length images
              <= length (flat_map pictures_of_page (flat_map file_pages pdf_docs)))%nat).
Proof.
  intros pdf_docs. unfold extract_text_and_images. split.
  - intros e He. by eapply extract_files_raises.
  - intros Hwf. destruct (extract_files_well_formed pdf_docs "" [] Hwf)
      as (found & Hrun & Hall & Hlen).
    eexists _, found. split; [exact Hrun|]. split; [reflexivity|]. split.
    { change ("" ++ ?x) with x. rewrite get_pdf_text_as_doc.
      rewrite <- (length_map page_text (flat_map file_pages pdf_docs)).
      by rewrite <- concat_length_lines, map_map. }
    split; [exact Hall|exact Hlen].
Qed.

Lemma extract_text_and_images_result_witness :
  Forall (fun pdf => Forall well_formed_page (file_pages pdf)) [demo_file]
  /\ extract_text_and_images [demo_file]
     = Ok ("Quarterly revenue increased by 10%" ++ nl ++ "Costs fell" ++ nl,
           [{| image := "chart"; page_number := 1; filename := "report.pdf" |}])
  /\ exists text images,
       extract_text_and_images [demo_file] = Ok (text, images)
       /\ text = String.concat ""
                   (map (fun page => page_text page ++ nl) (flat_map file_pages [demo_file]))
       /\ String.length text
          = (String.length (get_pdf_text (map as_doc [demo_file]))
             + length (flat_map file_pages [demo_file]))%nat
       /\ Forall (fun i => exists pdf, pdf ∈ [demo_file] /\ filename i = file_name pdf
                             /\ (1 <= page_number i <= length (file_pages pdf))%nat) images
       /\ (length images
           <= length (flat_map pictures_of_page (flat_map file_pages [demo_file])))%nat.
Proof.
  assert (Forall (fun pdf => Forall well_formed_page (file_pages pdf)) [demo_file]) as Hwf.
  { repeat constructor; discriminate. }
  split; [exact Hwf|]. split; [reflexivity|].
  exact (proj2 (extract_text_and_images_result [demo_file]) Hwf).
Defined.

(** ** The script *)

Lemma canonical_actions_NoDup : NoDup canonical_actions.
Proof. apply (bool_decide_unpack _). vm_compute. exact I. Qed.

Section MainFacts.
Context {num : Type} `{Number num}.
Implicit Types (env : environment num) (s : state num) (ag : RLAgent num)
  (fs : gmap string (file_content num)) (P : gmap string (row num) -> Prop).

Lemma canonical_rows_dicts (t : gmap string (row num)) : canonical_rows t -> rows_are_dicts t.
Proof. intros Hc k r Hk. rewrite (Hc _ _ Hk). apply canonical_actions_NoDup. Qed.

Lemma stores_table_written P fs (t : gmap string (row num)) :
  rows_are_dicts t -> P t ->
  stores_table P (<[default_path := Document (table_to_json t)]> fs).
Proof.
  intros Hd Ht. unfold stores_table. rewrite lookup_insert_eq.
  exists t. split; [by apply table_roundtrip|exact Ht].
Qed.

Lemma setup_holds P st fs :
  P ∅ ->
  match st with Some s => holds_table P s | None => True end ->
  stores_table P fs ->
  holds_table P (setup st fs).
Proof.
  intros Hempty Hst Hfs. destruct st as [s|]; [exact Hst|].
  unfold setup, holds_table. cbn [agent]. eexists. split; [reflexivity|].
  unfold load_model, stores_table in *.
  destruct (fs !! default_path) as [[|j]|]; [exact Hempty| |exact Hempty].
  destruct Hfs as (t & -> & Ht). exact Ht.
Qed.

End MainFacts.

Section MainInvariant.
Context {num : Type} `{Number num}.
Implicit Types (env : environment num) (s : state num) (ag : RLAgent num)
  (fs : gmap string (file_content num)).

(** A property [P] of tables of canonical rows that the empty table has and
    that a pass keeps when the learning rate and the discount factor are
    [ok_rates] and the services and the question are [ok_services]. *)
Variable P : gmap string (row num) -> Prop.
Variable ok_rates : num -> num -> Prop.
Variable ok_services : environment num -> string -> Prop.
Hypothesis P_canonical : forall t, P t -> canonical_rows t.
Hypothesis P_empty : P ∅.
Hypothesis ok_services_direct :
  forall env generate settings key q,
    ok_services env q -> ok_services (services env generate settings key) q.
Hypothesis P_pass :
  forall env q m key docs ag hist fs pg (out : session num) res,
    P (q_table ag) -> ok_rates (learning_rate ag) (discount_factor ag) ->
    ok_services env q ->
    user_input env q m (Some key) docs
      {| rl_agent := Some ag; conversation_history := hist; files := fs; page := pg |}
    = (out, res) ->
    exists ag', rl_agent out = Some ag' /\ P (q_table ag').

Lemma ask_invariant env generate (w : widgets num) s fs ag mode s' fs' shown o :
  agent s = Some ag -> P (q_table ag) ->
  ok_rates (learning_rate ag) (discount_factor ag) ->
  ok_services env (question_input w) ->
  chat_mode s = Some mode ->
  stores_table P fs ->
  ask env generate w s fs = (s', fs', shown, o) ->
  (exists ag',
     agent s' = Some ag' /\ P (q_table ag')
     /\ learning_rate ag' = learning_rate ag
     /\ discount_factor ag' = discount_factor ag
     /\ exploration_rate ag' = exploration_rate ag)
  /\ stores_table P fs'
  /\ (forall e, o = Failed e -> service_failure env (question_input w) e)
  /\ o <> RerunRequested.
Proof.
  intros Hag HP Hrate Hserv Hmode Hfs. unfold ask. rewrite Hmode, Hag.
  destruct (String.eqb (question_input w) "").
  { intros [= <- <- <- <-]. split_and!; [by exists ag|exact Hfs|discriminate..]. }
  destruct (user_input _ _ _ _ _ _) as [out res] eqn:Hrun. cbn [fst snd].
  destruct (P_pass _ _ _ _ _ _ _ _ _ _ _ HP Hrate (ok_services_direct _ _ _ _ _ Hserv) Hrun)
    as (ag' & Hout & HP').
  destruct (user_input_canonical _ _ _ _ _ _ _ _ _ _ _ (P_canonical _ HP) Hrun)
    as (ag'' & Hout' & Hc' & (Hl & Hd & He) & Hfiles & _ & Hret & Hfail).
  rewrite Hout in Hout'. injection Hout' as <-.
  assert (stores_table P (files out)) as Hfs'.
  { destruct Hfiles as [->| ->]; [exact Hfs|].
    apply stores_table_written; [by apply canonical_rows_dicts|exact HP']. }
  destruct res as [returned|e]; intros [= <- <- <- <-].
  - rewrite (Hret _ eq_refl).
    split_and!; [by exists ag'|exact Hfs'|discriminate..].
  - split_and!; [by exists ag'|exact Hfs'| |discriminate].
    intros e' [= <-]. destruct (Hfail _ eq_refl) as [_ Hsrc]. exact Hsrc.
Qed.

(** One run of the script keeps [P] on the table in memory and on the table
    on disk, fails only as the services or the reading of the files fail, and
    unless it is a reset leaves the agent with the rates of the sliders and
    the discount factor it had; a reset leaves the default agent. *)
Lemma main_invariant env generate (w : widgets num) st fs s' fs' shown o :
  (forall ag0, agent (setup st fs) = Some ag0 ->
     ok_rates (learning_rate_slider w) (discount_factor ag0)) ->
  ok_services env (question_input w) ->
  match st with Some s => holds_table P s | None => True end ->
  stores_table P fs ->
  main env generate w st fs = (s', fs', shown, o) ->
  holds_table P s' /\ stores_table P fs'
  /\ (forall e, o = Failed e ->
        e = KeyError "/Resources" \/ e = KeyError "/Subtype"
        \/ service_failure env (question_input w) e)
  /\ (o <> RerunRequested ->
      exists ag0 ag',
        agent (setup st fs) = Some ag0
        /\ agent s' = Some ag'
        /\ learning_rate ag' = learning_rate_slider w
        /\ exploration_rate ag' = exploration_rate_slider w
        /\ discount_factor ag' = discount_factor ag0)
  /\ (o = RerunRequested -> agent s' = Some default_agent).
Proof.
  intros Hrates Hserv Hst Hfs. unfold main.
  pose proof (setup_holds P st fs P_empty Hst Hfs) as (ag0 & Hag0 & HP0).
  pose proof (Hrates ag0 Hag0) as Hrate.
  destruct (reset_button w).
  { intros [= <- <- <- <-]. split_and!; [|exact Hfs|discriminate|done|done].
    exists default_agent. split; [reflexivity|exact P_empty]. }
  assert (agent (if clear_button w then discard_last (setup st fs) else setup st fs)
          = Some ag0) as Hag1.
  { destruct (clear_button w); [|exact Hag0].
    unfold discard_last. by destruct (asked (setup st fs)). }
  rewrite Hag1. cbn [history agent pdf_images asked chat_mode saved].
  set (ag2 := set_rates (learning_rate_slider w) (exploration_rate_slider w) ag0).
  assert (P (q_table ag2)) as HP2 by exact HP0.
  destruct (submit_button w && uploaded (file_uploader w)).
  - destruct (extract_text_and_images (default [] (file_uploader w)))
      as [[text images]|e] eqn:Hext.
    + cbn [history agent pdf_images asked chat_mode saved].
      destruct (ask _ _ _ _ _) as [[[s1 fs1] shown1] o1] eqn:Hask.
      eapply ask_invariant in Hask as ((ag3 & Hag3 & HP3 & Hl & Hd & He) & Hfs1 & Hfail & Hnot);
        [|reflexivity|exact HP2|exact Hrate|exact Hserv|reflexivity|exact Hfs].
      destruct o1 as [| |e].
      * rewrite Hag3.
        destruct (show_rl_performance_canonical ag3 (P_canonical _ HP3)) as [views ->].
        intros [= <- <- <- <-]. split_and!; [|exact Hfs1|discriminate| |discriminate].
        -- exists ag3. split; [|exact HP3]. by destruct (save_settings_button w).
        -- intros _. exists ag0, ag3. split; [exact Hag0|].
           split; [by destruct (save_settings_button w)|]. by split_and!.
      * done.
      * intros [= <- <- <- <-]. split_and!; [by exists ag3|exact Hfs1| | |discriminate].
        -- intros e' [= <-]. do 2 right. by apply Hfail.
        -- intros _. exists ag0, ag3. by split_and!.
    + intros [= <- <- <- <-]. split_and!; [by exists ag2|exact Hfs| | |discriminate].
      * intros e' [= <-]. apply extract_files_raises in Hext. tauto.
      * intros _. exists ag0, ag2. by split_and!.
  - cbn [history agent pdf_images asked chat_mode saved].
    destruct (ask _ _ _ _ _) as [[[s1 fs1] shown1] o1] eqn:Hask.
    eapply ask_invariant in Hask as ((ag3 & Hag3 & HP3 & Hl & Hd & He) & Hfs1 & Hfail & Hnot);
      [|reflexivity|exact HP2|exact Hrate|exact Hserv|reflexivity|exact Hfs].
    destruct o1 as [| |e].
    + rewrite Hag3.
      destruct (show_rl_performance_canonical ag3 (P_canonical _ HP3)) as [views ->].
      intros [= <- <- <- <-]. split_and!; [|exact Hfs1|discriminate| |discriminate].
      * exists ag3. split; [|exact HP3]. by destruct (save_settings_button w).
      * intros _. exists ag0, ag3. split; [exact Hag0|].
        split; [by destruct (save_settings_button w)|]. by split_and!.
    + done.
    + intros [= <- <- <- <-]. split_and!; [by exists ag3|exact Hfs1| | |discriminate].
      * intros e' [= <-]. do 2 right. by apply Hfail.
      * intros _. exists ag0, ag3. by split_and!.
Qed.

End MainInvariant.

Section AskFacts.
Context {num : Type} `{Number num}.
Implicit Types (env : environment num) (s : state num) (ag : RLAgent num)
  (fs : gmap string (file_content num)).

(** What a pass does to the log: nothing, or one record of the question. *)
Lemma user_input_history env q m key docs ag hist fs pg (out : session num) res :
  user_input env q m (Some key) docs
    {| rl_agent := Some ag; conversation_history := hist; files := fs; page := pg |}
  = (out, res) ->
  conversation_history out = hist
  \/ exists answer model time names action reward,
       conversation_history out
       = (hist ++ [(q, answer, model, time, names, action, reward)])%list.
Proof.
  intros Hrun. rewrite user_input_with_agent in Hrun.
  destruct (negb (is_pdf_related_question q docs) || negb (has_docs docs)).
  - apply general_path_run in Hrun as (_ & _ & _ & Hhist).
    destruct (enhanced_direct_gemini_response env q).
    + right. by eexists _, _, _, _, _, _.
    + left. by destruct Hhist.
  - destruct res as [r|e].
    + apply document_path_completed in Hrun
        as (? & ? & ? & ? & ? & ? & ? & _ & _ & _ & _ & _ & _ & _ & _ & Hhist & _).
      right. by eexists _, _, _, _, _, _.
    + apply document_path_failed in Hrun as (Hhist & _). by left.
Qed.

Lemma documents_for_hybrid (mode : string) (pdf_docs : option (list pdf_file)) :
  mode <> "General Only" -> documents_for mode pdf_docs = map as_doc <$> pdf_docs.
Proof.
  intros Hmode. unfold documents_for.
  destruct (String.eqb mode "PDF Only" && uploaded pdf_docs); [reflexivity|].
  destruct (String.eqb_spec mode "General Only"); [contradiction|reflexivity].
Qed.

(** A question asked in a mode that hands no documents to [user_input], or
    that [is_pdf_related_question] takes for a general one: the direct
    answer, the agent and the files as they were. *)
Lemma ask_general env generate (w : widgets num) s fs ag mode s' fs' shown o :
  agent s = Some ag ->
  chat_mode s = Some mode ->
  question_input w <> "" ->
  is_pdf_related_question (question_input w) (documents_for mode (file_uploader w)) = false ->
  ask env generate w s fs = (s', fs', shown, o) ->
  o = Completed /\ fs' = fs /\ agent s' = Some ag /\ pdf_images s' = pdf_images s
  /\ match Gemini.general_answer generate (saved s) (api_key_input w) (question_input w) with
     | Ok answer =>
         history s'
         = (history s
            ++ [(question_input w, answer, "Direct Google AI", now env,
                 join ", " (pdf_names (documents_for mode (file_uploader w))),
                 "direct_query", "N/A")])%list
     | Raise _ => history s' = history s
     end.
Proof.
  intros Hag Hmode Hq Hgeneral. unfold ask. rewrite Hmode, Hag.
  destruct (String.eqb_spec (question_input w) ""); [contradiction|].
  destruct (user_input _ _ _ _ _ _) as [out res] eqn:Hrun. cbn [fst snd].
  rewrite user_input_with_agent, Hgeneral in Hrun. cbn [negb orb] in Hrun.
  apply general_path_run in Hrun as (-> & Hout & Hfiles & Hhist).
  intros [= <- <- <- <-]. cbn [history agent pdf_images].
  split_and!; [reflexivity|exact Hfiles|reflexivity|reflexivity|].
  cbn [enhanced_direct_gemini_response services now] in Hhist.
  destruct (Gemini.general_answer _ _ _ _); [exact Hhist|by destruct Hhist].
Qed.

End AskFacts.

Section MainRuns.
Context {num : Type} `{Number num}.
Implicit Types (env : environment num) (s : state num) (ag : RLAgent num)
  (fs : gmap string (file_content num)).

(** A run of the script that completes: the state the question is asked in,
    and what the rest of the run keeps of the answer. *)
Lemma main_completed env generate (w : widgets num) st fs s' fs' shown :
  main env generate w st fs = (s', fs', shown, Completed) ->
  reset_button w = false
  /\ exists ag s0 s1,
       agent (if clear_button w then discard_last (setup st fs) else setup st fs) = Some ag
       /\ agent s0 = Some (set_rates (learning_rate_slider w) (exploration_rate_slider w) ag)
       /\ history s0
          = history (if clear_button w then discard_last (setup st fs) else setup st fs)
       /\ chat_mode s0 = Some (selected_mode w)
       /\ saved s0
          = saved (if clear_button w then discard_last (setup st fs) else setup st fs)
       /\ ask env generate w s0 fs = (s1, fs', shown, Completed)
       /\ history s' = history s1
       /\ agent s' = agent s1.
Proof.
  unfold main. set (before := if clear_button w then discard_last (setup st fs) else setup st fs).
  intros Hrun.
  destruct (reset_button w); [discriminate Hrun|].
  split; [reflexivity|].
  destruct (agent before) as [ag|] eqn:Hag; [|discriminate Hrun].
  exists ag.
  destruct (submit_button w && uploaded (file_uploader w)).
  - destruct (extract_text_and_images _) as [[text images]|e]; [|discriminate Hrun].
    cbn [history agent pdf_images asked chat_mode saved] in Hrun.
    destruct (ask _ _ _ _ _) as [[[s1 fs1] shown1] o1] eqn:Hask.
    match type of Hask with ask _ _ _ ?s0 _ = _ => exists s0, s1 end.
    split; [reflexivity|]. split; [reflexivity|].
    split; [reflexivity|]. split; [reflexivity|]. split; [reflexivity|].
    destruct o1 as [| |e]; [|discriminate Hrun..].
    destruct (show_rl_performance (agent s1)); [|discriminate Hrun].
    injection Hrun as <- <- <-. split; [exact Hask|].
    by destruct (save_settings_button w).
  - cbn [history agent pdf_images asked chat_mode saved] in Hrun.
    destruct (ask _ _ _ _ _) as [[[s1 fs1] shown1] o1] eqn:Hask.
    match type of Hask with ask _ _ _ ?s0 _ = _ => exists s0, s1 end.
    split; [reflexivity|]. split; [reflexivity|].
    split; [reflexivity|]. split; [reflexivity|]. split; [reflexivity|].
    destruct o1 as [| |e]; [|discriminate Hrun..].
    destruct (show_rl_performance (agent s1)); [|discriminate Hrun].
    injection Hrun as <- <- <-. split; [exact Hask|].
    by destruct (save_settings_button w).
Qed.

(** A completed question: the log gains at most the record of the question,
    and the files are as before or hold the table of the agent. *)
Lemma ask_completed env generate (w : widgets num) s fs ag s' fs' shown :
  agent s = Some ag ->
  ask env generate w s fs = (s', fs', shown, Completed) ->
  (history s' = history s
   \/ exists answer model time names action reward,
        history s'
        = (history s ++ [(question_input w, answer, model, time, names, action, reward)])%list)
  /\ ((fs' = fs /\ exists ag', agent s' = Some ag' /\ q_table ag' = q_table ag)
      \/ exists k ag1 a reward ag',
           choose_action ag k canonical_actions (random_draw env) (random_index env)
           = (ag1, Ok a)
           /\ update_q_value ag1 k a reward None = (ag', Ok tt)
           /\ agent s' = Some ag'
           /\ fs' = <[default_path := Document (table_to_json (q_table ag'))]> fs).
Proof.
  intros Hag. unfold ask. rewrite Hag.
  destruct (String.eqb (question_input w) "").
  { intros [= <- <- <-]. split; [by left|]. left. split; [reflexivity|]. by exists ag. }
  destruct (chat_mode s) as [mode|]; [|discriminate].
  destruct (user_input _ _ _ _ _ _) as [out res] eqn:Hrun. cbn [fst snd].
  destruct res as [returned|e]; [|discriminate].
  intros [= <- <- <-]. cbn [history agent].
  split; [by eapply user_input_history|].
  rewrite user_input_with_agent in Hrun.
  destruct (negb (is_pdf_related_question _ _) || negb (has_docs _)).
  - apply general_path_run in Hrun as ([= ->] & _ & Hfiles & _).
    left. split; [exact Hfiles|]. by exists ag.
  - apply document_path_completed in Hrun
      as (emb & ag1 & a & found & answer & sim & ag' & _ & Hch & _ & _ & _ & Hup & -> & _ & _
          & Hfiles).
    right. eexists _, ag1, a, _, ag'. split_and!; [exact Hch|exact Hup|reflexivity|exact Hfiles].
Qed.

(** The first pass on an empty table leaves a table of one row. *)
Lemma first_pass_table ag k a draw pick reward ag1 ag' :
  q_table ag = ∅ ->
  choose_action ag k canonical_actions draw pick = (ag1, Ok a) ->
  update_q_value ag1 k a reward None = (ag', Ok tt) ->
  exists r, q_table ag' = {[k := r]}.
Proof.
  intros Hempty Hch. apply choose_action_effect in Hch as [->|[_ ->]].
  - unfold update_q_value. cbn [max_next_q]. unfold ensure_row. rewrite Hempty, lookup_empty.
    rewrite lookup_insert_eq. cbn [default from_option id].
    destruct (row_get a _); intros [= <-]. cbn. eexists. apply insert_insert_eq.
  - unfold update_q_value. cbn [max_next_q q_table set_q_table].
    unfold ensure_row. rewrite Hempty, !lookup_insert_eq. cbn [default from_option id].
    destruct (row_get a _); intros [= <-]. cbn. eexists. apply insert_insert_eq.
Qed.

End MainRuns.

(** X19.  On uploads that the PDF library reads ([PdfReader] and
    [extract_text] having returned: what they raise on other files is outside
    the embedding), a run of [main] from a new session, or from a session
    whose agent has canonical rows, with a model file that is absent,
    unreadable or holds a table of canonical rows, ends with such a session
    and such a file, and fails only with the [KeyError] of
    [extract_text_and_images] or with what a service of the question raised
    (or the [OSError] of the model file): neither the agent nor the analysis
    tab fails on its own. *)
Theorem main_fails_only_as_services_fail :
  forall (num : Type) (N : Number num) (env : environment num)
         (generate : Gemini.generator num) (w : widgets num) (st : option (state num))
         (fs : gmap string (file_content num)) (s' : state num)
         (fs' : gmap string (file_content num)) (shown : list notice) (o : outcome),
    match st with Some s => holds_table canonical_rows s | None => True end ->
    stores_table canonical_rows fs ->
    main env generate w st fs = (s', fs', shown, o) ->
    holds_table canonical_rows s'
    /\ stores_table canonical_rows fs'
    /\ (forall e, o = Failed e ->
          e = KeyError "/Resources" \/ e = KeyError "/Subtype"
          \/ service_failure env (question_input w) e).
Proof.
  intros num N env generate w st fs s' fs' shown o Hst Hfs Hrun.
  assert (forall t : gmap string (row num), canonical_rows t -> canonical_rows t) as H1 by auto.
  assert (canonical_rows (∅ : gmap string (row num))) as H2.
  { intros k r Hk. by rewrite lookup_empty in Hk. }
  assert (forall env' q m key docs ag hist fs0 pg (out : session num) res,
            canonical_rows (q_table ag) -> True -> True ->
            user_input env' q m (Some key) docs
              {| rl_agent := Some ag; conversation_history := hist; files := fs0; page := pg |}
            = (out, res) ->
            exists ag', rl_agent out = Some ag' /\ canonical_rows (q_table ag')) as H3.
  { intros env' q m key docs ag hist fs0 pg out res Hc _ _ Hpass.
    destruct (user_input_canonical env' q m key docs ag hist fs0 pg out res Hc Hpass)
      as (ag' & Hag & Hc' & _).
    by exists ag'. }
  destruct (main_invariant canonical_rows (fun _ _ => True) (fun _ _ => True) H1 H2
              (fun _ _ _ _ _ _ => I) H3 env generate w st fs s' fs' shown o
              (fun _ _ => I) I Hst Hfs Hrun) as (Hs' & Hfs' & Hfail & _).
  by split_and!.
Qed.

Lemma main_fails_only_as_services_fail_witness :
  let w : widgets float := demo_widgets "Hybrid (Auto-detect)" sample_question in
  let run := main (sample_env false) demo_generator w None ∅ in
  stores_table canonical_rows (∅ : gmap string (file_content float))
  /\ snd run = Failed OSError
  /\ holds_table canonical_rows (fst (fst (fst run)))
  /\ stores_table canonical_rows (snd (fst (fst run)))
  /\ (forall e, snd run = Failed e ->
        e = KeyError "/Resources" \/ e = KeyError "/Subtype"
        \/ service_failure (sample_env false) (question_input w) e).
Proof.
  intros w run.
  assert (stores_table canonical_rows (∅ : gmap string (file_content float))) as Hfs.
  { unfold stores_table. by rewrite lookup_empty. }
  split; [exact Hfs|]. split; [vm_compute; reflexivity|].
  apply (main_fails_only_as_services_fail float _ (sample_env false) demo_generator w None ∅
           (fst (fst (fst run))) (snd (fst (fst run))) (snd (fst run)) (snd run) I Hfs).
  change (run = (fst (fst (fst run)), snd (fst (fst run)), snd (fst run), snd run)).
  generalize run. by intros [[[s1 fs1] shown1] o1].
Defined.

Lemma setup_discount_factor {num : Type} `{Number num} (fs : gmap string (file_content num))
    (ag0 : RLAgent num) :
  agent (setup None fs) = Some ag0 -> discount_factor ag0 = ratio 9 10.
Proof.
  cbn [setup agent]. intros [= <-]. unfold load_model.
  by destruct (fs !! default_path) as [[|j]|]; [|destruct (table_of_json j)|].
Qed.

(** X20.  In binary64, with the learning-rate slider in [0, 1] and a question
    of fewer than [2 ^ 53] words whose searches find fewer than [2 ^ 53]
    passages and whose answer has fewer than [2 ^ 53] characters: a run of
    [main] from a new session, or from a session whose agent has canonical
    rows with values in [0, 1] and a finite discount factor, with a model file
    that is absent, unreadable or holds a table of such rows, ends, however it
    ends, with such a session and such a file.  From a clean start every value
    the application holds or saves lies in [0, 1]. *)
Theorem main_keeps_values_bounded :
  forall (env : environment float) (generate : Gemini.generator float) (w : widgets float)
         (st : option (state float)) (fs : gmap string (file_content float))
         (s' : state float) (fs' : gmap string (file_content float)) (shown : list notice)
         (o : outcome),
    in_unit (learning_rate_slider w) ->
    small_counts env (question_input w) ->
    match st with
    | Some s => exists ag, agent s = Some ag /\ bounded_agent ag
    | None => True
    end ->
    stores_table (fun t => canonical_rows t /\ values_in_unit t) fs ->
    main env generate w st fs = (s', fs', shown, o) ->
    (exists ag', agent s' = Some ag' /\ bounded_agent ag')
    /\ stores_table (fun t => canonical_rows t /\ values_in_unit t) fs'.
Proof.
  intros env generate w st fs s' fs' shown o Hrate Hsmall Hst Hfs Hrun.
  assert (forall t : gmap string (row float),
            canonical_rows t /\ values_in_unit t -> canonical_rows t) as H1 by tauto.
  assert (canonical_rows (∅ : gmap string (row float)) /\ values_in_unit ∅) as H2.
  { split; intros k r Hk; by rewrite lookup_empty in Hk. }
  assert (forall env' generate' settings key q,
            small_counts env' q -> small_counts (services env' generate' settings key) q)
    as Hdirect by done.
  assert (forall env' q m key docs ag hist fs0 pg (out : session float) res,
            canonical_rows (q_table ag) /\ values_in_unit (q_table ag) ->
            in_unit (learning_rate ag) /\ finite (discount_factor ag) ->
            small_counts env' q ->
            user_input env' q m (Some key) docs
              {| rl_agent := Some ag; conversation_history := hist; files := fs0; page := pg |}
            = (out, res) ->
            exists ag', rl_agent out = Some ag'
                        /\ canonical_rows (q_table ag') /\ values_in_unit (q_table ag')) as H3.
  { intros env' q m key docs ag hist fs0 pg out res [Hc Hu] [Hlr Hdf] Hsm Hpass.
    destruct (user_input_canonical env' q m key docs ag hist fs0 pg out res Hc Hpass)
      as (ag' & Hag & Hc' & _).
    destruct (user_input_unit env' q m key docs ag hist fs0 pg out res Hu Hdf Hlr Hsm Hpass)
      as (ag'' & Hag' & Hu').
    rewrite Hag in Hag'. injection Hag' as <-. by exists ag'. }
  assert (forall ag0, agent (setup st fs) = Some ag0 -> finite (discount_factor ag0)) as Hdf.
  { intros ag0 Hag0. destruct st as [s|].
    - destruct Hst as (ag & Hag & _ & _ & Hfin). cbn [setup] in Hag0. congruence.
    - rewrite (setup_discount_factor fs ag0 Hag0). exact I. }
  assert (match st with
          | Some s => holds_table (fun t => canonical_rows t /\ values_in_unit t) s
          | None => True
          end) as Hst'.
  { destruct st as [s|]; [|done]. destruct Hst as (ag & Hag & Hc & Hu & _). by exists ag. }
  destruct (main_invariant (fun t => canonical_rows t /\ values_in_unit t)
              (fun lr df => in_unit lr /\ finite df) small_counts H1 H2 Hdirect H3
              env generate w st fs s' fs' shown o
              (fun ag0 Hag0 => conj Hrate (Hdf ag0 Hag0)) Hsmall Hst' Hfs Hrun)
    as ((ag' & Hag' & Hc' & Hu') & Hfs' & _ & Hkept & Hreset).
  split; [|exact Hfs']. exists ag'. split; [exact Hag'|]. split_and!; [exact Hc'|exact Hu'|].
  assert (o = RerunRequested \/ o <> RerunRequested) as [Ho|Ho]
    by (destruct o; [right|left|right]; done).
  - rewrite (Hreset Ho) in Hag'. injection Hag' as <-. exact I.
  - destruct (Hkept Ho) as (ag0 & ag'' & Hag0 & Hag'' & _ & _ & Hd).
    rewrite Hag' in Hag''. injection Hag'' as <-. rewrite Hd. by apply Hdf.
Qed.

Lemma main_keeps_values_bounded_witness :
  let w : widgets float := demo_widgets "Hybrid (Auto-detect)" sample_question in
  let run := main (nearest_env true) demo_generator w None ∅ in
  in_unit (learning_rate_slider w)
  /\ small_counts (nearest_env true) (question_input w)
  /\ stores_table (fun t => canonical_rows t /\ values_in_unit t)
       (∅ : gmap string (file_content float))
  /\ snd run = Completed
  /\ (exists ag', agent (fst (fst (fst run))) = Some ag' /\ bounded_agent ag')
  /\ stores_table (fun t => canonical_rows t /\ values_in_unit t) (snd (fst (fst run))).
Proof.
  intros w run.
  assert (in_unit (learning_rate_slider w)) as Hrate by (split; vm_compute; reflexivity).
  pose proof (small_counts_nearest true) as Hsmall.
  assert (stores_table (fun t => canonical_rows t /\ values_in_unit t)
            (∅ : gmap string (file_content float))) as Hfs.
  { unfold stores_table. by rewrite lookup_empty. }
  split; [exact Hrate|]. split; [exact Hsmall|]. split; [exact Hfs|].
  split; [vm_compute; reflexivity|].
  apply (main_keeps_values_bounded (nearest_env true) demo_generator w None ∅
           (fst (fst (fst run))) (snd (fst (fst run))) (snd (fst run)) (snd run)
           Hrate Hsmall I Hfs).
  change (run = (fst (fst (fst run)), snd (fst (fst run)), snd (fst run), snd run)).
  generalize run. by intros [[[s1 fs1] shown1] o1].
Defined.

(** X21.  Unless it is a reset, a run of [main] from such a session never asks
    for a rerun and leaves the agent, however it ends, with the learning rate
    and the exploration rate of the sliders and with the discount factor it
    had (0.9 in a new session): nothing in the application changes the
    discount factor.  A reset leaves the default agent. *)
Theorem main_binds_rates_to_sliders :
  forall (num : Type) (N : Number num) (env : environment num)
         (generate : Gemini.generator num) (w : widgets num) (st : option (state num))
         (fs : gmap string (file_content num)) (s' : state num)
         (fs' : gmap string (file_content num)) (shown : list notice) (o : outcome),
    match st with Some s => holds_table canonical_rows s | None => True end ->
    stores_table canonical_rows fs ->
    main env generate w st fs = (s', fs', shown, o) ->
    (reset_button w = true ->
     o = RerunRequested /\ agent s' = Some default_agent)
    /\ (reset_button w = false ->
        o <> RerunRequested
        /\ exists ag',
             agent s' = Some ag'
             /\ learning_rate ag' = learning_rate_slider w
             /\ exploration_rate ag' = exploration_rate_slider w
             /\ match st with
                | Some s => exists ag0, agent s = Some ag0
                                        /\ discount_factor ag' = discount_factor ag0
                | None => discount_factor ag' = ratio 9 10
                end).
Proof.
  intros num N env generate w st fs s' fs' shown o Hst Hfs Hrun.
  assert (forall t : gmap string (row num), canonical_rows t -> canonical_rows t) as H1 by auto.
  assert (canonical_rows (∅ : gmap string (row num))) as H2.
  { intros k r Hk. by rewrite lookup_empty in Hk. }
  assert (forall env' q m key docs ag hist fs0 pg (out : session num) res,
            canonical_rows (q_table ag) -> True -> True ->
            user_input env' q m (Some key) docs
              {| rl_agent := Some ag; conversation_history := hist; files := fs0; page := pg |}
            = (out, res) ->
            exists ag', rl_agent out = Some ag' /\ canonical_rows (q_table ag')) as H3.
  { intros env' q m key docs ag hist fs0 pg out res Hc _ _ Hpass.
    destruct (user_input_canonical env' q m key docs ag hist fs0 pg out res Hc Hpass)
      as (ag' & Hag & Hc' & _).
    by exists ag'. }
  destruct (main_invariant canonical_rows (fun _ _ => True) (fun _ _ => True) H1 H2
              (fun _ _ _ _ _ _ => I) H3 env generate w st fs s' fs' shown o
              (fun _ _ => I) I Hst Hfs Hrun) as (_ & _ & _ & Hrates & _).
  split.
  - intros Hreset. unfold main in Hrun. rewrite Hreset in Hrun.
    by injection Hrun as <- <- <- <-.
  - intros Hreset.
    assert (o <> RerunRequested) as Hnot.
    { intros ->. unfold main in Hrun. rewrite Hreset in Hrun.
      destruct (agent _); [|discriminate Hrun].
      destruct (submit_button w && uploaded (file_uploader w)).
      - destruct (extract_text_and_images _) as [[text images]|e]; [|discriminate Hrun].
        cbn [history agent pdf_images asked chat_mode saved] in Hrun.
        destruct (ask _ _ _ _ _) as [[[s1 fs1] shown1] o1] eqn:Hask.
        unfold ask in Hask. cbn [chat_mode question_input] in Hask.
        destruct (String.eqb (question_input w) ""); [injection Hask as <- <- <- <-|].
        + by destruct (show_rl_performance _).
        + destruct (snd (user_input _ _ _ _ _ _)); injection Hask as <- <- <- <-;
            [by destruct (show_rl_performance _)|discriminate Hrun].
      - cbn [history agent pdf_images asked chat_mode saved] in Hrun.
        destruct (ask _ _ _ _ _) as [[[s1 fs1] shown1] o1] eqn:Hask.
        unfold ask in Hask. cbn [chat_mode question_input] in Hask.
        destruct (String.eqb (question_input w) ""); [injection Hask as <- <- <- <-|].
        + by destruct (show_rl_performance _).
        + destruct (snd (user_input _ _ _ _ _ _)); injection Hask as <- <- <- <-;
            [by destruct (show_rl_performance _)|discriminate Hrun]. }
    split; [exact Hnot|].
    destruct (Hrates Hnot) as (ag0 & ag' & Hag0 & Hag' & Hl & He & Hd).
    exists ag'. split_and!; [exact Hag'|exact Hl|exact He|].
    destruct st as [s|].
    + exists ag0. by split.
    + cbn [setup agent] in Hag0. injection Hag0 as <-. rewrite Hd.
      unfold load_model. by destruct (fs !! default_path) as [[|j]|]; [|destruct (table_of_json j)|].
Qed.

Lemma main_binds_rates_to_sliders_witness :
  let w : widgets float := demo_widgets "Hybrid (Auto-detect)" sample_question in
  let run := main (sample_env true) demo_generator w None ∅ in
  stores_table canonical_rows (∅ : gmap string (file_content float))
  /\ (reset_button w = true ->
      snd run = RerunRequested /\ agent (fst (fst (fst run))) = Some default_agent)
  /\ (reset_button w = false ->
      snd run <> RerunRequested
      /\ exists ag',
           agent (fst (fst (fst run))) = Some ag'
           /\ learning_rate ag' = learning_rate_slider w
           /\ exploration_rate ag' = exploration_rate_slider w
           /\ discount_factor ag' = ratio 9 10).
Proof.
  intros w run.
  assert (stores_table canonical_rows (∅ : gmap string (file_content float))) as Hfs.
  { unfold stores_table. by rewrite lookup_empty. }
  split; [exact Hfs|].
  apply (main_binds_rates_to_sliders float _ (sample_env true) demo_generator w None ∅
           (fst (fst (fst run))) (snd (fst (fst run))) (snd (fst run)) (snd run) I Hfs).
  change (run = (fst (fst (fst run)), snd (fst (fst run)), snd (fst run), snd run)).
  generalize run. by intros [[[s1 fs1] shown1] o1].
Defined.

(** X22.  The Reset button ends the run at once, with an empty log, no images
    and a fresh agent of empty table and default rates, and leaves the files
    alone: the model file is not read again.  A later run from that state
    that completes leaves the file as it was, with the table still empty, or
    has answered a question from the documents and overwritten the file with
    a table of the one row of that question: what the file held is lost. *)
Theorem reset_forgets_saved_model :
  forall (num : Type) (N : Number num) (env : environment num)
         (generate : Gemini.generator num) (w : widgets num) (st : option (state num))
         (fs : gmap string (file_content num)),
    reset_button w = true ->
    exists s1,
      main env generate w st fs = (s1, fs, [], RerunRequested)
      /\ history s1 = []
      /\ agent s1 = Some default_agent
      /\ pdf_images s1 = []
      /\ asked s1 = Some None
      /\ forall (env' : environment num) (generate' : Gemini.generator num)
                (w' : widgets num) (s2 : state num) (fs2 : gmap string (file_content num))
                (shown : list notice),
           main env' generate' w' (Some s1) fs = (s2, fs2, shown, Completed) ->
           (fs2 = fs /\ exists ag, agent s2 = Some ag /\ q_table ag = ∅)
           \/ (exists k r ag,
                 agent s2 = Some ag
                 /\ q_table ag = {[k := r]}
                 /\ fs2 = <[default_path := Document (table_to_json (q_table ag))]> fs).
Proof.
  intros num N env generate w st fs Hreset.
  exists (reset (setup st fs)). unfold main at 1. rewrite Hreset.
  split_and!; [reflexivity..|].
  intros env' generate' w' s2 fs2 shown Hrun.
  apply main_completed in Hrun
    as (_ & ag & s0 & s1 & Hbefore & Hs0 & _ & _ & _ & Hask & _ & Hs2).
  assert (ag = default_agent) as ->.
  { destruct (clear_button w'); cbn in Hbefore; congruence. }
  destruct (ask_completed env' generate' w' s0 fs _ s1 fs2 shown Hs0 Hask)
    as [_ [(-> & ag' & Hag' & Htable)|(k & ag1 & a & reward & ag' & Hch & Hup & Hag' & ->)]].
  - left. split; [reflexivity|]. exists ag'. by rewrite Hs2.
  - right.
    pose proof (fun Hq => first_pass_table _ k a _ _ reward ag1 ag' Hq Hch Hup) as Hfirst.
    destruct (Hfirst eq_refl) as [r Hr].
    exists k, r, ag'. by rewrite Hs2.
Qed.

Lemma reset_forgets_saved_model_witness :
  let learned : gmap string (row float) :=
    {[ "0.50-0.50-0.50-0.50-0.50-other" := [("chunk_small", 0.75%float)] ]} in
  let fs : gmap string (file_content float) :=
    {[ default_path := Document (table_to_json learned) ]} in
  let st : state float :=
    {| history := []; agent := Some (set_q_table learned default_agent); pdf_images := [];
       asked := None; chat_mode := None; saved := no_settings |} in
  let w : widgets float := demo_widgets "Hybrid (Auto-detect)" sample_question in
  let w_reset : widgets float :=
    {| api_key_input := "key"; reset_button := true; clear_button := false;
       learning_rate_slider := 0.5%float; exploration_rate_slider := 0.25%float;
       file_uploader := None; submit_button := false; selected_mode := "Hybrid (Auto-detect)";
       question_input := ""; gemini_model_select := ""; temperature_slider := 0.5%float;
       max_tokens_slider := 1024; enable_image_generation_checkbox := false;
       image_size_slider := ""; image_style_select := ""; save_settings_button := false |} in
  reset_button w_reset = true
  /\ exists s1,
       main (sample_env true) demo_generator w_reset (Some st) fs = (s1, fs, [], RerunRequested)
       /\ history s1 = []
       /\ agent s1 = Some default_agent
       /\ pdf_images s1 = []
       /\ asked s1 = Some None
       /\ forall (env' : environment float) (generate' : Gemini.generator float)
                 (w' : widgets float) (s2 : state float)
                 (fs2 : gmap string (file_content float)) (shown : list notice),
            main env' generate' w' (Some s1) fs = (s2, fs2, shown, Completed) ->
            (fs2 = fs /\ exists ag, agent s2 = Some ag /\ q_table ag = ∅)
            \/ (exists k r ag,
                  agent s2 = Some ag
                  /\ q_table ag = {[k := r]}
                  /\ fs2 = <[default_path := Document (table_to_json (q_table ag))]> fs).
Proof.
  intros learned fs st w w_reset. split; [reflexivity|].
  exact (reset_forgets_saved_model float _ (sample_env true) demo_generator w_reset (Some st) fs
           eq_refl).
Defined.

(** X23.  In the chat mode "General Only" a question is always answered
    directly, whatever it says and whatever files are uploaded: the run of the
    question completes, the agent and the files are as before, no document
    name is logged, and the log gains the record of a direct query when the
    generator answers and nothing when it fails. *)
Theorem general_only_never_retrieves :
  forall (num : Type) (N : Number num) (env : environment num)
         (generate : Gemini.generator num) (w : widgets num) (s : state num)
         (fs : gmap string (file_content num)) (ag : RLAgent num) (s' : state num)
         (fs' : gmap string (file_content num)) (shown : list notice) (o : outcome),
    chat_mode s = Some "General Only" ->
    agent s = Some ag ->
    question_input w <> "" ->
    ask env generate w s fs = (s', fs', shown, o) ->
    o = Completed /\ fs' = fs /\ agent s' = Some ag /\ pdf_images s' = pdf_images s
    /\ match Gemini.general_answer generate (saved s) (api_key_input w) (question_input w) with
       | Ok answer =>
           history s'
           = (history s
              ++ [(question_input w, answer, "Direct Google AI", now env, "", "direct_query",
                   "N/A")])%list
       | Raise _ => history s' = history s
       end.
Proof.
  intros num N env generate w s fs ag s' fs' shown o Hmode Hag Hq Hask.
  assert (documents_for "General Only" (file_uploader w) = None) as Hdocs.
  { unfold documents_for. by destruct (uploaded (file_uploader w)). }
  destruct (ask_general env generate w s fs ag "General Only" s' fs' shown o Hag Hmode Hq)
    as (Ho & Hfs & Hag' & Himg & Hhist); [by rewrite Hdocs|exact Hask|].
  rewrite Hdocs in Hhist. by split_and!.
Qed.

Lemma general_only_never_retrieves_witness :
  let w : widgets float := demo_widgets "General Only" "what does the pdf say about revenue" in
  let s : state float :=
    {| history := []; agent := Some default_agent; pdf_images := [];
       asked := None; chat_mode := Some "General Only"; saved := no_settings |} in
  let run := ask (sample_env true) demo_generator w s ∅ in
  question_input w <> ""
  /\ is_pdf_related_question (question_input w) (map as_doc <$> file_uploader w) = true
  /\ snd run = Completed /\ snd (fst (fst run)) = ∅
  /\ agent (fst (fst (fst run))) = Some default_agent
  /\ pdf_images (fst (fst (fst run))) = pdf_images s
  /\ match Gemini.general_answer demo_generator (saved s) (api_key_input w) (question_input w)
     with
     | Ok answer =>
         history (fst (fst (fst run)))
         = (history s
            ++ [(question_input w, answer, "Direct Google AI", now (sample_env true), "",
                 "direct_query", "N/A")])%list
     | Raise _ => history (fst (fst (fst run))) = history s
     end.
Proof.
  intros w s run. split; [discriminate|]. split; [reflexivity|].
  apply (general_only_never_retrieves float _ (sample_env true) demo_generator w s ∅
           default_agent (fst (fst (fst run))) (snd (fst (fst run))) (snd (fst run)) (snd run)
           eq_refl eq_refl); [discriminate|].
  change (run = (fst (fst (fst run)), snd (fst (fst run)), snd (fst run), snd run)).
  generalize run. by intros [[[s1 fs1] shown1] o1].
Defined.

(** X24.  The chat mode "PDF Only" forces nothing: every mode but "General
    Only" hands [user_input] the uploaded files as they are, so a question
    asked in it is processed exactly as in the automatic mode, and one that
    [is_pdf_related_question] takes for a general question is answered
    directly, the agent and the files as before. *)
Theorem pdf_only_is_hybrid :
  forall (num : Type) (N : Number num) (env : environment num)
         (generate : Gemini.generator num) (w : widgets num) (s : state num)
         (fs : gmap string (file_content num)) (mode : string),
    mode <> "General Only" ->
    documents_for mode (file_uploader w) = map as_doc <$> file_uploader w
    /\ ask env generate w (with_mode (Some mode) s) fs
       = (let '(s', fs', shown, o) :=
            ask env generate w (with_mode (Some "Hybrid (Auto-detect)") s) fs in
          (with_mode (Some mode) s', fs', shown, o))
    /\ (forall ag s' fs' shown o,
          agent s = Some ag ->
          question_input w <> "" ->
          is_pdf_related_question (question_input w) (map as_doc <$> file_uploader w) = false ->
          ask env generate w (with_mode (Some mode) s) fs = (s', fs', shown, o) ->
          o = Completed /\ fs' = fs /\ agent s' = Some ag).
Proof.
  intros num N env generate w s fs mode Hmode.
  pose proof (documents_for_hybrid mode (file_uploader w) Hmode) as Hdocs.
  assert (documents_for "Hybrid (Auto-detect)" (file_uploader w)
          = map as_doc <$> file_uploader w) as Hhybrid by (by apply documents_for_hybrid).
  split_and!.
  - exact Hdocs.
  - unfold ask. cbn [chat_mode with_mode agent history saved pdf_images asked].
    destruct (String.eqb (question_input w) ""); [reflexivity|].
    rewrite Hdocs, Hhybrid.
    destruct (user_input _ _ _ _ _ _) as [out [returned|e]]; reflexivity.
  - intros ag s' fs' shown o Hag Hq Hgeneral Hask.
    destruct (ask_general env generate w (with_mode (Some mode) s) fs ag mode s' fs' shown o
                Hag eq_refl Hq) as (Ho & Hfs & Hag' & _); [by rewrite Hdocs|exact Hask|].
    by split_and!.
Qed.

Lemma pdf_only_is_hybrid_witness :
  let w : widgets float := demo_widgets "PDF Only" "hello" in
  let s : state float :=
    {| history := []; agent := Some default_agent; pdf_images := [];
       asked := None; chat_mode := None; saved := no_settings |} in
  "PDF Only" <> "General Only"
  /\ documents_for "PDF Only" (file_uploader w) = map as_doc <$> file_uploader w
  /\ ask (sample_env true) demo_generator w (with_mode (Some "PDF Only") s) ∅
     = (let '(s', fs', shown, o) :=
          ask (sample_env true) demo_generator w (with_mode (Some "Hybrid (Auto-detect)") s) ∅ in
        (with_mode (Some "PDF Only") s', fs', shown, o))
  /\ (forall ag s' fs' shown o,
        agent s = Some ag ->
        question_input w <> "" ->
        is_pdf_related_question (question_input w) (map as_doc <$> file_uploader w) = false ->
        ask (sample_env true) demo_generator w (with_mode (Some "PDF Only") s) ∅
        = (s', fs', shown, o) ->
        o = Completed /\ fs' = ∅ /\ agent s' = Some ag).
Proof.
  intros w s.
  assert ("PDF Only" <> "General Only") as Hmode by discriminate.
  split; [exact Hmode|].
  exact (pdf_only_is_hybrid float _ (sample_env true) demo_generator w s ∅ "PDF Only" Hmode).
Defined.

(** X25.  The Rerun button: in a run that completes, when a question was
    asked before in the session (or the session was reset) the last record of
    the log, if there is one, is dropped and at most the record of the
    question in the input is added in its place; when none was, the log is
    kept and at most that record is added. *)
Theorem rerun_replaces_last_record :
  forall (num : Type) (N : Number num) (env : environment num)
         (generate : Gemini.generator num) (w : widgets num) (s : state num)
         (fs : gmap string (file_content num)) (s' : state num)
         (fs' : gmap string (file_content num)) (shown : list notice),
    clear_button w = true ->
    main env generate w (Some s) fs = (s', fs', shown, Completed) ->
    match asked s with
    | Some _ =>
        history s' = removelast (history s)
        \/ exists answer model time names action reward,
             history s'
             = (removelast (history s)
                ++ [(question_input w, answer, model, time, names, action, reward)])%list
    | None =>
        history s' = history s
        \/ exists answer model time names action reward,
             history s'
             = (history s
                ++ [(question_input w, answer, model, time, names, action, reward)])%list
    end.
Proof.
  intros num N env generate w s fs s' fs' shown Hclear Hrun.
  apply main_completed in Hrun
    as (_ & ag & s0 & s1 & Hbefore & Hs0 & Hhist0 & _ & _ & Hask & Hs' & _).
  rewrite Hclear in Hbefore, Hhist0. cbn [setup] in Hbefore, Hhist0.
  destruct (ask_completed env generate w s0 fs _ s1 fs' shown Hs0 Hask) as [Hhist _].
  rewrite Hs'. rewrite Hhist0 in Hhist. unfold discard_last in Hhist.
  destruct (asked s); exact Hhist.
Qed.

Lemma rerun_replaces_last_record_witness :
  let old : record :=
    ("hello", "Hi!", "Direct Google AI", "2023-12-31 23:59:59", "", "direct_query", "N/A") in
  let s : state float :=
    {| history := [old]; agent := Some default_agent; pdf_images := [];
       asked := Some (Some ""); chat_mode := Some "General Only"; saved := no_settings |} in
  let w : widgets float :=
    {| api_key_input := "key"; reset_button := false; clear_button := true;
       learning_rate_slider := 0.5%float; exploration_rate_slider := 0.25%float;
       file_uploader := None; submit_button := false; selected_mode := "General Only";
       question_input := "hello"; gemini_model_select := ""; temperature_slider := 0.5%float;
       max_tokens_slider := 1024; enable_image_generation_checkbox := false;
       image_size_slider := ""; image_style_select := ""; save_settings_button := false |} in
  let run := main (sample_env true) demo_generator w (Some s) ∅ in
  clear_button w = true
  /\ snd run = Completed
  /\ history (fst (fst (fst run)))
     = [("hello", "Answer to: hello", "Direct Google AI", "2024-01-01 00:00:00", "",
         "direct_query", "N/A")]
  /\ (history (fst (fst (fst run))) = removelast (history s)
      \/ exists answer model time names action reward,
           history (fst (fst (fst run)))
           = (removelast (history s)
              ++ [(question_input w, answer, model, time, names, action, reward)])%list).
Proof.
  intros old s w run.
  assert (snd run = Completed) as Hdone by (vm_compute; reflexivity).
  split; [reflexivity|]. split; [exact Hdone|]. split; [vm_compute; reflexivity|].
  apply (rerun_replaces_last_record float _ (sample_env true) demo_generator w s ∅
           (fst (fst (fst run))) (snd (fst (fst run))) (snd (fst run)) eq_refl).
  rewrite <- Hdone.
  change (run = (fst (fst (fst run)), snd (fst (fst run)), snd (fst run), snd run)).
  generalize run. by intros [[[s1 fs1] shown1] o1].
Defined.
